(** * qbjc: a QBasic to JavaScript compiler

    A shallow embedding of the parts of qbjc that its specification makes
    claims about: the type specs and the numeric coercion table of the
    semantic analyzer, symbol lookup and variable resolution, the lexer's
    white space handling, the code generator's FOR/NEXT and unary operator
    lowering, and the runtime's PRINT, INPUT and built-in lookup.

    JavaScript strings are modelled as [string] whose characters are read as
    code units 0..255; JavaScript exceptions as the [Throw] case of [Result];
    mutable object state (analyzer, code generator, platform) by explicit
    state passing. The definitions come first, the properties after them. *)

From Stdlib Require Import Bool Arith ZArith List Ascii String Lia Permutation.
From Stdlib Require Import Numbers.DecimalString.
Import ListNotations.

Set Warnings "-register-all".

Local Open Scope string_scope.
Local Open Scope list_scope.

(** String concatenation, JavaScript's [+] on strings. *)
Infix "+++" := String.append (at level 60, right associativity).

(** ** Exceptions and fallible computations *)

(** Source position carried by AST nodes ([node.loc]). *)
Record Loc : Type := mkLoc { line : nat; col : nat }.

(** What a [throw] carries: a plain JavaScript [Error], the errors raised by
    the passes through [throwError], and the engine's own [TypeError] and
    [RangeError], whose messages depend on the engine. [OutOfFuel] is no
    exception of the program: it marks that a loop of the model reached the
    bound it was run with. *)
Inductive Exn : Type :=
| Error (message : string)
| SemanticError (message : string) (loc : Loc)
| CodegenError (message : string) (loc : Loc)
| TypeError
| RangeError
| OutOfFuel.

Inductive Result (A : Type) : Type :=
| Ok (a : A)
| Throw (e : Exn).

Arguments Ok {A} a.
Arguments Throw {A} e.

Definition bind {A B : Type} (m : Result A) (k : A -> Result B) : Result B :=
  match m with
  | Ok a => k a
  | Throw e => Throw e
  end.

Notation "x <- m ;; k" := (bind m (fun x => k))
  (at level 61, m at next level, right associativity).
Notation "m ;;; k" := (bind m (fun _ => k))
  (at level 61, right associativity).

(** ** Strings *)

Module Str.

(** [c.repeat(n)] for a one-character string [c]. *)
Fixpoint repeat (c : ascii) (n : nat) : string :=
  match n with
  | O => ""
  | S n' => String c (repeat c n')
  end.

(** Decimal rendering of an index or position, as a template literal does
    for a non-negative integer. *)
Definition ofNat (n : nat) : string :=
  NilZero.string_of_uint (Nat.to_uint n).

(** Code unit of a character. *)
Definition code (c : ascii) : nat := nat_of_ascii c.

(** [String.prototype.toLowerCase] on code units 0..255: A-Z, and the
    Latin-1 capitals 192..222 except the multiplication sign 215. *)
Definition lowerChar (c : ascii) : ascii :=
  let n := code c in
  if (((65 <=? n) && (n <=? 90))
      || ((192 <=? n) && (n <=? 222) && negb (n =? 215)))%nat
  then ascii_of_nat (n + 32)
  else c.

Fixpoint toLowerCase (s : string) : string :=
  match s with
  | EmptyString => EmptyString
  | String c s' => String (lowerChar c) (toLowerCase s')
  end.

(** The last character of a string, [name[name.length - 1]]; [None] stands
    for [undefined] on the empty string. *)
Fixpoint last (s : string) : option ascii :=
  match s with
  | EmptyString => None
  | String c EmptyString => Some c
  | String _ s' => last s'
  end.


(** Every character of [s] satisfies [p]. *)
Fixpoint all (p : ascii -> bool) (s : string) : bool :=
  match s with
  | EmptyString => true
  | String c s' => p c && all p s'
  end.

End Str.

(** ** Type specs (lib/types) *)

Module Types.

(** Modelled from the spec: lib/types is not among the sources. A type
    spec is one of the five elementary tags or an array of an element type
    with a list of (lower, upper) dimension bounds. *)
Inductive DataTypeSpec : Type :=
| integerSpec
| longSpec
| singleSpec
| doubleSpec
| stringSpec
| arraySpec (elementTypeSpec : DataTypeSpec) (dimensionSpecs : list (Z * Z)).

Fixpoint dimsEqb (a b : list (Z * Z)) : bool :=
  match a, b with
  | [], [] => true
  | (l1, u1) :: a', (l2, u2) :: b' => Z.eqb l1 l2 && Z.eqb u1 u2 && dimsEqb a' b'
  | _, _ => false
  end.

(** Structural equality of type specs, lodash's [_.isEqual]. *)
Fixpoint isEqual (a b : DataTypeSpec) : bool :=
  match a, b with
  | integerSpec, integerSpec => true
  | longSpec, longSpec => true
  | singleSpec, singleSpec => true
  | doubleSpec, doubleSpec => true
  | stringSpec, stringSpec => true
  | arraySpec e1 d1, arraySpec e2 d2 => isEqual e1 e2 && dimsEqb d1 d2
  | _, _ => false
  end.

(** Modelled from the spec: the four numeric tags. *)
Definition isNumeric1 (t : DataTypeSpec) : bool :=
  match t with
  | integerSpec | longSpec | singleSpec | doubleSpec => true
  | _ => false
  end.

(** Modelled from the spec: the String tag. *)
Definition isString1 (t : DataTypeSpec) : bool :=
  match t with
  | stringSpec => true
  | _ => false
  end.

(** Modelled from the spec: [isNumeric(...t)] holds when every argument
    carries one of the four numeric tags. *)
Definition isNumeric (t : list DataTypeSpec) : bool := forallb isNumeric1 t.

(** Modelled from the spec: [isString(...t)], every argument is a string. *)
Definition isString (t : list DataTypeSpec) : bool := forallb isString1 t.

(** Modelled from the spec: any non-array type spec is elementary. *)
Definition isElementaryType (t : DataTypeSpec) : bool :=
  match t with
  | arraySpec _ _ => false
  | _ => true
  end.

(** Modelled from the spec: the Array tag. *)
Definition isArray (t : DataTypeSpec) : bool :=
  match t with
  | arraySpec _ _ => true
  | _ => false
  end.

(** Modelled from the spec: both numeric or both string. *)
Definition areMatchingElementaryTypes (a b : DataTypeSpec) : bool :=
  (isNumeric1 a && isNumeric1 b) || (isString1 a && isString1 b).

(** Modelled from the spec: the tag of a type spec, [typeSpec.type], which
    the passes interpolate into their error messages. *)
Definition typeTag (t : DataTypeSpec) : string :=
  match t with
  | integerSpec => "integer"
  | longSpec => "long"
  | singleSpec => "single"
  | doubleSpec => "double"
  | stringSpec => "string"
  | arraySpec _ _ => "array"
  end.

End Types.
Export Types.

(** ** Numeric coercion (SemanticAnalyzer.coerceNumericTypes) *)

Module Coercion.

Record Rule : Type := mkRule {
  operands : DataTypeSpec * DataTypeSpec;
  result : DataTypeSpec
}.

Definition RULES : list Rule := [
  mkRule (integerSpec, integerSpec) integerSpec;
  mkRule (integerSpec, longSpec) longSpec;
  mkRule (integerSpec, singleSpec) singleSpec;
  mkRule (integerSpec, doubleSpec) doubleSpec;
  mkRule (longSpec, integerSpec) longSpec;
  mkRule (longSpec, longSpec) longSpec;
  mkRule (longSpec, singleSpec) singleSpec;
  mkRule (longSpec, doubleSpec) doubleSpec;
  mkRule (singleSpec, integerSpec) singleSpec;
  mkRule (singleSpec, longSpec) singleSpec;
  mkRule (singleSpec, singleSpec) singleSpec;
  mkRule (singleSpec, doubleSpec) doubleSpec;
  mkRule (doubleSpec, integerSpec) doubleSpec;
  mkRule (doubleSpec, longSpec) doubleSpec;
  mkRule (doubleSpec, singleSpec) doubleSpec;
  mkRule (doubleSpec, doubleSpec) doubleSpec
].

(** The body of the [for] loop: one step of the left fold over [t[1..]]. *)
Definition coerceStep (resultTypeSpec ti : DataTypeSpec) : Result DataTypeSpec :=
  match find (fun r => isEqual (fst (operands r)) resultTypeSpec
                       && isEqual (snd (operands r)) ti) RULES with
  | Some matchingRule => Ok (result matchingRule)
  | None => Throw (Error ("Unknown numeric type combination: "
                          +++ typeTag resultTypeSpec +++ " and " +++ typeTag ti))
  end.

Fixpoint coerceLoop (resultTypeSpec : DataTypeSpec) (rest : list DataTypeSpec)
  : Result DataTypeSpec :=
  match rest with
  | [] => Ok resultTypeSpec
  | ti :: rest' =>
      r <- coerceStep resultTypeSpec ti ;;
      coerceLoop r rest'
  end.

Definition coerceNumericTypes (t : list DataTypeSpec) : Result DataTypeSpec :=
  match t with
  | [] => Throw (Error "Missing arguments")
  | t0 :: rest =>
      if negb (isNumeric t) then Throw (Error "Expected numeric types")
      else coerceLoop t0 rest
  end.

(** The spec's ordering Integer < Long < Single < Double. *)
Definition rank (t : DataTypeSpec) : nat :=
  match t with
  | integerSpec => 0
  | longSpec => 1
  | singleSpec => 2
  | doubleSpec => 3
  | _ => 0
  end.

(** The wider of two numeric types by [rank]. *)
Definition wider (a b : DataTypeSpec) : DataTypeSpec :=
  if (rank a <=? rank b)%nat then b else a.

End Coercion.

(** ** The moo tokenizer (library), as far as qbjc's two lexers use it *)

Module Moo.

(** A compiled rule: its name (the token's default type), a matcher for its
    pattern at the head of the remaining input, giving the matched text and
    the rest, whether it counts line breaks, and the optional [type] and
    [value] transforms. [None] from a [type] transform is [undefined]. *)
Record Rule : Type := mkRule {
  defaultType : string;
  matcher : string -> option (string * string);
  lineBreaks : bool;
  typeFn : option (string -> option string);
  valueFn : option (string -> string)
}.

Record Token : Type := mkToken {
  type : string;
  value : string;
  text : string;
  offset : nat;
  tokLineBreaks : nat;
  tokLine : nat;
  tokCol : nat
}.

(** The lexer object's mutable fields; [buffer] holds the input from [index]
    on. *)
Record Lexer : Type := mkLexer {
  buffer : string;
  index : nat;
  lexLine : nat;
  lexCol : nat
}.

(** [lexer.reset(data)] *)
Definition reset (data : string) : Lexer := mkLexer data 0 1 1.

(** White space as the regular expression class [\s] has it, on code units
    0..255: tab, line feed, vertical tab, form feed, carriage return, space
    and the no-break space. *)
Definition isSpace (c : ascii) : bool :=
  let n := Str.code c in
  ((9 <=? n) && (n <=? 13) || (n =? 32) || (n =? 160))%nat.

Definition isNewline (c : ascii) : bool := (Str.code c =? 10)%nat.

Definition isDigit (c : ascii) : bool :=
  let n := Str.code c in ((48 <=? n) && (n <=? 57))%nat.

Definition isAlpha_ (c : ascii) : bool :=
  let n := Str.code c in
  ((65 <=? n) && (n <=? 90) || (97 <=? n) && (n <=? 122) || (n =? 95))%nat.

(** The longest prefix whose characters satisfy [p], and the rest: a greedy
    starred character class. *)
Fixpoint span (p : ascii -> bool) (s : string) : string * string :=
  match s with
  | EmptyString => (EmptyString, EmptyString)
  | String c s' =>
      if p c then let (a, b) := span p s' in (String c a, b)
      else (EmptyString, s)
  end.

(** A plussed character class, [[...]+]. *)
Definition plus (p : ascii -> bool) (s : string) : option (string * string) :=
  match span p s with
  | (EmptyString, _) => None
  | (m, rest) => Some (m, rest)
  end.

(** A literal pattern. *)
Fixpoint literal (lit s : string) : option (string * string) :=
  match lit with
  | EmptyString => Some (EmptyString, s)
  | String c lit' =>
      match s with
      | String d s' =>
          if Ascii.eqb c d then
            match literal lit' s' with
            | Some (m, rest) => Some (String d m, rest)
            | None => None
            end
          else None
      | EmptyString => None
      end
  end.

(** The double quote character. *)
Definition DQ : ascii := ascii_of_nat 34.

(** A double-quoted run without a double quote inside: an opening quote, any
    characters but the quote, a closing quote. *)
Definition quoted (s : string) : option (string * string) :=
  match s with
  | String c s' =>
      if Ascii.eqb c DQ then
        match span (fun d => negb (Ascii.eqb d DQ)) s' with
        | (body, String d rest) => Some (String c (body +++ String d EmptyString), rest)
        | (_, EmptyString) => None
        end
      else None
  | EmptyString => None
  end.

(** [text.substr(1, text.length - 2)], the value transform of both quoted
    string rules. *)
Definition stripQuotes (text : string) : string :=
  String.substring 1 (String.length text - 2) text.

(** The first rule, in declaration order, whose pattern matches at the head
    of the input: the alternation moo compiles the rules into. *)
Fixpoint firstMatch (rules : list Rule) (s : string)
  : option (Rule * string * string) :=
  match rules with
  | [] => None
  | r :: rules' =>
      match matcher r s with
      | Some (m, rest) => Some (r, m, rest)
      | None => firstMatch rules' s
      end
  end.

Fixpoint countNewlines (s : string) : nat :=
  match s with
  | EmptyString => 0
  | String c s' => (if isNewline c then 1 else 0) + countNewlines s'
  end.

(** One past the position of the last line feed of [s], [matchNL.lastIndex]
    after the counting loop; 1 when there is none. *)
Fixpoint lastNewlineIndex (s : string) (pos nl : nat) : nat :=
  match s with
  | EmptyString => nl
  | String c s' =>
      lastNewlineIndex s' (S pos) (if isNewline c then S pos else nl)
  end.

(** [lexer._token(group, text, offset)]: builds the token and advances the
    lexer. A falsy result of the [type] transform falls back to the rule's
    name. *)
Definition makeToken (group : Rule) (txt rest : string) (lx : Lexer)
  : Token * Lexer :=
  let lb := if lineBreaks group then countNewlines txt else 0 in
  let nl := if lineBreaks group then lastNewlineIndex txt 0 1 else 1 in
  let ty :=
    match typeFn group with
    | Some f =>
        match f txt with
        | Some t => if String.eqb t "" then defaultType group else t
        | None => defaultType group
        end
    | None => defaultType group
    end in
  let v := match valueFn group with Some f => f txt | None => txt end in
  let size := String.length txt in
  (mkToken ty v txt (index lx) lb (lexLine lx) (lexCol lx),
   mkLexer rest (index lx + size) (lexLine lx + lb)
     (if (lb =? 0)%nat then lexCol lx + size else size - nl + 1)).

(** [lexer.next()]: [Ok None] is [undefined] at the end of the input; with
    no error rule, input that no rule matches throws. A pattern that could
    match the empty string is refused when the lexer is compiled, so a match
    is never empty. *)
Definition next (rules : list Rule) (lx : Lexer) : Result (option (Token * Lexer)) :=
  match buffer lx with
  | EmptyString => Ok None
  | _ =>
      match firstMatch rules (buffer lx) with
      | Some (group, String c m, rest) =>
          Ok (Some (makeToken group (String c m) rest lx))
      | _ => Throw (Error "invalid syntax")
      end
  end.

End Moo.

(** ** Symbol tables (lib/symbol-table) *)

Module SymbolTable.

(** Modelled from the spec: the kind of a symbol. *)
Inductive VarType : Type := VAR | ARG | CONST.

(** Modelled from the spec: the scope a symbol resolves in. *)
Inductive VarScope : Type := LOCAL | GLOBAL.

(** Modelled from the spec: a symbol, its name, kind and type. *)
Record VarSymbol : Type := mkVarSymbol {
  name : string;
  type : VarType;
  typeSpec : DataTypeSpec
}.

(** Names are compared case-insensitively. *)
Definition sameName (a b : string) : bool :=
  String.eqb (Str.toLowerCase a) (Str.toLowerCase b).

(** Modelled from the spec: lib/symbol-table is not among the sources. A
    symbol table is an insertion-ordered list of named entries;
    [lookupSymbol] gives the first entry whose name equals [name] up to
    case, or [None] for [null]. *)
Definition lookupSymbol {T : Type} (nameOf : T -> string)
  (symbolTable : list T) (name : string) : option T :=
  find (fun symbol => sameName (nameOf symbol) name) symbolTable.

(** Modelled from the spec: [lookupSymbols] gives every entry whose name
    equals [name] up to case, in table order. *)
Definition lookupSymbols {T : Type} (nameOf : T -> string)
  (symbolTable : list T) (name : string) : list T :=
  filter (fun symbol => sameName (nameOf symbol) name) symbolTable.

End SymbolTable.

(** ** The runtime (runtime/runtime.ts) *)

Module Runtime.

Import SymbolTable.

(** Built-in function definition; the [run] closure, which lookup never
    reads, is left out. *)
Record BuiltinFn : Type := mkBuiltinFn {
  fnName : string;
  paramTypeSpecs : list DataTypeSpec;
  returnTypeSpec : DataTypeSpec
}.

Definition BUILTIN_FNS : list BuiltinFn := [
  mkBuiltinFn "chr$" [longSpec] stringSpec;
  mkBuiltinFn "instr" [stringSpec; stringSpec] integerSpec;
  mkBuiltinFn "instr" [longSpec; stringSpec; stringSpec] integerSpec;
  mkBuiltinFn "lbound" [arraySpec doubleSpec []] longSpec;
  mkBuiltinFn "lbound" [arraySpec doubleSpec []; longSpec] longSpec;
  mkBuiltinFn "lcase$" [stringSpec] stringSpec;
  mkBuiltinFn "left$" [stringSpec; longSpec] stringSpec;
  mkBuiltinFn "len" [stringSpec] longSpec;
  mkBuiltinFn "mid$" [stringSpec; longSpec; longSpec] stringSpec;
  mkBuiltinFn "right$" [stringSpec; longSpec] stringSpec;
  mkBuiltinFn "str$" [doubleSpec] stringSpec;
  mkBuiltinFn "val" [stringSpec] doubleSpec;
  mkBuiltinFn "ubound" [arraySpec doubleSpec []] longSpec;
  mkBuiltinFn "ubound" [arraySpec doubleSpec []; longSpec] longSpec;
  mkBuiltinFn "ucase$" [stringSpec] stringSpec
].

(** [paramTypeSpecs.every((paramTypeSpec, i) => ...)] against
    [argTypeSpecs[i]], from index [i] on. The caller has checked that the two
    lists have one length, so the index is in range. *)
Fixpoint everyParamMatches (params : list DataTypeSpec) (i : nat)
  (argTypeSpecs : list DataTypeSpec) : bool :=
  match params with
  | [] => true
  | paramTypeSpec :: params' =>
      match nth_error argTypeSpecs i with
      | Some argTypeSpec =>
          (areMatchingElementaryTypes paramTypeSpec argTypeSpec
           || (isArray paramTypeSpec && isArray argTypeSpec))
          && everyParamMatches params' (S i) argTypeSpecs
      | None => false
      end
  end.

Definition overloadMatches (argTypeSpecs : list DataTypeSpec) (f : BuiltinFn)
  : bool :=
  (List.length (paramTypeSpecs f) =? List.length argTypeSpecs)%nat
  && everyParamMatches (paramTypeSpecs f) 0 argTypeSpecs.

(** [None] is [null]; an absent [shouldReturnIfArgTypeMismatch] is [false]. *)
Definition lookupBuiltinFn (name : string) (argTypeSpecs : list DataTypeSpec)
  (shouldReturnIfArgTypeMismatch : bool) : option BuiltinFn :=
  let builtinFnsMatchingName := lookupSymbols fnName BUILTIN_FNS name in
  let builtinFn := find (overloadMatches argTypeSpecs) builtinFnsMatchingName in
  match builtinFn with
  | Some f => Some f
  | None =>
      if shouldReturnIfArgTypeMismatch
         && (0 <? List.length builtinFnsMatchingName)%nat
      then nth_error builtinFnsMatchingName 0
      else None
  end.

(** What the runtime asks of the platform: [print] appends to the output,
    [inputLine] takes the next line the user enters. *)
Record RuntimePlatform : Type := mkPlatform {
  stdout : list string;
  stdin : list string
}.

Definition platformPrint (s : string) (p : RuntimePlatform) : RuntimePlatform :=
  mkPlatform (stdout p ++ [s]) (stdin p).

(** The line feed character and the one-character string of it. *)
Definition LF : ascii := ascii_of_nat 10.

Definition NL : string := String LF EmptyString.

Definition PRINT_ZONE_LENGTH : nat := 14.

Section Numbers.

(** JavaScript numbers, with the three operations the runtime applies to
    them: the comparison [n >= 0], the rendering of a template literal, and
    [parseFloat] with [isNaN]. *)
Variable num : Type.
Variable geZero : num -> bool.
Variable numToString : num -> string.
Variable parseFloat : string -> num.
Variable isNaN : num -> bool.

(** The value of a print argument or of an input result: a string, a
    number, or something else; [json] is then the JSON text of the whole
    argument. *)
Inductive Value : Type :=
| VString (s : string)
| VNumber (n : num)
| VOther (json : string).

Inductive PrintArg : Type :=
| SEMICOLON
| COMMA
| VALUE (value : Value).

(** The body of the [for] loop of [print]: what one argument does to the
    line built so far. *)
Definition printArg (line : string) (arg : PrintArg) : Result string :=
  match arg with
  | SEMICOLON => Ok line
  | COMMA =>
      let numPaddingChars :=
        PRINT_ZONE_LENGTH - (String.length line mod PRINT_ZONE_LENGTH) in
      Ok (line +++ Str.repeat " " numPaddingChars)
  | VALUE (VString s) => Ok (line +++ s)
  | VALUE (VNumber n) =>
      Ok (line +++ ((if geZero n then " " else "") +++ numToString n +++ " "))
  | VALUE (VOther json) =>
      Throw (Error ("Unknown print arg: '" +++ json +++ "'"))
  end.

Fixpoint printLoop (line : string) (args : list PrintArg) : Result string :=
  match args with
  | [] => Ok line
  | arg :: args' =>
      line' <- printArg line arg ;;
      printLoop line' args'
  end.

Definition isValueArg (arg : PrintArg) : bool :=
  match arg with
  | VALUE _ => true
  | _ => false
  end.

(** [args[args.length - 1].type === PrintArgType.VALUE], for a non-empty
    [args]. *)
Definition lastIsValue (args : list PrintArg) : bool :=
  match nth_error args (List.length args - 1) with
  | Some arg => isValueArg arg
  | None => false
  end.

Definition print (args : list PrintArg) (p : RuntimePlatform)
  : Result RuntimePlatform :=
  line <- printLoop "" args ;;
  let line' :=
    if (List.length args =? 0)%nat || lastIsValue args then line +++ NL else line in
  Ok (platformPrint line' p).

(** Lexer for [input()]. Rules in declaration order: white space, a quoted
    string (typed STRING, quotes stripped), a comma, and a run of characters
    that are neither comma nor white space. *)
Definition inputLexer : list Moo.Rule := [
  Moo.mkRule "WHITESPACE" (Moo.plus Moo.isSpace) true None None;
  Moo.mkRule "QUOTED_STRING" Moo.quoted false
    (Some (fun _ => Some "STRING")) (Some Moo.stripQuotes);
  Moo.mkRule "COMMA" (Moo.literal ",") false None None;
  Moo.mkRule "STRING"
    (Moo.plus (fun c => negb (Ascii.eqb c ",") && negb (Moo.isSpace c)))
    false None None
].

Definition trimStart (s : string) : string := snd (Moo.span Moo.isSpace s).

Fixpoint trimEnd (s : string) : string :=
  match s with
  | EmptyString => EmptyString
  | String c s' =>
      let t := trimEnd s' in
      if Moo.isSpace c && String.eqb t "" then EmptyString else String c t
  end.

(** [String.prototype.trim] *)
Definition trim (s : string) : string := trimEnd (trimStart s).

(** The loop of [lexInput]: tokens are taken until the lexer gives
    [undefined], white space tokens are dropped. Every token consumes at least
    one character, so [fuel] above the length of the remaining input is never
    used up. *)
Fixpoint lexInputLoop (fuel : nat) (lx : Moo.Lexer) (tokens : list Moo.Token)
  : Result (list Moo.Token) :=
  match fuel with
  | O => Throw OutOfFuel
  | S fuel' =>
      r <- Moo.next inputLexer lx ;;
      match r with
      | None => Ok tokens
      | Some (token, lx') =>
          lexInputLoop fuel' lx'
            (if negb (String.eqb (Moo.type token) "WHITESPACE")
             then tokens ++ [token] else tokens)
      end
  end.

Definition lexInput (line : string) : Result (list Moo.Token) :=
  let lx := Moo.reset (trim line) in
  lexInputLoop (S (String.length (Moo.buffer lx))) lx [].

(** The variables of one pass over a line in [input]. *)
Record InputState : Type := mkInputState {
  tokenIdx : nat;
  results : list Value;
  errorMessage : option string
}.

(** How an iteration of the inner [for] loop ends: it goes on to the next
    result type, or leaves the loop by [break]. *)
Inductive LoopControl : Type :=
| Continue (st : InputState)
| Break (st : InputState).

(** [tokenIdx < tokens.length && tokens[tokenIdx].type === ty] *)
Definition tokenTypeAt (tokens : list Moo.Token) (i : nat) (ty : string) : bool :=
  match nth_error tokens i with
  | Some token => String.eqb (Moo.type token) ty
  | None => false
  end.

(** The body of the inner [for] loop of [input], for the result type at
    index [resultIdx]. *)
Definition inputValue (tokens : list Moo.Token) (resultType : DataTypeSpec)
  (resultIdx : nat) (st : InputState) : Result LoopControl :=
  let errorMessagePrefix :=
    "Error parsing value " +++ Str.ofNat (resultIdx + 1) +++ ": " in
  let afterComma :=
    if (0 <? resultIdx)%nat then
      if tokenTypeAt tokens (tokenIdx st) "COMMA" then Some (S (tokenIdx st))
      else None
    else Some (tokenIdx st) in
  match afterComma with
  | None =>
      Ok (Break (mkInputState (tokenIdx st) (results st)
                   (Some (errorMessagePrefix +++ "Comma expected"))))
  | Some idx =>
      match nth_error tokens idx with
      | Some token =>
          if String.eqb (Moo.type token) "STRING" then
            let tokenValue := Moo.value token in
            if isString [resultType] then
              Ok (Continue (mkInputState (S idx)
                              (results st ++ [VString tokenValue])
                              (errorMessage st)))
            else if isNumeric [resultType] then
              let numericValue := parseFloat tokenValue in
              if isNaN numericValue then
                Ok (Break (mkInputState idx (results st)
                             (Some (errorMessagePrefix
                                    +++ "Invalid numeric value "
                                    +++ String Moo.DQ tokenValue
                                    +++ String Moo.DQ EmptyString))))
              else
                Ok (Continue (mkInputState (S idx)
                                (results st ++ [VNumber numericValue])
                                (errorMessage st)))
            else
              Throw (Error ("Unexpected result type " +++ typeTag resultType))
          else
            Ok (Break (mkInputState idx (results st)
                         (Some (errorMessagePrefix +++ "No value provided"))))
      | None =>
          Ok (Break (mkInputState idx (results st)
                       (Some (errorMessagePrefix +++ "No value provided"))))
      end
  end.

(** The inner [for] loop over the result types from index [resultIdx] on. *)
Fixpoint inputValues (tokens : list Moo.Token) (resultTypes : list DataTypeSpec)
  (resultIdx : nat) (st : InputState) : Result InputState :=
  match resultTypes with
  | [] => Ok st
  | resultType :: resultTypes' =>
      c <- inputValue tokens resultType resultIdx st ;;
      match c with
      | Continue st' => inputValues tokens resultTypes' (S resultIdx) st'
      | Break st' => Ok st'
      end
  end.

(** How a call of [input] stands when the entered lines are used up: it has
    returned its results, it waits in [inputLine] for a line, or it has
    thrown. *)
Inductive InputOutcome : Type :=
| Returned (results : list Value) (p : RuntimePlatform)
| Awaiting (p : RuntimePlatform)
| Threw (e : Exn) (p : RuntimePlatform).

Definition redoMessage (errorMessage : option string) : string :=
  NL +++ (match errorMessage with
          | Some m => m +++ NL
          | None => ""
          end) +++ "Redo from start" +++ NL.

(** The outer [for (;;)] loop of [input], one iteration per entered line;
    [out] is what has been printed so far. *)
Fixpoint inputLoop (prompt : string) (resultTypes : list DataTypeSpec)
  (lines : list string) (out : list string) : InputOutcome :=
  let out1 := out ++ [prompt] in
  match lines with
  | [] => Awaiting (mkPlatform out1 [])
  | line :: lines' =>
      match lexInput line with
      | Throw e => Threw e (mkPlatform out1 lines')
      | Ok tokens =>
          match inputValues tokens resultTypes 0 (mkInputState 0 [] None) with
          | Throw e => Threw e (mkPlatform out1 lines')
          | Ok st =>
              if (List.length (results st) =? List.length resultTypes)%nat then
                Returned (results st) (mkPlatform out1 lines')
              else if (List.length (results st) <? List.length resultTypes)%nat then
                inputLoop prompt resultTypes lines'
                  (out1 ++ [redoMessage (errorMessage st)])
              else
                Threw (Error ("Too many results: expected "
                              +++ Str.ofNat (List.length resultTypes) +++ ", got "
                              +++ Str.ofNat (List.length (results st))))
                  (mkPlatform out1 lines')
          end
      end
  end.

Definition input (prompt : string) (resultTypes : list DataTypeSpec)
  (p : RuntimePlatform) : InputOutcome :=
  inputLoop prompt resultTypes (stdin p) (stdout p).

(** *** The rules of PRINT and INPUT as the specification words them *)

(** The column at which the print zone after column [col] starts. *)
Definition nextPrintZone (col : nat) : nat :=
  PRINT_ZONE_LENGTH * (col / PRINT_ZONE_LENGTH + 1).

(** What one argument contributes to a line that is [col] characters long:
    a number with its sign column and trailing space, a string as it is, a
    comma the spaces up to the next print zone, a semicolon nothing. *)
Definition contribution (col : nat) (arg : PrintArg) : string :=
  match arg with
  | VALUE (VNumber n) =>
      (if geZero n then " " else "") +++ numToString n +++ " "
  | VALUE (VString s) => s
  | VALUE (VOther _) => ""
  | COMMA => Str.repeat " " (nextPrintZone col - col)
  | SEMICOLON => ""
  end.

Fixpoint rendering (col : nat) (args : list PrintArg) : string :=
  match args with
  | [] => ""
  | arg :: args' =>
      let c := contribution col arg in
      c +++ rendering (col + String.length c) args'
  end.

(** The argument list is empty or its last argument is a value. *)
Definition newlineDue (args : list PrintArg) : bool :=
  match args with
  | [] => true
  | _ => isValueArg (List.last args SEMICOLON)
  end.

(** Every value argument holds a string or a number. *)
Definition printable (args : list PrintArg) : bool :=
  forallb (fun arg => match arg with VALUE (VOther _) => false | _ => true end)
    args.

(** A field's text is a well-typed value for [t]: any text for a string,
    a text that [parseFloat] does not turn into NaN for a numeric type. *)
Definition fieldFits (t : DataTypeSpec) (field : string) : bool :=
  isString1 t || (isNumeric1 t && negb (isNaN (parseFloat field))).

(** The tokens begin with one fitting field per requested type, a comma
    before every field but the first ([first] tells whether the next field is
    the first). Tokens after the last requested field are not looked at. *)
Fixpoint leadingFields (first : bool) (tokens : list Moo.Token)
  (types : list DataTypeSpec) : bool :=
  match types with
  | [] => true
  | t :: types' =>
      let afterComma :=
        if first then Some tokens
        else match tokens with
             | c :: rest =>
                 if String.eqb (Moo.type c) "COMMA" then Some rest else None
             | [] => None
             end in
      match afterComma with
      | Some (v :: rest) =>
          String.eqb (Moo.type v) "STRING" && fieldFits t (Moo.value v)
          && leadingFields false rest types'
      | _ => false
      end
  end.

(** The tokens are exactly one fitting field per requested type, separated
    by commas: as [leadingFields], and nothing follows the last field. *)
Fixpoint exactFields (first : bool) (tokens : list Moo.Token)
  (types : list DataTypeSpec) : bool :=
  match types with
  | [] => match tokens with [] => true | _ => false end
  | t :: types' =>
      let afterComma :=
        if first then Some tokens
        else match tokens with
             | c :: rest =>
                 if String.eqb (Moo.type c) "COMMA" then Some rest else None
             | [] => None
             end in
      match afterComma with
      | Some (v :: rest) =>
          String.eqb (Moo.type v) "STRING" && fieldFits t (Moo.value v)
          && exactFields false rest types'
      | _ => false
      end
  end.


(** *** An entered line, field by field *)

(** A field as the user types it: bare, or between double quotes. *)
Inductive Field : Type :=
| Bare (s : string)
| Quoted (s : string).

Definition fieldText (f : Field) : string :=
  match f with
  | Bare s => s
  | Quoted s => String Moo.DQ (s +++ String Moo.DQ EmptyString)
  end.

Definition fieldBody (f : Field) : string :=
  match f with
  | Bare s => s
  | Quoted s => s
  end.

(** A bare field is not empty, does not begin with a double quote and holds
    neither a comma nor white space; the body of a quoted field holds no
    double quote. *)
Definition wellFormed (f : Field) : bool :=
  match f with
  | Bare s =>
      match s with
      | EmptyString => false
      | String c _ => negb (Ascii.eqb c Moo.DQ)
      end
      && Str.all (fun c => negb (Ascii.eqb c ",") && negb (Moo.isSpace c)) s
  | Quoted s => Str.all (fun c => negb (Ascii.eqb c Moo.DQ)) s
  end.

(** The fields on one line, a comma and the white space [blanks] between
    two of them. *)
Definition enteredLine (blanks : string) (fields : list Field) : string :=
  String.concat ("," +++ blanks) (map fieldText fields).

(** The value a field stands for when a result of type [t] is asked for. *)
Definition fieldValue (tf : DataTypeSpec * Field) : Value :=
  if isString1 (fst tf) then VString (fieldBody (snd tf))
  else VNumber (parseFloat (fieldBody (snd tf))).

(** The fields of the entered line as the input lexer gives them: type and
    value of every token ([first] tells whether no comma goes before). *)
Fixpoint fieldTokens (first : bool) (fields : list Field)
  : list (string * string) :=
  match fields with
  | [] => []
  | f :: fields' =>
      (if first then [] else [("COMMA", ",")])
      ++ ("STRING", fieldBody f) :: fieldTokens false fields'
  end.


(** The line from a field on: the field, then a comma, the blanks and the
    next field, and so on. *)
Fixpoint lineFrom (blanks : string) (first : bool) (fields : list Field)
  : string :=
  match fields with
  | [] => ""
  | f :: fields' =>
      (if first then "" else "," +++ blanks)
      +++ fieldText f +++ lineFrom blanks false fields'
  end.


(** The line is one [input] returns from: the tokens the lexer makes of it
    begin with one fitting field per requested type. *)
Definition acceptedLine (types : list DataTypeSpec) (line : string) : Prop :=
  exists tokens,
    lexInput line = Ok tokens /\ leadingFields true tokens types = true.


(** *** What INPUT prints *)

(** The reasons [input] gives for turning a line down. *)
Definition redoReason (reason : string) : Prop :=
  reason = "Comma expected"
  \/ reason = "No value provided"
  \/ exists tokenValue,
       reason = "Invalid numeric value " +++ String Moo.DQ tokenValue
                +++ String Moo.DQ EmptyString.

(** The notice for a line that is turned down when [n] values are asked
    for: an empty line, the error for one of the values 1 to [n] with its
    reason, and the request to redo from start. *)
Definition redoNotice (n : nat) (notice : string) : Prop :=
  exists k reason,
    1 <= k <= n
    /\ redoReason reason
    /\ notice = NL +++ "Error parsing value " +++ Str.ofNat k +++ ": "
                +++ reason +++ NL +++ "Redo from start" +++ NL.

(** What [input] has printed when it has turned down lines with the given
    notices and asked for one more line: the prompt before every line, each
    notice after the line it is for. *)
Definition transcript (prompt : string) (notices : list string)
  : list string :=
  flat_map (fun notice => [prompt; notice]) notices ++ [prompt].

End Numbers.


(** *** The string built-ins

    The [run] functions of LEFT$, RIGHT$, MID$, LEN and INSTR in
    [BUILTIN_FNS]. A finite number argument is given as the integer that
    [Math.floor] makes of it, a number result as an integer. *)

(** [String.prototype.substr(start, length)], [None] for a length that is
    not given: a negative start counts from the end of the string, the
    length is clamped between 0 and the size, and the part taken ends with
    the string at the latest. *)
Definition substr (s : string) (start : Z) (length : option Z) : string :=
  let size := Z.of_nat (String.length s) in
  let intStart :=
    if (start <? 0)%Z then Z.max (size + start) 0 else Z.min start size in
  let intLength :=
    match length with
    | None => size
    | Some l => Z.min (Z.max l 0) size
    end in
  let intEnd := Z.min (intStart + intLength) size in
  String.substring (Z.to_nat intStart) (Z.to_nat (intEnd - intStart)) s.

(** [String.prototype.indexOf(searchString, position)]: the search starts
    at the position clamped between 0 and the size, and gives the first
    index from there on at which the search string stands, or -1. *)
Definition indexOf (s searchString : string) (position : Z) : Z :=
  let len := Z.of_nat (String.length s) in
  let start := Z.min (Z.max position 0) len in
  match String.index (Z.to_nat start) searchString s with
  | Some k => Z.of_nat k
  | None => (-1)%Z
  end.

(** left$: [s.substr(0, Math.floor(n))] *)
Definition leftRun (s : string) (n : Z) : string := substr s 0 (Some n).

(** right$: [s.substr(Math.max(0, s.length - Math.floor(n)))] *)
Definition rightRun (s : string) (n : Z) : string :=
  substr s (Z.max 0 (Z.of_nat (String.length s) - n)) None.

(** mid$: [s.substr(Math.floor(startIdx) - 1, Math.floor(length))] *)
Definition midRun (s : string) (startIdx length : Z) : string :=
  substr s (startIdx - 1) (Some length).

(** len: [s.length] *)
Definition lenRun (s : string) : Z := Z.of_nat (String.length s).

(** instr with two parameters: [haystack.indexOf(needle) + 1]; a position
    that is not given is 0. *)
Definition instrRun (haystack needle : string) : Z :=
  (indexOf haystack needle 0 + 1)%Z.

(** instr with three parameters:
    [haystack.indexOf(needle, Math.floor(start) - 1) + 1] *)
Definition instrFromRun (start : Z) (haystack needle : string) : Z :=
  (indexOf haystack needle (start - 1) + 1)%Z.

(** The string [needle] stands in [haystack] at the 1-based position
    [pos]. *)
Definition occursAt (needle haystack : string) (pos : Z) : Prop :=
  exists before after,
    haystack = before +++ needle +++ after
    /\ (Z.of_nat (String.length before) = pos - 1)%Z.

End Runtime.

(** ** The QBasic lexer (lexer.ts) *)

Module Lexer.

(** QBasic keywords: token type and lower-case spelling. *)
Definition Keywords : list (string * string) := [
  ("AND", "and");
  ("ELSE", "else");
  ("ELSEIF", "elseif");
  ("END", "end");
  ("GOTO", "goto");
  ("IF", "if");
  ("LET", "let");
  ("MOD", "mod");
  ("OR", "or");
  ("PRINT", "print");
  ("THEN", "then")
].

(** [moo.keywords(map)]: the type whose keyword the text is, or [None] for
    [undefined]. *)
Definition keywords (map : list (string * string)) (txt : string) : option string :=
  option_map fst (find (fun kw => String.eqb (snd kw) txt) map).

Definition caseInsensitiveKeywords (map : list (string * string))
  (txt : string) : option string :=
  keywords map (Str.toLowerCase txt).

(** [text.includes(s)] for a one-character [s]. *)
Fixpoint includesChar (c : ascii) (s : string) : bool :=
  match s with
  | EmptyString => false
  | String d s' => Ascii.eqb d c || includesChar c s'
  end.

(** An apostrophe and the rest of the line. *)
Definition comment (s : string) : option (string * string) :=
  match s with
  | String c s' =>
      if Ascii.eqb c "'" then
        let (a, b) := Moo.span (fun d => negb (Moo.isNewline d)) s' in
        Some (String c a, b)
      else None
  | EmptyString => None
  end.

Definition isSigil (c : ascii) : bool :=
  Ascii.eqb c "$" || Ascii.eqb c "%" || Ascii.eqb c "#" || Ascii.eqb c "&"
  || Ascii.eqb c "!".

(** A letter or underscore, then letters, digits and underscores, then an
    optional type sigil. *)
Definition identifier (s : string) : option (string * string) :=
  match s with
  | String c s' =>
      if Moo.isAlpha_ c then
        match Moo.span (fun d => Moo.isAlpha_ d || Moo.isDigit d) s' with
        | (a, String d b) =>
            if isSigil d then Some (String c (a +++ String d EmptyString), b)
            else Some (String c a, String d b)
        | (a, EmptyString) => Some (String c a, EmptyString)
        end
      else None
  | EmptyString => None
  end.

(** An optional minus sign, then either digits, a point and at least one
    digit, or at least one digit. *)
Definition numericLiteral (s : string) : option (string * string) :=
  let (sign, s1) :=
    match s with
    | String "-" s' => ("-", s')
    | _ => ("", s)
    end in
  let (ds, r) := Moo.span Moo.isDigit s1 in
  let integral :=
    match ds with
    | EmptyString => None
    | _ => Some (sign +++ ds, r)
    end in
  match r with
  | String "." r' =>
      match Moo.span Moo.isDigit r' with
      | (EmptyString, _) => integral
      | (fs, r'') => Some (sign +++ ds +++ String "." fs, r'')
      end
  | _ => integral
  end.

(** Lexer for QBasic: the rules in declaration order. *)
Definition lexer : list Moo.Rule := [
  Moo.mkRule "WHITESPACE" (Moo.plus Moo.isSpace) true
    (Some (fun txt =>
             Some (if includesChar Runtime.LF txt then "NEWLINE" else "")))
    None;
  Moo.mkRule "COMMENT" comment false None None;
  Moo.mkRule "IDENTIFIER" identifier false
    (Some (caseInsensitiveKeywords Keywords)) None;
  Moo.mkRule "STRING_LITERAL" Moo.quoted false None (Some Moo.stripQuotes);
  Moo.mkRule "NUMERIC_LITERAL" numericLiteral false None None;
  Moo.mkRule "COLON" (Moo.literal ":") false None None;
  Moo.mkRule "SEMICOLON" (Moo.literal ";") false None None;
  Moo.mkRule "COMMA" (Moo.literal ",") false None None;
  Moo.mkRule "LPAREN" (Moo.literal "(") false None None;
  Moo.mkRule "RPAREN" (Moo.literal ")") false None None;
  Moo.mkRule "ADD" (Moo.literal "+") false None None;
  Moo.mkRule "SUB" (Moo.literal "-") false None None;
  Moo.mkRule "MUL" (Moo.literal "*") false None None;
  Moo.mkRule "EXP" (Moo.literal "^") false None None;
  Moo.mkRule "DIV" (Moo.literal "/") false None None;
  Moo.mkRule "INTDIV" (Moo.literal "\") false None None;
  Moo.mkRule "EQ" (Moo.literal "=") false None None;
  Moo.mkRule "NE" (Moo.literal "<>") false None None;
  Moo.mkRule "GTE" (Moo.literal ">=") false None None;
  Moo.mkRule "LTE" (Moo.literal "<=") false None None;
  Moo.mkRule "GT" (Moo.literal ">") false None None;
  Moo.mkRule "LT" (Moo.literal "<") false None None
].

Definition TOKEN_TYPES_TO_DISCARD : list string := ["WHITESPACE"; "COMMENT"].

(** [token.type && TOKEN_TYPES_TO_DISCARD.includes(token.type)] *)
Definition discarded (token : Moo.Token) : bool :=
  negb (String.eqb (Moo.type token) "")
  && existsb (String.eqb (Moo.type token)) TOKEN_TYPES_TO_DISCARD.

(** The [do ... while] loop of the replaced [lexer.next]: tokens are taken
    from the original [next] until one is not to be discarded. Every token
    consumes at least one character, so [fuel] above the length of the
    remaining input is never used up. *)
Fixpoint nextLoop (fuel : nat) (lx : Moo.Lexer)
  : Result (option (Moo.Token * Moo.Lexer)) :=
  match fuel with
  | O => Throw OutOfFuel
  | S fuel' =>
      r <- Moo.next lexer lx ;;
      match r with
      | Some (token, lx') =>
          if discarded token then nextLoop fuel' lx' else Ok (Some (token, lx'))
      | None => Ok None
      end
  end.

(** [lexer.next()] as the module exports it. *)
Definition next (lx : Moo.Lexer) : Result (option (Moo.Token * Moo.Lexer)) :=
  nextLoop (S (String.length (Moo.buffer lx))) lx.

(** The lexer once it has consumed [txt], which holds [lb] line feeds. *)
Definition advanced (lx : Moo.Lexer) (txt rest : string) : Moo.Lexer :=
  let lb := Moo.countNewlines txt in
  let size := String.length txt in
  Moo.mkLexer rest (Moo.index lx + size) (Moo.lexLine lx + lb)
    (if (lb =? 0)%nat then Moo.lexCol lx + size
     else size - Moo.lastNewlineIndex txt 0 1 + 1).

(** The text is white space throughout. *)
Fixpoint allSpace (s : string) : bool :=
  match s with
  | EmptyString => true
  | String c s' => Moo.isSpace c && allSpace s'
  end.

(** The text does not begin with white space: a white space run before it
    is maximal. *)
Definition noLeadingSpace (s : string) : bool :=
  match s with
  | EmptyString => true
  | String c _ => negb (Moo.isSpace c)
  end.


(** The text does not go on with a character an identifier takes in: a
    letter, a digit, an underscore or a type sigil. *)
Definition noIdentifierChar (s : string) : bool :=
  match s with
  | EmptyString => true
  | String c _ => negb (Moo.isAlpha_ c || Moo.isDigit c || isSigil c)
  end.

(** The type of the token the IDENTIFIER rule gives for [txt]: the keyword
    it spells in whatever case, or IDENTIFIER. *)
Definition wordType (txt : string) : string :=
  match caseInsensitiveKeywords Keywords txt with
  | Some ty => ty
  | None => "IDENTIFIER"
  end.


Definition startsWithDigit (s : string) : bool :=
  match s with
  | String c _ => Moo.isDigit c
  | EmptyString => false
  end.

(** The text begins with a point and a digit: a number before it would go
    on into a fraction. *)
Definition startsFraction (s : string) : bool :=
  match s with
  | String c r => Ascii.eqb c "." && startsWithDigit r
  | EmptyString => false
  end.


(** A token of type [ty] whose text and value are [txt], at the position
    the lexer [lx] stands at. *)
Definition tokenAt (lx : Moo.Lexer) (ty txt : string) : Moo.Token :=
  Moo.mkToken ty txt txt (Moo.index lx) 0 (Moo.lexLine lx) (Moo.lexCol lx).

(** The lexer once it has moved past [txt] on its line, [rest] left to
    read. *)
Definition movedPast (lx : Moo.Lexer) (txt rest : string) : Moo.Lexer :=
  Moo.mkLexer rest (Moo.index lx + String.length txt) (Moo.lexLine lx)
    (Moo.lexCol lx + String.length txt).

(** The first character of the text, if any, is not [c]. *)
Definition notStartingWith (c : ascii) (s : string) : bool :=
  match s with
  | String d _ => negb (Ascii.eqb c d)
  | EmptyString => true
  end.


(** The characters the one-character operator and punctuation rules are
    made of. *)
Definition operatorChars : list ascii :=
  [":"; ";"; ","; "("; ")"; "+"; "-"; "*"; "^"; "/"; "\"; "="; ">"; "<"]%char.

(** The text begins with something some rule of the lexer matches: white
    space, an apostrophe, a letter or underscore, a double quote that is
    closed further on, a digit, a point before a digit, or an operator or
    punctuation character. *)
Definition startsToken (s : string) : bool :=
  match s with
  | EmptyString => false
  | String c r =>
      Moo.isSpace c || Ascii.eqb c "'" || Moo.isAlpha_ c
      || (Ascii.eqb c Moo.DQ && includesChar Moo.DQ r)
      || Moo.isDigit c || (Ascii.eqb c "." && startsWithDigit r)
      || existsb (Ascii.eqb c) operatorChars
  end.


(** The line and the column one stands at after reading [s] from line
    [line], column [col]: a line feed leads to column 1 of the next line,
    any other character one column to the right. *)
Fixpoint positionAfter (line col : nat) (s : string) : nat * nat :=
  match s with
  | EmptyString => (line, col)
  | String c s' =>
      if Ascii.eqb c Runtime.LF then positionAfter (S line) 1 s'
      else positionAfter line (S col) s'
  end.

End Lexer.

(** ** Integer numbers, for running the runtime on examples

    An instance of the number operations on integers and NaN: it agrees with
    JavaScript on integer values, and [parseFloat] on texts made of an
    optional sign and decimal digits (anything else parses to NaN). *)

Module IntNum.

Inductive num : Type := NaN | Int (z : Z).

Definition geZero (n : num) : bool :=
  match n with
  | Int z => (0 <=? z)%Z
  | NaN => false
  end.

Definition numToString (n : num) : string :=
  match n with
  | Int z => NilZero.string_of_int (Z.to_int z)
  | NaN => "NaN"
  end.

Definition isNaN (n : num) : bool :=
  match n with
  | NaN => true
  | Int _ => false
  end.

Fixpoint digitsValue (s : string) (acc : Z) : option Z :=
  match s with
  | EmptyString => Some acc
  | String c s' =>
      if Moo.isDigit c
      then digitsValue s' (10 * acc + Z.of_nat (Str.code c - 48))%Z
      else None
  end.

Definition parseDigits (s : string) : option Z :=
  match s with
  | EmptyString => None
  | _ => digitsValue s 0%Z
  end.

Definition parseFloat (s : string) : num :=
  let signed :=
    match s with
    | String "-" s' => option_map Z.opp (parseDigits s')
    | String "+" s' => parseDigits s'
    | _ => parseDigits s
    end in
  match signed with
  | Some z => Int z
  | None => NaN
  end.

Definition VString := Runtime.VString num.
Definition VNumber := Runtime.VNumber num.
Definition VALUE := Runtime.VALUE num.
Definition COMMA := Runtime.COMMA num.
Definition SEMICOLON := Runtime.SEMICOLON num.
Definition print := Runtime.print num geZero numToString.
Definition input := Runtime.input num parseFloat isNaN.

End IntNum.

(** ** The abstract syntax tree (lib/ast) *)

Module Ast.

Import SymbolTable.

(** Modelled from the spec: the binary operators, as the two passes name
    them. *)
Inductive BinaryOp : Type :=
| ADD | SUB | MUL | DIV | INTDIV | MOD | EXP
| AND | OR
| EQ | NE | GT | GTE | LT | LTE.

(** Modelled from the spec: the unary operators. *)
Inductive UnaryOp : Type := NEG | NOT | PARENS.

(** The value of a literal: a string, a number, or a value of another
    JavaScript type. A number is kept as the text a template literal renders
    it to, which is all the compiler reads of it; another value as its
    [typeof] name and its JSON text. *)
Inductive LiteralValue : Type :=
| LitString (s : string)
| LitNumber (rendered : string)
| LitOther (typeofName json : string).

(** Modelled from the spec: lib/ast is not among the sources. Expression
    nodes; [typeSpec], [varType] and [varScope] are absent ([None]) until the
    semantic analysis sets them. *)
Inductive Expr : Type :=
| LiteralExpr (value : LiteralValue) (typeSpec : option DataTypeSpec) (loc : Loc)
| VarRefExpr (name : string) (typeSpec : option DataTypeSpec)
    (varType : option VarType) (varScope : option VarScope) (loc : Loc)
| FnCallExpr (name : string) (argExprs : list Expr)
    (typeSpec : option DataTypeSpec) (loc : Loc)
| BinaryOpExpr (op : BinaryOp) (leftExpr rightExpr : Expr)
    (typeSpec : option DataTypeSpec) (loc : Loc)
| UnaryOpExpr (op : UnaryOp) (rightExpr : Expr)
    (typeSpec : option DataTypeSpec) (loc : Loc).

Definition exprLoc (e : Expr) : Loc :=
  match e with
  | LiteralExpr _ _ loc => loc
  | VarRefExpr _ _ _ _ loc => loc
  | FnCallExpr _ _ _ loc => loc
  | BinaryOpExpr _ _ _ _ loc => loc
  | UnaryOpExpr _ _ _ loc => loc
  end.

Definition exprTypeSpec (e : Expr) : option DataTypeSpec :=
  match e with
  | LiteralExpr _ t _ => t
  | VarRefExpr _ t _ _ _ => t
  | FnCallExpr _ _ t _ => t
  | BinaryOpExpr _ _ _ t _ => t
  | UnaryOpExpr _ _ t _ => t
  end.

Inductive CondLoopStructure : Type :=
| COND_EXPR_BEFORE_STMTS
| COND_EXPR_AFTER_STMTS.

(** An argument of PRINT: a separator, given by its marker string, or an
    expression. *)
Inductive PrintStmtArg : Type :=
| PrintSep (sep : string)
| PrintExpr (e : Expr).

(** A FOR statement node; the code generator keeps it in the frame of the
    open loop. *)
Record ForStmtNode : Type := mkForStmt {
  counterExpr : Expr;
  startExpr : Expr;
  endExpr : Expr;
  stepExpr : option Expr;
  forLoc : Loc
}.

(** Modelled from the spec: statement nodes. *)
Inductive Stmt : Type :=
| LabelStmt (label : string) (loc : Loc)
| AssignStmt (targetExpr valueExpr : Expr) (loc : Loc)
| GotoStmt (destLabel : string) (loc : Loc)
| IfStmt (ifBranches : list (Expr * list Stmt)) (elseBranch : list Stmt)
    (loc : Loc)
| CondLoopStmt (structure : CondLoopStructure) (isCondNegated : bool)
    (condExpr : Expr) (stmts : list Stmt) (loc : Loc)
| UncondLoopStmt (stmts : list Stmt) (loc : Loc)
| ExitLoopStmt (loc : Loc)
| ForStmt (node : ForStmtNode)
| NextStmt (counterExprs : list Expr) (loc : Loc)
| ExitForStmt (loc : Loc)
| GosubStmt (destLabel : string) (loc : Loc)
| ReturnStmt (destLabel : option string) (loc : Loc)
| EndStmt (loc : Loc)
| PrintStmt (args : list PrintStmtArg) (loc : Loc)
| InputStmt (prompt : string) (targetExprs : list Expr) (loc : Loc).

Definition stmtLoc (s : Stmt) : Loc :=
  match s with
  | ForStmt node => forLoc node
  | LabelStmt _ loc | AssignStmt _ _ loc | GotoStmt _ loc | IfStmt _ _ loc
  | CondLoopStmt _ _ _ _ loc | UncondLoopStmt _ loc | ExitLoopStmt loc
  | NextStmt _ loc | ExitForStmt loc | GosubStmt _ loc
  | ReturnStmt _ loc | EndStmt loc | PrintStmt _ loc | InputStmt _ _ loc => loc
  end.

Module ProcType.
Inductive t : Type := FN | SUB.
End ProcType.

(** A parameter of a procedure, as parsed. *)
Record Param : Type := mkParam { paramName : string }.

(** Modelled from the spec: a procedure; [paramSymbols], [localSymbols] and
    [returnTypeSpec] are set by the semantic analysis. *)
Record Proc : Type := mkProc {
  procType : ProcType.t;
  procName : string;
  params : list Param;
  procStmts : list Stmt;
  paramSymbols : option (list VarSymbol);
  localSymbols : option (list VarSymbol);
  returnTypeSpec : option DataTypeSpec;
  procLoc : Loc
}.

Record Module : Type := mkModule {
  procs : list Proc;
  stmts : list Stmt;
  moduleLocalSymbols : option (list VarSymbol);
  moduleGlobalSymbols : option (list VarSymbol)
}.

End Ast.

(** ** The semantic analyzer (codegen/semantic-analyzer.ts), expressions *)

Module SemanticAnalyzer.

Import SymbolTable Ast.

(** Map from variable type declaration suffix to the corresponding type
    spec; [None] is the [undefined] of a missing key. *)
Definition TYPE_SUFFIX_MAP (key : option ascii) : option DataTypeSpec :=
  match key with
  | Some "%"%char => Some integerSpec
  | Some "&"%char => Some longSpec
  | Some "!"%char => Some singleSpec
  | Some "#"%char => Some doubleSpec
  | Some "$"%char => Some stringSpec
  | _ => None
  end.

Definition getTypeSpecFromSuffix (name : string) : DataTypeSpec :=
  let lastCharInName := Str.last name in
  match TYPE_SUFFIX_MAP lastCharInName with
  | Some t => t
  | None => singleSpec
  end.

(** The analyzer object: the module under analysis, whose procs and symbol
    tables it updates in place, and the proc being visited. [currentProc]
    refers to one of the module's procs, here by its index in
    [module.procs], so that a symbol added to the current proc's locals is
    added to the module's proc. *)
Record Analyzer : Type := mkAnalyzer {
  module : Module;
  currentProc : option nat
}.

(** A non-null assertion [x!] that is then dereferenced. *)
Definition nonNull {A : Type} (x : option A) : Result A :=
  match x with
  | Some a => Ok a
  | None => Throw TypeError
  end.

Definition currentProcNode (a : Analyzer) : Result (option Proc) :=
  match currentProc a with
  | Some i => p <- nonNull (nth_error (procs (module a)) i) ;; Ok (Some p)
  | None => Ok None
  end.

Definition getLocalSymbols (a : Analyzer) : Result (list VarSymbol) :=
  cp <- currentProcNode a ;;
  match cp with
  | Some proc => nonNull (localSymbols proc)
  | None => nonNull (moduleLocalSymbols (module a))
  end.

(** [SemanticAnalyzer.lookupSymbol]: the resolved symbol with its scope, or
    [None] for [null]. *)
Definition lookupSymbol (a : Analyzer) (name : string)
  : Result (option (VarSymbol * VarScope)) :=
  cp <- currentProcNode a ;;
  inParams <-
    match cp with
    | Some proc =>
        ps <- nonNull (paramSymbols proc) ;;
        Ok (SymbolTable.lookupSymbol SymbolTable.name ps name)
    | None => Ok None
    end ;;
  match inParams with
  | Some symbol => Ok (Some (symbol, LOCAL))
  | None =>
      locals <- getLocalSymbols a ;;
      match SymbolTable.lookupSymbol SymbolTable.name locals name with
      | Some symbol => Ok (Some (symbol, LOCAL))
      | None =>
          globals <- nonNull (moduleGlobalSymbols (module a)) ;;
          match SymbolTable.lookupSymbol SymbolTable.name globals name with
          | Some symbol => Ok (Some (symbol, GLOBAL))
          | None => Ok None
          end
      end
  end.

Definition setLocalSymbols (proc : Proc) (l : list VarSymbol) : Proc :=
  mkProc (procType proc) (procName proc) (params proc) (procStmts proc)
    (paramSymbols proc) (Some l) (returnTypeSpec proc) (procLoc proc).

Fixpoint updateNth {A : Type} (l : list A) (i : nat) (x : A) : list A :=
  match l, i with
  | [], _ => []
  | _ :: l', O => x :: l'
  | y :: l', S i' => y :: updateNth l' i' x
  end.

(** [getLocalSymbols().push(symbol)] *)
Definition addLocalSymbol (a : Analyzer) (symbol : VarSymbol) : Result Analyzer :=
  locals <- getLocalSymbols a ;;
  let m := module a in
  match currentProc a with
  | Some i =>
      proc <- nonNull (nth_error (procs m) i) ;;
      Ok (mkAnalyzer
            (mkModule (updateNth (procs m) i
                         (setLocalSymbols proc (locals ++ [symbol])))
               (stmts m) (moduleLocalSymbols m) (moduleGlobalSymbols m))
            (Some i))
  | None =>
      Ok (mkAnalyzer
            (mkModule (procs m) (stmts m) (Some (locals ++ [symbol]))
               (moduleGlobalSymbols m))
            None)
  end.

(** Modelled from the spec: [throwError] of the visitor base class raises
    the analyzer's error with the message and the node's location. *)
Definition throwError {A : Type} (message : string) (loc : Loc) : Result A :=
  Throw (SemanticError message loc).

Definition setTypeSpec (e : Expr) (t : option DataTypeSpec) : Expr :=
  match e with
  | LiteralExpr v _ loc => LiteralExpr v t loc
  | VarRefExpr n _ vt vs loc => VarRefExpr n t vt vs loc
  | FnCallExpr n args _ loc => FnCallExpr n args t loc
  | BinaryOpExpr op l r _ loc => BinaryOpExpr op l r t loc
  | UnaryOpExpr op r _ loc => UnaryOpExpr op r t loc
  end.

Section Visitors.

(** The string value of a binary operator, [node.op] in a message; the enum
    is declared in lib/ast. *)
Variable binaryOpName : BinaryOp -> string.

(** [this.accept], the dispatch on the node's type; a visit returns the node
    as it has left it and the analyzer. *)
Variable accept : Analyzer -> Expr -> Result (Expr * Analyzer).

(** [this.acceptAll(nodes)] *)
Fixpoint acceptAll (a : Analyzer) (nodes : list Expr)
  : Result (list Expr * Analyzer) :=
  match nodes with
  | [] => Ok ([], a)
  | node :: nodes' =>
      r <- accept a node ;;
      rs <- acceptAll (snd r) nodes' ;;
      Ok (fst r :: fst rs, snd rs)
  end.

Fixpoint requireNumericExpr (a : Analyzer) (exprs : list Expr)
  : Result (list Expr * Analyzer) :=
  match exprs with
  | [] => Ok ([], a)
  | expr :: exprs' =>
      r <- accept a expr ;;
      t <- nonNull (exprTypeSpec (fst r)) ;;
      if negb (isNumeric [t]) then
        throwError ("Expected numeric expression instead of " +++ typeTag t)
          (exprLoc (fst r))
      else
        rs <- requireNumericExpr (snd r) exprs' ;;
        Ok (fst r :: fst rs, snd rs)
  end.

Definition visitLiteralExpr (a : Analyzer) (value : LiteralValue) (loc : Loc)
  : Result (Expr * Analyzer) :=
  match value with
  | LitString _ => Ok (LiteralExpr value (Some stringSpec) loc, a)
  | LitNumber _ => Ok (LiteralExpr value (Some singleSpec) loc, a)
  | LitOther typeofName _ =>
      throwError ("Unknown literal expression value type: " +++ typeofName) loc
  end.

(** The loop of [visitFnCallExpr] that checks the arguments against the
    parameters, from index [i] on. *)
Fixpoint checkArgs (name : string) (loc : Loc) (paramSymbols : list VarSymbol)
  (argExprs : list Expr) (i : nat) (rest : list Expr) : Result unit :=
  match rest with
  | [] => Ok tt
  | arg :: rest' =>
      param <- nonNull (nth_error paramSymbols i) ;;
      let paramTypeSpec := SymbolTable.typeSpec param in
      argTypeSpec <- nonNull (exprTypeSpec arg) ;;
      if negb (areMatchingElementaryTypes paramTypeSpec argTypeSpec) then
        throwError ("Incompatible argument " +++ Str.ofNat (i + 1)
                    +++ " to function " +++ String Moo.DQ name
                    +++ String Moo.DQ ": expected " +++ typeTag paramTypeSpec
                    +++ ", got " +++ typeTag argTypeSpec) loc
      else checkArgs name loc paramSymbols argExprs (S i) rest'
  end.

Definition isFn (proc : Proc) : bool :=
  match procType proc with
  | ProcType.FN => true
  | ProcType.SUB => false
  end.

Definition visitFnCallExpr (a : Analyzer) (name : string) (argExprs : list Expr)
  (loc : Loc) : Result (Expr * Analyzer) :=
  match SymbolTable.lookupSymbol procName (procs (module a)) name with
  | Some proc =>
      if negb (isFn proc) then
        throwError ("Function not found: " +++ String Moo.DQ name
                    +++ String Moo.DQ "") loc
      else
        ps <- nonNull (paramSymbols proc) ;;
        if negb (List.length ps =? List.length argExprs)%nat then
          throwError ("Incorrect number of arguments to function "
                      +++ String Moo.DQ name +++ String Moo.DQ ": expected "
                      +++ Str.ofNat (List.length ps) +++ ", got "
                      +++ Str.ofNat (List.length argExprs)) loc
        else
          r <- acceptAll a argExprs ;;
          checkArgs name loc ps (fst r) 0 (fst r) ;;;
          Ok (FnCallExpr name (fst r) (returnTypeSpec proc) loc, snd r)
  | None =>
      throwError ("Function not found: " +++ String Moo.DQ name
                  +++ String Moo.DQ "") loc
  end.

(** [visitVarRefExpr]. When the name resolves to no symbol and names a
    function, the node is overwritten with the analyzed call
    ([Object.assign(node, fnCallExpr)]): the visit returns the call node. *)
Definition visitVarRefExpr (a : Analyzer) (name : string) (loc : Loc)
  : Result (Expr * Analyzer) :=
  resolved <- lookupSymbol a name ;;
  match resolved with
  | Some (symbol, scope) =>
      Ok (VarRefExpr name (Some (SymbolTable.typeSpec symbol))
            (Some (SymbolTable.type symbol)) (Some scope) loc, a)
  | None =>
      match SymbolTable.lookupSymbol procName (procs (module a)) name with
      | Some proc =>
          if isFn proc then
            let fnCallExpr := FnCallExpr name [] None loc in
            accept a fnCallExpr
          else
            throwError ("Procedure " +++ String Moo.DQ (procName proc)
                        +++ String Moo.DQ " is not a function") loc
      | None =>
          let symbol := mkVarSymbol name VAR (getTypeSpecFromSuffix name) in
          a' <- addLocalSymbol a symbol ;;
          Ok (VarRefExpr name (Some (SymbolTable.typeSpec symbol))
                (Some (SymbolTable.type symbol)) (Some LOCAL) loc, a')
      end
  end.

Definition visitBinaryOpExpr (a : Analyzer) (op : BinaryOp)
  (leftExpr rightExpr : Expr) (loc : Loc) : Result (Expr * Analyzer) :=
  l <- accept a leftExpr ;;
  r <- accept (snd l) rightExpr ;;
  leftTypeSpec <- nonNull (exprTypeSpec (fst l)) ;;
  rightTypeSpec <- nonNull (exprTypeSpec (fst r)) ;;
  let errorMessage :=
    "Incompatible types for " +++ binaryOpName op +++ " operator: "
    +++ typeTag leftTypeSpec +++ " and " +++ typeTag rightTypeSpec in
  let requireNumericOperands : Result unit :=
    if negb (isNumeric [leftTypeSpec; rightTypeSpec])
    then throwError errorMessage loc else Ok tt in
  let done (t : DataTypeSpec) : Result (Expr * Analyzer) :=
    Ok (BinaryOpExpr op (fst l) (fst r) (Some t) loc, snd r) in
  match op with
  | ADD =>
      if isString [leftTypeSpec; rightTypeSpec] then done stringSpec
      else
        requireNumericOperands ;;;
        t <- Coercion.coerceNumericTypes [leftTypeSpec; rightTypeSpec] ;;
        done t
  | SUB | MUL | EXP | INTDIV | MOD =>
      requireNumericOperands ;;;
      t <- Coercion.coerceNumericTypes [leftTypeSpec; rightTypeSpec] ;;
      done t
  | DIV =>
      requireNumericOperands ;;;
      t <- Coercion.coerceNumericTypes
             [leftTypeSpec; rightTypeSpec; singleSpec] ;;
      done t
  | AND | OR =>
      requireNumericOperands ;;;
      done integerSpec
  | EQ | NE | GT | GTE | LT | LTE =>
      if negb (areMatchingElementaryTypes leftTypeSpec rightTypeSpec)
      then throwError errorMessage loc
      else done integerSpec
  end.

Definition visitUnaryOpExpr (a : Analyzer) (op : UnaryOp) (rightExpr : Expr)
  (loc : Loc) : Result (Expr * Analyzer) :=
  r <- accept a rightExpr ;;
  let rightTypeSpec := exprTypeSpec (fst r) in
  match op with
  | NEG =>
      rs <- requireNumericExpr (snd r) [fst r] ;;
      Ok (UnaryOpExpr op (hd (fst r) (fst rs)) rightTypeSpec loc, snd rs)
  | NOT =>
      rs <- requireNumericExpr (snd r) [fst r] ;;
      Ok (UnaryOpExpr op (hd (fst r) (fst rs)) (Some integerSpec) loc, snd rs)
  | PARENS =>
      Ok (UnaryOpExpr op (fst r) rightTypeSpec loc, snd r)
  end.

(** The dispatch of [accept] on an expression node. *)
Definition visitExpr (a : Analyzer) (node : Expr) : Result (Expr * Analyzer) :=
  match node with
  | LiteralExpr value _ loc => visitLiteralExpr a value loc
  | VarRefExpr name _ _ _ loc => visitVarRefExpr a name loc
  | FnCallExpr name argExprs _ loc => visitFnCallExpr a name argExprs loc
  | BinaryOpExpr op leftExpr rightExpr _ loc =>
      visitBinaryOpExpr a op leftExpr rightExpr loc
  | UnaryOpExpr op rightExpr _ loc => visitUnaryOpExpr a op rightExpr loc
  end.

End Visitors.

(** [accept] on expressions, the visitors calling back into it; [fuel]
    bounds the depth of the calls. *)
Fixpoint accept (binaryOpName : BinaryOp -> string) (fuel : nat)
  (a : Analyzer) (node : Expr) : Result (Expr * Analyzer) :=
  match fuel with
  | O => Throw OutOfFuel
  | S fuel' => visitExpr binaryOpName (accept binaryOpName fuel') a node
  end.

(** *** The lookup order as the specification words it *)


(** The first of: the params of the current proc (none at module level), the
    locals of the current scope (the current proc's inside a proc, the
    module's at module level), the module's globals, that holds the name. *)
Definition lookupInScope (params locals globals : list VarSymbol)
  (name : string) : option (VarSymbol * VarScope) :=
  match SymbolTable.lookupSymbol SymbolTable.name params name with
  | Some s => Some (s, LOCAL)
  | None =>
      match SymbolTable.lookupSymbol SymbolTable.name locals name with
      | Some s => Some (s, LOCAL)
      | None =>
          match SymbolTable.lookupSymbol SymbolTable.name globals name with
          | Some s => Some (s, GLOBAL)
          | None => None
          end
      end
  end.

(** The params of the current proc; none at module level. *)
Definition currentParams (a : Analyzer) : Result (list VarSymbol) :=
  cp <- currentProcNode a ;;
  match cp with
  | Some proc => nonNull (paramSymbols proc)
  | None => Ok []
  end.


(** *** The typing of the binary operators, as a table *)

(** The type of [left op right] for operands of types [l] and [r], or
    [None] when the operator does not take them: the arithmetic operators
    give the wider of two numeric types, division at least Single; the
    logical operators and the comparisons give Integer; [+] also joins two
    strings. *)
Definition binaryOpType (op : BinaryOp) (l r : DataTypeSpec)
  : option DataTypeSpec :=
  let numeric := isNumeric1 l && isNumeric1 r in
  match op with
  | ADD =>
      if isString1 l && isString1 r then Some stringSpec
      else if numeric then Some (Coercion.wider l r) else None
  | SUB | MUL | EXP | INTDIV | MOD =>
      if numeric then Some (Coercion.wider l r) else None
  | DIV =>
      if numeric then Some (Coercion.wider (Coercion.wider l r) singleSpec)
      else None
  | AND | OR => if numeric then Some integerSpec else None
  | EQ | NE | GT | GTE | LT | LTE =>
      if areMatchingElementaryTypes l r then Some integerSpec else None
  end.


(** *** What the analysis of an expression keeps *)

(** [a'] is [a] after the symbols [added] were declared, one after the
    other, each under a name that resolved to nothing when it was declared. *)
Inductive declares : Analyzer -> list VarSymbol -> Analyzer -> Prop :=
| declares_nil (a : Analyzer) : declares a [] a
| declares_cons (a a1 a' : Analyzer) (symbol : VarSymbol)
    (added : list VarSymbol) :
    lookupSymbol a (SymbolTable.name symbol) = Ok None ->
    addLocalSymbol a symbol = Ok a1 ->
    declares a1 added a' ->
    declares a (symbol :: added) a'.

(** The procedure is no function or has its return type set. *)
Definition procReady (proc : Proc) : bool :=
  negb (isFn proc)
  || match returnTypeSpec proc with
     | Some _ => true
     | None => false
     end.

(** Every function of the module has its return type set, as
    [preprocessProc] leaves it. *)
Definition procsReady (m : Module) : bool := forallb procReady (procs m).


(** The symbol is a variable typed by the suffix of its name: what a first
    reference to an undeclared name declares. *)
Definition implicitVariable (symbol : VarSymbol) : Prop :=
  symbol
  = mkVarSymbol (SymbolTable.name symbol) VAR
      (getTypeSpecFromSuffix (SymbolTable.name symbol)).


(** *** Statements, procedures and the module *)

Section Statements.

Variable binaryOpName : BinaryOp -> string.

(** [this.accept] on expressions; [depth] bounds the depth of the calls. *)
Variable depth : nat.

Definition acceptExpr (a : Analyzer) (node : Expr) : Result (Expr * Analyzer) :=
  accept binaryOpName depth a node.

Fixpoint requireElementaryTypeExpr (a : Analyzer) (exprs : list Expr)
  : Result (list Expr * Analyzer) :=
  match exprs with
  | [] => Ok ([], a)
  | expr :: exprs' =>
      r <- acceptExpr a expr ;;
      t <- nonNull (exprTypeSpec (fst r)) ;;
      if negb (isElementaryType t) then
        throwError ("Expected elementary type expression instead of "
                    +++ typeTag t) (exprLoc (fst r))
      else
        rs <- requireElementaryTypeExpr (snd r) exprs' ;;
        Ok (fst r :: fst rs, snd rs)
  end.

Definition visitAssignStmt (a : Analyzer) (targetExpr valueExpr : Expr)
  (loc : Loc) : Result (Stmt * Analyzer) :=
  t <- acceptExpr a targetExpr ;;
  v <- acceptExpr (snd t) valueExpr ;;
  targetTypeSpec <- nonNull (exprTypeSpec (fst t)) ;;
  valueTypeSpec <- nonNull (exprTypeSpec (fst v)) ;;
  if negb (areMatchingElementaryTypes targetTypeSpec valueTypeSpec) then
    throwError ("Incompatible types in assignment: " +++ typeTag targetTypeSpec
                +++ " and " +++ typeTag valueTypeSpec) loc
  else Ok (AssignStmt (fst t) (fst v) loc, snd v).

(** [visitForStmt]: the counter, start and end expressions and the step
    expression, when there is one, are required to be numeric, in this
    order. *)
Definition visitForStmt (a : Analyzer) (node : ForStmtNode)
  : Result (Stmt * Analyzer) :=
  r <- requireNumericExpr acceptExpr a
         ([counterExpr node; startExpr node; endExpr node]
          ++ match stepExpr node with
             | Some e => [e]
             | None => []
             end) ;;
  match fst r with
  | c :: s :: e :: rest =>
      Ok (ForStmt (mkForStmt c s e (hd_error rest) (forLoc node)), snd r)
  | _ => Throw TypeError
  end.

Definition visitNextStmt (a : Analyzer) (counterExprs : list Expr) (loc : Loc)
  : Result (Stmt * Analyzer) :=
  r <- requireNumericExpr acceptExpr a counterExprs ;;
  Ok (NextStmt (fst r) loc, snd r).

(** The loop of [visitPrintStmt]: a separator is passed over, an expression
    is required to be of an elementary type. *)
Fixpoint printArgsLoop (a : Analyzer) (args : list PrintStmtArg)
  : Result (list PrintStmtArg * Analyzer) :=
  match args with
  | [] => Ok ([], a)
  | PrintSep sep :: args' =>
      rs <- printArgsLoop a args' ;;
      Ok (PrintSep sep :: fst rs, snd rs)
  | PrintExpr e :: args' =>
      r <- requireElementaryTypeExpr a [e] ;;
      rs <- printArgsLoop (snd r) args' ;;
      Ok (PrintExpr (hd e (fst r)) :: fst rs, snd rs)
  end.

Definition visitPrintStmt (a : Analyzer) (args : list PrintStmtArg) (loc : Loc)
  : Result (Stmt * Analyzer) :=
  r <- printArgsLoop a args ;;
  Ok (PrintStmt (fst r) loc, snd r).

Definition visitInputStmt (a : Analyzer) (prompt : string)
  (targetExprs : list Expr) (loc : Loc) : Result (Stmt * Analyzer) :=
  r <- requireElementaryTypeExpr a targetExprs ;;
  Ok (InputStmt prompt (fst r) loc, snd r).

Section NestedStatements.

(** [this.acceptAll] on the statements of a branch or of a loop body. *)
Variable acceptAllRec : Analyzer -> list Stmt -> Result (list Stmt * Analyzer).

(** The loop of [visitIfStmt] over the IF and ELSEIF branches. *)
Fixpoint ifBranchesLoop (a : Analyzer) (ifBranches : list (Expr * list Stmt))
  : Result (list (Expr * list Stmt) * Analyzer) :=
  match ifBranches with
  | [] => Ok ([], a)
  | (condExpr, stmts) :: ifBranches' =>
      c <- requireNumericExpr acceptExpr a [condExpr] ;;
      s <- acceptAllRec (snd c) stmts ;;
      rs <- ifBranchesLoop (snd s) ifBranches' ;;
      Ok ((hd condExpr (fst c), fst s) :: fst rs, snd rs)
  end.

Definition visitIfStmt (a : Analyzer) (ifBranches : list (Expr * list Stmt))
  (elseBranch : list Stmt) (loc : Loc) : Result (Stmt * Analyzer) :=
  b <- ifBranchesLoop a ifBranches ;;
  e <- acceptAllRec (snd b) elseBranch ;;
  Ok (IfStmt (fst b) (fst e) loc, snd e).

Definition visitCondLoopStmt (a : Analyzer) (structure : CondLoopStructure)
  (isCondNegated : bool) (condExpr : Expr) (stmts : list Stmt) (loc : Loc)
  : Result (Stmt * Analyzer) :=
  c <- requireNumericExpr acceptExpr a [condExpr] ;;
  s <- acceptAllRec (snd c) stmts ;;
  Ok (CondLoopStmt structure isCondNegated (hd condExpr (fst c)) (fst s) loc,
      snd s).

Definition visitUncondLoopStmt (a : Analyzer) (stmts : list Stmt) (loc : Loc)
  : Result (Stmt * Analyzer) :=
  s <- acceptAllRec a stmts ;;
  Ok (UncondLoopStmt (fst s) loc, snd s).

(** The dispatch of [accept] on a statement node; the visitors of labels,
    jumps, exits and END do nothing. *)
Definition visitStmt (a : Analyzer) (node : Stmt) : Result (Stmt * Analyzer) :=
  match node with
  | AssignStmt targetExpr valueExpr loc =>
      visitAssignStmt a targetExpr valueExpr loc
  | IfStmt ifBranches elseBranch loc => visitIfStmt a ifBranches elseBranch loc
  | CondLoopStmt structure isCondNegated condExpr stmts loc =>
      visitCondLoopStmt a structure isCondNegated condExpr stmts loc
  | UncondLoopStmt stmts loc => visitUncondLoopStmt a stmts loc
  | ForStmt forNode => visitForStmt a forNode
  | NextStmt counterExprs loc => visitNextStmt a counterExprs loc
  | PrintStmt args loc => visitPrintStmt a args loc
  | InputStmt prompt targetExprs loc => visitInputStmt a prompt targetExprs loc
  | LabelStmt _ _ | GotoStmt _ _ | ExitLoopStmt _ | ExitForStmt _
  | GosubStmt _ _ | ReturnStmt _ _ | EndStmt _ => Ok (node, a)
  end.

(** [this.acceptAll(stmts)] *)
Fixpoint acceptAllWith (a : Analyzer) (nodes : list Stmt)
  : Result (list Stmt * Analyzer) :=
  match nodes with
  | [] => Ok ([], a)
  | node :: nodes' =>
      r <- visitStmt a node ;;
      rs <- acceptAllWith (snd r) nodes' ;;
      Ok (fst r :: fst rs, snd rs)
  end.

End NestedStatements.

(** [acceptAll] on statements; [fuel] bounds the nesting depth of the
    statements. *)
Fixpoint acceptAllStmts (fuel : nat) (a : Analyzer) (nodes : list Stmt)
  : Result (list Stmt * Analyzer) :=
  match fuel with
  | O => Throw OutOfFuel
  | S fuel' => acceptAllWith (acceptAllStmts fuel') a nodes
  end.

(** [preprocessProc]: the param symbols, typed by the suffix of their
    names, and the locals, empty but for the variable of a function's own
    name, which has the function's return type. *)
Definition preprocessProc (node : Proc) : Proc :=
  let paramSymbols :=
    map (fun param =>
           mkVarSymbol (paramName param) ARG
             (getTypeSpecFromSuffix (paramName param))) (params node) in
  if isFn node then
    let returnTypeSpec := getTypeSpecFromSuffix (procName node) in
    mkProc (procType node) (procName node) (params node) (procStmts node)
      (Some paramSymbols)
      (Some ([] ++ [mkVarSymbol (procName node) VAR returnTypeSpec]))
      (Some returnTypeSpec) (procLoc node)
  else
    mkProc (procType node) (procName node) (params node) (procStmts node)
      (Some paramSymbols) (Some []) (returnTypeSpec node) (procLoc node).

Definition setProcStmts (proc : Proc) (stmts : list Stmt) : Proc :=
  mkProc (procType proc) (procName proc) (params proc) stmts
    (paramSymbols proc) (localSymbols proc) (returnTypeSpec proc)
    (procLoc proc).

(** [visitFnProc] on the proc at index [i] of [module.procs]: its
    statements are analyzed, and left annotated in the proc, with the proc as
    the current one, which is reset afterwards. *)
Definition visitFnProc (fuel : nat) (a : Analyzer) (i : nat) : Result Analyzer :=
  node <- nonNull (nth_error (procs (module a)) i) ;;
  r <- acceptAllStmts fuel (mkAnalyzer (module a) (Some i)) (procStmts node) ;;
  let m := module (snd r) in
  node' <- nonNull (nth_error (procs m) i) ;;
  Ok (mkAnalyzer
        (mkModule (updateNth (procs m) i (setProcStmts node' (fst r)))
           (stmts m) (moduleLocalSymbols m) (moduleGlobalSymbols m))
        None).

(** [this.acceptAll(module.procs)], from the proc at index [i] on. *)
Fixpoint visitProcsFrom (fuel : nat) (a : Analyzer) (i count : nat)
  : Result Analyzer :=
  match count with
  | O => Ok a
  | S count' =>
      a' <- visitFnProc fuel a i ;;
      visitProcsFrom fuel a' (S i) count'
  end.

(** [visitModule]: the procs are preprocessed, the symbol tables of the
    module emptied, then the statements of the module and those of each proc
    are analyzed; the module is returned as the analysis leaves it. *)
Definition visitModule (fuel : nat) (m : Module) : Result Module :=
  let preprocessed := map preprocessProc (procs m) in
  let a := mkAnalyzer (mkModule preprocessed (stmts m) (Some []) (Some []))
             None in
  r <- acceptAllStmts fuel a (stmts m) ;;
  let m1 := module (snd r) in
  let a1 := mkAnalyzer
              (mkModule (procs m1) (fst r) (moduleLocalSymbols m1)
                 (moduleGlobalSymbols m1)) None in
  a2 <- visitProcsFrom fuel a1 0 (List.length (procs m1)) ;;
  Ok (module a2).

End Statements.

(** [run()] *)
Definition run (binaryOpName : BinaryOp -> string) (depth fuel : nat)
  (m : Module) : Result Module :=
  visitModule binaryOpName depth fuel m.


(** *** Annotated nodes *)

Definition isSome {A : Type} (x : option A) : bool :=
  match x with
  | Some _ => true
  | None => false
  end.

(** The expression and every expression below it carry their type, a
    variable reference its kind and scope as well. *)
Fixpoint typedExpr (e : Expr) : bool :=
  match e with
  | LiteralExpr _ t _ => isSome t
  | VarRefExpr _ t vt vs _ => isSome t && isSome vt && isSome vs
  | FnCallExpr _ argExprs t _ => isSome t && forallb typedExpr argExprs
  | BinaryOpExpr _ leftExpr rightExpr t _ =>
      isSome t && typedExpr leftExpr && typedExpr rightExpr
  | UnaryOpExpr _ rightExpr t _ => isSome t && typedExpr rightExpr
  end.

(** Every expression of the statement, at whatever depth, is typed. *)
Fixpoint typedStmt (s : Stmt) : bool :=
  match s with
  | AssignStmt targetExpr valueExpr _ =>
      typedExpr targetExpr && typedExpr valueExpr
  | IfStmt ifBranches elseBranch _ =>
      forallb (fun branch =>
                 match branch with
                 | (condExpr, stmts) =>
                     typedExpr condExpr && forallb typedStmt stmts
                 end) ifBranches
      && forallb typedStmt elseBranch
  | CondLoopStmt _ _ condExpr stmts _ =>
      typedExpr condExpr && forallb typedStmt stmts
  | UncondLoopStmt stmts _ => forallb typedStmt stmts
  | ForStmt node =>
      typedExpr (counterExpr node) && typedExpr (startExpr node)
      && typedExpr (endExpr node)
      && match stepExpr node with
         | Some e => typedExpr e
         | None => true
         end
  | NextStmt counterExprs _ => forallb typedExpr counterExprs
  | PrintStmt args _ =>
      forallb (fun arg =>
                 match arg with
                 | PrintExpr e => typedExpr e
                 | PrintSep _ => true
                 end) args
  | InputStmt _ targetExprs _ => forallb typedExpr targetExprs
  | LabelStmt _ _ | GotoStmt _ _ | ExitLoopStmt _ | ExitForStmt _
  | GosubStmt _ _ | ReturnStmt _ _ | EndStmt _ => true
  end.


(** Two states of a procedure that differ in its local symbols at most. *)
Definition sameButLocals (p p' : Proc) : Prop :=
  procType p' = procType p /\ procName p' = procName p
  /\ params p' = params p /\ procStmts p' = procStmts p
  /\ paramSymbols p' = paramSymbols p
  /\ returnTypeSpec p' = returnTypeSpec p /\ procLoc p' = procLoc p.

(** The statements of the module and of every procedure are typed. *)
Definition typedModule (m : Module) : bool :=
  forallb typedStmt (stmts m)
  && forallb (fun proc => forallb typedStmt (procStmts proc)) (procs m).

End SemanticAnalyzer.

(** ** The code generator (codegen/code-generator.ts) *)

Module CodeGenerator.

Import Ast.

(** A chunk of generated code: a string or a source node (the source-map
    library's [SourceNode]) with its position, source file and children. *)
Inductive Chunk : Type :=
| Text (s : string)
| Node (line col : option nat) (source : string) (children : list Chunk).

(** [SourceNode.prototype.toString] *)
Fixpoint toString (c : Chunk) : string :=
  match c with
  | Text s => s
  | Node _ _ _ children =>
      (fix concat (l : list Chunk) : string :=
         match l with
         | [] => ""
         | x :: l' => toString x +++ concat l'
         end) children
  end.

(** [SourceNode.prototype.add] on an array: the chunks become children in
    order, empty strings are left out. *)
Definition addChunks (chunks : list Chunk) : list Chunk :=
  filter (fun c => match c with Text EmptyString => false | _ => true end)
    chunks.

(** The text of a list of chunks, one after the other. *)
Definition concatText (cs : list Chunk) : string :=
  fold_right (fun c acc => toString c +++ acc) "" cs.

(** Temporary state for an open for loop during the codegen process. *)
Record ForStmtState : Type := mkForStmtState {
  forStmt : ForStmtNode;
  startLabel : string;
  endLabel : string;
  stepValue : string;
  endValue : string
}.

(** Temporary state for an open conditional / unconditional loop. *)
Record LoopStmtState : Type := mkLoopStmtState {
  loopStmt : Stmt;
  loopEndLabel : string
}.

(** The generator object's mutable fields; the two stacks are arrays, the
    innermost open loop last. *)
Record Generator : Type := mkGenerator {
  openForStmtStates : list ForStmtState;
  openLoopStmtStates : list LoopStmtState;
  indent : Z;
  nextGeneratedLabelIdx : nat
}.

(** A method of the generator: it returns a value and the generator as it
    has left it, or throws. *)
Definition Gen (A : Type) : Type := Generator -> Result (A * Generator).

Definition ret {A : Type} (a : A) : Gen A := fun g => Ok (a, g).

Definition bindG {A B : Type} (m : Gen A) (k : A -> Gen B) : Gen B :=
  fun g =>
    match m g with
    | Ok (a, g') => k a g'
    | Throw e => Throw e
    end.

Definition lift {A : Type} (r : Result A) : Gen A :=
  fun g =>
    match r with
    | Ok a => Ok (a, g)
    | Throw e => Throw e
    end.

Definition getG : Gen Generator := fun g => Ok (g, g).

Definition putG (g : Generator) : Gen unit := fun _ => Ok (tt, g).

Notation "x <~ m ;; k" := (bindG m (fun x => k))
  (at level 61, m at next level, right associativity).
Notation "m ~;; k" := (bindG m (fun _ => k))
  (at level 61, right associativity).

(** Modelled from the spec: [throwError] of the visitor base class raises
    the generator's error with the message and the node's location. *)
Definition throwError {A : Type} (message : string) (loc : Loc) : Result A :=
  Throw (CodegenError message loc).

(** [++this.indent], [--this.indent] and [this.indent += n] *)
Definition addIndent (n : Z) : Gen unit :=
  fun g =>
    Ok (tt, mkGenerator (openForStmtStates g) (openLoopStmtStates g)
              (indent g + n) (nextGeneratedLabelIdx g)).

Definition setOpenForStmtStates (l : list ForStmtState) : Gen unit :=
  fun g =>
    Ok (tt, mkGenerator l (openLoopStmtStates g) (indent g)
              (nextGeneratedLabelIdx g)).

Definition setOpenLoopStmtStates (l : list LoopStmtState) : Gen unit :=
  fun g =>
    Ok (tt, mkGenerator (openForStmtStates g) l (indent g)
              (nextGeneratedLabelIdx g)).

(** An argument of [lines]: a line of text or a change of the indentation. *)
Inductive LineValue : Type :=
| Line (s : string)
| Indent (n : Z).

Section Options.

(** The generator's options, [indentWidth] a natural number. *)
Variable sourceFileName : string.
Variable indentWidth : nat.

(** The string values of the enums of runtime/compiled-code, which is not
    among the sources: the execution directive types, the value print
    argument type and the function proc type. *)
Variable GOTO GOSUB RETURN END VALUE FN : string.

(** [JSON.stringify] on a string and on an expression's type spec (absent
    when the expression has none). *)
Variable jsonOfString : string -> string.
Variable jsonOfTypeSpec : option DataTypeSpec -> string.

(** [this.accept] on a function call. This class has no visit method for
    one; what the dispatch of [accept] then does is the base class's, in
    ast/ast, which is not among the sources. *)
Variable acceptFnCall : Expr -> Result Chunk.

Definition createSourceNode (loc : Loc) (chunks : list Chunk) : Chunk :=
  Node (Some (line loc)) (Some (col loc)) sourceFileName (addChunks chunks).

(** The loop of [lines]; [String.prototype.repeat] throws a RangeError on
    a negative count. *)
Fixpoint linesLoop (values : list LineValue) (ind : Z)
  (outputLines : list string) : Result (list string * Z) :=
  match values with
  | [] => Ok (outputLines, ind)
  | Line value :: values' =>
      match value with
      | EmptyString => linesLoop values' ind (outputLines ++ [EmptyString])
      | _ =>
          if (Z.of_nat indentWidth * ind <? 0)%Z then Throw RangeError
          else
            let indentStr :=
              Str.repeat " " (Z.to_nat (Z.of_nat indentWidth * ind)) in
            linesLoop values' ind (outputLines ++ [indentStr +++ value])
      end
  | Indent n :: values' => linesLoop values' (ind + n)%Z outputLines
  end.

Definition lines (values : list LineValue) : Gen string :=
  fun g =>
    r <- linesLoop values (indent g) [] ;;
    Ok (String.concat Runtime.NL (fst r),
        mkGenerator (openForStmtStates g) (openLoopStmtStates g) (snd r)
          (nextGeneratedLabelIdx g)).

Definition generateLabel : Gen string :=
  fun g =>
    Ok ("$" +++ Str.ofNat (nextGeneratedLabelIdx g),
        mkGenerator (openForStmtStates g) (openLoopStmtStates g) (indent g)
          (S (nextGeneratedLabelIdx g))).

Definition generateLoc (loc : Loc) : string :=
  "loc: [" +++ Str.ofNat (line loc) +++ ", " +++ Str.ofNat (col loc) +++ "],".

(** [generateLabelStmt(node, label)]; [None] is a [null] or [undefined]
    node. *)
Definition generateLabelStmt (node : option Loc) (label : string) : Gen string :=
  lines ([Line "{"; Indent 1]
         ++ match node with
            | Some loc => [Line (generateLoc loc)]
            | None => []
            end
         ++ [Line ("label: '" +++ label +++ "',"); Indent (-1); Line "},";
             Line ""]).

Definition generateGotoCode (destLabel : string) : string :=
  "return { type: '" +++ GOTO +++ "', destLabel: '" +++ destLabel +++ "' };".

Definition generateTempVarRef (label : string) : string :=
  "ctx.tempVars['" +++ label +++ "']".

(** [createStmtSourceNode(node, generateRunCode)]; the run code is generated
    after the first three groups of lines. *)
Definition createStmtSourceNode (loc : Loc) (generateRunCode : Result (list Chunk))
  : Gen Chunk :=
  l1 <~ lines [Line "{"; Indent 1; Line ""] ;;
  l2 <~ lines [Line (generateLoc loc); Line ""] ;;
  l3 <~ lines [Line "async run(ctx) { "] ;;
  code <~ lift generateRunCode ;;
  l4 <~ lines [Indent (-1); Line "},"; Line ""] ;;
  ret (createSourceNode loc
         ([Text l1; Text l2; Text l3] ++ code
          ++ [Text (" }," +++ Runtime.NL); Text l4])).

(** *** Expressions *)

(** The [OP_MAP] of [visitBinaryOpExpr], as a template literal renders its
    entry; EXP and INTDIV, which have none, are lowered before it is read. *)
Definition binaryOpMap (op : BinaryOp) : string :=
  match op with
  | ADD => "+"
  | SUB => "-"
  | MUL => "*"
  | DIV => "/"
  | MOD => "%"
  | AND => "&&"
  | OR => "||"
  | EQ => "==="
  | NE => "!="
  | GT => ">"
  | GTE => ">="
  | LT => "<"
  | LTE => "<="
  | EXP | INTDIV => "undefined"
  end.


(** The [OP_MAP] of [visitUnaryOpExpr]; it has no entry for [PARENS], whose
    lookup gives [undefined]. *)
Definition unaryOpMap (op : UnaryOp) : option string :=
  match op with
  | NEG => Some "-"
  | NOT => Some "!"
  | PARENS => None
  end.

(** [this.accept] on an expression node; a function call is left to
    [acceptFnCall]. In [visitUnaryOpExpr] the operator's text is a chunk of
    the new source node; an [undefined] chunk makes [SourceNode.add] throw a
    TypeError. *)
Fixpoint acceptExpr (node : Expr) : Result Chunk :=
  match node with
  | LiteralExpr value _ loc =>
      match value with
      | LitString s => Ok (createSourceNode loc [Text ("'" +++ s +++ "'")])
      | LitNumber rendered => Ok (createSourceNode loc [Text rendered])
      | LitOther _ json =>
          throwError ("Unrecognized literal value: " +++ json) loc
      end
  | VarRefExpr name _ _ _ loc =>
      Ok (createSourceNode loc [Text ("ctx.localVars['" +++ name +++ "']")])
  | FnCallExpr _ _ _ _ => acceptFnCall node
  | BinaryOpExpr op leftExpr rightExpr _ loc =>
      l <- acceptExpr leftExpr ;;
      r <- acceptExpr rightExpr ;;
      match op with
      | EXP => Ok (createSourceNode loc
                     [Text "Math.pow("; l; Text ", "; r; Text ")"])
      | INTDIV => Ok (createSourceNode loc
                        [Text "Math.floor("; l; Text " / "; r; Text ")"])
      | _ => Ok (createSourceNode loc
                   [Text "("; l; Text (" " +++ binaryOpMap op +++ " "); r;
                    Text ")"])
      end
  | UnaryOpExpr op rightExpr _ loc =>
      r <- acceptExpr rightExpr ;;
      match unaryOpMap op with
      | Some opText =>
          Ok (createSourceNode loc [Text "("; Text opText; r; Text ")"])
      | None => Throw TypeError
      end
  end.

(** *** Statements *)

(** [nodes.map(f)] for a [f] that runs in the generator, in order. *)
Fixpoint mapG {A B : Type} (f : A -> Gen B) (l : list A) : Gen (list B) :=
  match l with
  | [] => ret []
  | x :: l' =>
      y <~ f x ;;
      ys <~ mapG f l' ;;
      ret (y :: ys)
  end.

Definition mapResult {A B : Type} (f : A -> Result B) (l : list A)
  : Result (list B) :=
  fold_right (fun x acc => y <- f x ;; ys <- acc ;; Ok (y :: ys)) (Ok []) l.

Definition visitLabelStmt (label : string) (loc : Loc) : Gen Chunk :=
  s <~ generateLabelStmt (Some loc) label ;;
  ret (createSourceNode loc [Text s]).

Definition visitAssignStmt (targetExpr valueExpr : Expr) (loc : Loc) : Gen Chunk :=
  createStmtSourceNode loc
    (t <- acceptExpr targetExpr ;;
     v <- acceptExpr valueExpr ;;
     Ok [t; Text " = "; v; Text ";"]).

Definition visitGotoStmt (destLabel : string) (loc : Loc) : Gen Chunk :=
  createStmtSourceNode loc (Ok [Text (generateGotoCode destLabel)]).

Definition visitExitLoopStmt (loc : Loc) : Gen Chunk :=
  g <~ getG ;;
  match List.length (openLoopStmtStates g) with
  | O => lift (throwError "EXIT DO statement outside DO loop" loc)
  | S n =>
      createStmtSourceNode loc
        (st <- SemanticAnalyzer.nonNull (nth_error (openLoopStmtStates g) n) ;;
         Ok [Text (generateGotoCode (loopEndLabel st))])
  end.

Definition visitForStmt (node : ForStmtNode) : Gen Chunk :=
  labelPrefix <~ generateLabel ;;
  let startLabel := labelPrefix +++ "_loopStart" in
  let endLabel := labelPrefix +++ "_loopEnd" in
  let stepValue := generateTempVarRef (labelPrefix +++ "_step") in
  let endValue := generateTempVarRef (labelPrefix +++ "_end") in
  g <~ getG ;;
  setOpenForStmtStates
    (openForStmtStates g
     ++ [mkForStmtState node startLabel endLabel stepValue endValue]) ~;;
  init <~ createStmtSourceNode (forLoc node)
            (c <- acceptExpr (counterExpr node) ;;
             s <- acceptExpr (startExpr node) ;;
             st <- match stepExpr node with
                   | Some e => acceptExpr e
                   | None => Ok (Text "1")
                   end ;;
             e <- acceptExpr (endExpr node) ;;
             Ok [c; Text " = "; s; Text "; ";
                 Text (stepValue +++ " = "); st; Text "; ";
                 Text (endValue +++ " = "); e; Text ";"]) ;;
  startLabelStmt <~ generateLabelStmt (Some (forLoc node)) startLabel ;;
  addIndent 1 ~;;
  guard <~ createStmtSourceNode (forLoc node)
             (c <- acceptExpr (counterExpr node) ;;
              Ok [Text "const counterValue = "; c; Text "; ";
                  Text "if (";
                  Text ("(" +++ stepValue +++ " >= 0 && counterValue > "
                        +++ endValue +++ ") || ");
                  Text ("(" +++ stepValue +++ " < 0 && counterValue < "
                        +++ endValue +++ ")");
                  Text (") { " +++ generateGotoCode endLabel +++ " }")]) ;;
  ret (createSourceNode (forLoc node) [init; Text startLabelStmt; guard]).

(** The first loop of [visitNextStmt]: the counter expressions are checked
    against the open FOR statements, innermost first, from index [i] on. *)
Fixpoint verifyCounters (loc : Loc) (open : list ForStmtState) (i : nat)
  (counterExprs : list Expr) : Result unit :=
  match counterExprs with
  | [] => Ok tt
  | counter :: counterExprs' =>
      n <- acceptExpr counter ;;
      let nextCounterExprString := toString n in
      st <- SemanticAnalyzer.nonNull
              (nth_error open (List.length open - 1 - i)) ;;
      f <- acceptExpr (counterExpr (forStmt st)) ;;
      let forStmtCounterExprString := toString f in
      if negb (String.eqb nextCounterExprString forStmtCounterExprString) then
        throwError ("Counter #" +++ Str.ofNat (i + 1)
                    +++ " does not match corresponding FOR statement") loc
      else verifyCounters loc open (S i) counterExprs'
  end.

(** One iteration of the second loop of [visitNextStmt]: the innermost open
    FOR statement is popped and closed. *)
Definition closeForStmt (loc : Loc) : Gen (list Chunk) :=
  g <~ getG ;;
  st <~ lift (SemanticAnalyzer.nonNull
                (nth_error (openForStmtStates g)
                   (List.length (openForStmtStates g) - 1))) ;;
  setOpenForStmtStates (removelast (openForStmtStates g)) ~;;
  step <~ createStmtSourceNode loc
            (c <- acceptExpr (counterExpr (forStmt st)) ;;
             Ok [c; Text (" += " +++ stepValue st +++ "; ");
                 Text (generateGotoCode (startLabel st))]) ;;
  addIndent (-1) ~;;
  label <~ generateLabelStmt (Some (forLoc (forStmt st))) (endLabel st) ;;
  release <~ createStmtSourceNode (forLoc (forStmt st))
               (Ok [Text ("delete " +++ stepValue st +++ "; delete "
                          +++ endValue st +++ ";")]) ;;
  ret [step; Text label; release].

Fixpoint closeForStmts (loc : Loc) (n : nat) : Gen (list Chunk) :=
  match n with
  | O => ret []
  | S n' =>
      chunks <~ closeForStmt loc ;;
      rest <~ closeForStmts loc n' ;;
      ret (chunks ++ rest)
  end.

Definition visitNextStmt (counterExprs : list Expr) (loc : Loc) : Gen Chunk :=
  (* Determine how many open FOR statements this NEXT statement will close:
     [counterExprs.length || 1]. *)
  let numForStmtStatesToClose :=
    match List.length counterExprs with
    | O => 1
    | n => n
    end in
  g <~ getG ;;
  if (List.length (openForStmtStates g) <? numForStmtStatesToClose)%nat then
    lift (throwError "NEXT statement without corresponding FOR statement" loc)
  else
    (* Verify that the counter expressions match the FOR statements. *)
    lift (verifyCounters loc (openForStmtStates g) 0 counterExprs) ~;;
    (* Generate code. *)
    chunks <~ closeForStmts loc numForStmtStatesToClose ;;
    ret (createSourceNode loc chunks).

Definition visitExitForStmt (loc : Loc) : Gen Chunk :=
  g <~ getG ;;
  match List.length (openForStmtStates g) with
  | O => lift (throwError "EXIT FOR statement outside FOR loop" loc)
  | S n =>
      createStmtSourceNode loc
        (st <- SemanticAnalyzer.nonNull (nth_error (openForStmtStates g) n) ;;
         Ok [Text (generateGotoCode (endLabel st))])
  end.

Definition visitGosubStmt (destLabel : string) (loc : Loc) : Gen Chunk :=
  createStmtSourceNode loc
    (Ok [Text ("return { type: '" +++ GOSUB +++ "', destLabel: '"
               +++ destLabel +++ "' };")]).

Definition visitReturnStmt (destLabel : option string) (loc : Loc) : Gen Chunk :=
  createStmtSourceNode loc
    (Ok [Text ("return { type: '" +++ RETURN +++ "'"
               +++ match destLabel with
                   | Some EmptyString | None => ""
                   | Some d => ", destLabel: '" +++ d +++ "'"
                   end
               +++ " };")]).

Definition visitEndStmt (loc : Loc) : Gen Chunk :=
  createStmtSourceNode loc (Ok [Text ("return { type: '" +++ END +++ "' };")]).

Definition visitPrintStmt (args : list PrintStmtArg) (loc : Loc) : Gen Chunk :=
  createStmtSourceNode loc
    (cs <- mapResult
             (fun arg =>
                match arg with
                | PrintSep sep => Ok (Text ("{ type: '" +++ sep +++ "' },"))
                | PrintExpr e =>
                    c <- acceptExpr e ;;
                    Ok (createSourceNode (exprLoc e)
                          [Text ("{ type: '" +++ VALUE +++ "', value: "); c;
                           Text " },"])
                end) args ;;
     Ok ([Text "ctx.runtime.print("] ++ cs ++ [Text ");"])).

(** The assignments of the results of INPUT, from index [i] on. *)
Fixpoint inputTargets (i : nat) (targetExprs : list Expr) : Result (list Chunk) :=
  match targetExprs with
  | [] => Ok []
  | e :: targetExprs' =>
      c <- acceptExpr e ;;
      cs <- inputTargets (S i) targetExprs' ;;
      Ok (createSourceNode (exprLoc e)
            [c; Text (" = results[" +++ Str.ofNat i +++ "]; ")] :: cs)
  end.

Definition visitInputStmt (prompt : string) (targetExprs : list Expr)
  (loc : Loc) : Gen Chunk :=
  createStmtSourceNode loc
    (cs <- inputTargets 0 targetExprs ;;
     Ok ([Text "const results = await ctx.runtime.input(";
          Text (jsonOfString prompt +++ ", ");
          Text (String.concat ", "
                  (map (fun e => jsonOfTypeSpec (exprTypeSpec e)) targetExprs));
          Text "); "] ++ cs)).

(** *** Statements that hold statements *)

Section Nested.

(** [this.visitStmts] on the statements of a branch or loop body. *)
Variable visitStmtsRec : list Stmt -> Gen (list Chunk).

Definition firstStmtLoc (stmts : list Stmt) : option Loc :=
  option_map stmtLoc (hd_error stmts).

(** The labels of the branches of an IF after the first: one per ELSEIF,
    one for a non-empty ELSE, and the END IF; each with the node its label
    statement is located at. *)
Definition branchLabelsOf (branchLabelPrefix : string)
  (ifBranches : list (Expr * list Stmt)) (elseBranch : list Stmt)
  : list (option Loc * string) :=
  (fix elifs (i : nat) (bs : list (Expr * list Stmt)) :=
     match bs with
     | [] => []
     | b :: bs' =>
         (firstStmtLoc (snd b), branchLabelPrefix +++ "_elif" +++ Str.ofNat i)
         :: elifs (S i) bs'
     end) 1 (tl ifBranches)
  ++ match elseBranch with
     | [] => []
     | s :: _ => [(Some (stmtLoc s), branchLabelPrefix +++ "_else")]
     end
  ++ [(None, branchLabelPrefix +++ "_endif")].

(** The loop of [visitIfStmt] over the IF and ELSEIF branches. *)
Fixpoint ifBranchesLoop (endIfLabel : string)
  (branchLabels : list (option Loc * string)) (nextBranchLabelIdx : nat)
  (ifBranches : list (Expr * list Stmt)) : Gen (list Chunk) :=
  match ifBranches with
  | [] => ret []
  | (condExpr, stmts) :: ifBranches' =>
      next <~ lift (SemanticAnalyzer.nonNull
                      (nth_error branchLabels nextBranchLabelIdx)) ;;
      let nextBranchNode := fst next in
      let nextBranchLabel := snd next in
      test <~ createStmtSourceNode (exprLoc condExpr)
                (c <- acceptExpr condExpr ;;
                 Ok [Text "if (!("; c;
                     Text (")) { " +++ generateGotoCode nextBranchLabel
                           +++ " }")]) ;;
      addIndent 1 ~;;
      body <~ visitStmtsRec stmts ;;
      skip <~ (if (nextBranchLabelIdx <? List.length branchLabels - 1)%nat
               then
                 s <~ createStmtSourceNode (exprLoc condExpr)
                        (Ok [Text (generateGotoCode endIfLabel)]) ;;
                 ret [s]
               else ret []) ;;
      addIndent (-1) ~;;
      label <~ generateLabelStmt nextBranchNode nextBranchLabel ;;
      rest <~ ifBranchesLoop endIfLabel branchLabels (S nextBranchLabelIdx)
                ifBranches' ;;
      ret ([test] ++ body ++ skip ++ [Text label] ++ rest)
  end.

Definition visitIfStmt (ifBranches : list (Expr * list Stmt))
  (elseBranch : list Stmt) (loc : Loc) : Gen Chunk :=
  branchLabelPrefix <~ generateLabel ;;
  let branchLabels := branchLabelsOf branchLabelPrefix ifBranches elseBranch in
  let endIfLabel := branchLabelPrefix +++ "_endif" in
  chunks <~ ifBranchesLoop endIfLabel branchLabels 0 ifBranches ;;
  elseChunks <~ match elseBranch with
                | [] => ret []
                | _ =>
                    addIndent 1 ~;;
                    body <~ visitStmtsRec elseBranch ;;
                    addIndent (-1) ~;;
                    label <~ generateLabelStmt None endIfLabel ;;
                    ret (body ++ [Text label])
                end ;;
  ret (createSourceNode loc (chunks ++ elseChunks)).

Definition visitCondLoopStmt (node : Stmt) (structure : CondLoopStructure)
  (isCondNegated : bool) (condExpr : Expr) (stmts : list Stmt) (loc : Loc)
  : Gen Chunk :=
  labelPrefix <~ generateLabel ;;
  let loopStartLabel := labelPrefix +++ "_loopStart" in
  let loopEndLabel := labelPrefix +++ "_loopEnd" in
  c <~ lift (acceptExpr condExpr) ;;
  let cond := if isCondNegated then [c] else [Text "!("; c; Text ")"] in
  condStmt <~ createStmtSourceNode loc
                (Ok ([Text "if ("] ++ cond
                     ++ [Text (") { " +++ generateGotoCode loopEndLabel
                               +++ " }")])) ;;
  addIndent 1 ~;;
  g <~ getG ;;
  setOpenLoopStmtStates
    (openLoopStmtStates g ++ [mkLoopStmtState node loopEndLabel]) ~;;
  body <~ visitStmtsRec stmts ;;
  g' <~ getG ;;
  setOpenLoopStmtStates (removelast (openLoopStmtStates g')) ~;;
  addIndent (-1) ~;;
  startLabelStmt <~ generateLabelStmt (Some loc) loopStartLabel ;;
  let ordered :=
    match structure with
    | COND_EXPR_BEFORE_STMTS => [condStmt] ++ body
    | COND_EXPR_AFTER_STMTS => body ++ [condStmt]
    end in
  again <~ createStmtSourceNode loc (Ok [Text (generateGotoCode loopStartLabel)]) ;;
  endLabelStmt <~ generateLabelStmt (Some loc) loopEndLabel ;;
  ret (createSourceNode loc
         ([Text startLabelStmt] ++ ordered ++ [again; Text endLabelStmt])).

Definition visitUncondLoopStmt (node : Stmt) (stmts : list Stmt) (loc : Loc)
  : Gen Chunk :=
  labelPrefix <~ generateLabel ;;
  let loopStartLabel := labelPrefix +++ "_loopStart" in
  let loopEndLabel := labelPrefix +++ "_loopEnd" in
  startLabelStmt <~ generateLabelStmt (Some loc) loopStartLabel ;;
  addIndent 1 ~;;
  g <~ getG ;;
  setOpenLoopStmtStates
    (openLoopStmtStates g ++ [mkLoopStmtState node loopEndLabel]) ~;;
  body <~ visitStmtsRec stmts ;;
  g' <~ getG ;;
  setOpenLoopStmtStates (removelast (openLoopStmtStates g')) ~;;
  addIndent (-1) ~;;
  again <~ createStmtSourceNode loc (Ok [Text (generateGotoCode loopStartLabel)]) ;;
  endLabelStmt <~ generateLabelStmt (Some loc) loopEndLabel ;;
  ret (createSourceNode loc
         ([Text startLabelStmt] ++ body ++ [again; Text endLabelStmt])).

(** The dispatch of [accept] on a statement node. *)
Definition acceptStmt (node : Stmt) : Gen Chunk :=
  match node with
  | LabelStmt label loc => visitLabelStmt label loc
  | AssignStmt targetExpr valueExpr loc =>
      visitAssignStmt targetExpr valueExpr loc
  | GotoStmt destLabel loc => visitGotoStmt destLabel loc
  | IfStmt ifBranches elseBranch loc => visitIfStmt ifBranches elseBranch loc
  | CondLoopStmt structure isCondNegated condExpr stmts loc =>
      visitCondLoopStmt node structure isCondNegated condExpr stmts loc
  | UncondLoopStmt stmts loc => visitUncondLoopStmt node stmts loc
  | ExitLoopStmt loc => visitExitLoopStmt loc
  | ForStmt forNode => visitForStmt forNode
  | NextStmt counterExprs loc => visitNextStmt counterExprs loc
  | ExitForStmt loc => visitExitForStmt loc
  | GosubStmt destLabel loc => visitGosubStmt destLabel loc
  | ReturnStmt destLabel loc => visitReturnStmt destLabel loc
  | EndStmt loc => visitEndStmt loc
  | PrintStmt args loc => visitPrintStmt args loc
  | InputStmt prompt targetExprs loc => visitInputStmt prompt targetExprs loc
  end.

(** [this.acceptAll(stmts)] *)
Definition acceptAll (stmts : list Stmt) : Gen (list Chunk) :=
  mapG acceptStmt stmts.

(** The body of [visitStmts]. *)
Definition visitStmtsBody (stmts : list Stmt) : Gen (list Chunk) :=
  g <~ getG ;;
  let origOpenForStmtStatesLength := List.length (openForStmtStates g) in
  sourceNodes <~ acceptAll stmts ;;
  g' <~ getG ;;
  if (origOpenForStmtStatesLength <? List.length (openForStmtStates g'))%nat
  then
    st <~ lift (SemanticAnalyzer.nonNull
                  (nth_error (openForStmtStates g')
                     (List.length (openForStmtStates g') - 1))) ;;
    lift (throwError "FOR statement without corresponding NEXT statement"
            (forLoc (forStmt st)))
  else ret sourceNodes.

End Nested.

(** [visitStmts]; [fuel] bounds the nesting depth of the statements. *)
Fixpoint visitStmts (fuel : nat) (stmts : list Stmt) : Gen (list Chunk) :=
  match fuel with
  | O => lift (Throw OutOfFuel)
  | S fuel' => visitStmtsBody (visitStmts fuel') stmts
  end.

Definition visitFnProc (fuel : nat) (node : Proc) : Gen Chunk :=
  head <~ lines [Line "{"; Indent 1; Line (generateLoc (procLoc node));
                 Line ("type: '" +++ FN +++ "',");
                 Line ("name: '" +++ procName node +++ "',");
                 Line "stmts: ["; Line ""; Indent 1] ;;
  body <~ visitStmts fuel (procStmts node) ;;
  foot <~ lines [Indent (-1); Line "],"; Indent (-1); Line "},"; Line ""] ;;
  ret (createSourceNode (procLoc node) ([Text head] ++ body ++ [Text foot])).

Definition visitModule (fuel : nat) (module : Module) : Gen Chunk :=
  g <~ getG ;;
  putG (mkGenerator (openForStmtStates g) (openLoopStmtStates g) 0
          (nextGeneratedLabelIdx g)) ~;;
  c1 <~ lines [Line "const compiledModule = {"; Indent 1;
               Line ("sourceFileName: " +++ jsonOfString sourceFileName +++ ",");
               Line ""] ;;
  c2 <~ lines [Line "stmts: ["; Line ""; Indent 1] ;;
  c3 <~ visitStmts fuel (stmts module) ;;
  c4 <~ lines [Indent (-1); Line "],"; Line ""] ;;
  c5 <~ lines [Line "procs: ["; Line ""; Indent 1] ;;
  c6 <~ mapG (visitFnProc fuel) (procs module) ;;
  c7 <~ lines [Indent (-1); Line "],"; Line ""] ;;
  c8 <~ lines [Indent (-1); Line "};"; Line ""] ;;
  ret (Node None None sourceFileName
         (addChunks ([Text c1; Text c2] ++ c3 ++ [Text c4; Text c5] ++ c6
                     ++ [Text c7; Text c8]))).

(** *** The text of a closed FOR, as the specification describes it *)

(** The indentation of a line at level [ind]. *)
Definition pad (ind : Z) : string :=
  Str.repeat " " (Z.to_nat (Z.of_nat indentWidth * ind)).

(** A runnable statement object at level [ind]: its location and its run
    function around [runCode]. *)
Definition stmtObjectText (ind : Z) (loc : Loc) (runCode : string) : string :=
  pad ind +++ "{" +++ Runtime.NL
  +++ pad (ind + 1) +++ generateLoc loc +++ Runtime.NL
  +++ pad (ind + 1) +++ "async run(ctx) { " +++ runCode +++ " }," +++ Runtime.NL
  +++ pad ind +++ "}," +++ Runtime.NL.

(** A label object at level [ind]. *)
Definition labelObjectText (ind : Z) (loc : Loc) (label : string) : string :=
  pad ind +++ "{" +++ Runtime.NL
  +++ pad (ind + 1) +++ generateLoc loc +++ Runtime.NL
  +++ pad (ind + 1) +++ "label: '" +++ label +++ "'," +++ Runtime.NL
  +++ pad ind +++ "}," +++ Runtime.NL.

(** The code of a FOR frame's counter expression. *)
Definition counterText (st : ForStmtState) : string :=
  match acceptExpr (counterExpr (forStmt st)) with
  | Ok c => toString c
  | Throw _ => ""
  end.

(** What closing one FOR frame emits for a NEXT located at [loc], at level
    [ind]: the counter increment with the goto to the loop start, one level
    out the loop end label, and the release of the step and end temps. *)
Definition closedForText (loc : Loc) (ind : Z) (st : ForStmtState) : string :=
  stmtObjectText ind loc
    (counterText st +++ " += " +++ stepValue st +++ "; "
     +++ generateGotoCode (startLabel st))
  +++ labelObjectText (ind - 1) (forLoc (forStmt st)) (endLabel st)
  +++ stmtObjectText (ind - 1) (forLoc (forStmt st))
        ("delete " +++ stepValue st +++ "; delete " +++ endValue st +++ ";").

(** The frames are closed in the order given, each one level further out. *)
Fixpoint closedForsText (loc : Loc) (ind : Z) (frames : list ForStmtState)
  : string :=
  match frames with
  | [] => ""
  | st :: frames' =>
      closedForText loc ind st +++ closedForsText loc (ind - 1) frames'
  end.

(** The counter named by a NEXT has the textual form of the counter of the
    FOR frame [st]. *)
Definition counterMatches (e : Expr) (st : ForStmtState) : Prop :=
  exists c f,
    acceptExpr e = Ok c
    /\ acceptExpr (counterExpr (forStmt st)) = Ok f
    /\ toString c = toString f.

(** Both compile, to different texts. *)
Definition counterDiffers (e : Expr) (st : ForStmtState) : Prop :=
  exists c f,
    acceptExpr e = Ok c
    /\ acceptExpr (counterExpr (forStmt st)) = Ok f
    /\ toString c <> toString f.

(** The code of the frame's counter expression is generated. *)
Definition counterCompiles (st : ForStmtState) : Prop :=
  exists f, acceptExpr (counterExpr (forStmt st)) = Ok f.

(** How many FOR frames a NEXT with these counters closes. *)
Definition numForStmtStatesToClose (counterExprs : list Expr) : nat :=
  match List.length counterExprs with
  | O => 1
  | n => n
  end.

End Options.


(** *** What the visit of statements keeps *)

(** The change of the indentation level that a list of line values makes. *)
Fixpoint indentChange (values : list LineValue) : Z :=
  match values with
  | [] => 0
  | Line _ :: values' => indentChange values'
  | Indent n :: values' => n + indentChange values'
  end.

(** The generator [g'] stands to [g] as after a visit of statements: the
    stack of open DO loops is the same, the indentation has moved with the
    number of open FOR loops, and the label counter has not gone back. *)
Definition balanced (g g' : Generator) : Prop :=
  openLoopStmtStates g' = openLoopStmtStates g
  /\ (indent g' - Z.of_nat (List.length (openForStmtStates g'))
      = indent g - Z.of_nat (List.length (openForStmtStates g)))%Z
  /\ nextGeneratedLabelIdx g <= nextGeneratedLabelIdx g'.


(** *** What the expressions compile to *)

(** The expressions this class has visit methods and operator entries
    for, at every depth: literals, variables, binary operations and the
    unary operations NEG and NOT. *)
Fixpoint visited (e : Expr) : bool :=
  match e with
  | LiteralExpr _ _ _ => true
  | VarRefExpr _ _ _ _ _ => true
  | FnCallExpr _ _ _ _ => false
  | BinaryOpExpr _ leftExpr rightExpr _ _ =>
      visited leftExpr && visited rightExpr
  | UnaryOpExpr PARENS _ _ _ => false
  | UnaryOpExpr _ rightExpr _ _ => visited rightExpr
  end.

(** The first literal, in the order of the visit (the left operand before
    the right), that is neither a string nor a number: its JSON text and
    its location. *)
Fixpoint firstUnrecognized (e : Expr) : option (string * Loc) :=
  match e with
  | LiteralExpr (LitOther _ json) _ loc => Some (json, loc)
  | LiteralExpr _ _ _ => None
  | VarRefExpr _ _ _ _ _ => None
  | FnCallExpr _ _ _ _ => None
  | BinaryOpExpr _ leftExpr rightExpr _ _ =>
      match firstUnrecognized leftExpr with
      | Some found => Some found
      | None => firstUnrecognized rightExpr
      end
  | UnaryOpExpr _ rightExpr _ _ => firstUnrecognized rightExpr
  end.

(** The JavaScript text of an expression: a string literal between single
    quotes, a number as rendered, a variable as an entry of [ctx.localVars],
    every operation between parentheses, the power and the integer division
    as calls of [Math]. *)
Fixpoint jsText (e : Expr) : string :=
  match e with
  | LiteralExpr (LitString s) _ _ => "'" +++ s +++ "'"
  | LiteralExpr (LitNumber rendered) _ _ => rendered
  | LiteralExpr (LitOther _ _) _ _ => ""
  | VarRefExpr name _ _ _ _ => "ctx.localVars['" +++ name +++ "']"
  | FnCallExpr _ _ _ _ => ""
  | BinaryOpExpr EXP l r _ _ =>
      "Math.pow(" +++ jsText l +++ ", " +++ jsText r +++ ")"
  | BinaryOpExpr INTDIV l r _ _ =>
      "Math.floor(" +++ jsText l +++ " / " +++ jsText r +++ ")"
  | BinaryOpExpr op l r _ _ =>
      "(" +++ jsText l +++ " " +++ binaryOpMap op +++ " " +++ jsText r +++ ")"
  | UnaryOpExpr NEG r _ _ => "(-" +++ jsText r +++ ")"
  | UnaryOpExpr NOT r _ _ => "(!" +++ jsText r +++ ")"
  | UnaryOpExpr PARENS _ _ _ => ""
  end.

End CodeGenerator.

(** ** A sample module, for running the analyzer on examples *)

Module Sample.

Import SymbolTable Ast.

Definition loc0 : Loc := mkLoc 1 1.

(** FUNCTION f, analyzed so far: no params, the local of its own name. *)
Definition procF : Proc :=
  mkProc ProcType.FN "f" [] [] (Some [])
    (Some [mkVarSymbol "f" VAR singleSpec]) (Some singleSpec) loc0.

(** A module with the variable x among its locals (declared by a use at
    module level) and the function f. *)
Definition sampleModule : Module :=
  mkModule [procF] [] (Some [mkVarSymbol "x" VAR singleSpec]) (Some []).

Definition binaryOpName (op : BinaryOp) : string := "".

(** FOR i = 1 TO 3, its frame as [visitForStmt] pushes it with label stem
    $1, and the generator inside that loop. *)
Definition varRef (name : string) (c : nat) : Expr :=
  VarRefExpr name None None None (mkLoc 1 c).

Definition forI : ForStmtNode :=
  mkForStmt (varRef "i" 5) (LiteralExpr (LitNumber "1") None (mkLoc 1 9))
    (LiteralExpr (LitNumber "3") None (mkLoc 1 14)) None (mkLoc 1 1).

Definition frameI : CodeGenerator.ForStmtState :=
  CodeGenerator.mkForStmtState forI "$1_loopStart" "$1_loopEnd"
    "ctx.tempVars['$1_step']" "ctx.tempVars['$1_end']".

Definition insideForI : CodeGenerator.Generator :=
  CodeGenerator.mkGenerator [frameI] [] 3 2.

(** The generator at the start of a module's statements. *)
Definition atStart : CodeGenerator.Generator :=
  CodeGenerator.mkGenerator [] [] 2 1.

(** A dispatch of [accept] on function calls for the sample runs, none of
    which holds a call. *)
Definition acceptFnCall (node : Expr) : Result CodeGenerator.Chunk :=
  Throw TypeError.

(** [visitStmts] with the options of a sample run. *)
Definition visitStmts :=
  CodeGenerator.visitStmts "test.bas" 4 "goto" "gosub" "return" "end" "value"
    (fun s => s) (fun _ => "null") acceptFnCall.

(** FOR j = 1 TO 3 on line 3, and its frame with label stem $3. *)
Definition forJ : ForStmtNode :=
  mkForStmt (VarRefExpr "j" None None None (mkLoc 3 5))
    (LiteralExpr (LitNumber "1") None (mkLoc 3 9))
    (LiteralExpr (LitNumber "3") None (mkLoc 3 14)) None (mkLoc 3 1).

Definition frameJ : CodeGenerator.ForStmtState :=
  CodeGenerator.mkForStmtState forJ "$3_loopStart" "$3_loopEnd"
    "ctx.tempVars['$3_step']" "ctx.tempVars['$3_end']".

(** The statements NEXT and FOR j = 1 TO 3, as the body of an IF branch. *)
Definition nextThenFor : list Stmt :=
  [NextStmt [] (mkLoc 2 1); ForStmt forJ].

(** FOR i = 1 TO 3, then IF c THEN with that body, then NEXT. *)
Definition forIfNext : list Stmt :=
  [ForStmt forI;
   IfStmt [(VarRefExpr "c" None None None (mkLoc 1 20), nextThenFor)] []
     (mkLoc 1 17);
   NextStmt [] (mkLoc 5 1)].


(** A program: total = total + f, PRINT total at module level, and the
    function f whose body is f = 1. *)
Definition program : Module :=
  mkModule
    [mkProc ProcType.FN "f" []
       [AssignStmt (varRef "f" 1) (LiteralExpr (LitNumber "1") None (mkLoc 5 5))
          (mkLoc 5 1)]
       None None None (mkLoc 4 1)]
    [AssignStmt (varRef "total" 1)
       (BinaryOpExpr ADD (varRef "Total" 9) (varRef "f" 17) None (mkLoc 1 15))
       (mkLoc 1 1);
     PrintStmt [PrintExpr (varRef "total" 7); PrintSep ";"] (mkLoc 2 1)]
    None None.

(** The program as the analyzer leaves it. *)
Definition analyzedProgram : Module :=
  Eval vm_compute in
    match SemanticAnalyzer.run binaryOpName 4 2 program with
    | Ok m => m
    | Throw _ => program
    end.

End Sample.

(** * Properties *)

(** ** Strings *)

Lemma append_nil_r (s : string) : s +++ "" = s.
Proof. induction s as [|c s IH]; simpl; [reflexivity | now rewrite IH]. Qed.

Lemma append_assoc (a b c : string) : (a +++ b) +++ c = a +++ (b +++ c).
Proof. induction a as [|x a IH]; simpl; [reflexivity | now rewrite IH]. Qed.

Lemma length_append (a b : string) :
  String.length (a +++ b) = String.length a + String.length b.
Proof. induction a as [|x a IH]; simpl; [reflexivity | now rewrite IH]. Qed.

Lemma length_repeat (c : ascii) (n : nat) : String.length (Str.repeat c n) = n.
Proof. induction n as [|n IH]; simpl; [reflexivity | now rewrite IH]. Qed.

(** ** Type specs *)

Lemma dimsEqb_eq (a b : list (Z * Z)) : dimsEqb a b = true <-> a = b.
Proof.
  revert b; induction a as [|[l1 u1] a IH]; intros [|[l2 u2] b]; simpl;
    try (split; [discriminate | discriminate]); [tauto|].
  rewrite !andb_true_iff, !Z.eqb_eq, IH.
  split; [intros [[-> ->] ->]; reflexivity | intros H; inversion H; auto].
Qed.

Lemma isEqual_eq (a b : DataTypeSpec) : isEqual a b = true <-> a = b.
Proof.
  revert b; induction a as [| | | | |e IH d]; intros [| | | | |e' d']; simpl;
    try (split; [reflexivity | reflexivity]);
    try (split; [discriminate | discriminate]).
  rewrite andb_true_iff, IH, dimsEqb_eq.
  split; [intros [-> ->]; reflexivity | intros H; inversion H; auto].
Qed.


(** ** Numeric coercion *)

Section CoercionProperties.

Import Coercion.

Lemma isNumeric_cons (a : DataTypeSpec) (l : list DataTypeSpec) :
  isNumeric (a :: l) = true <-> isNumeric1 a = true /\ isNumeric l = true.
Proof. unfold isNumeric; simpl; apply andb_true_iff. Qed.

Lemma isNumeric_app (l1 l2 : list DataTypeSpec) :
  isNumeric (l1 ++ l2) = true <-> isNumeric l1 = true /\ isNumeric l2 = true.
Proof. unfold isNumeric; rewrite forallb_app; apply andb_true_iff. Qed.

Lemma coerceStep_wider (a b : DataTypeSpec) :
  isNumeric1 a = true -> isNumeric1 b = true ->
  coerceStep a b = Ok (wider a b).
Proof.
  destruct a; simpl; try discriminate; intros _;
    destruct b; simpl; try discriminate; intros _; reflexivity.
Qed.

Lemma wider_numeric (a b : DataTypeSpec) :
  isNumeric1 a = true -> isNumeric1 b = true -> isNumeric1 (wider a b) = true.
Proof.
  intros Ha Hb; unfold wider; destruct (rank a <=? rank b)%nat; assumption.
Qed.

Lemma wider_assoc (a b c : DataTypeSpec) :
  isNumeric1 a = true -> isNumeric1 b = true -> isNumeric1 c = true ->
  wider (wider a b) c = wider a (wider b c).
Proof.
  destruct a; simpl; try discriminate; intros _;
    destruct b; simpl; try discriminate; intros _;
    destruct c; simpl; try discriminate; intros _; reflexivity.
Qed.

Lemma coerceLoop_fold (l : list DataTypeSpec) (a : DataTypeSpec) :
  isNumeric1 a = true -> isNumeric l = true ->
  coerceLoop a l = Ok (fold_left wider l a).
Proof.
  revert a; induction l as [|b l IH]; intros a Ha Hl; simpl; [reflexivity|].
  apply isNumeric_cons in Hl as [Hb Hl].
  rewrite (coerceStep_wider a b Ha Hb); simpl.
  apply IH; [apply wider_numeric; assumption | assumption].
Qed.

Lemma fold_wider_numeric (l : list DataTypeSpec) (a : DataTypeSpec) :
  isNumeric1 a = true -> isNumeric l = true ->
  isNumeric1 (fold_left wider l a) = true.
Proof.
  revert a; induction l as [|b l IH]; intros a Ha Hl; simpl; [assumption|].
  apply isNumeric_cons in Hl as [Hb Hl].
  apply IH; [apply wider_numeric; assumption | assumption].
Qed.

Lemma fold_wider_shift (l : list DataTypeSpec) (x b : DataTypeSpec) :
  isNumeric1 x = true -> isNumeric1 b = true -> isNumeric l = true ->
  fold_left wider l (wider x b) = wider x (fold_left wider l b).
Proof.
  revert b; induction l as [|c l IH]; intros b Hx Hb Hl; simpl; [reflexivity|].
  apply isNumeric_cons in Hl as [Hc Hl].
  rewrite (wider_assoc x b c Hx Hb Hc).
  apply IH; [assumption | apply wider_numeric; assumption | assumption].
Qed.

Lemma coerceNumericTypes_fold (a : DataTypeSpec) (l : list DataTypeSpec) :
  isNumeric (a :: l) = true ->
  coerceNumericTypes (a :: l) = Ok (fold_left wider l a).
Proof.
  intros H; unfold coerceNumericTypes; rewrite H; simpl.
  apply isNumeric_cons in H as [Ha Hl]; apply coerceLoop_fold; assumption.
Qed.

Lemma coerceNumericTypes_pair (a b : DataTypeSpec) :
  isNumeric1 a = true -> isNumeric1 b = true ->
  coerceNumericTypes [a; b] = Ok (wider a b).
Proof.
  intros Ha Hb; rewrite coerceNumericTypes_fold; [reflexivity|].
  unfold isNumeric; simpl; rewrite Ha, Hb; reflexivity.
Qed.

(** C1: on two numeric type specs, [coerceNumericTypes] returns the wider
    of the two by the ordering Integer < Long < Single < Double; Integer
    with Single and Long with Single give Single, and anything with Double
    gives Double, in either order. *)
Theorem coerceNumericTypes_pair_wider (a b : DataTypeSpec) :
  isNumeric [a] = true -> isNumeric [b] = true ->
  coerceNumericTypes [a; b] = Ok (wider a b)
  /\ (rank a <= rank b -> coerceNumericTypes [a; b] = Ok b)
  /\ (rank b <= rank a -> coerceNumericTypes [a; b] = Ok a)
  /\ coerceNumericTypes [integerSpec; singleSpec] = Ok singleSpec
  /\ coerceNumericTypes [singleSpec; integerSpec] = Ok singleSpec
  /\ coerceNumericTypes [longSpec; singleSpec] = Ok singleSpec
  /\ coerceNumericTypes [singleSpec; longSpec] = Ok singleSpec
  /\ coerceNumericTypes [a; doubleSpec] = Ok doubleSpec
  /\ coerceNumericTypes [doubleSpec; b] = Ok doubleSpec.
Proof.
  intros Ha Hb.
  destruct a; try discriminate Ha; destruct b; try discriminate Hb;
    cbn; repeat split; intros; try reflexivity; lia.
Qed.

Lemma coerceNumericTypes_pair_wider_witness :
  coerceNumericTypes [longSpec; singleSpec] = Ok (wider longSpec singleSpec).
Proof.
  apply (coerceNumericTypes_pair_wider longSpec singleSpec); reflexivity.
Defined.

(** C8: pairwise coercion is associative on the numeric types, and the left
    fold that [coerceNumericTypes] runs over a list may be regrouped: folding
    a list split in two gives the coercion of the two parts' results. *)
Theorem coerceNumericTypes_assoc :
  (forall a b c : DataTypeSpec,
      isNumeric [a; b; c] = true ->
      exists ab bc r,
        coerceNumericTypes [a; b] = Ok ab
        /\ coerceNumericTypes [b; c] = Ok bc
        /\ coerceNumericTypes [ab; c] = Ok r
        /\ coerceNumericTypes [a; bc] = Ok r
        /\ coerceNumericTypes [a; b; c] = Ok r)
  /\ (forall l1 l2 : list DataTypeSpec,
         l1 <> [] -> l2 <> [] -> isNumeric (l1 ++ l2) = true ->
         exists r1 r2 r,
           coerceNumericTypes l1 = Ok r1
           /\ coerceNumericTypes l2 = Ok r2
           /\ coerceNumericTypes [r1; r2] = Ok r
           /\ coerceNumericTypes (l1 ++ l2) = Ok r).
Proof.
  assert (G : forall l1 l2 : list DataTypeSpec,
             l1 <> [] -> l2 <> [] -> isNumeric (l1 ++ l2) = true ->
             exists r1 r2 r,
               coerceNumericTypes l1 = Ok r1
               /\ coerceNumericTypes l2 = Ok r2
               /\ coerceNumericTypes [r1; r2] = Ok r
               /\ coerceNumericTypes (l1 ++ l2) = Ok r).
  { intros [|a l1] [|b l2] N1 N2 H; try congruence.
    pose proof H as H'.
    apply isNumeric_app in H' as [H1 H2].
    pose proof H1 as H1'; apply isNumeric_cons in H1' as [Ha Hl1].
    pose proof H2 as H2'; apply isNumeric_cons in H2' as [Hb Hl2].
    pose proof (fold_wider_numeric l1 a Ha Hl1) as Hr1.
    pose proof (fold_wider_numeric l2 b Hb Hl2) as Hr2.
    exists (fold_left wider l1 a), (fold_left wider l2 b),
      (wider (fold_left wider l1 a) (fold_left wider l2 b)).
    repeat split.
    - apply coerceNumericTypes_fold; assumption.
    - apply coerceNumericTypes_fold; assumption.
    - rewrite coerceNumericTypes_fold; [reflexivity|].
      apply isNumeric_cons; split; [assumption|].
      apply isNumeric_cons; split; [assumption | reflexivity].
    - change ((a :: l1) ++ b :: l2) with (a :: (l1 ++ b :: l2)) in *.
      rewrite coerceNumericTypes_fold by assumption.
      rewrite fold_left_app; simpl.
      apply f_equal, fold_wider_shift; assumption. }
  split; [|exact G].
  intros a b c H.
  pose proof H as H'.
  apply isNumeric_cons in H' as [Ha H']; apply isNumeric_cons in H' as [Hb H'].
  apply isNumeric_cons in H' as [Hc _].
  exists (wider a b), (wider b c), (wider (wider a b) c).
  repeat split.
  - apply coerceNumericTypes_pair; assumption.
  - apply coerceNumericTypes_pair; assumption.
  - apply coerceNumericTypes_pair; [apply wider_numeric|]; assumption.
  - rewrite (wider_assoc a b c Ha Hb Hc).
    apply coerceNumericTypes_pair; [|apply wider_numeric]; assumption.
  - rewrite coerceNumericTypes_fold by assumption; reflexivity.
Qed.

Lemma coerceNumericTypes_assoc_witness :
  exists ab bc r,
    coerceNumericTypes [integerSpec; singleSpec] = Ok ab
    /\ coerceNumericTypes [singleSpec; longSpec] = Ok bc
    /\ coerceNumericTypes [ab; longSpec] = Ok r
    /\ coerceNumericTypes [integerSpec; bc] = Ok r
    /\ coerceNumericTypes [integerSpec; singleSpec; longSpec] = Ok r.
Proof.
  apply (proj1 coerceNumericTypes_assoc integerSpec singleSpec longSpec).
  reflexivity.
Defined.

End CoercionProperties.

(** ** The runtime's PRINT *)

Section PrintProperties.

Import Runtime.

Variable num : Type.
Variable geZero : num -> bool.
Variable numToString : num -> string.

Abbreviation PrintArg := (Runtime.PrintArg num).
Abbreviation printArg := (Runtime.printArg num geZero numToString).
Abbreviation printLoop := (Runtime.printLoop num geZero numToString).
Abbreviation print := (Runtime.print num geZero numToString).
Abbreviation contribution := (Runtime.contribution num geZero numToString).
Abbreviation rendering := (Runtime.rendering num geZero numToString).

Lemma zone_padding (len : nat) :
  PRINT_ZONE_LENGTH - len mod PRINT_ZONE_LENGTH = nextPrintZone len - len
  /\ 1 <= PRINT_ZONE_LENGTH - len mod PRINT_ZONE_LENGTH <= 14
  /\ (len + (PRINT_ZONE_LENGTH - len mod PRINT_ZONE_LENGTH)) mod 14 = 0.
Proof.
  unfold nextPrintZone, PRINT_ZONE_LENGTH.
  pose proof (Nat.div_mod_eq len 14) as E.
  pose proof (Nat.mod_upper_bound len 14 ltac:(discriminate)) as B.
  repeat split; try lia.
  replace (len + (14 - len mod 14)) with ((len / 14 + 1) * 14) by lia.
  apply Nat.Div0.mod_mul.
Qed.

Lemma printArg_contribution (line : string) (arg : PrintArg) :
  printable num [arg] = true ->
  printArg line arg = Ok (line +++ contribution (String.length line) arg).
Proof.
  destruct arg as [| |[s|n|j]]; intros H; try discriminate H;
    unfold Runtime.printArg, Runtime.contribution.
  - now rewrite append_nil_r.
  - now rewrite (proj1 (zone_padding (String.length line))).
  - reflexivity.
  - reflexivity.
Qed.

Lemma printLoop_rendering (args : list PrintArg) (line : string) :
  printable num args = true ->
  printLoop line args = Ok (line +++ rendering (String.length line) args).
Proof.
  revert line; induction args as [|arg args IH]; intros line H; simpl.
  - now rewrite append_nil_r.
  - simpl in H; apply andb_true_iff in H as [Ha Hr].
    rewrite printArg_contribution by (simpl; now rewrite Ha).
    simpl; rewrite IH by assumption.
    now rewrite length_append, append_assoc.
Qed.

Lemma nth_error_last {A : Type} (l : list A) (d : A) :
  l <> [] -> nth_error l (List.length l - 1) = Some (List.last l d).
Proof.
  induction l as [|a l IH]; [congruence|]; intros _.
  destruct l as [|b l]; [reflexivity|].
  change (List.last (a :: b :: l) d) with (List.last (b :: l) d).
  rewrite <- IH by discriminate.
  simpl; now rewrite Nat.sub_0_r.
Qed.

Lemma newline_condition (args : list PrintArg) :
  (List.length args =? 0)%nat || lastIsValue num args = newlineDue num args.
Proof.
  destruct args as [|a args]; [reflexivity|].
  unfold lastIsValue, newlineDue.
  now rewrite (nth_error_last (a :: args) (SEMICOLON num)) by discriminate.
Qed.

Lemma newlineDue_iff (args : list PrintArg) :
  newlineDue num args = true
  <-> args = [] \/ exists front v, args = front ++ [VALUE num v].
Proof.
  destruct args as [|a args]; [simpl; tauto|].
  destruct (exists_last (l := a :: args) ltac:(discriminate)) as [front [x E]].
  rewrite E; unfold newlineDue.
  destruct (front ++ [x]) eqn:F; [now destruct front|]; rewrite <- F.
  rewrite last_last; split.
  - destruct x; simpl; try discriminate; intros _; right; eauto.
  - intros [C|[f' [v E']]]; [now destruct front|].
    apply app_inj_tail in E' as [_ ->]; reflexivity.
Qed.

(** C2: PRINT builds its line from the arguments in order: a number gives a
    sign column (a space when it is not negative, nothing otherwise), the
    number and a trailing space; a string gives itself; a comma gives the
    spaces up to the next 14-column print zone; a semicolon gives nothing;
    and a line feed is appended exactly when the argument list is empty or
    its last argument is a value. *)
Theorem print_renders_arguments (args : list PrintArg) (p : RuntimePlatform) :
  printable num args = true ->
  print args p
  = Ok (platformPrint
          (rendering 0 args +++ (if newlineDue num args then NL else "")) p)
  /\ (newlineDue num args = true
      <-> args = [] \/ exists front v, args = front ++ [VALUE num v])
  /\ (forall col n,
         contribution col (VALUE num (VNumber num n))
         = (if geZero n then " " else "") +++ numToString n +++ " ")
  /\ (forall col s, contribution col (VALUE num (VString num s)) = s)
  /\ (forall col,
         exists k, contribution col (COMMA num) = Str.repeat " " k
                   /\ 1 <= k <= 14 /\ (col + k) mod 14 = 0)
  /\ (forall col, contribution col (SEMICOLON num) = "").
Proof.
  intros H; repeat split; try apply newlineDue_iff.
  - unfold Runtime.print.
    rewrite printLoop_rendering by assumption; simpl.
    rewrite newline_condition.
    destruct (newlineDue num args); [reflexivity | now rewrite append_nil_r].
  - intros col; exists (nextPrintZone col - col).
    unfold Runtime.contribution.
    destruct (zone_padding col) as [E [B M]]; rewrite <- E.
    repeat split; try assumption; apply B.
Qed.

End PrintProperties.

Lemma print_renders_arguments_witness :
  IntNum.print
    [IntNum.VALUE (IntNum.VNumber (IntNum.Int 5)); IntNum.COMMA;
     IntNum.VALUE (IntNum.VString "x"); IntNum.SEMICOLON]
    (Runtime.mkPlatform [] [])
  = Ok (Runtime.mkPlatform [" 5            x"] []).
Proof.
  exact (proj1 (print_renders_arguments IntNum.num IntNum.geZero
                  IntNum.numToString
                  [IntNum.VALUE (IntNum.VNumber (IntNum.Int 5)); IntNum.COMMA;
                   IntNum.VALUE (IntNum.VString "x"); IntNum.SEMICOLON]
                  (Runtime.mkPlatform [] []) eq_refl)).
Defined.

(** C9: a comma argument pads the line by 14 minus the line length modulo
    14 spaces, which is at least one and at most 14: a line whose length is a
    multiple of 14, the empty line included, gets a full 14 spaces. *)
Theorem print_comma_padding
  (num : Type) (geZero : num -> bool) (numToString : num -> string)
  (line : string) :
  exists numPaddingChars : nat,
    Runtime.printArg num geZero numToString line (Runtime.COMMA num)
    = Ok (line +++ Str.repeat " " numPaddingChars)
    /\ numPaddingChars = 14 - String.length line mod 14
    /\ 1 <= numPaddingChars <= 14
    /\ (String.length line mod 14 = 0 -> numPaddingChars = 14)
    /\ Runtime.printArg num geZero numToString "" (Runtime.COMMA num)
       = Ok (Str.repeat " " 14)
    /\ Runtime.print num geZero numToString [Runtime.COMMA num]
         (Runtime.mkPlatform [] [])
       = Ok (Runtime.mkPlatform [Str.repeat " " 14] []).
Proof.
  exists (14 - String.length line mod 14).
  pose proof (Nat.mod_upper_bound (String.length line) 14 ltac:(discriminate)).
  repeat split; try reflexivity; try lia.
Qed.

(** ** Built-in function lookup *)

Section LookupProperties.

Import SymbolTable Runtime.

Lemma lookupSymbols_In {T : Type} (nameOf : T -> string) (table : list T)
  (name : string) (f : T) :
  In f (lookupSymbols nameOf table name)
  <-> In f table /\ sameName (nameOf f) name = true.
Proof. unfold lookupSymbols; apply filter_In. Qed.

(** C10: with [shouldReturnIfArgTypeMismatch] set, a name that some built-in
    carries (up to case) is never looked up in vain: when no overload fits the
    argument count and types, the first built-in of that name is returned,
    whatever the number of arguments. *)
Theorem lookupBuiltinFn_returns_on_mismatch
  (name : string) (argTypeSpecs : list DataTypeSpec) :
  (exists f, In f BUILTIN_FNS /\ sameName (fnName f) name = true) ->
  lookupBuiltinFn name argTypeSpecs true <> None
  /\ (forall g, lookupBuiltinFn name argTypeSpecs true = Some g ->
                In g BUILTIN_FNS /\ sameName (fnName g) name = true)
  /\ ((forall g, In g BUILTIN_FNS -> sameName (fnName g) name = true ->
                 overloadMatches argTypeSpecs g = false) ->
      lookupBuiltinFn name argTypeSpecs true
      = hd_error (lookupSymbols fnName BUILTIN_FNS name)).
Proof.
  intros [f [Hin Hname]].
  assert (Hf : In f (lookupSymbols fnName BUILTIN_FNS name))
    by (apply lookupSymbols_In; auto).
  pose proof (fun g => proj1 (lookupSymbols_In fnName BUILTIN_FNS name g))
    as Hsub.
  unfold lookupBuiltinFn.
  set (matching := lookupSymbols fnName BUILTIN_FNS name) in *.
  clearbody matching.
  destruct matching as [|m0 rest]; [contradiction|].
  split; [|split].
  - destruct (find (overloadMatches argTypeSpecs) (m0 :: rest));
      simpl; discriminate.
  - intros g E; apply Hsub.
    destruct (find (overloadMatches argTypeSpecs) (m0 :: rest)) as [h|] eqn:F.
    + injection E as <-; now apply find_some in F as [F _].
    + simpl in E; injection E as <-; now left.
  - intros Hno.
    destruct (find (overloadMatches argTypeSpecs) (m0 :: rest)) as [h|] eqn:F;
      [|reflexivity].
    apply find_some in F as [F1 F2].
    destruct (Hsub h F1) as [G1 G2].
    rewrite (Hno h G1 G2) in F2; discriminate.
Qed.

Lemma lookupBuiltinFn_returns_on_mismatch_witness :
  lookupBuiltinFn "INSTR" [longSpec] true
  = Some (mkBuiltinFn "instr" [stringSpec; stringSpec] integerSpec).
Proof.
  assert (H : lookupBuiltinFn "INSTR" [longSpec] true <> None).
  { apply (lookupBuiltinFn_returns_on_mismatch "INSTR" [longSpec]).
    exists (mkBuiltinFn "instr" [stringSpec; stringSpec] integerSpec).
    split; [simpl; tauto | reflexivity]. }
  destruct (lookupBuiltinFn "INSTR" [longSpec] true) eqn:E;
    [|contradiction].
  vm_compute in E; injection E as <-; reflexivity.
Defined.

End LookupProperties.

(** ** The runtime's INPUT *)

Section InputLexerProperties.

Import Runtime.

Lemma span_append (p : ascii -> bool) (s : string) :
  fst (Moo.span p s) +++ snd (Moo.span p s) = s.
Proof.
  induction s as [|c s IH]; simpl; [reflexivity|].
  destruct (p c); [|reflexivity].
  destruct (Moo.span p s) as [a b]; simpl in *; now rewrite IH.
Qed.

Lemma span_length (p : ascii -> bool) (s : string) :
  String.length (snd (Moo.span p s)) <= String.length s.
Proof.
  rewrite <- (span_append p s) at 2; rewrite length_append; lia.
Qed.

Lemma plus_shorter (p : ascii -> bool) (s m rest : string) :
  Moo.plus p s = Some (m, rest) ->
  exists c m', m = String c m' /\ String.length rest < String.length s.
Proof.
  unfold Moo.plus; intros H.
  pose proof (span_append p s) as E.
  destruct (Moo.span p s) as [a b]; simpl in E.
  destruct a as [|c a]; [discriminate|].
  injection H as <- <-; exists c, a; split; [reflexivity|].
  rewrite <- E; simpl; rewrite length_append; lia.
Qed.

Lemma plus_head (p : ascii -> bool) (c : ascii) (s : string) :
  p c = true -> exists m rest, Moo.plus p (String c s) = Some (m, rest).
Proof.
  intros H; unfold Moo.plus; simpl; rewrite H.
  destruct (Moo.span p s) as [a b]; eauto.
Qed.

Lemma quoted_shorter (s m rest : string) :
  Moo.quoted s = Some (m, rest) ->
  exists c m', m = String c m' /\ String.length rest < String.length s.
Proof.
  unfold Moo.quoted; destruct s as [|c s]; [discriminate|].
  destruct (Ascii.eqb c Moo.DQ); [|discriminate].
  pose proof (span_length (fun d => negb (Ascii.eqb d Moo.DQ)) s) as L.
  destruct (Moo.span (fun d => negb (Ascii.eqb d Moo.DQ)) s) as [a b].
  destruct b as [|d b]; [discriminate|]; intros H; injection H as <- <-.
  exists c, (a +++ String d ""); split; [reflexivity|].
  simpl in *; lia.
Qed.

(** Every rule of the input lexer consumes at least one character, and some
    rule matches whatever the input starts with. *)
Lemma inputLexer_progress (c : ascii) (s : string) :
  exists group d m rest,
    Moo.firstMatch inputLexer (String c s) = Some (group, String d m, rest)
    /\ String.length rest < String.length (String c s).
Proof.
  unfold inputLexer, Moo.firstMatch, Moo.matcher.
  destruct (Moo.plus Moo.isSpace (String c s)) as [[m rest]|] eqn:W.
  { destruct (plus_shorter _ _ _ _ W) as [d [m' [-> L]]]; eauto 6. }
  destruct (Moo.quoted (String c s)) as [[m rest]|] eqn:Q.
  { destruct (quoted_shorter _ _ _ Q) as [d [m' [-> L]]]; eauto 6. }
  destruct (Ascii.eqb c ",") eqn:C.
  { apply Ascii.eqb_eq in C; subst c; simpl.
    do 4 eexists; split; [reflexivity | simpl; lia]. }
  assert (Moo.literal "," (String c s) = None) as ->.
  { cbn [Moo.literal]; rewrite Ascii.eqb_sym, C; reflexivity. }
  destruct (Moo.isSpace c) eqn:S.
  { destruct (plus_head Moo.isSpace c s S) as [m [rest E]]; congruence. }
  destruct (plus_head (fun c => negb (Ascii.eqb c ",") && negb (Moo.isSpace c))
              c s) as [m [rest E]]; [now rewrite C, S|].
  rewrite E.
  destruct (plus_shorter _ _ _ _ E) as [d [m' [-> L]]]; eauto 6.
Qed.

Lemma lexInputLoop_total (fuel : nat) (lx : Moo.Lexer) (tokens : list Moo.Token) :
  String.length (Moo.buffer lx) < fuel ->
  exists result, lexInputLoop fuel lx tokens = Ok result.
Proof.
  revert lx tokens; induction fuel as [|fuel IH]; intros lx tokens L; [lia|].
  simpl; unfold Moo.next.
  destruct (Moo.buffer lx) as [|c s] eqn:B; [simpl; eauto|].
  destruct (inputLexer_progress c s) as [group [d [m [rest [E R]]]]].
  rewrite E; simpl.
  apply IH; simpl in *; lia.
Qed.

(** [lexInput] neither throws nor stops short of the end of the line. *)
Lemma lexInput_total (line : string) :
  exists tokens, lexInput line = Ok tokens.
Proof. unfold lexInput; apply lexInputLoop_total; lia. Qed.

End InputLexerProperties.

Section InputProperties.

Import Runtime.

Variable num : Type.
Variable parseFloat : string -> num.
Variable isNaN : num -> bool.

Abbreviation inputValue := (Runtime.inputValue num parseFloat isNaN).
Abbreviation inputValues := (Runtime.inputValues num parseFloat isNaN).
Abbreviation inputLoop := (Runtime.inputLoop num parseFloat isNaN).
Abbreviation leadingFields := (Runtime.leadingFields num parseFloat isNaN).
Abbreviation exactFields := (Runtime.exactFields num parseFloat isNaN).

Lemma skipn_nth_error {A : Type} (l : list A) (i : nat) :
  skipn i l = match nth_error l i with
              | Some x => x :: skipn (S i) l
              | None => []
              end.
Proof.
  revert i; induction l as [|a l IH]; intros [|i]; try reflexivity.
  simpl; rewrite IH; destruct (nth_error l i); reflexivity.
Qed.

(** The inner loop of [input] in terms of the fields the tokens begin with:
    it never throws on elementary types, pushes one result per requested type
    when the tokens from [tokenIdx] on begin with fitting fields, and
    otherwise leaves with fewer results and an error message. *)
Lemma inputValues_fields (tokens : list Moo.Token) (types : list DataTypeSpec) :
  forallb isElementaryType types = true ->
  forall (resultIdx : nat) (st : InputState num),
  exists st',
    inputValues tokens types resultIdx st = Ok st'
    /\ if leadingFields (resultIdx =? 0)%nat (skipn (tokenIdx num st) tokens) types
       then List.length (results num st')
            = List.length (results num st) + List.length types
       else List.length (results num st')
            < List.length (results num st) + List.length types
            /\ exists msg, errorMessage num st' = Some msg.
Proof.
  induction types as [|t types IH]; intros El resultIdx st.
  { exists st; simpl; split; [reflexivity | lia]. }
  simpl in El; apply andb_true_iff in El as [Et El].
  specialize (IH El).
  cbn [Runtime.inputValues Runtime.leadingFields].
  unfold Runtime.inputValue, tokenTypeAt.
  set (afterCommaCode :=
         if (0 <? resultIdx)%nat
         then match nth_error tokens (tokenIdx num st) with
              | Some token =>
                  if String.eqb (Moo.type token) "COMMA"
                  then Some (S (tokenIdx num st)) else None
              | None => None
              end
         else Some (tokenIdx num st)).
  assert (AC : match afterCommaCode with
               | Some idx =>
                   (if (resultIdx =? 0)%nat
                    then Some (skipn (tokenIdx num st) tokens)
                    else match skipn (tokenIdx num st) tokens with
                         | c :: rest =>
                             if String.eqb (Moo.type c) "COMMA"
                             then Some rest else None
                         | [] => None
                         end) = Some (skipn idx tokens)
               | None =>
                   (if (resultIdx =? 0)%nat
                    then Some (skipn (tokenIdx num st) tokens)
                    else match skipn (tokenIdx num st) tokens with
                         | c :: rest =>
                             if String.eqb (Moo.type c) "COMMA"
                             then Some rest else None
                         | [] => None
                         end) = None
               end).
  { unfold afterCommaCode.
    destruct resultIdx as [|r]; [reflexivity|]; simpl.
    rewrite (skipn_nth_error tokens (tokenIdx num st)).
    destruct (nth_error tokens (tokenIdx num st)) as [c|]; [|reflexivity].
    destruct (String.eqb (Moo.type c) "COMMA"); reflexivity. }
  assert (EC : (if (0 <? resultIdx)%nat
                then match nth_error tokens (tokenIdx num st) with
                     | Some token =>
                         if String.eqb (Moo.type token) "COMMA"
                         then Some (S (tokenIdx num st)) else None
                     | None => None
                     end
                else Some (tokenIdx num st)) = afterCommaCode) by reflexivity.
  match goal with
  | |- context [bind (match ?x with Some _ => _ | None => _ end) _] =>
      replace x with afterCommaCode
  end.
  2:{ unfold afterCommaCode.
      destruct (0 <? resultIdx)%nat; [|reflexivity].
      destruct (nth_error tokens (tokenIdx num st)); reflexivity. }
  clear EC.
  destruct afterCommaCode as [idx|]; rewrite AC; clear AC.
  2:{ eexists; split; [reflexivity|]; simpl; split; [lia | eauto]. }
  rewrite (skipn_nth_error tokens idx).
  destruct (nth_error tokens idx) as [v|].
  2:{ eexists; split; [reflexivity|]; simpl; split; [lia | eauto]. }
  destruct (String.eqb (Moo.type v) "STRING"); cbn [andb].
  2:{ eexists; split; [reflexivity|]; simpl; split; [lia | eauto]. }
  unfold fieldFits, isString, isNumeric; cbn [forallb]; rewrite !andb_true_r.
  destruct (isString1 t) eqn:St; cbn [orb andb bind].
  { destruct (IH (S resultIdx)
                (mkInputState num (S idx)
                   (results num st ++ [VString num (Moo.value v)])
                   (errorMessage num st))) as [st' [E H]].
    exists st'; split; [exact E|].
    cbn [Runtime.tokenIdx Runtime.results Nat.eqb] in H.
    destruct (leadingFields false (skipn (S idx) tokens) types);
      rewrite length_app in H; cbn [List.length] in H |- *; [lia|].
    destruct H as [H1 H2]; split; [lia | exact H2]. }
  destruct (isNumeric1 t) eqn:Nt; cbn [orb andb bind].
  2:{ destruct t; discriminate. }
  destruct (isNaN (parseFloat (Moo.value v))); cbn [negb andb orb bind].
  { eexists; split; [reflexivity|]; simpl; split; [lia | eauto]. }
  destruct (IH (S resultIdx)
              (mkInputState num (S idx)
                 (results num st ++ [VNumber num (parseFloat (Moo.value v))])
                 (errorMessage num st))) as [st' [E H]].
  exists st'; split; [exact E|].
  cbn [Runtime.tokenIdx Runtime.results Nat.eqb] in H.
  destruct (leadingFields false (skipn (S idx) tokens) types);
    rewrite length_app in H; cbn [List.length] in H |- *; [lia|].
  destruct H as [H1 H2]; split; [lia | exact H2].
Qed.

Lemma exactFields_leadingFields (types : list DataTypeSpec) :
  forall (first : bool) (tokens : list Moo.Token),
    exactFields first tokens types = true ->
    leadingFields first tokens types = true.
Proof.
  induction types as [|t types IH]; intros first tokens; [reflexivity|].
  cbn [Runtime.exactFields Runtime.leadingFields].
  destruct (if first then Some tokens else _) as [[|v rest]|];
    try discriminate.
  rewrite !andb_true_iff; intros [H1 H2]; split; [exact H1 | now apply IH].
Qed.

Lemma inputLoop_returned_length (prompt : string) (resultTypes : list DataTypeSpec)
  (lines : list string) :
  forall (out : list string) (rs : list (Value num)) (p' : RuntimePlatform),
    inputLoop prompt resultTypes lines out = Returned num rs p' ->
    List.length rs = List.length resultTypes.
Proof.
  induction lines as [|l lines IH]; intros out rs p'; simpl; [discriminate|].
  destruct (lexInput l) as [tokens|e]; [|discriminate].
  destruct (Runtime.inputValues num parseFloat isNaN tokens resultTypes 0
              (mkInputState num 0 [] None)) as [st|e]; [|discriminate].
  destruct (List.length (results num st) =? List.length resultTypes)%nat eqn:E.
  - intros H; injection H as <- _; now apply Nat.eqb_eq.
  - destruct (List.length (results num st) <? List.length resultTypes)%nat;
      [apply IH | discriminate].
Qed.

(** C4 (as the code has it): the fields a line begins with decide. When
    they do not give one fitting value per requested type (a field that does
    not parse as a number, a missing field, a missing comma, so also fewer
    fields than types), [input] prints the error and Redo from start and reads
    the next line; when they do, it returns one result per type and does not
    look at what follows; and whatever it returns has as many results as
    types were requested. *)
Theorem input_redo_from_start (prompt : string) (resultTypes : list DataTypeSpec) :
  forallb isElementaryType resultTypes = true ->
  (forall (line : string) (lines out : list string),
      exists tokens,
        lexInput line = Ok tokens
        /\ (leadingFields true tokens resultTypes = false ->
            exists msg,
              inputLoop prompt resultTypes (line :: lines) out
              = inputLoop prompt resultTypes lines
                  ((out ++ [prompt])
                   ++ [NL +++ (msg +++ NL) +++ "Redo from start" +++ NL]))
        /\ (leadingFields true tokens resultTypes = true ->
            exists rs,
              inputLoop prompt resultTypes (line :: lines) out
              = Returned num rs (mkPlatform (out ++ [prompt]) lines)
              /\ List.length rs = List.length resultTypes)
        /\ (exactFields true tokens resultTypes = true ->
            leadingFields true tokens resultTypes = true))
  /\ (forall (p : RuntimePlatform) (rs : list (Value num)) (p' : RuntimePlatform),
         Runtime.input num parseFloat isNaN prompt resultTypes p
         = Returned num rs p' ->
         List.length rs = List.length resultTypes).
Proof.
  intros El; split.
  - intros line lines out.
    destruct (lexInput_total line) as [tokens L].
    exists tokens; split; [exact L|].
    destruct (inputValues_fields tokens resultTypes El 0
                (mkInputState num 0 [] None)) as [st [E H]].
    cbn [Runtime.tokenIdx Runtime.results Nat.eqb skipn List.length Nat.add] in H.
    split; [|split].
    + intros F; rewrite F in H; destruct H as [H [msg M]].
      exists msg; cbn [Runtime.inputLoop]; rewrite L, E.
      replace (List.length (results num st) =? List.length resultTypes)%nat
        with false by (symmetry; apply Nat.eqb_neq; lia).
      replace (List.length (results num st) <? List.length resultTypes)%nat
        with true by (symmetry; apply Nat.ltb_lt; lia).
      rewrite M; reflexivity.
    + intros F; rewrite F in H.
      exists (results num st); cbn [Runtime.inputLoop]; rewrite L, E.
      replace (List.length (results num st) =? List.length resultTypes)%nat
        with true by (symmetry; apply Nat.eqb_eq; lia).
      split; [reflexivity | exact H].
    + apply exactFields_leadingFields.
  - intros p rs p'; unfold Runtime.input; apply inputLoop_returned_length.
Qed.

End InputProperties.

Lemma input_redo_from_start_witness :
  exists msg,
    IntNum.input "? " [singleSpec; stringSpec]
      (Runtime.mkPlatform [] ["not-a-number, hello"; "5, hello"])
    = Runtime.inputLoop IntNum.num IntNum.parseFloat IntNum.isNaN
        "? " [singleSpec; stringSpec] ["5, hello"]
        (([] ++ ["? "])
         ++ [Runtime.NL +++ (msg +++ Runtime.NL) +++ "Redo from start"
             +++ Runtime.NL]).
Proof.
  destruct (proj1 (input_redo_from_start IntNum.num IntNum.parseFloat
                     IntNum.isNaN "? " [singleSpec; stringSpec] eq_refl)
              "not-a-number, hello" ["5, hello"] [])
    as [tokens [L [Redo _]]].
  apply Redo.
  vm_compute in L; injection L as <-; vm_compute; reflexivity.
Defined.

(** C4 as stated fails on a line with more fields than requested types: the
    line a,b holds two fields where one string is asked for, and [input]
    returns the first without printing Redo from start. *)
Lemma input_accepts_surplus_field :
  exists tokens,
    Runtime.lexInput "a,b" = Ok tokens
    /\ List.length tokens = 3
    /\ Runtime.exactFields IntNum.num IntNum.parseFloat IntNum.isNaN
         true tokens [stringSpec] = false
    /\ IntNum.input "? " [stringSpec] (Runtime.mkPlatform [] ["a,b"])
       = Runtime.Returned IntNum.num [IntNum.VString "a"]
           (Runtime.mkPlatform ["? "] []).
Proof.
  eexists; split; [vm_compute; reflexivity|].
  split; [reflexivity|]; split; vm_compute; reflexivity.
Qed.

(** ** The lexer's white space *)

Section LexerProperties.

Import Lexer.

Lemma span_sound (p : ascii -> bool) (s a b : string) :
  Moo.span p s = (a, b) -> a +++ b = s.
Proof.
  intros H; pose proof (span_append p s) as E; now rewrite H in E.
Qed.

Lemma plus_sound (p : ascii -> bool) (s m rest : string) :
  Moo.plus p s = Some (m, rest) -> m +++ rest = s.
Proof.
  unfold Moo.plus; destruct (Moo.span p s) as [a b] eqn:E.
  apply span_sound in E; destruct a; [discriminate|].
  intros H; injection H as <- <-; exact E.
Qed.

Lemma literal_sound (lit s m rest : string) :
  Moo.literal lit s = Some (m, rest) -> m +++ rest = s.
Proof.
  revert s m rest; induction lit as [|c lit IH]; intros s m rest; simpl.
  - intros H; injection H as <- <-; reflexivity.
  - destruct s as [|d s]; [discriminate|].
    destruct (Ascii.eqb c d); [|discriminate].
    destruct (Moo.literal lit s) as [[m' rest']|] eqn:E; [|discriminate].
    intros H; injection H as <- <-; simpl; now rewrite (IH _ _ _ E).
Qed.

Lemma quoted_sound (s m rest : string) :
  Moo.quoted s = Some (m, rest) -> m +++ rest = s.
Proof.
  unfold Moo.quoted; destruct s as [|c s]; [discriminate|].
  destruct (Ascii.eqb c Moo.DQ); [|discriminate].
  destruct (Moo.span (fun d => negb (Ascii.eqb d Moo.DQ)) s) as [a b] eqn:E.
  apply span_sound in E; destruct b as [|d b]; [discriminate|].
  intros H; injection H as <- <-; simpl.
  rewrite append_assoc; simpl; now rewrite E.
Qed.

Lemma comment_sound (s m rest : string) :
  comment s = Some (m, rest) -> m +++ rest = s.
Proof.
  unfold comment; destruct s as [|c s]; [discriminate|].
  destruct (Ascii.eqb c "'"); [|discriminate].
  destruct (Moo.span (fun d => negb (Moo.isNewline d)) s) as [a b] eqn:E.
  apply span_sound in E; intros H; injection H as <- <-; simpl; now rewrite E.
Qed.

Lemma identifier_sound (s m rest : string) :
  identifier s = Some (m, rest) -> m +++ rest = s.
Proof.
  unfold identifier; destruct s as [|c s]; [discriminate|].
  destruct (Moo.isAlpha_ c); [|discriminate].
  destruct (Moo.span (fun d => Moo.isAlpha_ d || Moo.isDigit d) s)
    as [a b] eqn:E.
  apply span_sound in E; destruct b as [|d b].
  - intros H; injection H as <- <-; simpl; now rewrite E.
  - destruct (isSigil d); intros H; injection H as <- <-; simpl;
      rewrite ?append_assoc; simpl; now rewrite E.
Qed.

Lemma numericLiteral_sound (s m rest : string) :
  numericLiteral s = Some (m, rest) -> m +++ rest = s.
Proof.
  unfold numericLiteral.
  assert (S1 : exists sign s1,
             (match s with
              | String "-" s' => ("-", s')
              | _ => ("", s)
              end) = (sign, s1) /\ sign +++ s1 = s).
  { destruct s as [|c s]; [exists "", ""; auto|].
    destruct (Ascii.eqb_spec c "-") as [->|N]; [exists "-", s; auto|].
    exists "", (String c s); split; [|reflexivity].
    destruct c as [[] [] [] [] [] [] [] []]; try reflexivity.
    now elim N. }
  destruct S1 as [sign [s1 [-> S1]]].
  destruct (Moo.span Moo.isDigit s1) as [ds r] eqn:D; apply span_sound in D.
  assert (I : forall m rest,
             match ds with
             | EmptyString => None
             | _ => Some (sign +++ ds, r)
             end = Some (m, rest) -> m +++ rest = s).
  { intros m' rest' H.
    assert (H' : sign +++ ds = m' /\ r = rest')
      by (destruct ds; [discriminate | now injection H as <- <-]).
    destruct H' as [<- <-]; now rewrite append_assoc, D. }
  destruct r as [|c r']; [apply I|].
  destruct (Ascii.eqb_spec c ".") as [->|N].
  - destruct (Moo.span Moo.isDigit r') as [fs r''] eqn:F; apply span_sound in F.
    destruct fs as [|f fs]; [apply I|].
    intros H; injection H as <- <-.
    rewrite <- S1, <- D, <- F, !append_assoc; reflexivity.
  - intros H; apply I; rewrite <- H.
    destruct c as [[] [] [] [] [] [] [] []]; try reflexivity.
    now elim N.
Qed.

(** Every rule of the lexer splits the input into the matched text and the
    rest. *)
Lemma lexer_rules_sound (r : Moo.Rule) (s m rest : string) :
  In r lexer -> Moo.matcher r s = Some (m, rest) -> m +++ rest = s.
Proof.
  unfold lexer; cbn [In]; intros H.
  repeat (destruct H as [<-|H];
          [cbn [Moo.matcher]; first [ apply plus_sound | apply comment_sound
                        | apply identifier_sound | apply quoted_sound
                        | apply numericLiteral_sound | apply literal_sound ]|]).
  contradiction.
Qed.

Lemma firstMatch_In (rules : list Moo.Rule) (s : string) (r : Moo.Rule)
  (m rest : string) :
  Moo.firstMatch rules s = Some (r, m, rest) ->
  In r rules /\ Moo.matcher r s = Some (m, rest).
Proof.
  induction rules as [|r0 rules IH]; simpl; [discriminate|].
  destruct (Moo.matcher r0 s) as [[m0 rest0]|] eqn:E.
  - intros H; injection H as <- <- <-; auto.
  - intros H; destruct (IH H); auto.
Qed.

Lemma next_progress (lx : Moo.Lexer) (t : Moo.Token) (lx' : Moo.Lexer) :
  Moo.next lexer lx = Ok (Some (t, lx')) ->
  String.length (Moo.buffer lx') < String.length (Moo.buffer lx).
Proof.
  unfold Moo.next; destruct (Moo.buffer lx) as [|c s] eqn:B; [discriminate|].
  destruct (Moo.firstMatch lexer (String c s)) as [[[g m] rest]|] eqn:F;
    [|discriminate].
  destruct m as [|d m]; [discriminate|].
  apply firstMatch_In in F as [Hin Hm].
  apply (lexer_rules_sound g _ _ _ Hin) in Hm.
  intros H; injection H as _ <-; simpl.
  apply (f_equal String.length) in Hm; simpl in Hm.
  rewrite length_append in Hm; lia.
Qed.

(** The loop of [next] does not depend on its fuel, once the fuel exceeds
    the length of the remaining input. *)
Lemma nextLoop_fuel (f1 : nat) :
  forall (f2 : nat) (lx : Moo.Lexer),
    String.length (Moo.buffer lx) < f1 ->
    String.length (Moo.buffer lx) < f2 ->
    nextLoop f1 lx = nextLoop f2 lx.
Proof.
  induction f1 as [|f1 IH]; intros f2 lx L1 L2; [lia|].
  destruct f2 as [|f2]; [lia|]; simpl.
  destruct (Moo.next lexer lx) as [[[t lx']|]|e] eqn:N; try reflexivity.
  apply next_progress in N; simpl.
  destruct (discarded t); [apply IH; lia | reflexivity].
Qed.

Lemma span_run (p : ascii -> bool) (ws rest : string) :
  (fix all (s : string) : bool :=
     match s with
     | EmptyString => true
     | String c s' => p c && all s'
     end) ws = true ->
  match rest with
  | EmptyString => true
  | String c _ => negb (p c)
  end = true ->
  Moo.span p (ws +++ rest) = (ws, rest).
Proof.
  intros A R; induction ws as [|c ws IH]; simpl.
  - destruct rest as [|c r]; [reflexivity|]; simpl.
    apply negb_true_iff in R; now rewrite R.
  - apply andb_true_iff in A as [-> A]; now rewrite (IH A).
Qed.

Lemma isNewline_LF (c : ascii) : Moo.isNewline c = Ascii.eqb c Runtime.LF.
Proof.
  unfold Moo.isNewline, Str.code, Runtime.LF.
  destruct (Ascii.eqb_spec c (ascii_of_nat 10)) as [->|N]; [reflexivity|].
  apply Nat.eqb_neq; intros E; apply N.
  now rewrite <- (ascii_nat_embedding c), E.
Qed.

Lemma countNewlines_none (s : string) :
  includesChar Runtime.LF s = false -> Moo.countNewlines s = 0.
Proof.
  induction s as [|c s IH]; simpl; [reflexivity|].
  rewrite isNewline_LF; intros H; apply orb_false_iff in H as [-> H].
  now rewrite IH.
Qed.

(** The original [next] on a maximal white space run: one token spanning
    the run, typed NEWLINE when the run holds a line feed and WHITESPACE
    otherwise. *)
Lemma next_whitespace (lx : Moo.Lexer) (ws rest : string) :
  Moo.buffer lx = ws +++ rest -> ws <> "" ->
  allSpace ws = true -> noLeadingSpace rest = true ->
  Moo.next lexer lx
  = Ok (Some (Moo.mkToken
                (if includesChar Runtime.LF ws then "NEWLINE" else "WHITESPACE")
                ws ws (Moo.index lx) (Moo.countNewlines ws)
                (Moo.lexLine lx) (Moo.lexCol lx),
              advanced lx ws rest)).
Proof.
  intros B N A R; unfold Moo.next; rewrite B.
  destruct ws as [|c ws]; [congruence|].
  change (String c ws +++ rest) with (String c (ws +++ rest)) at 1.
  cbv beta iota.
  assert (F : Moo.firstMatch lexer (String c ws +++ rest)
              = Some (nth 0 lexer (Moo.mkRule "" (fun _ => None) false None None),
                      String c ws, rest)).
  { unfold lexer at 1; cbn [Moo.firstMatch Moo.matcher]; unfold Moo.plus.
    rewrite (span_run Moo.isSpace (String c ws) rest A R); reflexivity. }
  rewrite F; unfold Moo.makeToken, advanced; cbn [nth lexer Moo.lineBreaks
    Moo.typeFn Moo.valueFn Moo.defaultType].
  destruct (includesChar Runtime.LF (String c ws)); reflexivity.
Qed.

(** C6: a maximal white space run that holds a line feed comes out of the
    lexer as one NEWLINE token spanning the run; a run without a line feed
    gives no token at all, the lexer goes on with what follows it; and no
    token the lexer gives is typed WHITESPACE. *)
Theorem lexer_whitespace_newline (lx : Moo.Lexer) (ws rest : string) :
  Moo.buffer lx = ws +++ rest -> ws <> "" ->
  allSpace ws = true -> noLeadingSpace rest = true ->
  (includesChar Runtime.LF ws = true ->
   Lexer.next lx
   = Ok (Some (Moo.mkToken "NEWLINE" ws ws (Moo.index lx)
                 (Moo.countNewlines ws) (Moo.lexLine lx) (Moo.lexCol lx),
               advanced lx ws rest)))
  /\ (includesChar Runtime.LF ws = false ->
      Lexer.next lx = Lexer.next (advanced lx ws rest)
      /\ advanced lx ws rest
         = Moo.mkLexer rest (Moo.index lx + String.length ws) (Moo.lexLine lx)
             (Moo.lexCol lx + String.length ws))
  /\ (forall t lx', Lexer.next lx = Ok (Some (t, lx')) ->
                    Moo.type t <> "WHITESPACE" /\ Moo.type t <> "COMMENT").
Proof.
  intros B N A R.
  pose proof (next_whitespace lx ws rest B N A R) as W.
  split; [|split].
  - intros I; unfold Lexer.next; cbn [nextLoop]; rewrite W, I; reflexivity.
  - intros I; split.
    + unfold Lexer.next at 1; cbn [nextLoop]; rewrite W, I.
      cbn [bind]; unfold discarded; cbn [Moo.type].
      change (negb ("WHITESPACE" =? "")%string
              && existsb (String.eqb "WHITESPACE") TOKEN_TYPES_TO_DISCARD)
        with true; cbv iota.
      unfold Lexer.next; apply nextLoop_fuel.
      * rewrite B, length_append; unfold advanced; cbn [Moo.buffer].
        destruct ws; [congruence | simpl; lia].
      * lia.
    + unfold advanced; rewrite (countNewlines_none ws I), Nat.add_0_r.
      reflexivity.
  - unfold Lexer.next; generalize (S (String.length (Moo.buffer lx))).
    intros fuel; revert lx B W.
    clear; intros lx _ _; revert lx.
    induction fuel as [|fuel IH]; intros lx t lx'; simpl; [discriminate|].
    destruct (Moo.next lexer lx) as [[[t0 lx0]|]|e]; simpl; try discriminate.
    destruct (discarded t0) eqn:D; [apply IH|].
    intros H; injection H as <- <-.
    unfold discarded in D; split; intros E; rewrite E in D; discriminate.
Qed.

Lemma lexer_whitespace_newline_witness :
  Lexer.next (Moo.reset ("  " +++ Runtime.NL +++ " x"))
  = Ok (Some (Moo.mkToken "NEWLINE" ("  " +++ Runtime.NL +++ " ")
                ("  " +++ Runtime.NL +++ " ") 0 1 1 1,
              Moo.mkLexer "x" 4 2 2)).
Proof.
  exact (proj1 (lexer_whitespace_newline
                  (Moo.reset ("  " +++ Runtime.NL +++ " x"))
                  ("  " +++ Runtime.NL +++ " ") "x"
                  eq_refl ltac:(discriminate) eq_refl eq_refl) eq_refl).
Defined.

End LexerProperties.

(** ** Variable resolution in the semantic analyzer *)

Section AnalyzerProperties.

Import SymbolTable Ast SemanticAnalyzer.

Variable binaryOpName : BinaryOp -> string.

Lemma nth_error_updateNth {A : Type} (l : list A) (i : nat) (x y : A) :
  nth_error l i = Some x -> nth_error (updateNth l i y) i = Some y.
Proof.
  revert i; induction l as [|a l IH]; intros [|i]; simpl; try discriminate.
  - reflexivity.
  - apply IH.
Qed.


Lemma lookupSymbol_in_scope (a : Analyzer) (name : string)
  (params locals globals : list VarSymbol) :
  currentParams a = Ok params ->
  getLocalSymbols a = Ok locals ->
  moduleGlobalSymbols (module a) = Some globals ->
  SemanticAnalyzer.lookupSymbol a name
  = Ok (lookupInScope params locals globals name).
Proof.
  unfold currentParams, SemanticAnalyzer.lookupSymbol, lookupInScope.
  intros P L G; rewrite L, G.
  destruct (currentProcNode a) as [[proc|]|e]; simpl in *; try discriminate.
  - destruct (paramSymbols proc) as [ps|]; simpl in *; try discriminate.
    injection P as ->.
    destruct (SymbolTable.lookupSymbol SymbolTable.name params name); [reflexivity|].
    destruct (SymbolTable.lookupSymbol SymbolTable.name locals name); [reflexivity|].
    destruct (SymbolTable.lookupSymbol SymbolTable.name globals name); reflexivity.
  - injection P as <-; simpl.
    destruct (SymbolTable.lookupSymbol SymbolTable.name locals name); [reflexivity|].
    destruct (SymbolTable.lookupSymbol SymbolTable.name globals name); reflexivity.
Qed.

Lemma addLocalSymbol_locals (a : Analyzer) (symbol : VarSymbol)
  (locals : list VarSymbol) :
  getLocalSymbols a = Ok locals ->
  exists a',
    addLocalSymbol a symbol = Ok a'
    /\ getLocalSymbols a' = Ok (locals ++ [symbol])
    /\ currentProc a' = currentProc a
    /\ moduleGlobalSymbols (module a') = moduleGlobalSymbols (module a).
Proof.
  unfold addLocalSymbol, getLocalSymbols, currentProcNode.
  destruct (currentProc a) as [i|] eqn:C.
  - destruct (nth_error (procs (module a)) i) as [proc|] eqn:N; simpl;
      [|discriminate].
    intros L; rewrite L; simpl.
    eexists; split; [reflexivity|]; simpl.
    rewrite (nth_error_updateNth _ _ _ _ N); simpl; auto.
  - simpl; intros L; rewrite L; simpl.
    eexists; split; [reflexivity|]; simpl; auto.
Qed.


End AnalyzerProperties.



(** ** The code generator *)

Section CodegenProperties.

Import Ast CodeGenerator.

Variable sourceFileName : string.
Variable indentWidth : nat.
Variable GOTO GOSUB RETURN END VALUE FN : string.
Variable jsonOfString : string -> string.
Variable jsonOfTypeSpec : option DataTypeSpec -> string.
Variable acceptFnCall : Expr -> Result Chunk.

Abbreviation acceptExpr' := (acceptExpr sourceFileName acceptFnCall).
Abbreviation createSourceNode' := (createSourceNode sourceFileName).
Abbreviation lines' := (lines indentWidth).
Abbreviation pad' := (pad indentWidth).
Abbreviation createStmtSourceNode' :=
  (createStmtSourceNode sourceFileName indentWidth).
Abbreviation generateLabelStmt' := (generateLabelStmt indentWidth).
Abbreviation closeForStmt' :=
  (closeForStmt sourceFileName indentWidth GOTO acceptFnCall).
Abbreviation closeForStmts' :=
  (closeForStmts sourceFileName indentWidth GOTO acceptFnCall).
Abbreviation verifyCounters' := (verifyCounters sourceFileName acceptFnCall).
Abbreviation visitNextStmt' :=
  (visitNextStmt sourceFileName indentWidth GOTO acceptFnCall).
Abbreviation visitStmts' :=
  (visitStmts sourceFileName indentWidth GOTO GOSUB RETURN END VALUE
     jsonOfString jsonOfTypeSpec acceptFnCall).
Abbreviation acceptAll' :=
  (acceptAll sourceFileName indentWidth GOTO GOSUB RETURN END VALUE
     jsonOfString jsonOfTypeSpec acceptFnCall).
Abbreviation closedForText' :=
  (closedForText sourceFileName indentWidth GOTO acceptFnCall).
Abbreviation closedForsText' :=
  (closedForsText sourceFileName indentWidth GOTO acceptFnCall).
Abbreviation counterMatches' := (counterMatches sourceFileName acceptFnCall).
Abbreviation counterDiffers' := (counterDiffers sourceFileName acceptFnCall).
Abbreviation counterCompiles' :=
  (counterCompiles sourceFileName acceptFnCall).

Lemma toString_Node (l c : option nat) (src : string) (cs : list Chunk) :
  toString (Node l c src (addChunks cs)) = concatText cs.
Proof.
  change (toString (Node l c src (addChunks cs)))
    with ((fix concat (l : list Chunk) : string :=
             match l with
             | [] => ""
             | x :: l' => toString x +++ concat l'
             end) (addChunks cs)).
  induction cs as [|x cs IH]; [reflexivity|].
  change (concatText (x :: cs)) with (toString x +++ concatText cs).
  rewrite <- IH; unfold addChunks; cbn [filter].
  destruct x as [[|ch s]|l' c' src' cs']; reflexivity.
Qed.

Lemma toString_createSourceNode (loc : Loc) (cs : list Chunk) :
  toString (createSourceNode' loc cs) = concatText cs.
Proof. apply toString_Node. Qed.

Lemma concatText_cons (x : Chunk) (cs : list Chunk) :
  concatText (x :: cs) = toString x +++ concatText cs.
Proof. reflexivity. Qed.

Lemma concatText_app (a b : list Chunk) :
  concatText (a ++ b) = concatText a +++ concatText b.
Proof.
  induction a as [|x a IH]; [reflexivity|].
  change (concatText ((x :: a) ++ b))
    with (toString x +++ concatText (a ++ b)).
  change (concatText (x :: a)) with (toString x +++ concatText a).
  now rewrite IH, append_assoc.
Qed.

Lemma pad_test (ind : Z) :
  (0 <= ind)%Z -> (Z.of_nat indentWidth * ind <? 0)%Z = false.
Proof. intros H; apply Z.ltb_ge; nia. Qed.

Lemma generator_eta (g : Generator) :
  mkGenerator (openForStmtStates g) (openLoopStmtStates g) (indent g)
    (nextGeneratedLabelIdx g) = g.
Proof. destruct g; reflexivity. Qed.

Lemma linesLoop_nil (ind : Z) (out : list string) :
  linesLoop indentWidth [] ind out = Ok (out, ind).
Proof. reflexivity. Qed.

Lemma linesLoop_indent (n ind : Z) (vs : list LineValue) (out : list string) :
  linesLoop indentWidth (Indent n :: vs) ind out
  = linesLoop indentWidth vs (ind + n) out.
Proof. reflexivity. Qed.

Lemma linesLoop_empty (ind : Z) (vs : list LineValue) (out : list string) :
  linesLoop indentWidth (Line "" :: vs) ind out
  = linesLoop indentWidth vs ind (out ++ [""]).
Proof. reflexivity. Qed.

Lemma linesLoop_line (value : string) (ind : Z) (vs : list LineValue)
  (out : list string) :
  value <> "" -> (0 <= ind)%Z ->
  linesLoop indentWidth (Line value :: vs) ind out
  = linesLoop indentWidth vs ind (out ++ [pad' ind +++ value]).
Proof.
  intros N H; destruct value; [congruence|].
  cbn [linesLoop]; now rewrite pad_test.
Qed.

Lemma generateLoc_nonempty (loc : Loc) : generateLoc loc <> "".
Proof. discriminate. Qed.

(** Runs the generator's bookkeeping: the lines are laid out at levels that
    are not negative. *)
Ltac run_lines :=
  repeat first
    [ rewrite linesLoop_nil
    | rewrite linesLoop_indent
    | rewrite linesLoop_empty
    | rewrite linesLoop_line
        by first [ lia | apply generateLoc_nonempty | discriminate ]
    | progress (unfold bindG, bind, lift, ret, getG, putG, addIndent,
                 setOpenForStmtStates, lines;
                cbv beta iota;
                cbn [indent openForStmtStates openLoopStmtStates
                       nextGeneratedLabelIdx app fst snd]) ].

Lemma createStmtSourceNode_runs (loc : Loc) (code : list Chunk) (g : Generator) :
  (0 <= indent g)%Z ->
  exists node,
    createStmtSourceNode' loc (Ok code) g = Ok (node, g)
    /\ toString node
       = stmtObjectText indentWidth (indent g) loc (concatText code).
Proof.
  destruct g as [ofs ols ind idx]; cbn [indent]; intros H.
  unfold createStmtSourceNode; run_lines.
  replace (ind + 1 + -1)%Z with ind by lia.
  eexists; split; [reflexivity|].
  rewrite toString_createSourceNode.
  unfold stmtObjectText.
  cbn [app]; rewrite !concatText_cons, concatText_app, !concatText_cons.
  cbn [toString String.concat concatText fold_right].
  rewrite !append_nil_r, !append_assoc; reflexivity.
Qed.

Lemma generateLabelStmt_runs (loc : Loc) (label : string) (g : Generator) :
  (0 <= indent g)%Z ->
  generateLabelStmt' (Some loc) label g
  = Ok (labelObjectText indentWidth (indent g) loc label, g).
Proof.
  destruct g as [ofs ols ind idx]; cbn [indent]; intros H.
  unfold generateLabelStmt; run_lines.
  replace (ind + 1 + -1)%Z with ind by lia.
  unfold labelObjectText; cbn [String.concat].
  rewrite !append_nil_r, !append_assoc; reflexivity.
Qed.

Lemma nth_error_snoc_last {A : Type} (l : list A) (x : A) :
  nth_error (l ++ [x]) (List.length (l ++ [x]) - 1) = Some x.
Proof.
  rewrite length_app; cbn [List.length].
  replace (List.length l + 1 - 1) with (List.length l) by lia.
  rewrite nth_error_app2 by lia; now rewrite Nat.sub_diag.
Qed.

(** Closing the innermost open FOR: the frame is popped, the level goes one
    out, and the three statements of [closedForText] are emitted. *)
Lemma closeForStmt_runs (loc : Loc) (g : Generator) (kept : list ForStmtState)
  (st : ForStmtState) :
  openForStmtStates g = kept ++ [st] ->
  counterCompiles' st ->
  (1 <= indent g)%Z ->
  exists chunks,
    closeForStmt' loc g
    = Ok (chunks, mkGenerator kept (openLoopStmtStates g) (indent g - 1)
                    (nextGeneratedLabelIdx g))
    /\ concatText chunks = closedForText' loc (indent g) st.
Proof.
  destruct g as [ofs ols ind idx];
    cbn [openForStmtStates openLoopStmtStates indent nextGeneratedLabelIdx].
  intros -> [f F] H.
  unfold closeForStmt.
  unfold bindG at 1, getG at 1.
  cbn [openForStmtStates]; rewrite nth_error_snoc_last, removelast_last.
  unfold bindG at 1, lift at 1, SemanticAnalyzer.nonNull at 1.
  unfold bindG at 1, setOpenForStmtStates at 1.
  cbn [openLoopStmtStates indent nextGeneratedLabelIdx].
  rewrite F; cbn [bind].
  set (g1 := mkGenerator kept ols ind idx).
  destruct (createStmtSourceNode_runs loc
              [f; Text (" += " +++ stepValue st +++ "; ");
               Text (generateGotoCode GOTO (startLabel st))] g1)
    as [step [E1 T1]]; [cbn [g1 indent]; lia|].
  unfold bindG at 1; rewrite E1.
  unfold bindG at 1, addIndent at 1; cbn [g1 openForStmtStates
    openLoopStmtStates indent nextGeneratedLabelIdx].
  set (g2 := mkGenerator kept ols (ind + -1) idx).
  unfold bindG at 1.
  rewrite (generateLabelStmt_runs (forLoc (forStmt st)) (endLabel st) g2)
    by (cbn [g2 indent]; lia).
  destruct (createStmtSourceNode_runs (forLoc (forStmt st))
              [Text ("delete " +++ stepValue st +++ "; delete "
                     +++ endValue st +++ ";")] g2)
    as [release [E2 T2]]; [cbn [g2 indent]; lia|].
  unfold bindG at 1; rewrite E2; unfold ret.
  eexists; split; [unfold g2; reflexivity|].
  rewrite !concatText_cons, T1, T2; cbn [toString concatText fold_right].
  unfold closedForText, counterText; rewrite F.
  cbn [g1 g2 indent]; rewrite ?concatText_cons.
  cbn [toString concatText fold_right].
  rewrite !append_nil_r, !append_assoc; reflexivity.
Qed.

(** Closing the FOR frames [closed] on top of the stack, innermost first. *)
Lemma closeForStmts_runs (loc : Loc) (closed : list ForStmtState) :
  forall (g : Generator) (kept : list ForStmtState),
    openForStmtStates g = kept ++ closed ->
    Forall counterCompiles' closed ->
    (Z.of_nat (List.length closed) <= indent g)%Z ->
    exists chunks,
      closeForStmts' loc (List.length closed) g
      = Ok (chunks,
            mkGenerator kept (openLoopStmtStates g)
              (indent g - Z.of_nat (List.length closed))
              (nextGeneratedLabelIdx g))
      /\ concatText chunks = closedForsText' loc (indent g) (rev closed).
Proof.
  induction closed as [|st closed IH] using rev_ind; intros g kept O C H.
  - cbn [List.length closeForStmts ret rev closedForsText].
    rewrite app_nil_r in O; rewrite <- O, Z.sub_0_r, generator_eta.
    eexists; split; reflexivity.
  - rewrite length_app, Nat.add_comm in *; cbn [List.length Nat.add] in *.
    apply Forall_app in C as [C1 C2]; inversion C2 as [|? ? Cst _]; subst.
    rewrite app_assoc in O.
    destruct (closeForStmt_runs loc g (kept ++ closed) st O Cst ltac:(lia))
      as [chunks1 [E1 T1]].
    cbn [closeForStmts]; unfold bindG at 1; rewrite E1.
    set (g1 := mkGenerator (kept ++ closed) (openLoopStmtStates g)
                 (indent g - 1) (nextGeneratedLabelIdx g)).
    destruct (IH g1 kept eq_refl C1 ltac:(cbn [g1 indent]; lia))
      as [chunks2 [E2 T2]].
    unfold bindG at 1; rewrite E2; unfold ret.
    cbn [g1 openLoopStmtStates indent nextGeneratedLabelIdx] in *.
    replace (indent g - 1 - Z.of_nat (List.length closed))%Z
      with (indent g - Z.of_nat (S (List.length closed)))%Z by lia.
    eexists; split; [reflexivity|].
    rewrite concatText_app, T1, T2, rev_unit; reflexivity.
Qed.

Lemma nth_error_from_top {A : Type} (l : list A) (i : nat) (x : A) :
  nth_error (rev l) i = Some x ->
  nth_error l (List.length l - 1 - i) = Some x.
Proof.
  rewrite nth_error_rev.
  destruct (Nat.ltb_spec i (List.length l)); [|discriminate].
  now replace (List.length l - S i) with (List.length l - 1 - i) by lia.
Qed.

Lemma verifyCounters_matches (loc : Loc) (open : list ForStmtState)
  (cs : list Expr) (frames : list ForStmtState) :
  Forall2 counterMatches' cs frames ->
  forall i,
    (forall j st, nth_error frames j = Some st ->
                  nth_error (rev open) (i + j) = Some st) ->
    verifyCounters' loc open i cs = Ok tt.
Proof.
  induction 1 as [|e st cs frames [c [f [Ec [Ef T]]]] _ IH]; intros i N;
    [reflexivity|].
  cbn [verifyCounters]; rewrite Ec; cbn [bind].
  pose proof (N 0 st eq_refl) as N0; rewrite Nat.add_0_r in N0.
  rewrite (nth_error_from_top _ _ _ N0); cbn [SemanticAnalyzer.nonNull bind].
  rewrite Ef; cbn [bind]; rewrite T, String.eqb_refl; cbn [negb].
  apply IH; intros j st' Hj.
  replace (S i + j) with (i + S j) by lia; now apply N.
Qed.

Lemma verifyCounters_differs (loc : Loc) (open : list ForStmtState)
  (pre : list Expr) (frames : list ForStmtState) (e : Expr)
  (post : list Expr) (st : ForStmtState) :
  Forall2 counterMatches' pre frames ->
  forall i,
    (forall j st', nth_error frames j = Some st' ->
                   nth_error (rev open) (i + j) = Some st') ->
    nth_error (rev open) (i + List.length pre) = Some st ->
    counterDiffers' e st ->
    verifyCounters' loc open i (pre ++ e :: post)
    = Throw (CodegenError
               ("Counter #" +++ Str.ofNat (i + List.length pre + 1)
                +++ " does not match corresponding FOR statement") loc).
Proof.
  induction 1 as [|e0 st0 cs frames [c [f [Ec [Ef T]]]] _ IH];
    intros i N Nst [c' [f' [Ec' [Ef' T']]]].
  - cbn [app verifyCounters List.length] in *; rewrite Nat.add_0_r in *.
    rewrite Ec'; cbn [bind].
    rewrite (nth_error_from_top _ _ _ Nst); cbn [SemanticAnalyzer.nonNull bind].
    rewrite Ef'; cbn [bind].
    apply String.eqb_neq in T'; rewrite T'; reflexivity.
  - cbn [app verifyCounters List.length] in *; rewrite Ec; cbn [bind].
    pose proof (N 0 st0 eq_refl) as N0; rewrite Nat.add_0_r in N0.
    rewrite (nth_error_from_top _ _ _ N0); cbn [SemanticAnalyzer.nonNull bind].
    rewrite Ef; cbn [bind]; rewrite T, String.eqb_refl; cbn [negb].
    replace (i + S (List.length cs) + 1) with (S i + List.length cs + 1) by lia.
    apply IH.
    + intros j st' Hj; replace (S i + j) with (i + S j) by lia; now apply N.
    + now replace (S i + List.length cs) with (i + S (List.length cs)) by lia.
    + exists c', f'; auto.
Qed.

Lemma nth_error_firstn_some {A : Type} (l : list A) (n j : nat) (x : A) :
  nth_error (firstn n l) j = Some x -> nth_error l j = Some x.
Proof.
  revert n j; induction l as [|a l IH]; intros [|n] [|j]; simpl;
    try discriminate; auto.
  apply IH.
Qed.

Lemma visitNextStmt_unfold (counterExprs : list Expr) (loc : Loc) (g : Generator) :
  visitNextStmt' counterExprs loc g
  = if (List.length (openForStmtStates g)
        <? numForStmtStatesToClose counterExprs)%nat
    then Throw (CodegenError
                  "NEXT statement without corresponding FOR statement" loc)
    else
      match verifyCounters' loc (openForStmtStates g) 0 counterExprs with
      | Ok _ =>
          match closeForStmts' loc (numForStmtStatesToClose counterExprs) g with
          | Ok (chunks, g') => Ok (createSourceNode' loc chunks, g')
          | Throw e => Throw e
          end
      | Throw e => Throw e
      end.
Proof.
  unfold visitNextStmt, numForStmtStatesToClose, bindG, getG, lift, ret,
    throwError.
  destruct (List.length (openForStmtStates g) <? _)%nat; [reflexivity|].
  destruct (verifyCounters' loc (openForStmtStates g) 0 counterExprs);
    reflexivity.
Qed.

(** At the end of a statement list with more FORs open than at its start,
    [visitStmts] raises the error, located at the innermost open FOR. *)
Lemma visitStmts_unclosed (fuel : nat) (stmts : list Stmt) (g : Generator)
  (nodes : list Chunk) (g' : Generator) :
  acceptAll' (visitStmts' fuel) stmts g = Ok (nodes, g') ->
  List.length (openForStmtStates g) < List.length (openForStmtStates g') ->
  exists kept st,
    openForStmtStates g' = kept ++ [st]
    /\ visitStmts' (S fuel) stmts g
       = Throw (CodegenError
                  "FOR statement without corresponding NEXT statement"
                  (forLoc (forStmt st))).
Proof.
  intros A L.
  destruct (exists_last (l := openForStmtStates g')) as [kept [st E]];
    [intros N; rewrite N in L; cbn in L; lia|].
  exists kept, st; split; [exact E|].
  cbn [visitStmts]; unfold visitStmtsBody.
  unfold bindG at 1, getG at 1.
  unfold bindG at 1; rewrite A.
  unfold bindG at 1, getG at 1.
  replace (List.length (openForStmtStates g)
           <? List.length (openForStmtStates g'))%nat with true
    by (symmetry; apply Nat.ltb_lt; exact L).
  unfold bindG, lift; rewrite E, nth_error_snoc_last; reflexivity.
Qed.

(** C5 (as the code has it): a NEXT that names k counters (one for a bare
    NEXT), with k FOR frames open and the named counters matching, closes the k
    innermost open FOR frames, innermost first: each gives the counter
    increment with the goto to its loop start, its loop end label and the
    release of its step and end temps, and is popped. A named counter whose
    text differs from that of its FOR's counter is a code generation error,
    as is a NEXT with fewer FORs open than it closes, and a statement list
    at whose end more FORs are open than at its start: so any FOR left open
    at the end of a list that began with none open, as a module's or a
    proc's statements do. *)
Theorem visitNextStmt_closes_innermost_first (counterExprs : list Expr)
  (loc : Loc) (g : Generator) :
  (forall kept closed : list ForStmtState,
      openForStmtStates g = kept ++ closed ->
      List.length closed = numForStmtStatesToClose counterExprs ->
      Forall2 counterMatches' counterExprs
        (firstn (List.length counterExprs) (rev closed)) ->
      Forall counterCompiles' closed ->
      (Z.of_nat (List.length closed) <= indent g)%Z ->
      exists node,
        visitNextStmt' counterExprs loc g
        = Ok (node,
              mkGenerator kept (openLoopStmtStates g)
                (indent g - Z.of_nat (List.length closed))
                (nextGeneratedLabelIdx g))
        /\ toString node = closedForsText' loc (indent g) (rev closed))
  /\ (forall (pre : list Expr) (e : Expr) (post : list Expr) (st : ForStmtState),
         counterExprs = pre ++ e :: post ->
         List.length counterExprs <= List.length (openForStmtStates g) ->
         Forall2 counterMatches' pre
           (firstn (List.length pre) (rev (openForStmtStates g))) ->
         nth_error (rev (openForStmtStates g)) (List.length pre) = Some st ->
         counterDiffers' e st ->
         visitNextStmt' counterExprs loc g
         = Throw (CodegenError
                    ("Counter #" +++ Str.ofNat (List.length pre + 1)
                     +++ " does not match corresponding FOR statement") loc))
  /\ (List.length (openForStmtStates g) < numForStmtStatesToClose counterExprs ->
      visitNextStmt' counterExprs loc g
      = Throw (CodegenError
                 "NEXT statement without corresponding FOR statement" loc))
  /\ (forall (fuel : nat) (stmts : list Stmt) (nodes : list Chunk)
             (g' : Generator),
         acceptAll' (visitStmts' fuel) stmts g = Ok (nodes, g') ->
         List.length (openForStmtStates g) < List.length (openForStmtStates g') ->
         exists kept st,
           openForStmtStates g' = kept ++ [st]
           /\ visitStmts' (S fuel) stmts g
              = Throw (CodegenError
                         "FOR statement without corresponding NEXT statement"
                         (forLoc (forStmt st))))
  /\ (openForStmtStates g = [] ->
      forall (fuel : nat) (stmts : list Stmt) (nodes : list Chunk)
             (g' : Generator),
        acceptAll' (visitStmts' fuel) stmts g = Ok (nodes, g') ->
        openForStmtStates g' <> [] ->
        exists loc',
          visitStmts' (S fuel) stmts g
          = Throw (CodegenError
                     "FOR statement without corresponding NEXT statement"
                     loc')).
Proof.
  split; [|split; [|split; [|split]]].
  - intros kept closed O L M C I.
    rewrite visitNextStmt_unfold.
    replace (List.length (openForStmtStates g)
             <? numForStmtStatesToClose counterExprs)%nat with false
      by (symmetry; apply Nat.ltb_ge; rewrite O, length_app; lia).
    rewrite (verifyCounters_matches loc (openForStmtStates g) counterExprs _ M).
    + rewrite <- L.
      destruct (closeForStmts_runs loc closed g kept O C I) as [chunks [E T]].
      rewrite E; eexists; split; [reflexivity|].
      now rewrite toString_createSourceNode.
    + intros j st Hj; cbn [Nat.add].
      apply nth_error_firstn_some in Hj.
      rewrite O, rev_app_distr, nth_error_app1; [exact Hj|].
      apply nth_error_Some; congruence.
  - intros pre e post st -> L M N D.
    rewrite visitNextStmt_unfold.
    replace (List.length (openForStmtStates g)
             <? numForStmtStatesToClose (pre ++ e :: post))%nat with false.
    2:{ symmetry; apply Nat.ltb_ge; unfold numForStmtStatesToClose.
        rewrite length_app in *; cbn [List.length] in *.
        rewrite Nat.add_succ_r in *; exact L. }
    rewrite (verifyCounters_differs loc (openForStmtStates g) pre _ e post st M);
      [reflexivity | | exact N | exact D].
    intros j st' Hj; cbn [Nat.add]; now apply nth_error_firstn_some in Hj.
  - intros L; rewrite visitNextStmt_unfold.
    now replace (List.length (openForStmtStates g)
                 <? numForStmtStatesToClose counterExprs)%nat with true
      by (symmetry; apply Nat.ltb_lt; exact L).
  - intros fuel stmts nodes g' A L.
    exact (visitStmts_unclosed fuel stmts g nodes g' A L).
  - intros E fuel stmts nodes g' A N.
    destruct (visitStmts_unclosed fuel stmts g nodes g' A) as [kept [st [_ T]]];
      [|eauto].
    rewrite E; destruct (openForStmtStates g'); [congruence | cbn; lia].
Qed.

End CodegenProperties.

Lemma visitNextStmt_closes_innermost_first_witness :
  exists node,
    CodeGenerator.visitNextStmt "test.bas" 4 "goto" Sample.acceptFnCall
      [Sample.varRef "i" 33] (mkLoc 1 28) Sample.insideForI
    = Ok (node, CodeGenerator.mkGenerator [] [] 2 2)
    /\ CodeGenerator.toString node
       = CodeGenerator.closedForsText "test.bas" 4 "goto" Sample.acceptFnCall
           (mkLoc 1 28) 3 [Sample.frameI].
Proof.
  apply (proj1 (visitNextStmt_closes_innermost_first "test.bas" 4 "goto"
                  "gosub" "return" "end" "value" (fun s => s)
                  (fun _ => "null") Sample.acceptFnCall
                  [Sample.varRef "i" 33] (mkLoc 1 28)
                  Sample.insideForI) [] [Sample.frameI]).
  - reflexivity.
  - reflexivity.
  - repeat constructor.
    eexists; eexists; split; [reflexivity|]; split; reflexivity.
  - repeat constructor; eexists; reflexivity.
  - cbn; lia.
Defined.

(** FOR i = 1 TO 3 : PRINT i : NEXT j is refused: the counter does not
    match. *)
Example next_with_other_counter :
  Sample.visitStmts 2
    [Ast.ForStmt Sample.forI;
     Ast.PrintStmt [Ast.PrintExpr (Sample.varRef "i" 24)] (mkLoc 1 18);
     Ast.NextStmt [Sample.varRef "j" 33] (mkLoc 1 28)]
    Sample.atStart
  = Throw (CodegenError "Counter #1 does not match corresponding FOR statement"
             (mkLoc 1 28)).
Proof. vm_compute; reflexivity. Qed.

(** FOR i = 1 TO 3 : PRINT i, with no NEXT, is refused at the end of the
    statement list. *)
Example for_without_next :
  Sample.visitStmts 2
    [Ast.ForStmt Sample.forI;
     Ast.PrintStmt [Ast.PrintExpr (Sample.varRef "i" 24)] (mkLoc 1 18)]
    Sample.atStart
  = Throw (CodegenError "FOR statement without corresponding NEXT statement"
             (mkLoc 1 1)).
Proof. vm_compute; reflexivity. Qed.

(** FOR i = 1 TO 3 : PRINT i : NEXT i is lowered, the FOR stack is empty
    again and the level is back where it was. *)
Example for_next_closed :
  exists nodes,
    Sample.visitStmts 2
      [Ast.ForStmt Sample.forI;
       Ast.PrintStmt [Ast.PrintExpr (Sample.varRef "i" 24)] (mkLoc 1 18);
       Ast.NextStmt [Sample.varRef "i" 33] (mkLoc 1 28)]
      Sample.atStart
    = Ok (nodes, CodeGenerator.mkGenerator [] [] 2 2).
Proof. eexists; vm_compute; reflexivity. Qed.

(** C5 as stated fails on a statement list that closes a FOR opened before
    it and opens one of its own: in FOR i / IF c THEN / NEXT / FOR j / END IF
    / NEXT, the branch NEXT, FOR j is exhausted with FOR j open, as many FORs
    are open as at its start, and no error is raised; the whole list is
    lowered. *)
Lemma for_left_open_in_branch_accepted :
  (exists nodes,
      Sample.visitStmts 2 Sample.nextThenFor
        (CodeGenerator.mkGenerator [Sample.frameI] [] 4 3)
      = Ok (nodes, CodeGenerator.mkGenerator [Sample.frameJ] [] 4 4))
  /\ (exists nodes,
         Sample.visitStmts 3 Sample.forIfNext Sample.atStart
         = Ok (nodes, CodeGenerator.mkGenerator [] [] 2 4)).
Proof. split; eexists; vm_compute; reflexivity. Qed.

(** * Further properties *)

(** ** Numeric coercion over any list of operands *)

Section CoercionOutcomes.

Import Coercion.

Lemma fold_wider_max (l : list DataTypeSpec) (a : DataTypeSpec) :
  In (fold_left wider l a) (a :: l)
  /\ forall u, In u (a :: l) -> rank u <= rank (fold_left wider l a).
Proof.
  revert a; induction l as [|b l IH]; intros a; cbn [fold_left].
  - split; [now left | intros u [<-|[]]; lia].
  - destruct (IH (wider a b)) as [M B]; split.
    + destruct M as [M|M]; [|right; now right].
      rewrite <- M; unfold wider; destruct (rank a <=? rank b)%nat;
        [right; now left | now left].
    + assert (W : rank a <= rank (wider a b) /\ rank b <= rank (wider a b)).
      { unfold wider; destruct (Nat.leb_spec (rank a) (rank b)); lia. }
      intros u [<-|[<-|U]].
      * specialize (B (wider a b) (or_introl eq_refl)); lia.
      * specialize (B (wider a b) (or_introl eq_refl)); lia.
      * apply B; now right.
Qed.

Lemma rank_injective (a b : DataTypeSpec) :
  isNumeric1 a = true -> isNumeric1 b = true -> rank a = rank b -> a = b.
Proof.
  destruct a; try discriminate; destruct b; try discriminate;
    cbn; intros _ _ E; congruence.
Qed.

Lemma isNumeric_In (l : list DataTypeSpec) :
  isNumeric l = true <-> forall t, In t l -> isNumeric1 t = true.
Proof. unfold isNumeric; apply forallb_forall. Qed.

(** X1: what [coerceNumericTypes] does on any operand list: no operand is
    an error, an operand that is not numeric is an error, and numeric operands
    give the one of highest rank among them. The error for an unknown
    combination is never raised: the rule table covers every numeric pair. *)
Theorem coerceNumericTypes_outcome (t : list DataTypeSpec) :
  (t = [] -> coerceNumericTypes t = Throw (Error "Missing arguments"))
  /\ (t <> [] -> isNumeric t = false ->
      coerceNumericTypes t = Throw (Error "Expected numeric types"))
  /\ (t <> [] -> isNumeric t = true ->
      exists r, coerceNumericTypes t = Ok r
                /\ In r t /\ forall u, In u t -> rank u <= rank r)
  /\ (forall a b,
         coerceNumericTypes t
         <> Throw (Error ("Unknown numeric type combination: "
                          +++ typeTag a +++ " and " +++ typeTag b))).
Proof.
  assert (N : t <> [] -> isNumeric t = true ->
              exists r, coerceNumericTypes t = Ok r
                        /\ In r t /\ forall u, In u t -> rank u <= rank r).
  { destruct t as [|a l]; [congruence|]; intros _ H.
    exists (fold_left wider l a); split;
      [now apply coerceNumericTypes_fold | apply fold_wider_max]. }
  split; [intros ->; reflexivity|]; split; [|split; [exact N|]].
  - destruct t as [|a l]; [congruence|]; intros _ H.
    unfold coerceNumericTypes; now rewrite H.
  - intros a b; destruct t as [|a0 l]; [discriminate|].
    destruct (isNumeric (a0 :: l)) eqn:H.
    + destruct (N ltac:(discriminate) eq_refl) as [r [E _]]; rewrite E.
      discriminate.
    + unfold coerceNumericTypes; rewrite H; cbn [negb].
      intros C; injection C as C; discriminate C.
Qed.

(** X2: the order of the operands does not matter to [coerceNumericTypes]:
    any rearrangement of the operand list gives the same type or the same
    error. *)
Theorem coerceNumericTypes_permutation (t t' : list DataTypeSpec) :
  Permutation t t' -> coerceNumericTypes t = coerceNumericTypes t'.
Proof.
  intros P.
  destruct t as [|a l].
  { apply Permutation_nil in P; now subst. }
  assert (Ne : t' <> []).
  { intros ->; apply Permutation_sym, Permutation_nil in P; discriminate. }
  assert (Hn : isNumeric (a :: l) = isNumeric t').
  { destruct (isNumeric t') eqn:H'.
    - apply isNumeric_In; intros u U; apply (proj1 (isNumeric_In t') H').
      now apply (Permutation_in _ P).
    - destruct (isNumeric (a :: l)) eqn:H; [|reflexivity].
      rewrite <- H'; symmetry; apply isNumeric_In; intros u U.
      apply (proj1 (isNumeric_In (a :: l)) H).
      now apply (Permutation_in _ (Permutation_sym P)). }
  destruct (isNumeric t') eqn:H'.
  - destruct t' as [|a' l']; [congruence|].
    rewrite !coerceNumericTypes_fold by assumption; f_equal.
    destruct (fold_wider_max l a) as [M B], (fold_wider_max l' a') as [M' B'].
    apply rank_injective.
    + now apply (proj1 (isNumeric_In (a :: l)) Hn).
    + now apply (proj1 (isNumeric_In (a' :: l')) H').
    + apply Nat.le_antisymm.
      * apply B'; now apply (Permutation_in _ P).
      * apply B; now apply (Permutation_in _ (Permutation_sym P)).
  - unfold coerceNumericTypes; rewrite Hn.
    destruct t' as [|a' l']; [congruence|]; now rewrite H'.
Qed.

Lemma coerceNumericTypes_permutation_witness :
  coerceNumericTypes [integerSpec; doubleSpec; longSpec]
  = coerceNumericTypes [longSpec; integerSpec; doubleSpec].
Proof.
  apply coerceNumericTypes_permutation.
  apply Permutation_sym, (Permutation_cons_app [integerSpec; doubleSpec] []).
  apply Permutation_refl.
Defined.

End CoercionOutcomes.

(** ** Overload resolution of the built-in functions *)

Section BuiltinLookup.

Import SymbolTable Runtime.

Lemma everyParamMatches_nth (params argTypeSpecs : list DataTypeSpec) (i : nat) :
  everyParamMatches params i argTypeSpecs = true ->
  forall k p a,
    nth_error params k = Some p -> nth_error argTypeSpecs (i + k) = Some a ->
    areMatchingElementaryTypes p a || (isArray p && isArray a) = true.
Proof.
  revert i; induction params as [|q params IH]; intros i H k p a P A.
  - now destruct k.
  - cbn [everyParamMatches] in H.
    destruct (nth_error argTypeSpecs i) as [b|] eqn:B; [|discriminate].
    apply andb_prop in H as [H1 H2].
    destruct k as [|k]; cbn [nth_error] in P.
    + injection P as <-; rewrite Nat.add_0_r in A; congruence.
    + apply (IH (S i) H2 k); [assumption|].
      now rewrite Nat.add_succ_comm.
Qed.

(** X3: a built-in that [lookupBuiltinFn] returns without the mismatch
    flag is an entry of the table whose name is the looked-up name up to case,
    with as many parameters as there are arguments, each argument matching its
    parameter (both numeric, both string, or both arrays); the call with the
    flag set returns the same entry. *)
Theorem lookupBuiltinFn_sound (name : string) (argTypeSpecs : list DataTypeSpec)
  (f : BuiltinFn) :
  lookupBuiltinFn name argTypeSpecs false = Some f ->
  In f BUILTIN_FNS
  /\ sameName (fnName f) name = true
  /\ List.length (paramTypeSpecs f) = List.length argTypeSpecs
  /\ (forall i p a,
         nth_error (paramTypeSpecs f) i = Some p ->
         nth_error argTypeSpecs i = Some a ->
         areMatchingElementaryTypes p a || (isArray p && isArray a) = true)
  /\ lookupBuiltinFn name argTypeSpecs true = Some f.
Proof.
  unfold lookupBuiltinFn.
  destruct (find (overloadMatches argTypeSpecs)
              (lookupSymbols fnName BUILTIN_FNS name)) as [g|] eqn:F;
    [|cbn [andb]; discriminate].
  intros E; injection E as <-.
  apply find_some in F as [I M].
  apply lookupSymbols_In in I as [I S].
  apply andb_prop in M as [L M]; apply Nat.eqb_eq in L.
  repeat split; try assumption.
  intros i p a; apply (everyParamMatches_nth _ _ 0 M).
Qed.

Lemma lookupBuiltinFn_sound_witness :
  exists f,
    In f BUILTIN_FNS
    /\ sameName (fnName f) "Mid$" = true
    /\ List.length (paramTypeSpecs f) = 3
    /\ lookupBuiltinFn "Mid$" [stringSpec; integerSpec; singleSpec] true = Some f.
Proof.
  exists (mkBuiltinFn "mid$" [stringSpec; longSpec; longSpec] stringSpec).
  destruct (lookupBuiltinFn_sound "Mid$" [stringSpec; integerSpec; singleSpec]
              (mkBuiltinFn "mid$" [stringSpec; longSpec; longSpec] stringSpec)
              eq_refl) as [I [S [L [_ T]]]].
  repeat split; assumption.
Defined.

End BuiltinLookup.

(** ** INPUT on a well-formed line *)

Section InputLexing.

Import Runtime.

Lemma trimEnd_app (a b : string) :
  trimEnd b <> "" -> trimEnd (a +++ b) = a +++ trimEnd b.
Proof.
  intros N; induction a as [|c a IH]; cbn [String.append trimEnd];
    [reflexivity|].
  rewrite IH.
  destruct (String.eqb (a +++ trimEnd b) "") eqn:E.
  - apply String.eqb_eq in E; destruct a; [now elim N | discriminate].
  - now rewrite andb_false_r.
Qed.

Lemma trimEnd_no_space (s : string) :
  Str.all (fun c => negb (Moo.isSpace c)) s = true -> trimEnd s = s.
Proof.
  induction s as [|c s IH]; cbn [Str.all trimEnd]; [reflexivity|].
  intros H; apply andb_prop in H as [C H]; rewrite (IH H).
  apply negb_true_iff in C; now rewrite C.
Qed.

Lemma all_weaken (p q : ascii -> bool) (s : string) :
  (forall c, p c = true -> q c = true) ->
  Str.all p s = true -> Str.all q s = true.
Proof.
  intros W; induction s as [|c s IH]; cbn [Str.all]; [reflexivity|].
  intros H; apply andb_prop in H as [C H]; now rewrite (W c C), IH.
Qed.

Lemma isSpace_DQ : Moo.isSpace Moo.DQ = false.
Proof. reflexivity. Qed.

Lemma isSpace_comma : Moo.isSpace "," = false.
Proof. reflexivity. Qed.

(** The text of a well-formed field begins with a character that is
    neither white space nor a comma, and trimming leaves it as it is. *)
Lemma fieldText_head (f : Field) :
  wellFormed f = true ->
  exists c s, fieldText f = String c s
              /\ Moo.isSpace c = false /\ Ascii.eqb c "," = false.
Proof.
  destruct f as [s|s]; cbn [wellFormed fieldText].
  - destruct s as [|c s]; [discriminate|]; cbn [Str.all].
    intros H; apply andb_prop in H as [_ H]; apply andb_prop in H as [H _].
    apply andb_prop in H as [C S].
    exists c, s; repeat split;
      [now apply negb_true_iff in S | now apply negb_true_iff in C].
  - intros _; exists Moo.DQ, (s +++ String Moo.DQ ""); now repeat split.
Qed.

Lemma trimEnd_fieldText (f : Field) :
  wellFormed f = true ->
  trimEnd (fieldText f) = fieldText f /\ fieldText f <> "".
Proof.
  destruct f as [s|s]; cbn [wellFormed fieldText].
  - intros H; apply andb_prop in H as [N H]; split.
    + apply trimEnd_no_space; revert H; apply all_weaken.
      intros c C; now apply andb_prop in C as [_ C].
    + now destruct s.
  - intros _; split; [|discriminate].
    change (String Moo.DQ (s +++ String Moo.DQ ""))
      with (String Moo.DQ s +++ String Moo.DQ "").
    now rewrite trimEnd_app.
Qed.

Lemma enteredLine_lineFrom (blanks : string) (fields : list Field) :
  enteredLine blanks fields = lineFrom blanks true fields.
Proof.
  unfold enteredLine; destruct fields as [|f fields]; [reflexivity|].
  change (lineFrom blanks true (f :: fields))
    with (fieldText f +++ lineFrom blanks false fields); revert f.
  induction fields as [|g fields IH]; intros f.
  - cbn [map String.concat lineFrom]; now rewrite append_nil_r.
  - change (String.concat ("," +++ blanks) (map fieldText (f :: g :: fields)))
      with (fieldText f +++ ("," +++ blanks)
            +++ String.concat ("," +++ blanks) (map fieldText (g :: fields))).
    rewrite IH; cbn [lineFrom]; now rewrite !append_assoc.
Qed.

Lemma trimEnd_lineFrom (blanks : string) (fields : list Field) (first : bool) :
  forallb wellFormed fields = true -> fields <> [] ->
  trimEnd (lineFrom blanks first fields) = lineFrom blanks first fields
  /\ lineFrom blanks first fields <> "".
Proof.
  revert first; induction fields as [|f fields IH]; intros first W N;
    [congruence|].
  cbn [forallb] in W; apply andb_prop in W as [Wf W].
  destruct (trimEnd_fieldText f Wf) as [T Ne].
  assert (E : trimEnd (fieldText f +++ lineFrom blanks false fields)
              = fieldText f +++ lineFrom blanks false fields
              /\ fieldText f +++ lineFrom blanks false fields <> "").
  { split; [|destruct (fieldText f); [now elim Ne | discriminate]].
    destruct fields as [|g fields].
    - cbn [lineFrom]; now rewrite append_nil_r.
    - destruct (IH false W ltac:(discriminate)) as [T' Ne'].
      rewrite trimEnd_app; now rewrite T'. }
  cbn [lineFrom]; destruct first; cbn [String.append]; [exact E|].
  destruct E as [E1 E2]; split; [|discriminate].
  change (String "," (blanks +++ fieldText f +++ lineFrom blanks false fields))
    with (String "," "" +++ blanks +++ fieldText f +++ lineFrom blanks false fields).
  rewrite <- (append_assoc _ blanks), trimEnd_app; now rewrite E1.
Qed.

Lemma trim_enteredLine (blanks : string) (fields : list Field) :
  forallb wellFormed fields = true ->
  trim (enteredLine blanks fields) = enteredLine blanks fields.
Proof.
  intros W; rewrite enteredLine_lineFrom.
  destruct fields as [|f fields]; [reflexivity|].
  unfold trim, trimStart.
  assert (S : Moo.span Moo.isSpace (lineFrom blanks true (f :: fields))
              = ("", lineFrom blanks true (f :: fields))).
  { cbn [forallb] in W; apply andb_prop in W as [Wf _].
    destruct (fieldText_head f Wf) as [c [s [E [Sp _]]]].
    cbn [lineFrom String.append]; rewrite E; cbn [String.append Moo.span].
    now rewrite Sp. }
  rewrite S; cbn [snd].
  now apply trimEnd_lineFrom.
Qed.

End InputLexing.

Section InputFields.

Import Runtime.

Let tv (token : Moo.Token) : string * string :=
  (Moo.type token, Moo.value token).

Let bare (c : ascii) : bool :=
  negb (Ascii.eqb c ",") && negb (Moo.isSpace c).

Lemma next_firstMatch (rules : list Moo.Rule) (lx : Moo.Lexer) (r : Moo.Rule)
  (c : ascii) (m rest : string) :
  Moo.buffer lx = String c m +++ rest ->
  Moo.firstMatch rules (Moo.buffer lx) = Some (r, String c m, rest) ->
  Moo.next rules lx = Ok (Some (Moo.makeToken r (String c m) rest lx)).
Proof.
  unfold Moo.next; intros B F; rewrite F, B; reflexivity.
Qed.

Lemma plus_none (p : ascii -> bool) (c : ascii) (s : string) :
  p c = false -> Moo.plus p (String c s) = None.
Proof. intros H; unfold Moo.plus; cbn [Moo.span]; now rewrite H. Qed.

Lemma span_all (p : ascii -> bool) (ws rest : string) :
  Str.all p ws = true ->
  match rest with
  | EmptyString => true
  | String d _ => negb (p d)
  end = true ->
  Moo.span p (ws +++ rest) = (ws, rest).
Proof.
  intros A R; apply span_run; [|exact R].
  induction ws as [|c ws IH]; [reflexivity|].
  cbn [Str.all] in A; apply andb_prop in A as [C A].
  now rewrite C, (IH A).
Qed.

Lemma plus_run (p : ascii -> bool) (c : ascii) (m rest : string) :
  Str.all p (String c m) = true ->
  match rest with
  | EmptyString => true
  | String d _ => negb (p d)
  end = true ->
  Moo.plus p (String c m +++ rest) = Some (String c m, rest).
Proof.
  intros A R; unfold Moo.plus.
  now rewrite (span_all p (String c m) rest A R).
Qed.

Lemma substring_prefix (a b : string) :
  String.substring 0 (String.length a) (a +++ b) = a.
Proof.
  induction a as [|c a IH]; cbn [String.length String.append String.substring].
  - now destruct b.
  - now rewrite IH.
Qed.

Lemma stripQuotes_quoted (body : string) :
  Moo.stripQuotes (String Moo.DQ (body +++ String Moo.DQ "")) = body.
Proof.
  unfold Moo.stripQuotes; cbn [String.length].
  rewrite length_append; cbn [String.length].
  replace (S (String.length body + 1) - 2) with (String.length body) by lia.
  cbn [String.substring]; apply substring_prefix.
Qed.

(** A bare field at the head of the input comes out as one STRING token
    holding the field. *)
Lemma next_bare (lx : Moo.Lexer) (s rest : string) :
  wellFormed (Bare s) = true ->
  Moo.buffer lx = s +++ rest ->
  match rest with
  | EmptyString => true
  | String d _ => negb (bare d)
  end = true ->
  exists token lx',
    Moo.next inputLexer lx = Ok (Some (token, lx'))
    /\ tv token = ("STRING", s) /\ Moo.buffer lx' = rest.
Proof.
  cbn [wellFormed]; intros W B R.
  destruct s as [|c s]; [discriminate|].
  apply andb_prop in W as [Q A].
  assert (H := A); cbn [Str.all] in H; apply andb_prop in H as [H _].
  apply andb_prop in H as [C S].
  apply negb_true_iff in Q, C, S.
  do 2 eexists; split; [|split].
  - apply (next_firstMatch _ _ (nth 3 inputLexer (hd (Moo.mkRule "" (fun _ => None) false None None) inputLexer)) c s rest B).
    rewrite B; unfold inputLexer; cbn [Moo.firstMatch Moo.matcher nth].
    cbn [String.append]; rewrite (plus_none _ _ _ S).
    cbn [Moo.quoted]; rewrite Q.
    cbn [Moo.literal]; rewrite (Ascii.eqb_sym "," c), C.
    change (String c (s +++ rest)) with (String c s +++ rest).
    now rewrite (plus_run _ c s rest A R).
  - reflexivity.
  - reflexivity.
Qed.

(** A quoted field at the head of the input comes out as one STRING token
    holding the text between the quotes. *)
Lemma next_quoted (lx : Moo.Lexer) (body rest : string) :
  wellFormed (Quoted body) = true ->
  Moo.buffer lx = fieldText (Quoted body) +++ rest ->
  exists token lx',
    Moo.next inputLexer lx = Ok (Some (token, lx'))
    /\ tv token = ("STRING", body) /\ Moo.buffer lx' = rest.
Proof.
  cbn [wellFormed fieldText]; intros W B.
  do 2 eexists; split; [|split].
  - apply (next_firstMatch _ _ (nth 1 inputLexer (hd (Moo.mkRule "" (fun _ => None) false None None) inputLexer))
             Moo.DQ (body +++ String Moo.DQ "") rest B).
    rewrite B; unfold inputLexer; cbn [Moo.firstMatch Moo.matcher nth].
    cbn [String.append]; rewrite (plus_none _ _ _ isSpace_DQ).
    cbn [Moo.quoted]; rewrite Ascii.eqb_refl, append_assoc.
    cbn [String.append].
    rewrite (span_all (fun d => negb (Ascii.eqb d Moo.DQ)) body
               (String Moo.DQ rest) W);
      reflexivity.
  - unfold tv, Moo.makeToken; cbn [nth inputLexer Moo.typeFn Moo.valueFn
      Moo.type Moo.value fst].
    now rewrite stripQuotes_quoted.
  - reflexivity.
Qed.

Lemma next_comma (lx : Moo.Lexer) (rest : string) :
  Moo.buffer lx = String "," rest ->
  exists token lx',
    Moo.next inputLexer lx = Ok (Some (token, lx'))
    /\ tv token = ("COMMA", ",") /\ Moo.buffer lx' = rest.
Proof.
  intros B; do 2 eexists; split; [|split].
  - apply (next_firstMatch _ _ (nth 2 inputLexer (hd (Moo.mkRule "" (fun _ => None) false None None) inputLexer))
             "," "" rest B).
    rewrite B; unfold inputLexer; cbn [Moo.firstMatch Moo.matcher nth].
    rewrite (plus_none _ _ _ isSpace_comma); reflexivity.
  - reflexivity.
  - reflexivity.
Qed.

Lemma next_blanks (lx : Moo.Lexer) (c : ascii) (ws rest : string) :
  Str.all Moo.isSpace (String c ws) = true ->
  match rest with
  | EmptyString => true
  | String d _ => negb (Moo.isSpace d)
  end = true ->
  Moo.buffer lx = String c ws +++ rest ->
  exists token lx',
    Moo.next inputLexer lx = Ok (Some (token, lx'))
    /\ Moo.type token = "WHITESPACE" /\ Moo.buffer lx' = rest.
Proof.
  intros A R B; do 2 eexists; split; [|split].
  - apply (next_firstMatch _ _ (nth 0 inputLexer (hd (Moo.mkRule "" (fun _ => None) false None None) inputLexer))
             c ws rest B).
    rewrite B; unfold inputLexer; cbn [Moo.firstMatch Moo.matcher nth].
    now rewrite (plus_run _ c ws rest A R).
  - reflexivity.
  - reflexivity.
Qed.

Lemma lexInputLoop_step (fuel : nat) (lx lx' : Moo.Lexer) (token : Moo.Token)
  (tokens : list Moo.Token) :
  Moo.next inputLexer lx = Ok (Some (token, lx')) ->
  lexInputLoop (S fuel) lx tokens
  = lexInputLoop fuel lx'
      (if negb (String.eqb (Moo.type token) "WHITESPACE")
       then tokens ++ [token] else tokens).
Proof. intros N; cbn [lexInputLoop]; now rewrite N. Qed.

Lemma lineFrom_head (blanks : string) (fields : list Field) :
  match lineFrom blanks false fields with
  | EmptyString => true
  | String d _ => negb (bare d)
  end = true.
Proof. now destruct fields. Qed.

(** The input lexer on the line from a field on: one STRING token per field
    and one COMMA token between two fields, the blanks dropped. *)
Lemma lexInputLoop_lineFrom (blanks : string) (fields : list Field) :
  Str.all Moo.isSpace blanks = true ->
  forallb wellFormed fields = true ->
  forall (first : bool) (fuel : nat) (lx : Moo.Lexer) (tokens : list Moo.Token),
    Moo.buffer lx = lineFrom blanks first fields ->
    String.length (Moo.buffer lx) < fuel ->
    exists result,
      lexInputLoop fuel lx tokens = Ok result
      /\ map tv result = map tv tokens ++ fieldTokens first fields.
Proof.
  intros Hb; induction fields as [|f fields IH]; intros W first fuel lx tokens B L.
  { destruct fuel as [|fuel]; [lia|].
    exists tokens; cbn [lexInputLoop lineFrom fieldTokens] in *.
    unfold Moo.next; rewrite B; now rewrite app_nil_r. }
  cbn [forallb] in W; apply andb_prop in W as [Wf W].
  specialize (IH W false).
  assert (FS : forall fuel lx tokens,
             Moo.buffer lx = fieldText f +++ lineFrom blanks false fields ->
             String.length (Moo.buffer lx) < fuel ->
             exists result,
               lexInputLoop fuel lx tokens = Ok result
               /\ map tv result
                  = map tv tokens
                    ++ ("STRING", fieldBody f) :: fieldTokens false fields).
  { clear B L lx fuel tokens; intros fuel lx tokens B L.
    assert (N : exists token lx',
               Moo.next inputLexer lx = Ok (Some (token, lx'))
               /\ tv token = ("STRING", fieldBody f)
               /\ Moo.buffer lx' = lineFrom blanks false fields).
    { destruct f as [s|s].
      - apply (next_bare lx s _ Wf B), lineFrom_head.
      - apply (next_quoted lx s _ Wf B). }
    destruct N as [token [lx' [N [TV B']]]].
    destruct fuel as [|fuel]; [lia|].
    rewrite (lexInputLoop_step _ _ _ _ _ N).
    assert (T : Moo.type token = "STRING") by (now injection TV).
    rewrite T; cbn [String.eqb Ascii.eqb Bool.eqb negb].
    destruct (IH fuel lx' (tokens ++ [token]) B') as [result [E M]].
    { rewrite B'; rewrite B, length_append in L.
      destruct (trimEnd_fieldText f Wf) as [_ Ne].
      destruct (fieldText f); [now elim Ne | cbn [String.length] in L; lia]. }
    exists result; split; [exact E|].
    rewrite M, map_app; cbn [map]; rewrite TV, <- app_assoc; reflexivity. }
  destruct first.
  { cbn [fieldTokens app]; apply FS; [|exact L].
    rewrite B; reflexivity. }
  cbn [lineFrom String.append] in B.
  destruct (next_comma lx _ B) as [comma [lx1 [N [TV B1]]]].
  destruct fuel as [|fuel]; [lia|].
  rewrite (lexInputLoop_step _ _ _ _ _ N).
  assert (T : Moo.type comma = "COMMA") by (now injection TV).
  rewrite T; cbn [String.eqb Ascii.eqb Bool.eqb negb].
  assert (L1 : String.length (Moo.buffer lx1) < fuel).
  { rewrite B in L; rewrite B1; cbn [String.length] in L; lia. }
  assert (K : forall fuel lx2,
             Moo.buffer lx2 = fieldText f +++ lineFrom blanks false fields ->
             String.length (Moo.buffer lx2) < fuel ->
             exists result,
               lexInputLoop fuel lx2 (tokens ++ [comma]) = Ok result
               /\ map tv result
                  = map tv tokens ++ fieldTokens false (f :: fields)).
  { intros fuel' lx2 B2 L2.
    destruct (FS fuel' lx2 (tokens ++ [comma]) B2 L2) as [result [E M]].
    exists result; split; [exact E|].
    rewrite M, map_app; cbn [map fieldTokens app]; rewrite TV, <- app_assoc.
    reflexivity. }
  destruct blanks as [|c ws]; [now apply K|].
  destruct (fieldText_head f Wf) as [d [s [Ef [Sd _]]]].
  destruct (next_blanks lx1 c ws (fieldText f +++ lineFrom (String c ws) false fields)
              Hb) as [blank [lx2 [N2 [T2 B2]]]].
  { rewrite Ef; cbn [String.append]; now rewrite Sd. }
  { rewrite B1; reflexivity. }
  destruct fuel as [|fuel]; [lia|].
  rewrite (lexInputLoop_step _ _ _ _ _ N2), T2.
  cbn [String.eqb Ascii.eqb Bool.eqb negb].
  apply K; [exact B2|].
  rewrite B1 in L1; rewrite B2; cbn [String.append String.length] in L1.
  rewrite length_append in L1; lia.
Qed.

Variable num : Type.
Variable parseFloat : string -> num.
Variable isNaN : num -> bool.

Let fits (tf : DataTypeSpec * Field) : bool :=
  Runtime.fieldFits num parseFloat isNaN (fst tf) (fieldBody (snd tf)).

(** The inner loop of [input] on the tokens of well-formed fields that fit
    the requested types: one result per field, in order, a string field as
    its text and a numeric field as [parseFloat] reads it. *)
Lemma inputValues_reads (tokens : list Moo.Token) (types : list DataTypeSpec) :
  forall (fields : list Field) (resultIdx : nat) (st : InputState num),
    List.length types = List.length fields ->
    forallb fits (combine types fields) = true ->
    map tv (skipn (tokenIdx num st) tokens)
    = fieldTokens (resultIdx =? 0)%nat fields ->
    exists st',
      Runtime.inputValues num parseFloat isNaN tokens types resultIdx st = Ok st'
      /\ results num st'
         = results num st
           ++ map (fieldValue num parseFloat) (combine types fields).
Proof.
  induction types as [|t types IH]; intros fields resultIdx st Len F T.
  { exists st; cbn [Runtime.inputValues combine map]; now rewrite app_nil_r. }
  destruct fields as [|f fields]; [discriminate|].
  cbn [List.length] in Len; injection Len as Len.
  cbn [combine forallb] in F; apply andb_prop in F as [Ft F].
  cbn [Runtime.inputValues]; unfold Runtime.inputValue; cbv zeta.
  cbn [fieldTokens] in T.
  assert (V : exists idx token,
             (if (0 <? resultIdx)%nat
              then if tokenTypeAt tokens (tokenIdx num st) "COMMA"
                   then Some (S (tokenIdx num st)) else None
              else Some (tokenIdx num st)) = Some idx
             /\ nth_error tokens idx = Some token
             /\ tv token = ("STRING", fieldBody f)
             /\ map tv (skipn (S idx) tokens) = fieldTokens false fields).
  { destruct resultIdx as [|resultIdx]; cbn [Nat.eqb Nat.ltb Nat.leb app] in T |- *.
    - rewrite skipn_nth_error in T.
      destruct (nth_error tokens (tokenIdx num st)) as [token|] eqn:E;
        [|discriminate].
      cbn [map] in T; injection T as T1 T2 T3.
      exists (tokenIdx num st), token; repeat split; try assumption.
      unfold tv; now rewrite T1, T2.
    - rewrite skipn_nth_error in T; unfold tokenTypeAt.
      destruct (nth_error tokens (tokenIdx num st)) as [comma|]; [|discriminate].
      cbn [map] in T; injection T as C _ T.
      rewrite C; cbn [String.eqb Ascii.eqb Bool.eqb].
      change (map tv (skipn (S (tokenIdx num st)) tokens)
              = ("STRING", fieldBody f) :: fieldTokens false fields) in T.
      rewrite skipn_nth_error in T.
      destruct (nth_error tokens (S (tokenIdx num st))) as [token|] eqn:E;
        [|discriminate].
      cbn [map] in T; injection T as T1 T2 T3.
      exists (S (tokenIdx num st)), token; repeat split; try assumption.
      unfold tv; now rewrite T1, T2. }
  destruct V as [idx [token [-> [-> [TV T']]]]].
  assert (Ty : Moo.type token = "STRING") by (now injection TV).
  assert (Va : Moo.value token = fieldBody f) by (now injection TV).
  rewrite Ty, Va; cbn [String.eqb Ascii.eqb Bool.eqb].
  unfold fits, Runtime.fieldFits in Ft; cbn [fst snd] in Ft.
  unfold isString, isNumeric; cbn [forallb].
  destruct (isString1 t) eqn:St; cbn [andb orb] in Ft |- *.
  - destruct (IH fields (S resultIdx)
                (mkInputState num (S idx)
                   (results num st ++ [VString num (fieldBody f)])
                   (errorMessage num st)) Len F T') as [st' [E R]].
    exists st'; split; [exact E|].
    rewrite R; cbn [Runtime.results combine map]; unfold fieldValue at 2.
    cbn [fst snd]; rewrite St, <- app_assoc; reflexivity.
  - apply andb_prop in Ft as [N NaN]; rewrite N; cbn [andb].
    apply negb_true_iff in NaN; rewrite NaN.
    destruct (IH fields (S resultIdx)
                (mkInputState num (S idx)
                   (results num st
                    ++ [VNumber num (parseFloat (fieldBody f))])
                   (errorMessage num st)) Len F T') as [st' [E R]].
    exists st'; split; [exact E|].
    rewrite R; cbn [Runtime.results combine map]; unfold fieldValue at 2.
    cbn [fst snd]; rewrite St, <- app_assoc; reflexivity.
Qed.

(** X4: INPUT on a well-formed line. When the entered line holds as many
    fields as results are asked for, bare or quoted, separated by a comma and
    any blanks, and every field asked for as a number parses as one, [input]
    prints the prompt once and returns the fields in order: a string result
    is the field as typed (the text between the quotes of a quoted field,
    commas and blanks included), a numeric result is what [parseFloat] makes
    of it. No Redo from start is printed and the following lines are left
    unread. *)
Theorem input_reads_fields (blanks : string) (fields : list Field)
  (types : list DataTypeSpec) (prompt : string) (lines out : list string) :
  Str.all Moo.isSpace blanks = true ->
  forallb wellFormed fields = true ->
  List.length types = List.length fields ->
  forallb (fun tf => Runtime.fieldFits num parseFloat isNaN (fst tf)
                       (fieldBody (snd tf))) (combine types fields) = true ->
  Runtime.inputLoop num parseFloat isNaN prompt types
    (enteredLine blanks fields :: lines) out
  = Returned num (map (fieldValue num parseFloat) (combine types fields))
      (mkPlatform (out ++ [prompt]) lines).
Proof.
  intros Hb W Len F.
  cbn [Runtime.inputLoop]; unfold lexInput.
  rewrite (trim_enteredLine blanks fields W).
  destruct (lexInputLoop_lineFrom blanks fields Hb W true
              (S (String.length (Moo.buffer (Moo.reset (enteredLine blanks fields)))))
              (Moo.reset (enteredLine blanks fields)) [])
    as [tokens [L T]];
    [apply enteredLine_lineFrom | lia |].
  rewrite L.
  destruct (inputValues_reads tokens types fields 0
              (mkInputState num 0 [] None) Len F T) as [st [E R]].
  rewrite E, R; cbn [Runtime.results app].
  rewrite length_map, length_combine, <- Len, Nat.min_id, Nat.eqb_refl.
  reflexivity.
Qed.

End InputFields.

Lemma input_reads_fields_witness :
  IntNum.input "? " [singleSpec; stringSpec; stringSpec]
    (Runtime.mkPlatform []
       [Runtime.enteredLine " "
          [Runtime.Bare "-12"; Runtime.Quoted "a, b"; Runtime.Bare "c"];
        "next line"])
  = Runtime.Returned IntNum.num
      [IntNum.VNumber (IntNum.Int (-12)); IntNum.VString "a, b";
       IntNum.VString "c"]
      (Runtime.mkPlatform ["? "] ["next line"]).
Proof.
  apply (input_reads_fields IntNum.num IntNum.parseFloat IntNum.isNaN " "
           [Runtime.Bare "-12"; Runtime.Quoted "a, b"; Runtime.Bare "c"]
           [singleSpec; stringSpec; stringSpec] "? " ["next line"] []);
    reflexivity.
Defined.

Section InputOutcomes.

Import Runtime.

Variable num : Type.
Variable parseFloat : string -> num.
Variable isNaN : num -> bool.

Abbreviation accepted := (Runtime.acceptedLine num parseFloat isNaN).

Lemma inputValue_message (tokens : list Moo.Token) (t : DataTypeSpec)
  (resultIdx : nat) (st : InputState num) (c : LoopControl num) :
  Runtime.inputValue num parseFloat isNaN tokens t resultIdx st = Ok c ->
  match c with
  | Continue _ st' => errorMessage num st' = errorMessage num st
  | Break _ st' =>
      exists reason,
        redoReason reason
        /\ errorMessage num st'
           = Some ("Error parsing value " +++ Str.ofNat (resultIdx + 1)
                   +++ ": " +++ reason)
  end.
Proof.
  unfold Runtime.inputValue.
  set (prefix := "Error parsing value " +++ Str.ofNat (resultIdx + 1) +++ ": ").
  assert (P : forall reason,
             "Error parsing value " +++ Str.ofNat (resultIdx + 1) +++ ": "
             +++ reason = prefix +++ reason).
  { intros reason; unfold prefix; now rewrite <- !append_assoc. }
  assert (B : forall idx reason,
             redoReason reason ->
             Ok (Break num (mkInputState num idx (results num st)
                              (Some (prefix +++ reason)))) = Ok c ->
             match c with
             | Continue _ st' => errorMessage num st' = errorMessage num st
             | Break _ st' =>
                 exists reason,
                   redoReason reason
                   /\ errorMessage num st'
                      = Some ("Error parsing value "
                              +++ Str.ofNat (resultIdx + 1) +++ ": "
                              +++ reason)
             end).
  { intros idx reason R H; injection H as <-.
    exists reason; split; [exact R|]; cbn [errorMessage]; now rewrite P. }
  clearbody prefix.
  assert (Rc : redoReason "Comma expected") by now left.
  assert (Rn : redoReason "No value provided") by (right; now left).
  match goal with
  | |- match ?a with Some _ => _ | None => _ end = _ -> _ =>
      destruct a as [idx|]; [|exact (B _ _ Rc)]
  end.
  destruct (nth_error tokens idx) as [token|]; [|exact (B _ _ Rn)].
  destruct (String.eqb (Moo.type token) "STRING"); [|exact (B _ _ Rn)].
  destruct (isString [t]).
  { intros H; injection H as <-; reflexivity. }
  destruct (isNumeric [t]); [|discriminate].
  destruct (isNaN (parseFloat (Moo.value token))).
  - apply B; right; right; now exists (Moo.value token).
  - intros H; injection H as <-; reflexivity.
Qed.

Lemma inputValues_message (tokens : list Moo.Token)
  (types : list DataTypeSpec) :
  forall (resultIdx : nat) (st st' : InputState num),
    Runtime.inputValues num parseFloat isNaN tokens types resultIdx st
    = Ok st' ->
    errorMessage num st' = errorMessage num st
    \/ exists k reason,
         resultIdx < k <= resultIdx + List.length types
         /\ redoReason reason
         /\ errorMessage num st'
            = Some ("Error parsing value " +++ Str.ofNat k +++ ": "
                    +++ reason).
Proof.
  induction types as [|t types IH]; intros resultIdx st st' H;
    cbn [Runtime.inputValues] in H.
  - injection H as <-; now left.
  - destruct (Runtime.inputValue num parseFloat isNaN tokens t resultIdx st)
      as [c|e] eqn:E; cbn [bind] in H; [|discriminate H].
    apply inputValue_message in E; destruct c as [st1|st1].
    + destruct (IH _ _ _ H) as [M|[k [reason [K [R M]]]]].
      * left; congruence.
      * right; exists k, reason; cbn [List.length].
        split; [lia|]; split; assumption.
    + injection H as <-; destruct E as [reason [R M]].
      right; exists (resultIdx + 1), reason; cbn [List.length].
      split; [lia|]; split; assumption.
Qed.

Lemma transcript_cons (prompt notice : string) (notices : list string) :
  transcript prompt (notice :: notices)
  = prompt :: notice :: transcript prompt notices.
Proof. reflexivity. Qed.

(** X5: [input] as a whole, for elementary result types. It never throws:
    the lexer accepts every line and the error for too many results cannot
    arise. It returns from the first entered line that begins with one fitting
    field per requested type, with one result per type, leaving the lines
    after it unread; when no entered line does so it waits for another line.
    Either way what it has printed is the prompt before every line it asked
    for and, after each line it turned down, one notice for that line: an
    empty line, the error for one of the requested values with its reason,
    and Redo from start. *)
Theorem input_outcome (prompt : string) (types : list DataTypeSpec) :
  forallb isElementaryType types = true ->
  forall (lines out : list string),
    (exists rs rejected line rest notices,
        lines = rejected ++ line :: rest
        /\ Runtime.inputLoop num parseFloat isNaN prompt types lines out
           = Returned num rs
               (mkPlatform (out ++ transcript prompt notices) rest)
        /\ List.length rs = List.length types
        /\ Forall (fun l => ~ accepted types l) rejected
        /\ accepted types line
        /\ Forall2 (fun _ notice => redoNotice (List.length types) notice)
             rejected notices)
    \/ (exists notices,
           Runtime.inputLoop num parseFloat isNaN prompt types lines out
           = Awaiting num (mkPlatform (out ++ transcript prompt notices) [])
           /\ Forall (fun l => ~ accepted types l) lines
           /\ Forall2 (fun _ notice => redoNotice (List.length types) notice)
                lines notices).
Proof.
  intros El lines; induction lines as [|l lines IH]; intros out.
  { right; exists []; split; [reflexivity|]; split; constructor. }
  cbn [Runtime.inputLoop].
  destruct (lexInput_total l) as [tokens L]; rewrite L.
  destruct (inputValues_fields num parseFloat isNaN tokens types El 0
              (mkInputState num 0 [] None)) as [st [E H]].
  cbn [Runtime.tokenIdx Runtime.results Nat.eqb skipn List.length Nat.add] in H.
  rewrite E.
  destruct (Runtime.leadingFields num parseFloat isNaN true tokens types) eqn:F.
  - left; exists (results num st), [], l, lines, [].
    rewrite H, Nat.eqb_refl.
    split; [reflexivity|]; split; [reflexivity|]; split; [lia|].
    split; [constructor|]; split; [|constructor].
    exists tokens; now split.
  - destruct H as [H [msg M]].
    replace (List.length (results num st) =? List.length types)%nat
      with false by (symmetry; apply Nat.eqb_neq; lia).
    replace (List.length (results num st) <? List.length types)%nat
      with true by (symmetry; apply Nat.ltb_lt; lia).
    assert (R : ~ accepted types l).
    { intros [tokens' [L' F']]; congruence. }
    assert (Nt : redoNotice (List.length types)
                   (redoMessage (errorMessage num st))).
    { destruct (inputValues_message _ _ _ _ _ E) as [Same|[k [reason [K [Rs Mk]]]]].
      - rewrite M in Same; discriminate Same.
      - exists k, reason; split; [lia|]; split; [exact Rs|].
        rewrite Mk; unfold redoMessage.
        rewrite <- !append_assoc; reflexivity. }
    destruct (IH ((out ++ [prompt]) ++ [redoMessage (errorMessage num st)]))
      as [[rs [rejected [line [rest [notices [S [I [Len [Rej [Acc P]]]]]]]]]]
         |[notices [I [Rej P]]]].
    + left; exists rs, (l :: rejected), line, rest,
        (redoMessage (errorMessage num st) :: notices).
      rewrite I, S, transcript_cons, <- !app_assoc.
      split; [reflexivity|]; split; [reflexivity|]; split; [exact Len|].
      split; [now constructor|]; split; [exact Acc|].
      now constructor.
    + right; exists (redoMessage (errorMessage num st) :: notices).
      rewrite I, transcript_cons, <- !app_assoc.
      split; [reflexivity|]; split; now constructor.
Qed.

End InputOutcomes.

Lemma input_outcome_witness :
  (exists rs rejected line rest notices,
      ["1,"; "x"; "7 8"; "9"] = rejected ++ line :: rest
      /\ Runtime.inputLoop IntNum.num IntNum.parseFloat IntNum.isNaN "? "
           [longSpec; stringSpec] ["1,"; "x"; "7 8"; "9"] ["old"]
         = Runtime.Returned IntNum.num rs
             (Runtime.mkPlatform (["old"] ++ Runtime.transcript "? " notices)
                rest)
      /\ List.length rs = 2
      /\ Forall2 (fun _ notice => Runtime.redoNotice 2 notice)
           rejected notices)
  \/ (exists notices,
         Runtime.inputLoop IntNum.num IntNum.parseFloat IntNum.isNaN "? "
           [longSpec; stringSpec] ["1,"; "x"; "7 8"; "9"] ["old"]
         = Runtime.Awaiting IntNum.num
             (Runtime.mkPlatform (["old"] ++ Runtime.transcript "? " notices)
                [])
         /\ List.length notices = 4).
Proof.
  destruct (input_outcome IntNum.num IntNum.parseFloat IntNum.isNaN "? "
              [longSpec; stringSpec] eq_refl ["1,"; "x"; "7 8"; "9"] ["old"])
    as [[rs [rejected [line [rest [notices [S [I [Len [_ [_ P]]]]]]]]]]
       |[notices [I [_ P]]]].
  - left; exists rs, rejected, line, rest, notices; now repeat split.
  - right; exists notices; split; [exact I|].
    now rewrite <- (Forall2_length P).
Defined.

(** ** PRINT: arguments it refuses, and a line continued by the next call *)

Section PrintSequences.

Import Runtime.

Variable num : Type.
Variable geZero : num -> bool.
Variable numToString : num -> string.

Abbreviation PrintArg := (Runtime.PrintArg num).
Abbreviation print' := (Runtime.print num geZero numToString).
Abbreviation printLoop' := (Runtime.printLoop num geZero numToString).
Abbreviation rendering' := (Runtime.rendering num geZero numToString).
Abbreviation contribution' := (Runtime.contribution num geZero numToString).


Lemma printLoop_app (a b : list PrintArg) (line : string) :
  printLoop' line (a ++ b)
  = (line' <- printLoop' line a ;; printLoop' line' b).
Proof.
  revert line; induction a as [|x a IH]; intros line; [reflexivity|].
  cbn [app Runtime.printLoop].
  destruct (Runtime.printArg num geZero numToString line x) as [l|e];
    [apply IH | reflexivity].
Qed.

(** X6: a value argument that is neither a string nor a number makes
    [print] throw, naming the argument, and nothing of the call is printed,
    whatever follows the argument. *)
Theorem print_unknown_arg (front rest : list PrintArg) (json : string)
  (p : RuntimePlatform) :
  printable num front = true ->
  print' (front ++ VALUE num (VOther num json) :: rest) p
  = Throw (Error ("Unknown print arg: '" +++ json +++ "'")).
Proof.
  intros H; unfold Runtime.print.
  rewrite printLoop_app, (printLoop_rendering _ _ _ front "" H).
  reflexivity.
Qed.








End PrintSequences.

Lemma print_unknown_arg_witness :
  IntNum.print
    [IntNum.VALUE (IntNum.VString "a"); IntNum.SEMICOLON;
     IntNum.VALUE (Runtime.VOther IntNum.num "{}"); IntNum.COMMA]
    (Runtime.mkPlatform ["kept"] [])
  = Throw (Error "Unknown print arg: '{}'").
Proof.
  apply (print_unknown_arg IntNum.num IntNum.geZero IntNum.numToString
           [IntNum.VALUE (IntNum.VString "a"); IntNum.SEMICOLON]
           [IntNum.COMMA] "{}" (Runtime.mkPlatform ["kept"] [])).
  reflexivity.
Defined.


(** ** The lexer: no input lost, positions kept *)

Section LexerTiling.

Import Lexer.

Lemma includesChar_append (c : ascii) (a b : string) :
  includesChar c (a +++ b) = includesChar c a || includesChar c b.
Proof.
  induction a as [|d a IH]; cbn [String.append includesChar]; [reflexivity|].
  now rewrite IH, orb_assoc.
Qed.

Lemma span_excludes (c : ascii) (p : ascii -> bool) (s : string) :
  p c = false -> includesChar c (fst (Moo.span p s)) = false.
Proof.
  intros H; induction s as [|d s IH]; cbn [Moo.span]; [reflexivity|].
  destruct (p d) eqn:P; [|reflexivity].
  destruct (Moo.span p s) as [a b]; cbn [fst includesChar] in *.
  rewrite IH, orb_false_r.
  apply Ascii.eqb_neq; intros ->; congruence.
Qed.

(** One step of the original [next]: the token's text is a non-empty head
    of the input, and the token carries the position the lexer was at. *)
Lemma next_token (lx : Moo.Lexer) (t : Moo.Token) (lx' : Moo.Lexer) :
  Moo.next lexer lx = Ok (Some (t, lx')) ->
  Moo.buffer lx = Moo.text t +++ Moo.buffer lx'
  /\ Moo.text t <> ""
  /\ Moo.offset t = Moo.index lx
  /\ Moo.index lx' = Moo.index lx + String.length (Moo.text t)
  /\ Moo.tokLine t = Moo.lexLine lx
  /\ Moo.tokCol t = Moo.lexCol lx.
Proof.
  unfold Moo.next; destruct (Moo.buffer lx) as [|c s] eqn:B; [discriminate|].
  destruct (Moo.firstMatch lexer (String c s)) as [[[g m] rest]|] eqn:F;
    [|discriminate].
  destruct m as [|d m]; [discriminate|].
  apply firstMatch_In in F as [Hin Hm].
  apply (lexer_rules_sound g _ _ _ Hin) in Hm.
  intros H; injection H as <- <-; cbn [Moo.makeToken Moo.text Moo.buffer
    Moo.offset Moo.index Moo.tokLine Moo.tokCol fst snd].
  repeat split; [now symmetry | discriminate].
Qed.

Lemma keyword_not_discarded (txt ty : string) :
  caseInsensitiveKeywords Keywords txt = Some ty ->
  existsb (String.eqb ty) TOKEN_TYPES_TO_DISCARD = false.
Proof.
  unfold caseInsensitiveKeywords, keywords.
  destruct (find (fun kw => String.eqb (snd kw) (Str.toLowerCase txt)) Keywords)
    as [kw|] eqn:F; [|discriminate].
  apply find_some in F as [I _]; intros H; injection H as <-.
  unfold Keywords in I; cbn [In] in I.
  repeat (destruct I as [<-|I]; [reflexivity|]); contradiction.
Qed.

(** A token the wrapper discards is white space without a line feed or a
    comment: its text holds no line feed, and the lexer stays on its line and
    moves right by the length of the text. *)
Lemma next_discarded (lx : Moo.Lexer) (t : Moo.Token) (lx' : Moo.Lexer) :
  Moo.next lexer lx = Ok (Some (t, lx')) -> discarded t = true ->
  includesChar Runtime.LF (Moo.text t) = false
  /\ Moo.lexLine lx' = Moo.lexLine lx
  /\ Moo.lexCol lx' = Moo.lexCol lx + String.length (Moo.text t).
Proof.
  unfold Moo.next; destruct (Moo.buffer lx) as [|c s] eqn:B; [discriminate|].
  destruct (Moo.firstMatch lexer (String c s)) as [[[g m] rest]|] eqn:F;
    [|discriminate].
  destruct m as [|d m]; [discriminate|].
  apply firstMatch_In in F as [Hin Hm].
  intros H; injection H as <- <-; unfold discarded.
  unfold lexer in Hin; cbn [In] in Hin.
  destruct Hin as [<-|Hin].
  { unfold Moo.makeToken; cbn [Moo.typeFn Moo.lineBreaks Moo.defaultType
      Moo.valueFn Moo.type Moo.text Moo.lexLine Moo.lexCol].
    destruct (includesChar Runtime.LF (String d m)) eqn:I; [discriminate|].
    intros _.
    change ((if Moo.isNewline d then 1 else 0) + Moo.countNewlines m)
      with (Moo.countNewlines (String d m)).
    rewrite (countNewlines_none _ I), Nat.add_0_r; auto. }
  destruct Hin as [<-|Hin].
  { intros _; unfold Moo.makeToken; cbn [Moo.typeFn Moo.lineBreaks
      Moo.defaultType Moo.valueFn Moo.type Moo.text Moo.lexLine Moo.lexCol
      Nat.eqb].
    rewrite Nat.add_0_r; split; [|auto].
    cbn [Moo.matcher] in Hm; unfold comment in Hm.
    destruct (Ascii.eqb c "'") eqn:Q; [|discriminate].
    pose proof (span_excludes Runtime.LF (fun d => negb (Moo.isNewline d)) s
                  eq_refl) as X.
    destruct (Moo.span (fun d => negb (Moo.isNewline d)) s) as [a b].
    injection Hm as <- <- _; cbn [includesChar fst] in *.
    rewrite X, orb_false_r; apply Ascii.eqb_eq in Q; now subst c. }
  destruct Hin as [<-|Hin].
  { unfold Moo.makeToken; cbn [Moo.typeFn Moo.defaultType Moo.type].
    destruct (caseInsensitiveKeywords Keywords (String d m)) as [ty|] eqn:K.
    - destruct (String.eqb ty ""); [discriminate|].
      intros H; apply andb_prop in H as [_ H].
      destruct (eq_true_false_abs _ H (keyword_not_discarded _ _ K)).
    - discriminate. }
  repeat (destruct Hin as [<-|Hin]; [discriminate|]); contradiction.
Qed.

Lemma positionAfter_sameLine (s : string) :
  forall line col,
    includesChar Runtime.LF s = false ->
    positionAfter line col s = (line, col + String.length s).
Proof.
  induction s as [|c s IH]; intros line col H;
    cbn [positionAfter String.length includesChar] in *.
  - now rewrite Nat.add_0_r.
  - apply orb_false_elim in H as [C H]; rewrite C, IH by exact H.
    f_equal; lia.
Qed.

Lemma lastNewlineIndex_none (s : string) :
  forall pos nl,
    Moo.countNewlines s = 0 -> Moo.lastNewlineIndex s pos nl = nl.
Proof.
  induction s as [|c s IH]; intros pos nl H;
    cbn [Moo.countNewlines Moo.lastNewlineIndex] in *; [reflexivity|].
  destruct (Moo.isNewline c); [discriminate H|].
  now apply IH.
Qed.

Lemma lastNewlineIndex_bounds (s : string) :
  forall pos nl,
    Moo.countNewlines s <> 0 ->
    pos < Moo.lastNewlineIndex s pos nl <= pos + String.length s.
Proof.
  induction s as [|c s IH]; intros pos nl H;
    cbn [Moo.countNewlines Moo.lastNewlineIndex String.length] in *;
    [now destruct H|].
  destruct (Nat.eq_dec (Moo.countNewlines s) 0) as [Z|N].
  - rewrite lastNewlineIndex_none by exact Z.
    destruct (Moo.isNewline c); [lia|].
    rewrite Z in H; now destruct H.
  - specialize (IH (S pos) (if Moo.isNewline c then S pos else nl) N); lia.
Qed.

(** The counting of [_token] for a rule with line breaks agrees with the
    position after the text. *)
Lemma positionAfter_counts (s : string) :
  forall line col pos nl,
    positionAfter line col s
    = (line + Moo.countNewlines s,
       if (Moo.countNewlines s =? 0)%nat then col + String.length s
       else pos + String.length s + 1 - Moo.lastNewlineIndex s pos nl).
Proof.
  induction s as [|c s IH]; intros line col pos nl;
    cbn [positionAfter Moo.countNewlines Moo.lastNewlineIndex String.length
         Nat.eqb].
  - now rewrite !Nat.add_0_r.
  - rewrite <- isNewline_LF; destruct (Moo.isNewline c).
    + rewrite (IH (S line) 1 (S pos) (S pos)); cbn [Nat.add Nat.eqb].
      f_equal; [lia|].
      destruct (Moo.countNewlines s =? 0)%nat eqn:Z.
      * apply Nat.eqb_eq in Z; rewrite lastNewlineIndex_none by exact Z; lia.
      * f_equal; lia.
    + rewrite (IH line (S col) (S pos) nl); cbn [Nat.add].
      f_equal.
      destruct (Moo.countNewlines s =? 0)%nat; [lia | f_equal; lia].
Qed.

Lemma literal_text (lit s m rest : string) :
  Moo.literal lit s = Some (m, rest) -> m = lit.
Proof.
  revert s m rest; induction lit as [|c lit IH]; intros s m rest H;
    cbn [Moo.literal] in H.
  - now injection H as <- _.
  - destruct s as [|d s]; [discriminate H|].
    destruct (Ascii.eqb c d) eqn:C; [|discriminate H].
    destruct (Moo.literal lit s) as [[m' rest']|] eqn:L; [|discriminate H].
    injection H as <- _; apply Ascii.eqb_eq in C as ->.
    now rewrite (IH _ _ _ L).
Qed.

Lemma identifier_line (s m rest : string) :
  identifier s = Some (m, rest) -> includesChar Runtime.LF m = false.
Proof.
  unfold identifier; destruct s as [|c s]; [discriminate|].
  destruct (Moo.isAlpha_ c) eqn:A; [|discriminate].
  assert (C : Ascii.eqb c Runtime.LF = false).
  { destruct (Ascii.eqb c Runtime.LF) eqn:C; [|reflexivity].
    apply Ascii.eqb_eq in C; subst c; discriminate A. }
  pose proof (span_excludes Runtime.LF
                (fun d => Moo.isAlpha_ d || Moo.isDigit d) s eq_refl) as X.
  destruct (Moo.span (fun d => Moo.isAlpha_ d || Moo.isDigit d) s) as [a b].
  cbn [fst] in X; destruct b as [|d b].
  - intros H; injection H as <- _; cbn [includesChar]; now rewrite C, X.
  - destruct (isSigil d) eqn:Sg; intros H; injection H as <- _;
      cbn [includesChar]; rewrite C; cbn [orb]; [|exact X].
    rewrite includesChar_append, X; cbn [includesChar orb].
    rewrite orb_false_r.
    destruct (Ascii.eqb d Runtime.LF) eqn:D; [|reflexivity].
    apply Ascii.eqb_eq in D; subst d; discriminate Sg.
Qed.

Lemma numericLiteral_line (s m rest : string) :
  numericLiteral s = Some (m, rest) -> includesChar Runtime.LF m = false.
Proof.
  unfold numericLiteral.
  set (signed := match s with
                 | String "-" s' => ("-", s')
                 | _ => ("", s)
                 end).
  assert (Sg : includesChar Runtime.LF (fst signed) = false).
  { unfold signed; destruct s as [|c s]; [reflexivity|].
    destruct (Ascii.eqb c "-") eqn:C.
    - apply Ascii.eqb_eq in C; subst c; reflexivity.
    - destruct c as [[] [] [] [] [] [] [] []]; try reflexivity;
        discriminate C. }
  destruct signed as [sign s1]; cbn [fst] in Sg.
  pose proof (span_excludes Runtime.LF Moo.isDigit s1 eq_refl) as X.
  destruct (Moo.span Moo.isDigit s1) as [ds r]; cbn [fst] in X.
  assert (I : match ds with
              | EmptyString => None
              | _ => Some (sign +++ ds, r)
              end = Some (m, rest) ->
              includesChar Runtime.LF m = false).
  { destruct ds; [discriminate|].
    intros H; injection H as <- _; now rewrite includesChar_append, Sg, X. }
  destruct r as [|c r']; [exact I|].
  destruct (Ascii.eqb c ".") eqn:C.
  - apply Ascii.eqb_eq in C; subst c.
    pose proof (span_excludes Runtime.LF Moo.isDigit r' eq_refl) as Y.
    destruct (Moo.span Moo.isDigit r') as [fs r'']; cbn [fst] in Y.
    destruct fs as [|f fs]; [exact I|].
    intros H; injection H as <- _.
    rewrite !includesChar_append, Sg, X; cbn [orb].
    change (includesChar Runtime.LF (String "." (String f fs)))
      with (Ascii.eqb "." Runtime.LF
            || includesChar Runtime.LF (String f fs)).
    now rewrite Y.
  - destruct c as [[] [] [] [] [] [] [] []]; try exact I; discriminate C.
Qed.

Lemma keyword_not_string (txt ty : string) :
  caseInsensitiveKeywords Keywords txt = Some ty ->
  String.eqb ty "STRING_LITERAL" = false.
Proof.
  unfold caseInsensitiveKeywords, keywords.
  destruct (find (fun kw => String.eqb (snd kw) (Str.toLowerCase txt)) Keywords)
    as [kw|] eqn:F; [|discriminate].
  apply find_some in F as [I _]; intros H; injection H as <-.
  unfold Keywords in I; cbn [In] in I.
  repeat (destruct I as [<-|I]; [reflexivity|]); contradiction.
Qed.

(** Where the lexer stands after a token that is kept: at the position
    after the token's text, except that line feeds in a string literal are
    not counted. *)
Lemma next_position (lx : Moo.Lexer) (t : Moo.Token) (lx' : Moo.Lexer) :
  Moo.next lexer lx = Ok (Some (t, lx')) -> discarded t = false ->
  (Moo.lexLine lx', Moo.lexCol lx')
  = if String.eqb (Moo.type t) "STRING_LITERAL"
    then (Moo.tokLine t, Moo.tokCol t + String.length (Moo.text t))
    else positionAfter (Moo.tokLine t) (Moo.tokCol t) (Moo.text t).
Proof.
  unfold Moo.next; destruct (Moo.buffer lx) as [|c s] eqn:B; [discriminate|].
  destruct (Moo.firstMatch lexer (String c s)) as [[[g m] rest]|] eqn:F;
    [|discriminate].
  destruct m as [|d m]; [discriminate|].
  apply firstMatch_In in F as [Hin Hm].
  remember (String d m) as txt eqn:T; clear T d m.
  intros H.
  assert (E : Moo.makeToken g txt rest lx = (t, lx')) by congruence.
  clear H.
  assert (Et : t = fst (Moo.makeToken g txt rest lx)) by now rewrite E.
  assert (El : lx' = snd (Moo.makeToken g txt rest lx)) by now rewrite E.
  clear E; subst t lx'; unfold discarded.
  assert (Plain : Moo.lineBreaks g = false ->
                  includesChar Runtime.LF txt = false ->
                  Moo.typeFn g = None ->
                  String.eqb (Moo.defaultType g) "STRING_LITERAL" = false ->
                  (Moo.lexLine (snd (Moo.makeToken g txt rest lx)),
                   Moo.lexCol (snd (Moo.makeToken g txt rest lx)))
                  = if String.eqb
                         (Moo.type (fst (Moo.makeToken g txt rest lx)))
                         "STRING_LITERAL"
                    then (Moo.tokLine (fst (Moo.makeToken g txt rest lx)),
                          Moo.tokCol (fst (Moo.makeToken g txt rest lx))
                          + String.length
                              (Moo.text (fst (Moo.makeToken g txt rest lx))))
                    else positionAfter
                           (Moo.tokLine (fst (Moo.makeToken g txt rest lx)))
                           (Moo.tokCol (fst (Moo.makeToken g txt rest lx)))
                           (Moo.text (fst (Moo.makeToken g txt rest lx)))).
  { intros Lb I Ty Dt; unfold Moo.makeToken; rewrite Lb, Ty.
    cbn [fst snd Moo.lexLine Moo.lexCol Moo.type Moo.tokLine Moo.tokCol
         Moo.text Nat.eqb].
    rewrite Dt, positionAfter_sameLine, Nat.add_0_r by exact I.
    reflexivity. }
  unfold lexer in Hin; cbn [In] in Hin.
  destruct Hin as [<-|Hin].
  { clear Plain Hm.
    unfold Moo.makeToken; cbn [Moo.typeFn Moo.lineBreaks Moo.defaultType
      Moo.valueFn Moo.type Moo.text Moo.lexLine Moo.lexCol Moo.tokLine
      Moo.tokCol fst snd].
    destruct (includesChar Runtime.LF txt) eqn:I; [|discriminate].
    intros _; cbn [String.eqb Ascii.eqb Bool.eqb].
    rewrite (positionAfter_counts txt _ _ 0 1).
    f_equal.
    destruct (Moo.countNewlines txt =? 0)%nat eqn:Z; [reflexivity|].
    apply Nat.eqb_neq in Z.
    pose proof (lastNewlineIndex_bounds txt 0 1 Z); lia. }
  destruct Hin as [<-|Hin]; [discriminate|].
  destruct Hin as [<-|Hin].
  { intros _; clear Plain.
    cbn [Moo.matcher] in Hm; apply identifier_line in Hm.
    unfold Moo.makeToken; cbn [Moo.typeFn Moo.lineBreaks Moo.defaultType
      Moo.valueFn Moo.type Moo.text Moo.lexLine Moo.lexCol Moo.tokLine
      Moo.tokCol fst snd Nat.eqb].
    rewrite positionAfter_sameLine, Nat.add_0_r by exact Hm.
    destruct (caseInsensitiveKeywords Keywords txt) as [ty|] eqn:K;
      [|reflexivity].
    destruct (String.eqb ty ""); [reflexivity|].
    now rewrite (keyword_not_string _ _ K). }
  destruct Hin as [<-|Hin].
  { intros _; unfold Moo.makeToken; cbn [Moo.typeFn Moo.lineBreaks
      Moo.defaultType Moo.valueFn Moo.type Moo.text Moo.lexLine Moo.lexCol
      Moo.tokLine Moo.tokCol Nat.eqb fst snd].
    rewrite String.eqb_refl; f_equal; lia. }
  destruct Hin as [<-|Hin].
  { intros _; cbn [Moo.matcher] in Hm; apply numericLiteral_line in Hm.
    exact (Plain eq_refl Hm eq_refl eq_refl). }
  repeat (destruct Hin as [<-|Hin];
          [intros _; cbn [Moo.matcher] in Hm; apply literal_text in Hm;
           apply Plain; [reflexivity | now rewrite Hm | reflexivity
                        | reflexivity]|]).
  contradiction.
Qed.

(** X8: the lexer loses no input and keeps track of where it is. When
    [next] gives a token, the input the lexer stood at is some skipped text,
    then the token's text, then the input it stands at afterwards; the
    skipped text holds no line feed (a line break is never dropped); the
    token's text is not empty; its offset, line and column are those of its
    first character; the lexer's index has moved past the token; and the
    lexer's line and column are those after the token's text, a line feed
    leading to column 1 of the next line. The one exception is a string
    literal: after it the lexer is on the token's line, as many columns to
    the right as the literal is long, so line feeds inside a string literal
    are not counted. *)
Theorem lexer_tokens_tile (lx : Moo.Lexer) (t : Moo.Token) (lx' : Moo.Lexer) :
  Lexer.next lx = Ok (Some (t, lx')) ->
  exists skipped,
    Moo.buffer lx = skipped +++ Moo.text t +++ Moo.buffer lx'
    /\ includesChar Runtime.LF skipped = false
    /\ Moo.text t <> ""
    /\ Moo.offset t = Moo.index lx + String.length skipped
    /\ (Moo.tokLine t, Moo.tokCol t)
       = positionAfter (Moo.lexLine lx) (Moo.lexCol lx) skipped
    /\ Moo.index lx' = Moo.offset t + String.length (Moo.text t)
    /\ (Moo.lexLine lx', Moo.lexCol lx')
       = if String.eqb (Moo.type t) "STRING_LITERAL"
         then (Moo.tokLine t, Moo.tokCol t + String.length (Moo.text t))
         else positionAfter (Moo.tokLine t) (Moo.tokCol t) (Moo.text t).
Proof.
  unfold Lexer.next; generalize (S (String.length (Moo.buffer lx))).
  intros fuel; revert lx.
  induction fuel as [|fuel IH]; intros lx; cbn [nextLoop]; [discriminate|].
  destruct (Moo.next lexer lx) as [[[t0 lx0]|]|e] eqn:N; cbn [bind];
    try discriminate.
  destruct (next_token _ _ _ N) as [B [Ne [O [I [Li Co]]]]].
  destruct (discarded t0) eqn:D.
  - destruct (next_discarded _ _ _ N D) as [NoLF [Li' Co']].
    intros H; destruct (IH _ H) as [skipped [B' [S' [Ne' [O' [P' [I' A']]]]]]].
    exists (Moo.text t0 +++ skipped).
    assert (NoLFs : includesChar Runtime.LF (Moo.text t0 +++ skipped) = false)
      by now rewrite includesChar_append, NoLF, S'.
    rewrite positionAfter_sameLine in P' by exact S'.
    rewrite positionAfter_sameLine by exact NoLFs.
    rewrite length_append, append_assoc, B, B'.
    injection P' as P1 P2.
    repeat split; try assumption; try lia.
    rewrite P1, P2, Li', Co'; f_equal; lia.
  - intros H; injection H as <- <-; exists "".
    cbn [String.append String.length includesChar positionAfter].
    rewrite !Nat.add_0_r, <- Li, <- Co.
    pose proof (next_position _ _ _ N D) as A.
    repeat split; try assumption; lia.
Qed.

Lemma lexer_tokens_tile_witness :
  exists skipped,
    "  ' note" +++ Runtime.NL +++ "x"
    = skipped +++ (Runtime.NL +++ "") +++ "x"
    /\ String.length skipped = 8
    /\ (2, 1) = positionAfter 1 9 Runtime.NL.
Proof.
  destruct (lexer_tokens_tile (Moo.reset ("  ' note" +++ Runtime.NL +++ "x"))
              (Moo.mkToken "NEWLINE" Runtime.NL Runtime.NL 8 1 1 9)
              (Moo.mkLexer "x" 9 2 1) eq_refl)
    as [skipped [B [_ [_ [O [_ [_ A]]]]]]].
  exists skipped; split; [exact B|]; split; [|exact A].
  cbn [Moo.offset Moo.index Moo.reset] in O; lia.
Defined.

End LexerTiling.

(** ** The lexer: words, numbers, strings and operators *)

Section LexerTokens.

Import Lexer.

(** The state of the lexer after a token without line breaks. *)
Let after (lx : Moo.Lexer) (txt rest : string) : Moo.Lexer :=
  Moo.mkLexer rest (Moo.index lx + String.length txt) (Moo.lexLine lx)
    (Moo.lexCol lx + String.length txt).

(** A token whose value is its text, at the position of the lexer. *)
Let token (lx : Moo.Lexer) (ty txt : string) : Moo.Token :=
  Moo.mkToken ty txt txt (Moo.index lx) 0 (Moo.lexLine lx) (Moo.lexCol lx).

Lemma next_kept (lx : Moo.Lexer) (t : Moo.Token) (lx' : Moo.Lexer) :
  Moo.next lexer lx = Ok (Some (t, lx')) -> discarded t = false ->
  Lexer.next lx = Ok (Some (t, lx')).
Proof.
  intros N D; unfold Lexer.next; cbn [nextLoop]; rewrite N; cbn [bind].
  now rewrite D.
Qed.

Lemma isAlpha_head (c : ascii) :
  Moo.isAlpha_ c = true ->
  Moo.isSpace c = false /\ Ascii.eqb c "'" = false.
Proof.
  destruct c as [[] [] [] [] [] [] [] []]; vm_compute; auto; discriminate.
Qed.

Lemma isSigil_lower (c : ascii) :
  isSigil c = true ->
  Str.lowerChar c = c /\ Moo.isAlpha_ c || Moo.isDigit c = false.
Proof.
  destruct c as [[] [] [] [] [] [] [] []]; vm_compute; auto; discriminate.
Qed.

Lemma keyword_type (txt ty : string) :
  caseInsensitiveKeywords Keywords txt = Some ty ->
  String.eqb ty "" = false.
Proof.
  unfold caseInsensitiveKeywords, keywords.
  destruct (find (fun kw => String.eqb (snd kw) (Str.toLowerCase txt)) Keywords)
    as [kw|] eqn:F; [|discriminate].
  apply find_some in F as [I _]; intros H; injection H as <-.
  unfold Keywords in I; cbn [In] in I.
  repeat (destruct I as [<-|I]; [reflexivity|]); contradiction.
Qed.

Lemma wordType_kept (txt : string) :
  String.eqb (wordType txt) "" = false
  /\ existsb (String.eqb (wordType txt)) TOKEN_TYPES_TO_DISCARD = false.
Proof.
  unfold wordType.
  destruct (caseInsensitiveKeywords Keywords txt) as [ty|] eqn:K;
    [|split; reflexivity].
  split; [apply (keyword_type _ _ K) | apply (keyword_not_discarded _ _ K)].
Qed.

(** The IDENTIFIER rule is the first to match a word, and the token it
    makes is typed [wordType]. *)
Lemma next_word (lx : Moo.Lexer) (c : ascii) (w rest : string) :
  Moo.isAlpha_ c = true ->
  Moo.buffer lx = String c w +++ rest ->
  identifier (String c w +++ rest) = Some (String c w, rest) ->
  Lexer.next lx
  = Ok (Some (token lx (wordType (String c w)) (String c w),
              after lx (String c w) rest)).
Proof.
  intros A B I; destruct (isAlpha_head c A) as [S Q].
  destruct (wordType_kept (String c w)) as [Z D].
  apply next_kept; [|unfold discarded, token; cbn [Moo.type]; now rewrite Z, D].
  rewrite (next_firstMatch lexer lx
             (nth 2 lexer (Moo.mkRule "" (fun _ => None) false None None))
             c w rest B).
  - unfold Moo.makeToken, token, after, wordType in *.
    cbn [nth lexer Moo.typeFn Moo.valueFn Moo.lineBreaks Moo.defaultType
         Nat.eqb].
    destruct (caseInsensitiveKeywords Keywords (String c w)) as [ty|];
      [rewrite Z|]; now rewrite Nat.add_0_r.
  - rewrite B; unfold lexer at 1; cbn [Moo.firstMatch Moo.matcher nth].
    cbn [String.append] in I |- *; rewrite (plus_none _ _ _ S).
    unfold comment; rewrite Q.
    now rewrite I.
Qed.

(** X9: how the lexer reads a word (a letter or underscore, then letters,
    digits and underscores). Followed by nothing an identifier takes in, the
    word is one token whose type is the keyword it spells, in whatever case
    it is written, or IDENTIFIER when it spells none; the token's value keeps
    the spelling. Followed by a type sigil, the word and the sigil are one
    IDENTIFIER token, also when the word spells a keyword. *)
Theorem lexer_reads_word (lx : Moo.Lexer) (c : ascii) (w rest : string) :
  Moo.isAlpha_ c = true ->
  Str.all (fun d => Moo.isAlpha_ d || Moo.isDigit d) w = true ->
  (Moo.buffer lx = String c w +++ rest -> noIdentifierChar rest = true ->
   Lexer.next lx
   = Ok (Some (Moo.mkToken (wordType (String c w)) (String c w) (String c w)
                 (Moo.index lx) 0 (Moo.lexLine lx) (Moo.lexCol lx),
               Moo.mkLexer rest (Moo.index lx + String.length (String c w))
                 (Moo.lexLine lx)
                 (Moo.lexCol lx + String.length (String c w))))
   /\ (forall kw, In kw Keywords ->
                  Str.toLowerCase (String c w) = snd kw ->
                  wordType (String c w) = fst kw))
  /\ (forall sigil,
         isSigil sigil = true ->
         Moo.buffer lx = String c (w +++ String sigil "") +++ rest ->
         Lexer.next lx
         = Ok (Some (Moo.mkToken "IDENTIFIER" (String c (w +++ String sigil ""))
                       (String c (w +++ String sigil ""))
                       (Moo.index lx) 0 (Moo.lexLine lx) (Moo.lexCol lx),
                     Moo.mkLexer rest
                       (Moo.index lx
                        + String.length (String c (w +++ String sigil "")))
                       (Moo.lexLine lx)
                       (Moo.lexCol lx
                        + String.length (String c (w +++ String sigil "")))))).
Proof.
  intros A W; split.
  - intros B R; split.
    + apply (next_word lx c w rest A B).
      unfold identifier; cbn [String.append]; rewrite A.
      rewrite (span_all _ w rest W).
      * destruct rest as [|d rest]; [reflexivity|].
        cbn [noIdentifierChar] in R; apply negb_true_iff in R.
        apply orb_false_iff in R as [_ R]; now rewrite R.
      * destruct rest as [|d rest]; [reflexivity|].
        cbn [noIdentifierChar] in R; apply negb_true_iff in R.
        apply orb_false_iff in R as [R _]; now rewrite R.
    + intros kw I E; unfold wordType, caseInsensitiveKeywords, keywords.
      rewrite E; clear E; unfold Keywords in *; cbn [In] in I.
      repeat (destruct I as [<-|I]; [reflexivity|]); contradiction.
  - intros sigil Sg B.
    assert (T : wordType (String c (w +++ String sigil "")) = "IDENTIFIER").
    { unfold wordType, caseInsensitiveKeywords, keywords.
      destruct (find _ Keywords) as [kw|] eqn:F; [|reflexivity].
      exfalso; apply find_some in F as [I E]; apply String.eqb_eq in E.
      assert (L : Str.last (snd kw) = Some (Str.lowerChar sigil)).
      { rewrite E; clear; generalize c; induction w as [|d w IH]; intros c0;
          [reflexivity|].
        cbn [String.append Str.toLowerCase] in *.
        specialize (IH d); cbn [Str.last] in *.
        destruct (Str.toLowerCase (w +++ String sigil "")) eqn:X;
          [destruct w; discriminate | exact IH]. }
      rewrite (proj1 (isSigil_lower sigil Sg)) in L.
      unfold Keywords in I; cbn [In] in I.
      repeat (destruct I as [<-|I];
              [cbn in L; injection L as <-; discriminate Sg|]).
      contradiction. }
    rewrite <- T; apply (next_word lx c _ rest A B).
    unfold identifier; cbn [String.append]; rewrite A, append_assoc.
    cbn [String.append].
    rewrite (span_all _ w (String sigil rest) W); [now rewrite Sg|].
    cbn beta iota; now rewrite (proj2 (isSigil_lower sigil Sg)).
Qed.

Lemma numeric_head (c : ascii) :
  Moo.isDigit c = true \/ c = "-"%char \/ c = "."%char ->
  Moo.isSpace c = false /\ Ascii.eqb c "'" = false
  /\ Moo.isAlpha_ c = false /\ Ascii.eqb c Moo.DQ = false.
Proof.
  intros [H | [-> | ->]]; [|now vm_compute..].
  revert H; destruct c as [[] [] [] [] [] [] [] []]; vm_compute; auto;
    discriminate.
Qed.

Lemma identifier_none (c : ascii) (s : string) :
  Moo.isAlpha_ c = false -> identifier (String c s) = None.
Proof. intros H; unfold identifier; now rewrite H. Qed.

Lemma quoted_none (c : ascii) (s : string) :
  Ascii.eqb c Moo.DQ = false -> Moo.quoted (String c s) = None.
Proof. intros H; unfold Moo.quoted; now rewrite H. Qed.

Lemma span_stops (p : ascii -> bool) (s : string) :
  match s with
  | EmptyString => true
  | String d _ => negb (p d)
  end = true ->
  Moo.span p s = ("", s).
Proof. intros H; exact (span_all p "" s eq_refl H). Qed.

(** The sign split of [numericLiteral] on a text that does not begin with a
    minus sign. *)
Lemma unsigned_split (c : ascii) (s : string) :
  Ascii.eqb c "-" = false ->
  match String c s with
  | String "-" s' => ("-", s')
  | _ => ("", String c s)
  end = ("", String c s).
Proof.
  destruct c as [[] [] [] [] [] [] [] []]; try reflexivity; discriminate.
Qed.

(** The decision of [numericLiteral] after the integral digits, on a rest
    that starts no fraction. *)
Lemma no_fraction (rest : string) (integral : option (string * string)) :
  startsFraction rest = false ->
  match rest with
  | String "." r' =>
      match Moo.span Moo.isDigit r' with
      | (EmptyString, _) => integral
      | (fs, r'') => Some (fs, r'')
      end
  | _ => integral
  end = integral.
Proof.
  destruct rest as [|c r]; [reflexivity|]; cbn [startsFraction].
  destruct (Ascii.eqb_spec c ".") as [->|N].
  - cbn [andb]; intros F.
    rewrite span_stops; [reflexivity|].
    destruct r; [reflexivity | cbn in F |- *; now rewrite F].
  - intros _; destruct c as [[] [] [] [] [] [] [] []]; try reflexivity.
    now elim N.
Qed.

Lemma isDigit_not_minus (c : ascii) :
  Moo.isDigit c = true -> Ascii.eqb c "-" = false.
Proof.
  destruct c as [[] [] [] [] [] [] [] []]; vm_compute; auto; discriminate.
Qed.

Lemma startsWithDigit_stops (rest : string) :
  startsWithDigit rest = false ->
  match rest with
  | EmptyString => true
  | String d _ => negb (Moo.isDigit d)
  end = true.
Proof. destruct rest; [reflexivity | cbn; now intros ->]. Qed.

Ltac decide_fraction rest F :=
  let c := fresh "c" in
  let r := fresh "r" in
  let N := fresh "N" in
  destruct rest as [|c r]; [reflexivity|];
  cbn [startsFraction] in F;
  destruct (Ascii.eqb_spec c ".") as [->|N];
  [ cbn [andb] in F; rewrite span_stops;
    [reflexivity | now apply startsWithDigit_stops]
  | destruct c as [[] [] [] [] [] [] [] []]; try reflexivity; now elim N ].

(** [numericLiteral] on digits that no fraction follows: the digits, with
    the minus sign before them when there is one. *)
Lemma numericLiteral_integer (negative : bool) (d : ascii) (ds rest : string) :
  Str.all Moo.isDigit (String d ds) = true ->
  startsWithDigit rest = false -> startsFraction rest = false ->
  numericLiteral ((if negative then "-" else "") +++ String d ds +++ rest)
  = Some ((if negative then "-" else "") +++ String d ds, rest).
Proof.
  intros D R F; pose proof (startsWithDigit_stops rest R) as R'.
  assert (Hd : Moo.isDigit d = true)
    by (cbn [Str.all] in D; now apply andb_prop in D as [D _]).
  destruct negative; cbn [String.append]; unfold numericLiteral.
  - change (String d (ds +++ rest)) with (String d ds +++ rest).
    rewrite (span_all Moo.isDigit (String d ds) rest D R').
    decide_fraction rest F.
  - rewrite (unsigned_split d _ (isDigit_not_minus d Hd)).
    change (String d (ds +++ rest)) with (String d ds +++ rest).
    rewrite (span_all Moo.isDigit (String d ds) rest D R').
    decide_fraction rest F.
Qed.

(** [numericLiteral] on digits, a point and at least one digit. *)
Lemma numericLiteral_decimal (negative : bool) (ds : string) (f : ascii)
  (fs rest : string) :
  Str.all Moo.isDigit ds = true ->
  Str.all Moo.isDigit (String f fs) = true ->
  startsWithDigit rest = false ->
  numericLiteral ((if negative then "-" else "")
                  +++ ds +++ String "." (String f fs) +++ rest)
  = Some ((if negative then "-" else "") +++ ds +++ String "." (String f fs),
          rest).
Proof.
  intros D Fs R; pose proof (startsWithDigit_stops rest R) as R'.
  assert (E : forall sign,
             (let (ds0, r) := Moo.span Moo.isDigit
                                (ds +++ String "." (String f fs) +++ rest) in
              let integral :=
                match ds0 with
                | EmptyString => None
                | _ => Some (sign +++ ds0, r)
                end in
              match r with
              | String "." r' =>
                  match Moo.span Moo.isDigit r' with
                  | (EmptyString, _) => integral
                  | (fs0, r'') => Some (sign +++ ds0 +++ String "." fs0, r'')
                  end
              | _ => integral
              end)
             = Some (sign +++ ds +++ String "." (String f fs), rest)).
  { intros sign.
    rewrite (span_all Moo.isDigit ds (String "." (String f fs) +++ rest) D
               eq_refl).
    cbn [String.append].
    change (String f (fs +++ rest)) with (String f fs +++ rest).
    now rewrite (span_all Moo.isDigit (String f fs) rest Fs R'). }
  destruct negative.
  - exact (E "-").
  - destruct ds as [|d ds]; [exact (E "")|].
    cbn [Str.all] in D; apply andb_prop in D as [Hd _].
    unfold numericLiteral; cbn [String.append].
    rewrite (unsigned_split d _ (isDigit_not_minus d Hd)).
    exact (E "").
Qed.

(** A rule without line breaks, [type] or [value] transform whose pattern
    is the first to match gives a plain token of its name. *)
Lemma next_plain (lx : Moo.Lexer) (name : string)
  (pattern : string -> option (string * string)) (c : ascii) (m rest : string) :
  Moo.buffer lx = String c m +++ rest ->
  Moo.firstMatch lexer (Moo.buffer lx)
  = Some (Moo.mkRule name pattern false None None, String c m, rest) ->
  discarded (tokenAt lx name (String c m)) = false ->
  Lexer.next lx
  = Ok (Some (tokenAt lx name (String c m), movedPast lx (String c m) rest)).
Proof.
  intros B F D; apply next_kept; [|exact D].
  rewrite (next_firstMatch lexer lx _ c m rest B F).
  unfold Moo.makeToken, tokenAt, movedPast.
  cbn [Moo.typeFn Moo.valueFn Moo.lineBreaks Moo.defaultType Nat.eqb].
  now rewrite Nat.add_0_r.
Qed.

Lemma next_number (lx : Moo.Lexer) (c : ascii) (m rest : string) :
  Moo.isDigit c = true \/ c = "-"%char \/ c = "."%char ->
  Moo.buffer lx = String c m +++ rest ->
  numericLiteral (String c m +++ rest) = Some (String c m, rest) ->
  Lexer.next lx
  = Ok (Some (tokenAt lx "NUMERIC_LITERAL" (String c m),
              movedPast lx (String c m) rest)).
Proof.
  intros H B N; destruct (numeric_head c H) as [S [Q [A DQ]]].
  apply (next_plain lx "NUMERIC_LITERAL" numericLiteral c m rest B);
    [|reflexivity].
  rewrite B; unfold lexer; cbn [Moo.firstMatch Moo.matcher].
  cbn [String.append] in N |- *.
  rewrite (plus_none _ _ _ S), (identifier_none _ _ A), (quoted_none _ _ DQ).
  unfold comment; rewrite Q.
  now rewrite N.
Qed.

(** X10: how the lexer reads a number. Digits that no further digit and no
    fraction follow are one NUMERIC_LITERAL token; so are digits (or none), a
    point and at least one digit. A minus sign directly before either belongs
    to the literal: the lexer never gives SUB for a minus sign that a digit, or
    a point and a digit, follows. Any other minus sign is a SUB token. *)
Theorem lexer_reads_number (lx : Moo.Lexer) (negative : bool)
  (ds fs rest : string) :
  Str.all Moo.isDigit ds = true -> Str.all Moo.isDigit fs = true ->
  startsWithDigit rest = false ->
  (ds <> "" -> startsFraction rest = false ->
   Moo.buffer lx = (if negative then "-" else "") +++ ds +++ rest ->
   Lexer.next lx
   = Ok (Some (tokenAt lx "NUMERIC_LITERAL"
                 ((if negative then "-" else "") +++ ds),
               movedPast lx ((if negative then "-" else "") +++ ds) rest)))
  /\ (fs <> "" ->
      Moo.buffer lx
      = (if negative then "-" else "") +++ ds +++ String "." fs +++ rest ->
      Lexer.next lx
      = Ok (Some (tokenAt lx "NUMERIC_LITERAL"
                    ((if negative then "-" else "") +++ ds +++ String "." fs),
                  movedPast lx
                    ((if negative then "-" else "") +++ ds +++ String "." fs)
                    rest)))
  /\ (startsFraction rest = false ->
      Moo.buffer lx = String "-" rest ->
      Lexer.next lx = Ok (Some (tokenAt lx "SUB" "-", movedPast lx "-" rest))).
Proof.
  intros D Fs R; split; [|split].
  - intros N F B; destruct ds as [|d ds]; [congruence|].
    pose proof (numericLiteral_integer negative d ds rest D R F) as E.
    assert (Hd : Moo.isDigit d = true)
      by (cbn [Str.all] in D; now apply andb_prop in D as [D _]).
    destruct negative; cbn [String.append] in *.
    + apply (next_number lx "-" (String d ds) rest); auto.
    + apply (next_number lx d ds rest); auto.
  - intros N B; destruct fs as [|f fs]; [congruence|].
    pose proof (numericLiteral_decimal negative ds f fs rest D Fs R) as E.
    rewrite <- !append_assoc in B, E.
    destruct negative; cbn [String.append] in *.
    + apply (next_number lx "-" _ rest); auto.
    + destruct ds as [|d ds]; cbn [String.append] in *.
      * apply (next_number lx "." _ rest); auto.
      * apply (next_number lx d _ rest); auto.
        left; cbn [Str.all] in D; now apply andb_prop in D as [D _].
  - intros F B.
    apply (next_plain lx "SUB" (Moo.literal "-") "-" "" rest B); [|reflexivity].
    rewrite B; unfold lexer; cbn [Moo.firstMatch Moo.matcher].
    assert (N : numericLiteral (String "-" rest) = None).
    { unfold numericLiteral.
      rewrite (span_stops Moo.isDigit rest (startsWithDigit_stops rest R)).
      decide_fraction rest F. }
    rewrite N; reflexivity.
Qed.

Lemma DQ_head :
  Moo.isSpace Moo.DQ = false /\ Ascii.eqb Moo.DQ "'" = false
  /\ Moo.isAlpha_ Moo.DQ = false.
Proof. now vm_compute. Qed.

Lemma span_to_end (p : ascii -> bool) (s : string) :
  Str.all p s = true -> Moo.span p s = (s, "").
Proof.
  intros A; rewrite <- (append_nil_r s) at 1.
  now apply span_all.
Qed.

(** X11: how the lexer reads a string literal. A double quote, a body
    without a double quote and a closing double quote are one STRING_LITERAL
    token whose value is the body and whose text keeps the quotes; no line
    feed in the body is counted, the lexer stays on its line. When no closing
    double quote follows, the lexer throws: there is no token for an
    unterminated string. *)
Theorem lexer_reads_string (lx : Moo.Lexer) (body rest : string) :
  Str.all (fun d => negb (Ascii.eqb d Moo.DQ)) body = true ->
  (Moo.buffer lx = String Moo.DQ (body +++ String Moo.DQ "") +++ rest ->
   Lexer.next lx
   = Ok (Some (Moo.mkToken "STRING_LITERAL" body
                 (String Moo.DQ (body +++ String Moo.DQ ""))
                 (Moo.index lx) 0 (Moo.lexLine lx) (Moo.lexCol lx),
               movedPast lx (String Moo.DQ (body +++ String Moo.DQ "")) rest)))
  /\ (Moo.buffer lx = String Moo.DQ body ->
      Lexer.next lx = Throw (Error "invalid syntax")).
Proof.
  intros W; destruct DQ_head as [S [Q A]]; split; intros B.
  - apply next_kept; [|reflexivity].
    rewrite (next_firstMatch lexer lx
               (nth 3 lexer (Moo.mkRule "" (fun _ => None) false None None))
               Moo.DQ (body +++ String Moo.DQ "") rest B).
    + unfold Moo.makeToken, movedPast.
      cbn [nth lexer Moo.typeFn Moo.valueFn Moo.lineBreaks Moo.defaultType
           Nat.eqb].
      now rewrite stripQuotes_quoted, Nat.add_0_r.
    + rewrite B; unfold lexer at 1; cbn [Moo.firstMatch Moo.matcher nth].
      cbn [String.append].
      rewrite (plus_none Moo.isSpace Moo.DQ _ S); rewrite identifier_none by exact A.
      unfold comment; rewrite Q.
      unfold Moo.quoted; rewrite Ascii.eqb_refl, append_assoc.
      cbn [String.append].
      now rewrite (span_all _ body (String Moo.DQ rest) W eq_refl).
  - unfold Lexer.next; cbn [nextLoop]; unfold Moo.next; rewrite B.
    unfold lexer; cbn [Moo.firstMatch Moo.matcher].
    rewrite (plus_none Moo.isSpace Moo.DQ _ S); rewrite identifier_none by exact A.
    unfold comment; rewrite Q.
    unfold Moo.quoted; rewrite Ascii.eqb_refl, (span_to_end _ body W).
    unfold numericLiteral, Moo.DQ; cbn [ascii_of_nat ascii_of_pos
      ascii_of_N N.of_nat Pos.of_succ_nat Pos.succ Moo.span].
    reflexivity.
Qed.

Ltac first_match B :=
  rewrite B; unfold lexer, comment, identifier, Moo.quoted, numericLiteral,
    Moo.plus, Moo.DQ;
  cbn [Moo.firstMatch Moo.matcher Moo.span Moo.literal Moo.isSpace Moo.isDigit
       Moo.isAlpha_ Str.code nat_of_ascii N_of_ascii N_of_digits N.to_nat
       N.add N.mul Pos.to_nat Pos.iter_op Nat.add Nat.leb Nat.eqb andb orb
       Pos.add Pos.succ Pos.mul Ascii.eqb Bool.eqb];
  try reflexivity.

(** X12: how the lexer reads the comparison operators. The two-character
    operators come out as one token each, never as two one-character ones;
    a lone less-than or greater-than sign is a token of its own only when the
    character that would complete a two-character operator does not follow. *)
Theorem lexer_reads_comparison (lx : Moo.Lexer) (rest : string) :
  (Moo.buffer lx = "<>" +++ rest ->
   Lexer.next lx = Ok (Some (tokenAt lx "NE" "<>", movedPast lx "<>" rest)))
  /\ (Moo.buffer lx = "<=" +++ rest ->
      Lexer.next lx = Ok (Some (tokenAt lx "LTE" "<=", movedPast lx "<=" rest)))
  /\ (Moo.buffer lx = ">=" +++ rest ->
      Lexer.next lx = Ok (Some (tokenAt lx "GTE" ">=", movedPast lx ">=" rest)))
  /\ (Moo.buffer lx = "<" +++ rest ->
      notStartingWith ">" rest = true -> notStartingWith "=" rest = true ->
      Lexer.next lx = Ok (Some (tokenAt lx "LT" "<", movedPast lx "<" rest)))
  /\ (Moo.buffer lx = ">" +++ rest ->
      notStartingWith "=" rest = true ->
      Lexer.next lx = Ok (Some (tokenAt lx "GT" ">", movedPast lx ">" rest)))
  /\ (Moo.buffer lx = "=" +++ rest ->
      Lexer.next lx = Ok (Some (tokenAt lx "EQ" "=", movedPast lx "=" rest))).
Proof.
  split; [|split; [|split; [|split; [|split]]]].
  - intros B.
    apply (next_plain lx "NE" (Moo.literal "<>") "<" ">" rest B);
      [first_match B | reflexivity].
  - intros B.
    apply (next_plain lx "LTE" (Moo.literal "<=") "<" "=" rest B);
      [first_match B | reflexivity].
  - intros B.
    apply (next_plain lx "GTE" (Moo.literal ">=") ">" "=" rest B);
      [first_match B | reflexivity].
  - intros B G E.
    apply (next_plain lx "LT" (Moo.literal "<") "<" "" rest B);
      [|reflexivity].
    destruct rest as [|d r]; first_match B.
    revert G E; cbn [notStartingWith].
    destruct d as [[] [] [] [] [] [] [] []]; cbn; intros G E;
      try reflexivity; discriminate.
  - intros B E.
    apply (next_plain lx "GT" (Moo.literal ">") ">" "" rest B);
      [|reflexivity].
    destruct rest as [|d r]; first_match B.
    revert E; cbn [notStartingWith].
    destruct d as [[] [] [] [] [] [] [] []]; cbn; intros E;
      try reflexivity; discriminate.
  - intros B.
    apply (next_plain lx "EQ" (Moo.literal "=") "=" "" rest B);
      [first_match B | reflexivity].
Qed.

(** X13: a comment runs from an apostrophe to the end of its line and is
    dropped: the lexer goes on with what follows it, on the same line and that
    many columns further right, so that the line break after a comment is
    still read; a comment that ends the input is followed by no token. *)
Theorem lexer_skips_comment (lx : Moo.Lexer) (txt rest : string) :
  Str.all (fun d => negb (Moo.isNewline d)) txt = true ->
  match rest with
  | EmptyString => true
  | String d _ => Moo.isNewline d
  end = true ->
  Moo.buffer lx = String "'" txt +++ rest ->
  Lexer.next lx = Lexer.next (movedPast lx (String "'" txt) rest)
  /\ (rest = "" -> Lexer.next lx = Ok None).
Proof.
  intros T R B.
  assert (N : Moo.next lexer lx
              = Ok (Some (tokenAt lx "COMMENT" (String "'" txt),
                          movedPast lx (String "'" txt) rest))).
  { rewrite (next_firstMatch lexer lx
               (nth 1 lexer (Moo.mkRule "" (fun _ => None) false None None))
               "'" txt rest B).
    - unfold Moo.makeToken, tokenAt, movedPast.
      cbn [nth lexer Moo.typeFn Moo.valueFn Moo.lineBreaks Moo.defaultType
           Nat.eqb].
      now rewrite Nat.add_0_r.
    - rewrite B; unfold lexer at 1; cbn [Moo.firstMatch Moo.matcher nth].
      cbn [String.append]; rewrite (plus_none Moo.isSpace "'" _ eq_refl).
      unfold comment; cbn [Ascii.eqb Bool.eqb].
      rewrite (span_all _ txt rest T); [reflexivity|].
      destruct rest as [|d r]; [reflexivity | now rewrite R]. }
  assert (E : Lexer.next lx = Lexer.next (movedPast lx (String "'" txt) rest)).
  { unfold Lexer.next at 1; cbn [nextLoop]; rewrite N; cbn [bind].
    change (discarded (tokenAt lx "COMMENT" (String "'" txt))) with true.
    cbv iota; unfold Lexer.next; apply nextLoop_fuel.
    - rewrite B; cbn [movedPast Moo.buffer String.append String.length].
      rewrite length_append; lia.
    - lia. }
  split; [exact E|].
  intros ->; rewrite E; reflexivity.
Qed.

Lemma includesChar_all (c : ascii) (s : string) :
  includesChar c s = false ->
  Str.all (fun d => negb (Ascii.eqb d c)) s = true.
Proof.
  induction s as [|d s IH]; cbn [includesChar Str.all]; [reflexivity|].
  intros H; apply orb_false_iff in H as [-> H]; now rewrite IH.
Qed.

Lemma includesChar_span (c : ascii) (s : string) :
  includesChar c s = true ->
  exists a b, Moo.span (fun d => negb (Ascii.eqb d c)) s = (a, String c b).
Proof.
  induction s as [|d s IH]; cbn [includesChar Moo.span]; [discriminate|].
  destruct (Ascii.eqb_spec d c) as [->|N]; cbn [negb orb]; [eauto|].
  intros H; destruct (IH H) as [a [b ->]]; eauto.
Qed.

(** No rule matches a text that starts no token. *)
Lemma firstMatch_none (c : ascii) (r : string) :
  startsToken (String c r) = false ->
  Moo.firstMatch lexer (String c r) = None.
Proof.
  intros H.
  destruct (Ascii.eqb_spec c Moo.DQ) as [->|NQ].
  { assert (I : includesChar Moo.DQ r = false).
    { cbn [startsToken] in H.
      destruct (includesChar Moo.DQ r); [discriminate H | reflexivity]. }
    unfold lexer, comment, identifier, Moo.quoted, numericLiteral, Moo.plus.
    cbn [Moo.firstMatch Moo.matcher]; rewrite Ascii.eqb_refl.
    rewrite (span_to_end _ r (includesChar_all _ _ I)).
    reflexivity. }
  destruct (Ascii.eqb_spec c ".") as [->|NP].
  { assert (D : startsWithDigit r = false).
    { cbn [startsToken] in H.
      destruct (startsWithDigit r); [discriminate H | reflexivity]. }
    unfold lexer, comment, identifier, Moo.quoted, numericLiteral, Moo.plus.
    cbn [Moo.firstMatch Moo.matcher Moo.span].
    change (Moo.isDigit ".") with false; cbv iota.
    rewrite (span_stops Moo.isDigit r (startsWithDigit_stops r D)).
    reflexivity. }
  revert H NQ NP.
  destruct c as [[] [] [] [] [] [] [] []]; intros H NQ NP;
    try discriminate H; try reflexivity; first [now elim NQ | now elim NP].
Qed.

Lemma numericLiteral_digit (c : ascii) (r : string) :
  Moo.isDigit c = true ->
  exists m rest, numericLiteral (String c r) = Some (m, rest).
Proof.
  intros D; unfold numericLiteral.
  rewrite (unsigned_split c r (isDigit_not_minus c D)).
  cbn [Moo.span]; rewrite D.
  destruct (Moo.span Moo.isDigit r) as [a b].
  destruct b as [|e b]; [eauto|].
  destruct (Ascii.eqb_spec e ".") as [->|N].
  - destruct (Moo.span Moo.isDigit b) as [[|f fs] r'']; eauto.
  - destruct e as [[] [] [] [] [] [] [] []]; eauto; now elim N.
Qed.

Lemma numericLiteral_point (d : ascii) (r : string) :
  Moo.isDigit d = true ->
  exists m rest, numericLiteral (String "." (String d r)) = Some (m, rest).
Proof.
  intros D; unfold numericLiteral; cbn [Moo.span].
  change (Moo.isDigit ".") with false; cbv iota; cbn [Moo.span]; rewrite D.
  destruct (Moo.span Moo.isDigit r) as [a b]; eauto.
Qed.

Lemma firstMatch_some (rules : list Moo.Rule) (s : string) (g : Moo.Rule) :
  In g rules -> Moo.matcher g s <> None ->
  exists g' m rest, Moo.firstMatch rules s = Some (g', m, rest).
Proof.
  induction rules as [|g0 rules IH]; cbn [In Moo.firstMatch]; [contradiction|].
  intros I M; destruct (Moo.matcher g0 s) as [[m rest]|] eqn:E; [eauto|].
  destruct I as [->|I]; [congruence | now apply IH].
Qed.

(** Some rule matches a text that starts a token. *)
Lemma firstMatch_starts (c : ascii) (r : string) :
  startsToken (String c r) = true ->
  exists g m rest, Moo.firstMatch lexer (String c r) = Some (g, m, rest).
Proof.
  cbn [startsToken]; intros H.
  assert (K : forall k,
             Moo.matcher (nth k lexer (Moo.mkRule "" (fun _ => None) false
                                         None None)) (String c r) <> None ->
             k < List.length lexer ->
             exists g m rest,
               Moo.firstMatch lexer (String c r) = Some (g, m, rest)).
  { intros k M L; apply (firstMatch_some lexer _ _ (nth_In _ _ L) M). }
  apply orb_prop in H as [H|H];
    [apply orb_prop in H as [H|H];
     [apply orb_prop in H as [H|H];
      [apply orb_prop in H as [H|H];
       [apply orb_prop in H as [H|H];
        [apply orb_prop in H as [H|H]|]|]|]|]|].
  - apply (K 0); [|cbn; lia]; cbn [nth lexer Moo.matcher].
    destruct (plus_head Moo.isSpace c r H) as [m [rest ->]]; discriminate.
  - apply (K 1); [|cbn; lia]; cbn [nth lexer Moo.matcher].
    unfold comment; rewrite H.
    destruct (Moo.span _ r); discriminate.
  - apply (K 2); [|cbn; lia]; cbn [nth lexer Moo.matcher].
    unfold identifier; rewrite H.
    destruct (Moo.span _ r) as [a [|d b]]; [discriminate|].
    destruct (isSigil d); discriminate.
  - apply andb_prop in H as [Q I]; apply (K 3); [|cbn; lia].
    cbn [nth lexer Moo.matcher]; unfold Moo.quoted; rewrite Q.
    destruct (includesChar_span _ _ I) as [a [b ->]]; discriminate.
  - apply (K 4); [|cbn; lia]; cbn [nth lexer Moo.matcher].
    destruct (numericLiteral_digit c r H) as [m [rest ->]]; discriminate.
  - apply andb_prop in H as [P D]; apply Ascii.eqb_eq in P; subst c.
    destruct r as [|d r]; [discriminate|]; cbn [startsWithDigit] in D.
    apply (K 4); [|cbn; lia]; cbn [nth lexer Moo.matcher].
    destruct (numericLiteral_point d r D) as [m [rest ->]]; discriminate.
  - unfold operatorChars in H; cbn [existsb] in H.
    repeat (apply orb_prop in H as [H|H]); try discriminate H;
      apply Ascii.eqb_eq in H; subst c.
    + apply (K 5); [discriminate | cbn; lia].
    + apply (K 6); [discriminate | cbn; lia].
    + apply (K 7); [discriminate | cbn; lia].
    + apply (K 8); [discriminate | cbn; lia].
    + apply (K 9); [discriminate | cbn; lia].
    + apply (K 10); [discriminate | cbn; lia].
    + apply (K 11); [discriminate | cbn; lia].
    + apply (K 12); [discriminate | cbn; lia].
    + apply (K 13); [discriminate | cbn; lia].
    + apply (K 14); [discriminate | cbn; lia].
    + apply (K 15); [discriminate | cbn; lia].
    + apply (K 16); [discriminate | cbn; lia].
    + apply (K 20); [discriminate | cbn; lia].
    + apply (K 21); [discriminate | cbn; lia].
Qed.

Lemma append_nonempty (a b : string) : b <> "" -> a +++ b <> "".
Proof. destruct a; [auto | discriminate]. Qed.

Lemma numericLiteral_nonempty (s m rest : string) :
  numericLiteral s = Some (m, rest) -> m <> "".
Proof.
  unfold numericLiteral.
  destruct (match s with
            | String "-" s' => ("-", s')
            | _ => ("", s)
            end) as [sign s1].
  destruct (Moo.span Moo.isDigit s1) as [ds r].
  assert (I : match ds with
              | EmptyString => None
              | _ => Some (sign +++ ds, r)
              end = Some (m, rest) -> m <> "").
  { destruct ds; [discriminate|]; intros H; injection H as <- _.
    now apply append_nonempty. }
  destruct r as [|c r']; [exact I|].
  destruct (Ascii.eqb_spec c ".") as [->|N].
  - destruct (Moo.span Moo.isDigit r') as [[|f fs] r'']; [exact I|].
    intros H; injection H as <- _.
    now apply append_nonempty, append_nonempty.
  - intros H; apply I; rewrite <- H.
    destruct c as [[] [] [] [] [] [] [] []]; try reflexivity.
    now elim N.
Qed.

(** No rule of the lexer matches the empty text. *)
Lemma lexer_rules_nonempty (g : Moo.Rule) (s m rest : string) :
  In g lexer -> Moo.matcher g s = Some (m, rest) -> m <> "".
Proof.
  unfold lexer; cbn [In]; intros I.
  destruct I as [<-|I].
  { cbn [Moo.matcher]; intros H.
    destruct (plus_shorter _ _ _ _ H) as [c [m' [-> _]]]; discriminate. }
  destruct I as [<-|I].
  { cbn [Moo.matcher]; unfold comment; destruct s as [|c s]; [discriminate|].
    destruct (Ascii.eqb c "'"); [|discriminate].
    destruct (Moo.span _ s); intros H; injection H as <- _; discriminate. }
  destruct I as [<-|I].
  { cbn [Moo.matcher]; unfold identifier; destruct s as [|c s]; [discriminate|].
    destruct (Moo.isAlpha_ c); [|discriminate].
    destruct (Moo.span _ s) as [a [|d b]];
      [|destruct (isSigil d)]; intros H; injection H as <- _; discriminate. }
  destruct I as [<-|I].
  { cbn [Moo.matcher]; intros H.
    destruct (quoted_shorter _ _ _ H) as [c [m' [-> _]]]; discriminate. }
  destruct I as [<-|I]; [apply numericLiteral_nonempty|].
  repeat (destruct I as [<-|I];
          [cbn [Moo.matcher Moo.literal]; destruct s as [|c s];
           [discriminate|];
           match goal with
           | |- context [Ascii.eqb ?x c] => destruct (Ascii.eqb x c)
           end; [|discriminate];
           try (destruct s as [|c' s]; [discriminate|];
                match goal with
                | |- context [Ascii.eqb ?x c'] => destruct (Ascii.eqb x c')
                end; [|discriminate]);
           intros H; injection H as <- _; discriminate|]).
  contradiction.
Qed.

Lemma nextLoop_throws (fuel : nat) :
  forall (lx : Moo.Lexer) (e : Exn),
    String.length (Moo.buffer lx) < fuel ->
    nextLoop fuel lx = Throw e -> e = Error "invalid syntax".
Proof.
  induction fuel as [|fuel IH]; intros lx e L; [lia|]; cbn [nextLoop].
  destruct (Moo.next lexer lx) as [[[t lx']|]|e'] eqn:N; cbn [bind].
  - apply next_progress in N.
    destruct (discarded t); [apply IH; lia | discriminate].
  - discriminate.
  - intros H; injection H as <-; revert N; unfold Moo.next.
    destruct (Moo.buffer lx); [discriminate|].
    destruct (Moo.firstMatch lexer _) as [[[g [|d m]] rest]|];
      try discriminate; now intros H; injection H as <-.
Qed.

(** X14: which input the lexer refuses. The lexer throws exactly when the
    input it stands at starts no token: a character no rule knows, a double
    quote that is never closed, or a point that no digit follows. When the
    input starts a token the original [next] gives one; and the exported
    [next], which drops white space and comments on its way, throws nothing
    but this syntax error. *)
Theorem lexer_rejects (lx : Moo.Lexer) :
  (Moo.buffer lx <> "" -> startsToken (Moo.buffer lx) = false ->
   Moo.next lexer lx = Throw (Error "invalid syntax")
   /\ Lexer.next lx = Throw (Error "invalid syntax"))
  /\ (startsToken (Moo.buffer lx) = true ->
      exists t lx', Moo.next lexer lx = Ok (Some (t, lx')))
  /\ (forall e, Lexer.next lx = Throw e -> e = Error "invalid syntax").
Proof.
  split; [|split].
  - intros N H.
    assert (M : Moo.next lexer lx = Throw (Error "invalid syntax")).
    { unfold Moo.next; destruct (Moo.buffer lx) as [|c r]; [congruence|].
      now rewrite (firstMatch_none c r H). }
    split; [exact M|].
    unfold Lexer.next; cbn [nextLoop]; now rewrite M.
  - intros H; unfold Moo.next.
    destruct (Moo.buffer lx) as [|c r]; [discriminate|].
    destruct (firstMatch_starts c r H) as [g [m [rest F]]]; rewrite F.
    apply firstMatch_In in F as [I M].
    pose proof (lexer_rules_nonempty g _ _ _ I M) as Ne.
    destruct m as [|d m]; [now elim Ne|].
    destruct (Moo.makeToken g (String d m) rest lx) as [t lx']; eauto.
  - intros e; apply nextLoop_throws; lia.
Qed.

Lemma lexer_reads_word_witness :
  Lexer.next (Moo.reset "PrInT x")
  = Ok (Some (Moo.mkToken "PRINT" "PrInT" "PrInT" 0 0 1 1,
              Moo.mkLexer " x" 5 1 6)).
Proof.
  exact (proj1 (proj1 (lexer_reads_word (Moo.reset "PrInT x") "P" "rInT" " x"
                         eq_refl eq_refl) eq_refl eq_refl)).
Defined.

Lemma lexer_reads_number_witness :
  Lexer.next (Moo.mkLexer "-12.5+x" 3 1 4)
  = Ok (Some (Moo.mkToken "NUMERIC_LITERAL" "-12.5" "-12.5" 3 0 1 4,
              Moo.mkLexer "+x" 8 1 9)).
Proof.
  exact (proj1 (proj2 (lexer_reads_number (Moo.mkLexer "-12.5+x" 3 1 4) true
                         "12" "5" "+x" eq_refl eq_refl eq_refl))
           ltac:(discriminate) eq_refl).
Defined.

Lemma lexer_reads_string_witness :
  Lexer.next (Moo.reset (String Moo.DQ ("a;b" +++ String Moo.DQ "") +++ ";"))
  = Ok (Some (Moo.mkToken "STRING_LITERAL" "a;b"
                (String Moo.DQ ("a;b" +++ String Moo.DQ "")) 0 0 1 1,
              Moo.mkLexer ";" 5 1 6)).
Proof.
  exact (proj1 (lexer_reads_string
                  (Moo.reset (String Moo.DQ ("a;b" +++ String Moo.DQ "") +++ ";"))
                  "a;b" ";" eq_refl) eq_refl).
Defined.

Lemma lexer_skips_comment_witness :
  Lexer.next (Moo.reset "' the end") = Ok None.
Proof.
  exact (proj2 (lexer_skips_comment (Moo.reset "' the end") " the end" ""
                  eq_refl eq_refl eq_refl) eq_refl).
Defined.

End LexerTokens.

(** ** The semantic analyzer: typing of expressions *)

Section ExpressionTyping.

Import SymbolTable Ast SemanticAnalyzer Coercion.

Variable binaryOpName : BinaryOp -> string.

Abbreviation accept' := (SemanticAnalyzer.accept binaryOpName).

Lemma coerce_pair (l r : DataTypeSpec) :
  isNumeric1 l && isNumeric1 r = true ->
  coerceNumericTypes [l; r] = Ok (wider l r).
Proof.
  intros N; apply andb_prop in N as [L R].
  rewrite coerceNumericTypes_fold; [reflexivity|].
  unfold isNumeric; cbn [forallb]; now rewrite L, R.
Qed.

Lemma coerce_triple (l r : DataTypeSpec) :
  isNumeric1 l && isNumeric1 r = true ->
  coerceNumericTypes [l; r; singleSpec] = Ok (wider (wider l r) singleSpec).
Proof.
  intros N; apply andb_prop in N as [L R].
  rewrite coerceNumericTypes_fold; [reflexivity|].
  unfold isNumeric; cbn [forallb]; now rewrite L, R.
Qed.

(** X15: the typing of a binary operation, once both operands are
    analyzed. The node gets the type the table [binaryOpType] gives for the
    operator and the operand types, and the analyzer is left as the operands
    left it; when the table has no entry the analyzer throws, naming the
    operator and both types. By the table, division never gives an integer
    type (its result is Single, or Double when an operand is Double), the
    comparisons and the logical operators always give Integer, and no
    operator takes a string with a number. *)
Theorem visitBinaryOpExpr_types (fuel : nat) (a a1 a2 : Analyzer) (op : BinaryOp)
  (leftExpr rightExpr l r : Expr) (t : option DataTypeSpec) (loc : Loc)
  (tl tr : DataTypeSpec) :
  accept' fuel a leftExpr = Ok (l, a1) ->
  accept' fuel a1 rightExpr = Ok (r, a2) ->
  exprTypeSpec l = Some tl -> exprTypeSpec r = Some tr ->
  accept' (S fuel) a (BinaryOpExpr op leftExpr rightExpr t loc)
  = match binaryOpType op tl tr with
    | Some t' => Ok (BinaryOpExpr op l r (Some t') loc, a2)
    | None =>
        Throw (SemanticError
                 ("Incompatible types for " +++ binaryOpName op
                  +++ " operator: " +++ typeTag tl +++ " and " +++ typeTag tr)
                 loc)
    end
  /\ (forall t', binaryOpType DIV tl tr = Some t' ->
                 t' = singleSpec \/ t' = doubleSpec)
  /\ (forall op' t',
         In op' [AND; OR; EQ; NE; GT; GTE; LT; LTE] ->
         binaryOpType op' tl tr = Some t' -> t' = integerSpec)
  /\ (forall op',
         isNumeric1 tl && isString1 tr || isString1 tl && isNumeric1 tr = true ->
         binaryOpType op' tl tr = None).
Proof.
  intros L R TL TR; split; [|split; [|split]].
  - cbn [SemanticAnalyzer.accept visitExpr]; unfold visitBinaryOpExpr.
    rewrite L; cbn [bind fst snd]; rewrite R; cbn [bind fst snd].
    rewrite TL, TR; cbn [nonNull bind].
    unfold binaryOpType, isNumeric, isString, throwError; cbn [forallb].
    rewrite !andb_true_r.
    destruct (isNumeric1 tl && isNumeric1 tr) eqn:N; cbn [negb bind].
    + rewrite (coerce_pair tl tr N), (coerce_triple tl tr N).
      assert (S : isString1 tl && isString1 tr = false)
        by (destruct tl, tr; try reflexivity; discriminate N).
      assert (M : areMatchingElementaryTypes tl tr = true)
        by (unfold areMatchingElementaryTypes; now rewrite N).
      rewrite S, M; destruct op; reflexivity.
    + unfold areMatchingElementaryTypes; rewrite N; cbn [orb].
      destruct (isString1 tl && isString1 tr); destruct op; reflexivity.
  - unfold binaryOpType; destruct tl, tr; cbn; intros t' H;
      try discriminate H; injection H as <-; auto.
  - intros op' t' I; cbn [In] in I.
    repeat (destruct I as [<-|I];
            [unfold binaryOpType;
             match goal with
             | |- context [if ?b then _ else _] => destruct b
             end; intros H; [now injection H | discriminate H]|]).
    contradiction.
  - intros op' H; destruct tl, tr; try discriminate H; destruct op';
      reflexivity.
Qed.

End ExpressionTyping.

Lemma visitBinaryOpExpr_types_witness :
  SemanticAnalyzer.accept Sample.binaryOpName 2
    (SemanticAnalyzer.mkAnalyzer Sample.sampleModule None)
    (Ast.BinaryOpExpr Ast.DIV
       (Ast.VarRefExpr "n%" None None None Sample.loc0)
       (Ast.VarRefExpr "m&" None None None Sample.loc0) None Sample.loc0)
  = Ok (Ast.BinaryOpExpr Ast.DIV
          (Ast.VarRefExpr "n%" (Some integerSpec) (Some SymbolTable.VAR)
             (Some SymbolTable.LOCAL) Sample.loc0)
          (Ast.VarRefExpr "m&" (Some longSpec) (Some SymbolTable.VAR)
             (Some SymbolTable.LOCAL) Sample.loc0)
          (Some singleSpec) Sample.loc0,
        SemanticAnalyzer.mkAnalyzer
          (Ast.mkModule [Sample.procF] []
             (Some [SymbolTable.mkVarSymbol "x" SymbolTable.VAR singleSpec;
                    SymbolTable.mkVarSymbol "n%" SymbolTable.VAR integerSpec;
                    SymbolTable.mkVarSymbol "m&" SymbolTable.VAR longSpec])
             (Some []))
          None).
Proof.
  exact (proj1 (visitBinaryOpExpr_types Sample.binaryOpName 1
                  (SemanticAnalyzer.mkAnalyzer Sample.sampleModule None)
                  (SemanticAnalyzer.mkAnalyzer
                     (Ast.mkModule [Sample.procF] []
                        (Some [SymbolTable.mkVarSymbol "x" SymbolTable.VAR
                                 singleSpec;
                               SymbolTable.mkVarSymbol "n%" SymbolTable.VAR
                                 integerSpec])
                        (Some []))
                     None)
                  (SemanticAnalyzer.mkAnalyzer
                     (Ast.mkModule [Sample.procF] []
                        (Some [SymbolTable.mkVarSymbol "x" SymbolTable.VAR
                                 singleSpec;
                               SymbolTable.mkVarSymbol "n%" SymbolTable.VAR
                                 integerSpec;
                               SymbolTable.mkVarSymbol "m&" SymbolTable.VAR
                                 longSpec])
                        (Some []))
                     None)
                  Ast.DIV
                  (Ast.VarRefExpr "n%" None None None Sample.loc0)
                  (Ast.VarRefExpr "m&" None None None Sample.loc0)
                  (Ast.VarRefExpr "n%" (Some integerSpec) (Some SymbolTable.VAR)
                     (Some SymbolTable.LOCAL) Sample.loc0)
                  (Ast.VarRefExpr "m&" (Some longSpec) (Some SymbolTable.VAR)
                     (Some SymbolTable.LOCAL) Sample.loc0)
                  None Sample.loc0 integerSpec longSpec
                  eq_refl eq_refl eq_refl eq_refl)).
Defined.

(** ** The semantic analyzer: what the analysis of an expression keeps *)

Section AnalyzerInvariants.

Import SymbolTable Ast SemanticAnalyzer.

Variable binaryOpName : BinaryOp -> string.

Abbreviation accept' := (SemanticAnalyzer.accept binaryOpName).

Lemma sameName_lookup {T : Type} (nameOf : T -> string) (table : list T)
  (n n' : string) :
  sameName n n' = true ->
  SymbolTable.lookupSymbol nameOf table n
  = SymbolTable.lookupSymbol nameOf table n'.
Proof.
  unfold sameName, SymbolTable.lookupSymbol; intros H.
  apply String.eqb_eq in H.
  induction table as [|x table IH]; cbn [find]; [reflexivity|].
  unfold sameName at 1 3; now rewrite H, IH.
Qed.

(** Resolution does not look at the letter case of the name. *)
Lemma lookupSymbol_sameName (a : Analyzer) (n n' : string) :
  sameName n n' = true ->
  SemanticAnalyzer.lookupSymbol a n = SemanticAnalyzer.lookupSymbol a n'.
Proof.
  intros H; unfold SemanticAnalyzer.lookupSymbol.
  destruct (currentProcNode a) as [[proc|]|e]; cbn [bind]; try reflexivity.
  - destruct (paramSymbols proc) as [ps|]; cbn [nonNull bind]; [|reflexivity].
    rewrite (sameName_lookup name ps n n' H).
    destruct (SymbolTable.lookupSymbol name ps n'); [reflexivity|].
    destruct (getLocalSymbols a) as [locals|e]; cbn [bind]; [|reflexivity].
    rewrite (sameName_lookup name locals n n' H).
    destruct (SymbolTable.lookupSymbol name locals n'); [reflexivity|].
    destruct (moduleGlobalSymbols (module a)) as [globals|]; cbn [nonNull bind];
      [|reflexivity].
    now rewrite (sameName_lookup name globals n n' H).
  - destruct (getLocalSymbols a) as [locals|e]; cbn [bind]; [|reflexivity].
    rewrite (sameName_lookup name locals n n' H).
    destruct (SymbolTable.lookupSymbol name locals n'); [reflexivity|].
    destruct (moduleGlobalSymbols (module a)) as [globals|]; cbn [nonNull bind];
      [|reflexivity].
    now rewrite (sameName_lookup name globals n n' H).
Qed.

Lemma find_app_some {A : Type} (p : A -> bool) (l l' : list A) (x : A) :
  find p l = Some x -> find p (l ++ l') = Some x.
Proof.
  induction l as [|y l IH]; cbn [find app]; [discriminate|].
  destruct (p y); [auto | exact IH].
Qed.

Lemma find_app_none {A : Type} (p : A -> bool) (l l' : list A) :
  find p l = None -> find p (l ++ l') = find p l'.
Proof.
  induction l as [|y l IH]; cbn [find app]; [reflexivity|].
  destruct (p y); [discriminate | exact IH].
Qed.

(** A resolution that went through every table found all of them set. *)
Lemma lookupSymbol_none_tables (a : Analyzer) (n : string) :
  SemanticAnalyzer.lookupSymbol a n = Ok None ->
  exists params locals globals,
    currentParams a = Ok params
    /\ getLocalSymbols a = Ok locals
    /\ moduleGlobalSymbols (module a) = Some globals
    /\ lookupInScope params locals globals n = None.
Proof.
  intros H.
  assert (T : exists params locals globals,
             currentParams a = Ok params
             /\ getLocalSymbols a = Ok locals
             /\ moduleGlobalSymbols (module a) = Some globals).
  { revert H; unfold SemanticAnalyzer.lookupSymbol, currentParams.
    destruct (currentProcNode a) as [[proc|]|e]; cbn [bind]; try discriminate.
    - destruct (paramSymbols proc) as [ps|]; cbn [nonNull bind];
        [|discriminate].
      destruct (SymbolTable.lookupSymbol name ps n); [discriminate|].
      destruct (getLocalSymbols a) as [locals|e]; cbn [bind]; [|discriminate].
      destruct (SymbolTable.lookupSymbol name locals n); [discriminate|].
      destruct (moduleGlobalSymbols (module a)) as [globals|];
        [eauto 7 | discriminate].
    - destruct (getLocalSymbols a) as [locals|e]; cbn [bind]; [|discriminate].
      destruct (SymbolTable.lookupSymbol name locals n); [discriminate|].
      destruct (moduleGlobalSymbols (module a)) as [globals|];
        [eauto 7 | discriminate]. }
  destruct T as [params [locals [globals [P [L G]]]]].
  exists params, locals, globals; repeat split; try assumption.
  rewrite (lookupSymbol_in_scope a n params locals globals P L G) in H.
  now injection H.
Qed.

Lemma nth_error_updateNth_other {A : Type} (l : list A) (i j : nat) (y : A) :
  i <> j -> nth_error (updateNth l i y) j = nth_error l j.
Proof.
  revert i j; induction l as [|x l IH]; intros [|i] [|j] N; cbn;
    try reflexivity; [now elim N | apply IH; congruence].
Qed.

Lemma forallb_updateNth {A : Type} (p : A -> bool) (l : list A) (i : nat)
  (x y : A) :
  nth_error l i = Some x -> p y = p x ->
  forallb p (updateNth l i y) = forallb p l.
Proof.
  revert i; induction l as [|z l IH]; intros [|i]; cbn; try discriminate.
  - intros H E; injection H as ->; now rewrite E.
  - intros H E; now rewrite (IH i H E).
Qed.

(** What one declaration changes: the locals of the current scope get the
    symbol appended; the params, the globals, the current proc and the
    readiness of the procs stay. *)
Lemma addLocalSymbol_step (a a1 : Analyzer) (symbol : VarSymbol) :
  addLocalSymbol a symbol = Ok a1 ->
  exists locals,
    getLocalSymbols a = Ok locals
    /\ getLocalSymbols a1 = Ok (locals ++ [symbol])
    /\ currentProc a1 = currentProc a
    /\ moduleGlobalSymbols (module a1) = moduleGlobalSymbols (module a)
    /\ currentParams a1 = currentParams a
    /\ procsReady (module a1) = procsReady (module a).
Proof.
  intros H.
  destruct (getLocalSymbols a) as [locals|e] eqn:L;
    [|unfold addLocalSymbol in H; rewrite L in H; discriminate H].
  destruct (addLocalSymbol_locals a symbol locals L) as [a' [E [L' [C G]]]].
  rewrite H in E; injection E as <-.
  exists locals; repeat split; try assumption.
  - revert H; unfold addLocalSymbol, currentParams, currentProcNode.
    rewrite L; cbn [bind].
    destruct (currentProc a) as [i|].
    + destruct (nth_error (procs (module a)) i) as [proc|] eqn:N;
        cbn [nonNull bind]; [|discriminate].
      intros H; injection H as <-; cbn [module currentProc procs].
      now rewrite (nth_error_updateNth _ _ _ _ N).
    + intros H; injection H as <-; reflexivity.
  - revert H; unfold addLocalSymbol, procsReady.
    rewrite L; cbn [bind].
    destruct (currentProc a) as [i|].
    + destruct (nth_error (procs (module a)) i) as [proc|] eqn:N;
        cbn [nonNull bind]; [|discriminate].
      intros H; injection H as <-; cbn [module procs].
      now apply (forallb_updateNth procReady _ _ proc).
    + intros H; injection H as <-; reflexivity.
Qed.

Lemma lookupInScope_append (params locals globals : list VarSymbol)
  (symbol : VarSymbol) (n : string) (x : VarSymbol * VarScope) :
  lookupInScope params locals globals (name symbol) = None ->
  lookupInScope params locals globals n = Some x ->
  lookupInScope params (locals ++ [symbol]) globals n = Some x.
Proof.
  unfold lookupInScope; intros F H.
  destruct (SymbolTable.lookupSymbol name params n) eqn:Ps; [exact H|].
  destruct (SymbolTable.lookupSymbol name locals n) as [s|] eqn:Ls.
  { unfold SymbolTable.lookupSymbol in *; now rewrite (find_app_some _ _ _ _ Ls). }
  assert (Ls' := Ls).
  unfold SymbolTable.lookupSymbol at 1.
  unfold SymbolTable.lookupSymbol in Ls'; rewrite (find_app_none _ _ _ Ls').
  cbn [find]; destruct (sameName (name symbol) n) eqn:S; [|exact H].
  exfalso; revert F.
  rewrite (sameName_lookup name params _ _ S), Ps,
    (sameName_lookup name locals _ _ S), Ls,
    (sameName_lookup name globals _ _ S).
  destruct (SymbolTable.lookupSymbol name globals n);
    [discriminate | discriminate H].
Qed.

Lemma declares_app (a a1 a2 : Analyzer) (l1 l2 : list VarSymbol) :
  declares a l1 a1 -> declares a1 l2 a2 -> declares a (l1 ++ l2) a2.
Proof.
  induction 1 as [a|a b a1 s l F A D IH]; intros D2; [exact D2|].
  cbn [app]; apply (declares_cons a b a2 s (l ++ l2) F A); now apply IH.
Qed.

(** What a run of declarations keeps: the current proc, the params, the
    globals and the readiness of the procs; the locals of the current scope
    grow by the declared symbols; and a name that resolved keeps resolving to
    the same symbol in the same scope. *)
Lemma declares_keeps (a a' : Analyzer) (added : list VarSymbol) :
  declares a added a' ->
  currentProc a' = currentProc a
  /\ moduleGlobalSymbols (module a') = moduleGlobalSymbols (module a)
  /\ currentParams a' = currentParams a
  /\ procsReady (module a') = procsReady (module a)
  /\ (forall locals, getLocalSymbols a = Ok locals ->
                     getLocalSymbols a' = Ok (locals ++ added))
  /\ (forall n x, SemanticAnalyzer.lookupSymbol a n = Ok (Some x) ->
                  SemanticAnalyzer.lookupSymbol a' n = Ok (Some x)).
Proof.
  induction 1 as [a|a a1 a' s l F A D IH].
  { repeat split; try reflexivity; [|auto].
    intros locals L; now rewrite app_nil_r. }
  destruct IH as [C [G [P [R [Lo Lk]]]]].
  destruct (addLocalSymbol_step a a1 s A) as [locals [L [L1 [C1 [G1 [P1 R1]]]]]].
  destruct (lookupSymbol_none_tables a _ F)
    as [params [locals' [globals [Pa [La [Ga Fa]]]]]].
  assert (locals' = locals) by congruence; subst locals'.
  split; [congruence|]; split; [congruence|]; split; [congruence|].
  split; [congruence|]; split.
  - intros locals' L'; assert (locals' = locals) by congruence; subst locals'.
    rewrite (Lo _ L1), <- app_assoc; reflexivity.
  - intros n x H; apply Lk.
    rewrite (lookupSymbol_in_scope a n params locals globals Pa La Ga) in H.
    injection H as H.
    rewrite (lookupSymbol_in_scope a1 n params (locals ++ [s]) globals);
      [|congruence..].
    now rewrite (lookupInScope_append params locals globals s n x Fa H).
Qed.

(** What a visit is to leave behind: the analyzer after some declarations
    of implicit variables. *)
Let declared (a a' : Analyzer) : Prop :=
  exists added, declares a added a' /\ Forall implicitVariable added.

(** A visit of an expression leaves that, and a typed node when the
    functions are ready. *)
Let good (a : Analyzer) (e' : Expr) (a' : Analyzer) : Prop :=
  declared a a' /\ (procsReady (module a) = true -> typedExpr e' = true).

Lemma declared_refl (a : Analyzer) : declared a a.
Proof. exists []; split; constructor. Qed.

Lemma declared_trans (a a1 a2 : Analyzer) :
  declared a a1 -> declared a1 a2 -> declared a a2.
Proof.
  intros [l1 [D1 F1]] [l2 [D2 F2]]; exists (l1 ++ l2); split.
  - now apply (declares_app a a1 a2).
  - apply Forall_app; now split.
Qed.

Lemma declared_ready (a a' : Analyzer) :
  declared a a' -> procsReady (module a) = true ->
  procsReady (module a') = true.
Proof.
  intros [added [D _]] R.
  destruct (declares_keeps a a' added D) as [_ [_ [_ [R' _]]]]; congruence.
Qed.

Lemma typedExpr_top (e : Expr) :
  typedExpr e = true -> exists t, exprTypeSpec e = Some t.
Proof.
  destruct e as [v [t|] loc|n [t|] vt vs loc|n args [t|] loc|op l r [t|] loc
                |op r [t|] loc]; cbn; try discriminate; eauto.
Qed.

Ltac bind_ok H x :=
  match type of H with
  | context [bind ?m _] =>
      let E := fresh "E" in
      destruct m as [x|] eqn:E; cbn [bind] in H; [|discriminate H]
  end.

Section Visit.

Variable acc : Analyzer -> Expr -> Result (Expr * Analyzer).

Hypothesis acc_good :
  forall a e e' a', acc a e = Ok (e', a') -> good a e' a'.

Lemma acceptAll_good (nodes : list Expr) :
  forall a es a',
    acceptAll acc a nodes = Ok (es, a') ->
    declared a a'
    /\ (procsReady (module a) = true -> forallb typedExpr es = true).
Proof.
  induction nodes as [|node nodes IH]; intros a es a' H; cbn [acceptAll] in H.
  { injection H as <- <-; split; [apply declared_refl | reflexivity]. }
  bind_ok H p; destruct p as [e1 a1]; cbn [fst snd] in H.
  bind_ok H p; destruct p as [es1 a2]; cbn [fst snd] in H.
  injection H as <- <-.
  destruct (acc_good _ _ _ _ E) as [D1 T1], (IH _ _ _ E0) as [D2 T2].
  split; [now apply (declared_trans a a1 a2)|].
  intros R; cbn [forallb]; rewrite (T1 R), T2; [reflexivity|].
  now apply (declared_ready a a1).
Qed.

Lemma requireNumericExpr_good (exprs : list Expr) :
  forall a es a',
    requireNumericExpr acc a exprs = Ok (es, a') ->
    declared a a'
    /\ List.length es = List.length exprs
    /\ (procsReady (module a) = true -> forallb typedExpr es = true).
Proof.
  induction exprs as [|expr exprs IH]; intros a es a' H;
    cbn [requireNumericExpr] in H.
  { injection H as <- <-; split; [apply declared_refl|]; split; reflexivity. }
  bind_ok H p; destruct p as [e1 a1]; cbn [fst snd] in H.
  bind_ok H d.
  destruct (negb (isNumeric [d])); [discriminate H|].
  bind_ok H p; destruct p as [es1 a2]; cbn [fst snd] in H.
  injection H as <- <-.
  destruct (acc_good _ _ _ _ E) as [D1 T1], (IH _ _ _ E1) as [D2 [Len T2]].
  split; [now apply (declared_trans a a1 a2)|].
  split; [cbn [List.length]; now rewrite Len|].
  intros R; cbn [forallb]; rewrite (T1 R), T2; [reflexivity|].
  now apply (declared_ready a a1).
Qed.

Lemma requireNumericExpr_one (a a' : Analyzer) (expr : Expr) (es : list Expr) :
  requireNumericExpr acc a [expr] = Ok (es, a') ->
  declared a a'
  /\ (procsReady (module a) = true -> typedExpr (hd expr es) = true).
Proof.
  intros H; destruct (requireNumericExpr_good _ _ _ _ H) as [D [Len T]].
  split; [exact D|]; intros R; specialize (T R).
  destruct es as [|e [|e2 es]]; try discriminate Len.
  cbn [forallb hd] in *; now apply andb_prop in T as [T _].
Qed.

Lemma visitExpr_good (a : Analyzer) (e e' : Expr) (a' : Analyzer) :
  visitExpr binaryOpName acc a e = Ok (e', a') -> good a e' a'.
Proof.
  destruct e as [v t loc|n t vt vs loc|n args t loc|op l r t loc|op r t loc];
    cbn [visitExpr]; intros H.
  - unfold visitLiteralExpr in H; destruct v; try discriminate H;
      injection H as <- <-; (split; [apply declared_refl|]); reflexivity.
  - unfold visitVarRefExpr in H; bind_ok H o.
    destruct o as [[symbol scope]|].
    + injection H as <- <-; split; [apply declared_refl | reflexivity].
    + destruct (SymbolTable.lookupSymbol procName (procs (module a)) n)
        as [proc|].
      * destruct (isFn proc); [now apply acc_good in H | discriminate H].
      * bind_ok H a0; injection H as <- <-; split; [|reflexivity].
        exists [mkVarSymbol n VAR (getTypeSpecFromSuffix n)]; split.
        -- apply (declares_cons a a0 a0
                    (mkVarSymbol n VAR (getTypeSpecFromSuffix n)) [] E E0).
           constructor.
        -- repeat constructor.
  - unfold visitFnCallExpr in H.
    destruct (SymbolTable.lookupSymbol procName (procs (module a)) n)
      as [proc|] eqn:P; [|discriminate H].
    destruct (isFn proc) eqn:F; cbn [negb] in H; [|discriminate H].
    bind_ok H ps.
    destruct (negb (List.length ps =? List.length args)%nat); [discriminate H|].
    bind_ok H p; destruct p as [es a1]; cbn [fst snd] in H.
    bind_ok H u.
    injection H as <- <-.
    destruct (acceptAll_good _ _ _ _ E0) as [D T].
    split; [exact D|].
    intros R; cbn [typedExpr]; rewrite (T R), andb_true_r.
    unfold SymbolTable.lookupSymbol in P; apply find_some in P as [I _].
    unfold procsReady in R; rewrite forallb_forall in R.
    specialize (R proc I); unfold procReady in R; rewrite F in R.
    destruct (returnTypeSpec proc); [reflexivity | discriminate R].
  - unfold visitBinaryOpExpr in H.
    bind_ok H p; destruct p as [l' a1]; cbn [fst snd] in H.
    bind_ok H p; destruct p as [r' a2]; cbn [fst snd] in H.
    bind_ok H tyl; bind_ok H tyr.
    destruct (acc_good _ _ _ _ E) as [D1 T1], (acc_good _ _ _ _ E0) as [D2 T2].
    assert (D : declared a a2) by (now apply (declared_trans a a1 a2)).
    assert (T : procsReady (module a) = true ->
                typedExpr l' && typedExpr r' = true).
    { intros R; rewrite (T1 R), T2; [reflexivity|].
      now apply (declared_ready a a1). }
    unfold throwError in H.
    destruct op;
      repeat match type of H with
        | context [if ?b then _ else _] => destruct b
        | context [bind ?m _] => destruct m; cbn [bind] in H
        end;
      try discriminate H; injection H as <- <-; (split; [exact D|]);
      intros R; cbn [typedExpr isSome andb]; exact (T R).
  - unfold visitUnaryOpExpr in H.
    bind_ok H p; destruct p as [r' a1]; cbn [fst snd] in H.
    destruct (acc_good _ _ _ _ E) as [D1 T1].
    assert (Top : procsReady (module a) = true ->
                  isSome (exprTypeSpec r') = true).
    { intros R; destruct (typedExpr_top r' (T1 R)) as [ty ->]; reflexivity. }
    destruct op.
    + bind_ok H p; destruct p as [es a2]; cbn [fst snd] in H.
      injection H as <- <-.
      destruct (requireNumericExpr_one _ _ _ _ E0) as [D2 T2].
      split; [now apply (declared_trans a a1 a2)|].
      intros R; cbn [typedExpr]; rewrite (Top R), T2; [reflexivity|].
      now apply (declared_ready a a1).
    + bind_ok H p; destruct p as [es a2]; cbn [fst snd] in H.
      injection H as <- <-.
      destruct (requireNumericExpr_one _ _ _ _ E0) as [D2 T2].
      split; [now apply (declared_trans a a1 a2)|].
      intros R; cbn [typedExpr isSome andb]; apply T2.
      now apply (declared_ready a a1).
    + injection H as <- <-; split; [exact D1|].
      intros R; cbn [typedExpr]; now rewrite (Top R), (T1 R).
Qed.

End Visit.

Lemma accept_good (fuel : nat) :
  forall a e e' a', accept' fuel a e = Ok (e', a') -> good a e' a'.
Proof.
  induction fuel as [|fuel IH]; intros a e e' a' H; [discriminate H|].
  apply (visitExpr_good (accept' fuel) IH a e e' a' H).
Qed.

(** *** Statements *)

Variable depth : nat.

Abbreviation acceptE := (acceptExpr binaryOpName depth).

Lemma acceptExpr_good (a : Analyzer) (e e' : Expr) (a' : Analyzer) :
  acceptE a e = Ok (e', a') -> good a e' a'.
Proof. apply accept_good. Qed.

Lemma requireElementaryTypeExpr_good (exprs : list Expr) :
  forall a es a',
    requireElementaryTypeExpr binaryOpName depth a exprs = Ok (es, a') ->
    declared a a'
    /\ List.length es = List.length exprs
    /\ (procsReady (module a) = true -> forallb typedExpr es = true).
Proof.
  induction exprs as [|expr exprs IH]; intros a es a' H;
    cbn [requireElementaryTypeExpr] in H.
  { injection H as <- <-; split; [apply declared_refl|]; split; reflexivity. }
  bind_ok H p; destruct p as [e1 a1]; cbn [fst snd] in H.
  bind_ok H d.
  destruct (negb (isElementaryType d)); [discriminate H|].
  bind_ok H p; destruct p as [es1 a2]; cbn [fst snd] in H.
  injection H as <- <-.
  destruct (acceptExpr_good _ _ _ _ E) as [D1 T1], (IH _ _ _ E1) as [D2 [Len T2]].
  split; [now apply (declared_trans a a1 a2)|].
  split; [cbn [List.length]; now rewrite Len|].
  intros R; cbn [forallb]; rewrite (T1 R), T2; [reflexivity|].
  now apply (declared_ready a a1).
Qed.

(** A visit of statements leaves the analyzer after some declarations, and
    typed statements when the functions are ready. *)
Let goodStmts (a : Analyzer) (nodes' : list Stmt) (a' : Analyzer) : Prop :=
  declared a a'
  /\ (procsReady (module a) = true -> forallb typedStmt nodes' = true).

Section VisitStatements.

Variable rec : Analyzer -> list Stmt -> Result (list Stmt * Analyzer).

Hypothesis rec_good :
  forall a nodes nodes' a', rec a nodes = Ok (nodes', a') ->
                            goodStmts a nodes' a'.

Lemma ifBranchesLoop_good (ifBranches : list (Expr * list Stmt)) :
  forall a bs a',
    ifBranchesLoop binaryOpName depth rec a ifBranches = Ok (bs, a') ->
    declared a a'
    /\ (procsReady (module a) = true ->
        forallb (fun branch =>
                   match branch with
                   | (condExpr, stmts) =>
                       typedExpr condExpr && forallb typedStmt stmts
                   end) bs = true).
Proof.
  induction ifBranches as [|[condExpr stmts] ifBranches IH]; intros a bs a' H;
    cbn [ifBranchesLoop] in H.
  { injection H as <- <-; split; [apply declared_refl | reflexivity]. }
  bind_ok H p; destruct p as [c a1]; cbn [fst snd] in H.
  bind_ok H p; destruct p as [s a2]; cbn [fst snd] in H.
  bind_ok H p; destruct p as [rs a3]; cbn [fst snd] in H.
  injection H as <- <-.
  destruct (requireNumericExpr_one acceptE acceptExpr_good _ _ _ _ E) as [D1 T1].
  destruct (rec_good _ _ _ _ E0) as [D2 T2], (IH _ _ _ E1) as [D3 T3].
  split; [apply (declared_trans a a1 a3); [exact D1|];
          now apply (declared_trans a1 a2 a3)|].
  intros R; pose proof (declared_ready a a1 D1 R) as R1.
  pose proof (declared_ready a1 a2 D2 R1) as R2.
  cbn [forallb]; now rewrite (T1 R), (T2 R1), (T3 R2).
Qed.

Lemma printArgsLoop_good (args : list PrintStmtArg) :
  forall a args' a',
    printArgsLoop binaryOpName depth a args = Ok (args', a') ->
    declared a a'
    /\ (procsReady (module a) = true ->
        forallb (fun arg =>
                   match arg with
                   | PrintExpr e => typedExpr e
                   | PrintSep _ => true
                   end) args' = true).
Proof.
  induction args as [|[sep|e] args IH]; intros a args' a' H;
    cbn [printArgsLoop] in H.
  - injection H as <- <-; split; [apply declared_refl | reflexivity].
  - bind_ok H p; destruct p as [rs a1]; cbn [fst snd] in H.
    injection H as <- <-; destruct (IH _ _ _ E) as [D T].
    split; [exact D | exact T].
  - bind_ok H p; destruct p as [r a1]; cbn [fst snd] in H.
    bind_ok H p; destruct p as [rs a2]; cbn [fst snd] in H.
    injection H as <- <-.
    destruct (requireElementaryTypeExpr_good _ _ _ _ E) as [D1 [Len T1]].
    destruct (IH _ _ _ E0) as [D2 T2].
    split; [now apply (declared_trans a a1 a2)|].
    intros R; cbn [forallb]; rewrite T2 by now apply (declared_ready a a1).
    specialize (T1 R); destruct r as [|e1 [|e2 r]]; try discriminate Len.
    cbn [forallb hd] in *; now rewrite andb_true_r in *.
Qed.

Lemma visitStmt_good (a : Analyzer) (node node' : Stmt) (a' : Analyzer) :
  visitStmt binaryOpName depth rec a node = Ok (node', a') ->
  declared a a' /\ (procsReady (module a) = true -> typedStmt node' = true).
Proof.
  destruct node; cbn [visitStmt]; intros H;
    try (injection H as <- <-; split; [apply declared_refl | reflexivity]).
  - unfold visitAssignStmt in H.
    bind_ok H p; destruct p as [t a1]; cbn [fst snd] in H.
    bind_ok H p; destruct p as [v a2]; cbn [fst snd] in H.
    bind_ok H tyt; bind_ok H tyv.
    destruct (negb (areMatchingElementaryTypes tyt tyv)); [discriminate H|].
    injection H as <- <-.
    destruct (acceptExpr_good _ _ _ _ E) as [D1 T1].
    destruct (acceptExpr_good _ _ _ _ E0) as [D2 T2].
    split; [now apply (declared_trans a a1 a2)|].
    intros R; cbn [typedStmt]; rewrite (T1 R), T2; [reflexivity|].
    now apply (declared_ready a a1).
  - unfold visitIfStmt in H.
    bind_ok H p; destruct p as [bs a1]; cbn [fst snd] in H.
    bind_ok H p; destruct p as [es a2]; cbn [fst snd] in H.
    injection H as <- <-.
    destruct (ifBranchesLoop_good _ _ _ _ E) as [D1 T1].
    destruct (rec_good _ _ _ _ E0) as [D2 T2].
    split; [now apply (declared_trans a a1 a2)|].
    intros R; cbn [typedStmt]; rewrite (T1 R), T2; [reflexivity|].
    now apply (declared_ready a a1).
  - unfold visitCondLoopStmt in H.
    bind_ok H p; destruct p as [c a1]; cbn [fst snd] in H.
    bind_ok H p; destruct p as [s a2]; cbn [fst snd] in H.
    injection H as <- <-.
    destruct (requireNumericExpr_one acceptE acceptExpr_good _ _ _ _ E)
      as [D1 T1].
    destruct (rec_good _ _ _ _ E0) as [D2 T2].
    split; [now apply (declared_trans a a1 a2)|].
    intros R; cbn [typedStmt]; rewrite (T1 R), T2; [reflexivity|].
    now apply (declared_ready a a1).
  - unfold visitUncondLoopStmt in H.
    bind_ok H p; destruct p as [s a1]; cbn [fst snd] in H.
    injection H as <- <-; exact (rec_good _ _ _ _ E).
  - unfold visitForStmt in H.
    bind_ok H p; destruct p as [es a1]; cbn [fst snd] in H.
    destruct (requireNumericExpr_good acceptE acceptExpr_good _ _ _ _ E)
      as [D [_ T]].
    destruct es as [|c [|s [|e rest]]]; try discriminate H.
    injection H as <- <-; split; [exact D|].
    intros R; specialize (T R); cbn [forallb] in T.
    apply andb_prop in T as [Tc T]; apply andb_prop in T as [Ts T].
    apply andb_prop in T as [Te T].
    cbn [typedStmt counterExpr startExpr endExpr stepExpr].
    rewrite Tc, Ts, Te; destruct rest as [|st rest]; [reflexivity|].
    cbn [hd_error forallb] in *; now apply andb_prop in T as [T _].
  - unfold visitNextStmt in H.
    bind_ok H p; destruct p as [es a1]; cbn [fst snd] in H.
    injection H as <- <-.
    destruct (requireNumericExpr_good acceptE acceptExpr_good _ _ _ _ E)
      as [D [_ T]]; split; [exact D | exact T].
  - unfold visitPrintStmt in H.
    bind_ok H p; destruct p as [es a1]; cbn [fst snd] in H.
    injection H as <- <-; exact (printArgsLoop_good _ _ _ _ E).
  - unfold visitInputStmt in H.
    bind_ok H p; destruct p as [es a1]; cbn [fst snd] in H.
    injection H as <- <-.
    destruct (requireElementaryTypeExpr_good _ _ _ _ E) as [D [_ T]].
    split; [exact D | exact T].
Qed.

Lemma acceptAllWith_good (nodes : list Stmt) :
  forall a nodes' a',
    acceptAllWith binaryOpName depth rec a nodes = Ok (nodes', a') ->
    goodStmts a nodes' a'.
Proof.
  induction nodes as [|node nodes IH]; intros a nodes' a' H;
    cbn [acceptAllWith] in H.
  { injection H as <- <-; split; [apply declared_refl | reflexivity]. }
  bind_ok H p; destruct p as [s1 a1]; cbn [fst snd] in H.
  bind_ok H p; destruct p as [ss a2]; cbn [fst snd] in H.
  injection H as <- <-.
  destruct (visitStmt_good _ _ _ _ E) as [D1 T1], (IH _ _ _ E0) as [D2 T2].
  split; [now apply (declared_trans a a1 a2)|].
  intros R; cbn [forallb]; rewrite (T1 R), T2; [reflexivity|].
  now apply (declared_ready a a1).
Qed.

End VisitStatements.

Lemma acceptAllStmts_good (fuel : nat) :
  forall a nodes nodes' a',
    acceptAllStmts binaryOpName depth fuel a nodes = Ok (nodes', a') ->
    goodStmts a nodes' a'.
Proof.
  induction fuel as [|fuel IH]; intros a nodes nodes' a' H; [discriminate H|].
  apply (acceptAllWith_good (acceptAllStmts binaryOpName depth fuel) IH
           nodes a nodes' a' H).
Qed.

(** *** Procedures and the module *)

Lemma nonNull_ok {A : Type} (x : option A) (y : A) :
  nonNull x = Ok y -> x = Some y.
Proof. destruct x; [now intros H; injection H as -> | discriminate]. Qed.

Lemma sameButLocals_refl (p : Proc) : sameButLocals p p.
Proof. repeat split. Qed.

Lemma sameButLocals_trans (p q r : Proc) :
  sameButLocals p q -> sameButLocals q r -> sameButLocals p r.
Proof.
  unfold sameButLocals; intros H1 H2.
  decompose [and] H1; decompose [and] H2; repeat split; congruence.
Qed.

Lemma Forall2_refl {A : Type} (R : A -> A -> Prop) (l : list A) :
  (forall x, R x x) -> Forall2 R l l.
Proof. intros H; induction l; constructor; auto. Qed.

Lemma Forall2_trans {A : Type} (R : A -> A -> Prop) (l1 l2 l3 : list A) :
  (forall x y z, R x y -> R y z -> R x z) ->
  Forall2 R l1 l2 -> Forall2 R l2 l3 -> Forall2 R l1 l3.
Proof.
  intros T H; revert l3; induction H as [|x y l1 l2 Rxy H IH]; intros l3 H3;
    inversion H3; subst; constructor; eauto.
Qed.

Lemma Forall2_updateNth {A : Type} (R : A -> A -> Prop) (l : list A) (i : nat)
  (x y : A) :
  (forall z, R z z) -> nth_error l i = Some x -> R x y ->
  Forall2 R l (updateNth l i y).
Proof.
  intros Rr; revert i; induction l as [|z l IH]; intros [|i]; cbn;
    try discriminate.
  - intros H Rxy; injection H as ->; constructor;
      [exact Rxy | now apply Forall2_refl].
  - intros H Rxy; constructor; [apply Rr | now apply IH].
Qed.

Lemma Forall2_nth_error {A : Type} (R : A -> A -> Prop) (l l' : list A)
  (i : nat) (x : A) :
  Forall2 R l l' -> nth_error l i = Some x ->
  exists y, nth_error l' i = Some y /\ R x y.
Proof.
  intros H; revert i; induction H as [|a b l l' Rab H IH]; intros [|i]; cbn;
    try discriminate.
  - intros E; injection E as ->; eauto.
  - apply IH.
Qed.

(** A declaration changes no procedure but in its locals, and leaves the
    statements of the module alone. *)
Lemma addLocalSymbol_procs (a a1 : Analyzer) (symbol : VarSymbol) :
  addLocalSymbol a symbol = Ok a1 ->
  Forall2 sameButLocals (procs (module a)) (procs (module a1))
  /\ stmts (module a1) = stmts (module a).
Proof.
  unfold addLocalSymbol; intros H; bind_ok H locals.
  destruct (currentProc a) as [i|].
  - bind_ok H proc; injection H as <-; cbn [module procs stmts]; split;
      [|reflexivity].
    apply (Forall2_updateNth _ _ _ proc); [apply sameButLocals_refl| |].
    + exact (nonNull_ok _ _ E0).
    + repeat split.
  - injection H as <-; split;
      [apply Forall2_refl, sameButLocals_refl | reflexivity].
Qed.

Lemma declared_procs (a a' : Analyzer) :
  declared a a' ->
  Forall2 sameButLocals (procs (module a)) (procs (module a'))
  /\ stmts (module a') = stmts (module a)
  /\ currentProc a' = currentProc a
  /\ moduleGlobalSymbols (module a') = moduleGlobalSymbols (module a).
Proof.
  intros [added [D _]].
  destruct (declares_keeps a a' added D) as [C [G _]].
  split; [|split; [|split; assumption]]; clear C G.
  - induction D as [a|a a1 a' s l F A D IH];
      [apply Forall2_refl, sameButLocals_refl|].
    apply (Forall2_trans _ _ (procs (module a1)));
      [apply sameButLocals_trans | apply (addLocalSymbol_procs a a1 s A)
      | exact IH].
  - induction D as [a|a a1 a' s l F A D IH]; [reflexivity|].
    rewrite IH; apply (addLocalSymbol_procs a a1 s A).
Qed.

Lemma forallb_nth_error {A : Type} (p : A -> bool) (l : list A) :
  forallb p l = true <-> forall i x, nth_error l i = Some x -> p x = true.
Proof.
  rewrite forallb_forall; split.
  - intros H i x E; apply H, (nth_error_In _ _ E).
  - intros H x I; destruct (In_nth_error _ _ I) as [i E]; eauto.
Qed.

Lemma length_updateNth {A : Type} (l : list A) (i : nat) (y : A) :
  List.length (updateNth l i y) = List.length l.
Proof.
  revert i; induction l as [|x l IH]; intros [|i]; cbn; auto.
Qed.

(** The procs before index [k] have typed statements. *)
Let typedBefore (k : nat) (ps : list Proc) : Prop :=
  forall j p, j < k -> nth_error ps j = Some p ->
              forallb typedStmt (procStmts p) = true.

Lemma visitFnProc_good (fuel : nat) (a a' : Analyzer) (i : nat) :
  visitFnProc binaryOpName depth fuel a i = Ok a' ->
  procsReady (module a) = true ->
  typedBefore i (procs (module a)) ->
  procsReady (module a') = true
  /\ typedBefore (S i) (procs (module a'))
  /\ currentProc a' = None
  /\ stmts (module a') = stmts (module a)
  /\ moduleGlobalSymbols (module a') = moduleGlobalSymbols (module a)
  /\ List.length (procs (module a')) = List.length (procs (module a))
  /\ map procName (procs (module a')) = map procName (procs (module a)).
Proof.
  unfold visitFnProc; intros H R T.
  bind_ok H node; bind_ok H p; destruct p as [ss ar]; cbn [fst snd] in H.
  bind_ok H node'; injection H as <-; cbn [module procs stmts currentProc
    moduleGlobalSymbols].
  destruct (acceptAllStmts_good fuel _ _ _ _ E0) as [D Ty].
  cbn [module] in Ty; specialize (Ty R).
  pose proof (declared_ready _ _ D R) as Rr; cbn [module] in Rr.
  destruct (declared_procs _ _ D) as [F2 [St [_ G]]]; cbn [module] in F2, St, G.
  assert (N' : nth_error (procs (module ar)) i = Some node')
    by exact (nonNull_ok _ _ E1).
  split; [|split; [|split; [reflexivity|split; [exact St|split; [exact G|]]]]].
  - unfold procsReady in *; cbn [procs].
    now rewrite (forallb_updateNth procReady _ _ node' _ N').
  - intros j p L Ej.
    destruct (Nat.eq_dec j i) as [->|Ne].
    + rewrite (nth_error_updateNth _ _ _ _ N') in Ej; injection Ej as <-.
      exact Ty.
    + rewrite nth_error_updateNth_other in Ej by congruence.
      assert (Lj : j < i) by lia.
      assert (In2 : exists q, nth_error (procs (module a)) j = Some q
                              /\ sameButLocals q p).
      { clear - F2 Ej; revert j Ej; induction F2 as [|x y l l' Rxy F IH];
          intros [|j]; cbn; try discriminate.
        - intros E; injection E as <-; eauto.
        - apply IH. }
      destruct In2 as [q [Eq S]].
      destruct S as [_ [_ [_ [-> _]]]]; now apply (T j q).
  - split.
    + rewrite length_updateNth; symmetry; apply (Forall2_length F2).
    + assert (M : map procName (procs (module ar))
                  = map procName (procs (module a))).
      { clear - F2; induction F2 as [|x y l l' Rxy F IH]; [reflexivity|].
        cbn [map]; destruct Rxy as [_ [-> _]]; now rewrite IH. }
      rewrite <- M; clear - N'; revert i N'.
      induction (procs (module ar)) as [|x l IH]; intros [|i]; cbn;
        try discriminate.
      * intros E; injection E as ->; reflexivity.
      * intros E; now rewrite (IH i E).
Qed.

Lemma visitProcsFrom_good (fuel count : nat) :
  forall a a' i,
    visitProcsFrom binaryOpName depth fuel a i count = Ok a' ->
    procsReady (module a) = true ->
    typedBefore i (procs (module a)) ->
    procsReady (module a') = true
    /\ typedBefore (i + count) (procs (module a'))
    /\ stmts (module a') = stmts (module a)
    /\ moduleGlobalSymbols (module a') = moduleGlobalSymbols (module a)
    /\ List.length (procs (module a')) = List.length (procs (module a))
    /\ map procName (procs (module a')) = map procName (procs (module a)).
Proof.
  induction count as [|count IH]; intros a a' i H R T;
    cbn [visitProcsFrom] in H.
  { injection H as <-; rewrite Nat.add_0_r; repeat split; assumption. }
  bind_ok H a1.
  destruct (visitFnProc_good fuel a a1 i E R T) as [R1 [T1 [_ [S1 [G1 [L1 M1]]]]]].
  destruct (IH a1 a' (S i) H R1 T1) as [R2 [T2 [S2 [G2 [L2 M2]]]]].
  rewrite Nat.add_succ_r; repeat split; try congruence; exact T2.
Qed.

Lemma preprocessProc_ready (procs0 : list Proc) :
  forallb procReady (map preprocessProc procs0) = true.
Proof.
  induction procs0 as [|p ps IH]; [reflexivity|]; cbn [map forallb].
  rewrite IH, andb_true_r; unfold preprocessProc, procReady, isFn.
  destruct (procType p); reflexivity.
Qed.

(** X19: what a successful run of the analyzer leaves. Every expression of
    the module, in its statements and in the statements of every procedure,
    at whatever depth, carries its type, and every variable reference its
    kind and scope; the procedures are those of the input, in order, each
    function with its return type set; and the global symbol table is empty:
    this analyzer makes every symbol a local one. *)
Theorem run_types_module (fuel : nat) (m m' : Module) :
  run binaryOpName depth fuel m = Ok m' ->
  typedModule m' = true
  /\ procsReady m' = true
  /\ map procName (procs m') = map procName (procs m)
  /\ moduleGlobalSymbols m' = Some [].
Proof.
  unfold run, visitModule; intros H.
  bind_ok H p; destruct p as [ss ar]; cbn [fst snd] in H.
  bind_ok H a2; injection H as <-.
  destruct (acceptAllStmts_good fuel _ _ _ _ E) as [D Ty].
  cbn [module] in Ty.
  pose proof (preprocessProc_ready (procs m)) as R0.
  specialize (Ty R0).
  pose proof (declared_ready _ _ D R0) as Rr.
  destruct (declared_procs _ _ D) as [F2 [_ [_ G]]];
    cbn [module procs moduleGlobalSymbols] in F2, G.
  destruct (visitProcsFrom_good fuel _ _ _ 0 E0 Rr) as [R2 [T2 [S2 [G2 [L2 M2]]]]].
  { intros j p L; lia. }
  cbn [module stmts procs moduleGlobalSymbols Nat.add] in *.
  split; [|split; [exact R2|split; [|congruence]]].
  - unfold typedModule; rewrite S2, Ty; cbn [andb].
    apply forallb_nth_error; intros i x Ei.
    apply (T2 i x); [|exact Ei].
    rewrite <- L2; apply nth_error_Some; congruence.
  - rewrite M2.
    assert (M : map procName (procs (module ar))
                = map procName (map preprocessProc (procs m))).
    { clear - F2; induction F2 as [|x y l l' Rxy F IH]; [reflexivity|].
      cbn [map]; destruct Rxy as [_ [-> _]]; now rewrite IH. }
    rewrite M, map_map; apply map_ext; intros p.
    unfold preprocessProc; destruct (isFn p); reflexivity.
Qed.

(** X16: every expression the analyzer accepts is typed throughout. Once
    the functions of the module have their return types (as [preprocessProc]
    sets them), a successful [accept] returns a node that carries its type,
    as does every expression below it, and every variable reference its kind
    and scope as well, whatever the node is (a variable turned into a call
    included); the functions still have their return types afterwards. So the
    non-null assertions on [typeSpec] that follow a visit never fail. *)
Theorem accept_types_node (fuel : nat) (a a' : Analyzer) (e e' : Expr) :
  procsReady (module a) = true ->
  accept' fuel a e = Ok (e', a') ->
  typedExpr e' = true
  /\ (exists t, exprTypeSpec e' = Some t)
  /\ procsReady (module a') = true.
Proof.
  intros R H; destruct (accept_good fuel a e e' a' H) as [D T].
  split; [exact (T R)|]; split; [exact (typedExpr_top e' (T R))|].
  exact (declared_ready a a' D R).
Qed.

(** X17: the analysis of an expression changes nothing but the locals of
    the current scope, and those only by appending. After a successful
    [accept] the current proc, its params and the globals are as before; the
    locals of the current scope are the old ones followed by the symbols
    declared on the way, each a variable typed by the suffix of its name; and
    every name that resolved before resolves to the same symbol in the same
    scope: the type of a variable never changes once it is known. *)
Theorem accept_keeps_symbols (fuel : nat) (a a' : Analyzer) (e e' : Expr) :
  accept' fuel a e = Ok (e', a') ->
  exists added,
    Forall implicitVariable added
    /\ (forall locals, getLocalSymbols a = Ok locals ->
                       getLocalSymbols a' = Ok (locals ++ added))
    /\ currentProc a' = currentProc a
    /\ currentParams a' = currentParams a
    /\ moduleGlobalSymbols (module a') = moduleGlobalSymbols (module a)
    /\ (forall n x, SemanticAnalyzer.lookupSymbol a n = Ok (Some x) ->
                    SemanticAnalyzer.lookupSymbol a' n = Ok (Some x)).
Proof.
  intros H; destruct (accept_good fuel a e e' a' H) as [[added [D F]] _].
  destruct (declares_keeps a a' added D) as [C [G [P [_ [L K]]]]].
  exists added; repeat split; assumption.
Qed.

(** X18: variables are the same in any letter case. A first reference to a
    name that resolves to nothing and names no procedure declares it, typed
    by its suffix; after that a reference to the name in any letter case
    resolves to this very symbol, with the type of the first reference, and
    declares nothing more. *)
Theorem varref_any_case (fuel : nat) (a : Analyzer) (n n' : string)
  (t : option DataTypeSpec) (vt : option VarType) (vs : option VarScope)
  (loc : Loc) :
  SemanticAnalyzer.lookupSymbol a n = Ok None ->
  SymbolTable.lookupSymbol procName (procs (module a)) n = None ->
  sameName n n' = true ->
  exists a1,
    accept' (S fuel) a (VarRefExpr n t vt vs loc)
    = Ok (VarRefExpr n (Some (getTypeSpecFromSuffix n)) (Some VAR)
            (Some LOCAL) loc, a1)
    /\ forall fuel' t' vt' vs' loc',
        accept' (S fuel') a1 (VarRefExpr n' t' vt' vs' loc')
        = Ok (VarRefExpr n' (Some (getTypeSpecFromSuffix n)) (Some VAR)
                (Some LOCAL) loc', a1).
Proof.
  intros F P S.
  destruct (lookupSymbol_none_tables a n F)
    as [params [locals [globals [Pa [La [Ga Fa]]]]]].
  destruct (addLocalSymbol_locals a
              (mkVarSymbol n VAR (getTypeSpecFromSuffix n)) locals La)
    as [a1 [E _]].
  destruct (addLocalSymbol_step a a1 _ E) as [locals' [L [L1 [C1 [G1 [P1 _]]]]]].
  assert (locals' = locals) by congruence; subst locals'.
  exists a1; split.
  - cbn [SemanticAnalyzer.accept visitExpr]; unfold visitVarRefExpr.
    rewrite F; cbn [bind]; rewrite P, E; reflexivity.
  - intros fuel' t' vt' vs' loc'.
    cbn [SemanticAnalyzer.accept visitExpr]; unfold visitVarRefExpr.
    rewrite <- (lookupSymbol_sameName a1 n n' S).
    rewrite (lookupSymbol_in_scope a1 n params
               (locals ++ [mkVarSymbol n VAR (getTypeSpecFromSuffix n)]) globals);
      [|congruence..].
    revert Fa; unfold lookupInScope.
    destruct (SymbolTable.lookupSymbol name params n); [discriminate|].
    destruct (SymbolTable.lookupSymbol name locals n) eqn:Ls; [discriminate|].
    intros _; unfold SymbolTable.lookupSymbol at 1.
    unfold SymbolTable.lookupSymbol in Ls; rewrite (find_app_none _ _ _ Ls).
    cbn [find name]; unfold sameName at 1; rewrite String.eqb_refl.
    reflexivity.
Qed.

End AnalyzerInvariants.

Lemma accept_types_node_witness :
  SemanticAnalyzer.typedExpr
    (Ast.FnCallExpr "F" [] (Some singleSpec) Sample.loc0) = true
  /\ (exists t,
         Ast.exprTypeSpec (Ast.FnCallExpr "F" [] (Some singleSpec) Sample.loc0)
         = Some t)
  /\ SemanticAnalyzer.procsReady Sample.sampleModule = true.
Proof.
  exact (accept_types_node Sample.binaryOpName 2
           (SemanticAnalyzer.mkAnalyzer Sample.sampleModule None)
           (SemanticAnalyzer.mkAnalyzer Sample.sampleModule None)
           (Ast.VarRefExpr "F" None None None Sample.loc0)
           (Ast.FnCallExpr "F" [] (Some singleSpec) Sample.loc0)
           eq_refl eq_refl).
Defined.

Lemma accept_keeps_symbols_witness :
  exists added,
    Forall SemanticAnalyzer.implicitVariable added
    /\ SemanticAnalyzer.getLocalSymbols
         (SemanticAnalyzer.mkAnalyzer
            (Ast.mkModule [Sample.procF] []
               (Some [SymbolTable.mkVarSymbol "x" SymbolTable.VAR singleSpec;
                      SymbolTable.mkVarSymbol "y$" SymbolTable.VAR stringSpec])
               (Some []))
            None)
       = Ok ([SymbolTable.mkVarSymbol "x" SymbolTable.VAR singleSpec] ++ added).
Proof.
  destruct (accept_keeps_symbols Sample.binaryOpName 1
              (SemanticAnalyzer.mkAnalyzer Sample.sampleModule None)
              (SemanticAnalyzer.mkAnalyzer
                 (Ast.mkModule [Sample.procF] []
                    (Some [SymbolTable.mkVarSymbol "x" SymbolTable.VAR singleSpec;
                           SymbolTable.mkVarSymbol "y$" SymbolTable.VAR
                             stringSpec])
                    (Some []))
                 None)
              (Ast.VarRefExpr "y$" None None None Sample.loc0)
              (Ast.VarRefExpr "y$" (Some stringSpec) (Some SymbolTable.VAR)
                 (Some SymbolTable.LOCAL) Sample.loc0)
              eq_refl) as [added [F [L _]]].
  exists added; split; [exact F|].
  exact (L [SymbolTable.mkVarSymbol "x" SymbolTable.VAR singleSpec] eq_refl).
Defined.

Lemma varref_any_case_witness :
  exists a1,
    SemanticAnalyzer.accept Sample.binaryOpName 1
      (SemanticAnalyzer.mkAnalyzer Sample.sampleModule None)
      (Ast.VarRefExpr "Total#" None None None Sample.loc0)
    = Ok (Ast.VarRefExpr "Total#" (Some doubleSpec) (Some SymbolTable.VAR)
            (Some SymbolTable.LOCAL) Sample.loc0, a1)
    /\ SemanticAnalyzer.accept Sample.binaryOpName 1 a1
         (Ast.VarRefExpr "TOTAL#" None None None (mkLoc 2 1))
       = Ok (Ast.VarRefExpr "TOTAL#" (Some doubleSpec) (Some SymbolTable.VAR)
               (Some SymbolTable.LOCAL) (mkLoc 2 1), a1).
Proof.
  destruct (varref_any_case Sample.binaryOpName 0
              (SemanticAnalyzer.mkAnalyzer Sample.sampleModule None)
              "Total#" "TOTAL#" None None None Sample.loc0
              eq_refl eq_refl eq_refl) as [a1 [E K]].
  exists a1; split; [exact E | exact (K 0 None None None (mkLoc 2 1))].
Defined.

Lemma run_types_module_witness :
  SemanticAnalyzer.typedModule Sample.analyzedProgram = true
  /\ SemanticAnalyzer.procsReady Sample.analyzedProgram = true
  /\ map Ast.procName (Ast.procs Sample.analyzedProgram) = ["f"]
  /\ Ast.moduleGlobalSymbols Sample.analyzedProgram = Some [].
Proof.
  exact (run_types_module Sample.binaryOpName 4 2 Sample.program
           Sample.analyzedProgram eq_refl).
Defined.

Section FunctionName.

Import SymbolTable Ast SemanticAnalyzer.

Variable binaryOpName : BinaryOp -> string.

Abbreviation accept' := (SemanticAnalyzer.accept binaryOpName).

(** X20: inside a function, the function's own name is a variable. In a
    module whose procs are preprocessed, with a function as the current proc
    and no parameter of the function's name, a reference to that name, in any
    letter case, resolves to the local variable that [preprocessProc] put
    first among the function's locals: it is annotated as a local variable of
    the function's return type and is never turned into a call, at the start
    of the function's statements and after any declarations made since. So a
    function without parameters cannot call itself by its name. *)
Theorem function_name_is_variable (fuel : nat) (procs0 : list Proc) (i : nat)
  (node : Proc) (moduleStmts : list Stmt)
  (locals globals : option (list VarSymbol)) (n' : string)
  (added : list VarSymbol) (a' : Analyzer) :
  nth_error procs0 i = Some node -> isFn node = true ->
  sameName (procName node) n' = true ->
  SymbolTable.lookupSymbol paramName (params node) n' = None ->
  declares
    (mkAnalyzer (mkModule (map preprocessProc procs0) moduleStmts locals globals)
       (Some i)) added a' ->
  forall t vt vs loc,
    accept' (S fuel) a' (VarRefExpr n' t vt vs loc)
    = Ok (VarRefExpr n' (Some (getTypeSpecFromSuffix (procName node)))
            (Some VAR) (Some LOCAL) loc, a').
Proof.
  intros N F S P D t vt vs loc.
  set (a := mkAnalyzer
              (mkModule (map preprocessProc procs0) moduleStmts locals globals)
              (Some i)) in *.
  assert (L : SemanticAnalyzer.lookupSymbol a n'
              = Ok (Some (mkVarSymbol (procName node) VAR
                            (getTypeSpecFromSuffix (procName node)), LOCAL))).
  { pose proof (map_nth_error preprocessProc i procs0 N) as Np.
    assert (PS : paramSymbols (preprocessProc node)
                 = Some (map (fun param =>
                                mkVarSymbol (paramName param) ARG
                                  (getTypeSpecFromSuffix (paramName param)))
                           (params node)))
      by (unfold preprocessProc; now rewrite F).
    assert (LS : localSymbols (preprocessProc node)
                 = Some [mkVarSymbol (procName node) VAR
                           (getTypeSpecFromSuffix (procName node))])
      by (unfold preprocessProc; now rewrite F).
    assert (Pn : SymbolTable.lookupSymbol name
                   (map (fun param =>
                           mkVarSymbol (paramName param) ARG
                             (getTypeSpecFromSuffix (paramName param)))
                      (params node)) n' = None).
    { clear - P; revert P; unfold SymbolTable.lookupSymbol.
      generalize (params node); intros ps.
      induction ps as [|q qs IH]; cbn [find map name]; [reflexivity|].
      destruct (sameName (paramName q) n'); [discriminate | exact IH]. }
    unfold SemanticAnalyzer.lookupSymbol, getLocalSymbols, currentProcNode, a.
    cbn [currentProc module procs].
    rewrite Np; cbn [nonNull bind]; rewrite PS; cbn [nonNull bind].
    rewrite Pn, LS; cbn [nonNull bind].
    unfold SymbolTable.lookupSymbol; cbn [find name]; now rewrite S. }
  destruct (declares_keeps a a' added D) as [_ [_ [_ [_ [_ K]]]]].
  cbn [SemanticAnalyzer.accept visitExpr]; unfold visitVarRefExpr.
  rewrite (K _ _ L); reflexivity.
Qed.

End FunctionName.

Lemma function_name_is_variable_witness :
  SemanticAnalyzer.accept Sample.binaryOpName 1
    (SemanticAnalyzer.mkAnalyzer
       (Ast.mkModule
          (map SemanticAnalyzer.preprocessProc (Ast.procs Sample.program))
          [] (Some []) (Some []))
       (Some 0))
    (Ast.VarRefExpr "F" None None None Sample.loc0)
  = Ok (Ast.VarRefExpr "F" (Some singleSpec) (Some SymbolTable.VAR)
          (Some SymbolTable.LOCAL) Sample.loc0,
        SemanticAnalyzer.mkAnalyzer
          (Ast.mkModule
             (map SemanticAnalyzer.preprocessProc (Ast.procs Sample.program))
             [] (Some []) (Some []))
          (Some 0)).
Proof.
  exact (function_name_is_variable Sample.binaryOpName 0
           (Ast.procs Sample.program) 0
           (hd Sample.procF (Ast.procs Sample.program)) [] (Some []) (Some [])
           "F" [] _ eq_refl eq_refl eq_refl eq_refl
           (SemanticAnalyzer.declares_nil _) None None None Sample.loc0).
Defined.

(** ** The code generator: what a visit of statements keeps *)

Section CodegenInvariants.

Import Ast CodeGenerator.

Variable sourceFileName : string.
Variable indentWidth : nat.
Variable GOTO GOSUB RETURN END VALUE FN : string.
Variable jsonOfString : string -> string.
Variable jsonOfTypeSpec : option DataTypeSpec -> string.
Variable acceptFnCall : Expr -> Result Chunk.

Abbreviation createStmtSourceNode' :=
  (createStmtSourceNode sourceFileName indentWidth).
Abbreviation generateLabelStmt' := (generateLabelStmt indentWidth).
Abbreviation visitStmts' :=
  (visitStmts sourceFileName indentWidth GOTO GOSUB RETURN END VALUE
     jsonOfString jsonOfTypeSpec acceptFnCall).

Lemma bindG_ok {A B : Type} (m : Gen A) (k : A -> Gen B) (g : Generator)
  (r : B * Generator) :
  bindG m k g = Ok r -> exists a g1, m g = Ok (a, g1) /\ k a g1 = Ok r.
Proof.
  unfold bindG; destruct (m g) as [[a g1]|e]; [eauto | discriminate].
Qed.

Lemma lift_ok {A : Type} (r : Result A) (g : Generator) (a : A)
  (g' : Generator) :
  lift r g = Ok (a, g') -> r = Ok a /\ g' = g.
Proof.
  unfold lift; destruct r; [|discriminate].
  intros H; injection H as -> ->; auto.
Qed.

Lemma balanced_refl (g : Generator) : balanced g g.
Proof. repeat split; lia. Qed.

Lemma balanced_trans (g g1 g2 : Generator) :
  balanced g g1 -> balanced g1 g2 -> balanced g g2.
Proof.
  intros [L1 [I1 N1]] [L2 [I2 N2]]; repeat split; [congruence | lia | lia].
Qed.

Lemma linesLoop_indentChange (values : list LineValue) :
  forall ind out o ind',
    linesLoop indentWidth values ind out = Ok (o, ind') ->
    ind' = (ind + indentChange values)%Z.
Proof.
  induction values as [|[s|n] values IH]; intros ind out o ind';
    cbn [linesLoop indentChange].
  - intros H; injection H as _ <-; lia.
  - destruct s; [apply IH|].
    destruct (Z.of_nat indentWidth * ind <? 0)%Z; [discriminate | apply IH].
  - intros H; apply IH in H; lia.
Qed.

(** [lines] touches nothing but the indentation. *)
Lemma lines_state (values : list LineValue) (g : Generator) (s : string)
  (g' : Generator) :
  lines indentWidth values g = Ok (s, g') ->
  g' = mkGenerator (openForStmtStates g) (openLoopStmtStates g)
         (indent g + indentChange values) (nextGeneratedLabelIdx g).
Proof.
  unfold lines; destruct (linesLoop indentWidth values (indent g) [])
    as [[o ind']|e] eqn:E; [|discriminate].
  cbn [bind fst snd]; intros H; injection H as _ <-.
  now rewrite (linesLoop_indentChange _ _ _ _ _ E).
Qed.

Lemma same_level (g : Generator) (d : Z) :
  d = 0%Z ->
  mkGenerator (openForStmtStates g) (openLoopStmtStates g) (indent g + d)
    (nextGeneratedLabelIdx g) = g.
Proof. intros ->; destruct g; cbn; f_equal; lia. Qed.

(** A statement object is laid out and the generator is as before. *)
Lemma createStmtSourceNode_state (loc : Loc) (code : Result (list Chunk))
  (g : Generator) (node : Chunk) (g' : Generator) :
  createStmtSourceNode' loc code g = Ok (node, g') -> g' = g.
Proof.
  unfold createStmtSourceNode; intros H.
  apply bindG_ok in H as [l1 [g1 [E1 H]]]; apply lines_state in E1.
  apply bindG_ok in H as [l2 [g2 [E2 H]]]; apply lines_state in E2.
  apply bindG_ok in H as [l3 [g3 [E3 H]]]; apply lines_state in E3.
  apply bindG_ok in H as [c [g4 [E4 H]]]; apply lift_ok in E4 as [_ E4].
  apply bindG_ok in H as [l4 [g5 [E5 H]]]; apply lines_state in E5.
  injection H as _ <-; subst; cbn [openForStmtStates openLoopStmtStates indent
    nextGeneratedLabelIdx indentChange].
  destruct g; cbn; f_equal; lia.
Qed.

Lemma generateLabelStmt_state (node : option Loc) (label : string)
  (g : Generator) (s : string) (g' : Generator) :
  generateLabelStmt' node label g = Ok (s, g') -> g' = g.
Proof.
  unfold generateLabelStmt; intros H; apply lines_state in H; subst.
  apply same_level; destruct node; reflexivity.
Qed.

Ltac gen_run H :=
  repeat
    (apply bindG_ok in H;
     let a := fresh "a" in
     let g := fresh "g" in
     let E := fresh "E" in
     destruct H as [a [g [E H]]];
     first
       [ apply createStmtSourceNode_state in E; subst g
       | apply generateLabelStmt_state in E; subst g
       | apply lift_ok in E; destruct E as [E ->]
       | unfold getG, addIndent, setOpenForStmtStates, setOpenLoopStmtStates,
           generateLabel in E;
         injection E as <- <-
       | idtac ]).

Ltac gen_done H :=
  unfold ret in H; injection H as _ <-;
  unfold balanced;
  cbn [openForStmtStates openLoopStmtStates indent nextGeneratedLabelIdx].

Lemma visitExitLoopStmt_state (loc : Loc) (g : Generator) (c : Chunk)
  (g' : Generator) :
  visitExitLoopStmt sourceFileName indentWidth GOTO loc g = Ok (c, g') ->
  g' = g.
Proof.
  unfold visitExitLoopStmt; intros H.
  apply bindG_ok in H as [a [g1 [E H]]]; injection E as <- <-.
  destruct (List.length (openLoopStmtStates g)).
  - apply lift_ok in H as [H _]; discriminate H.
  - now apply createStmtSourceNode_state in H.
Qed.

Lemma visitExitForStmt_state (loc : Loc) (g : Generator) (c : Chunk)
  (g' : Generator) :
  visitExitForStmt sourceFileName indentWidth GOTO loc g = Ok (c, g') ->
  g' = g.
Proof.
  unfold visitExitForStmt; intros H.
  apply bindG_ok in H as [a [g1 [E H]]]; injection E as <- <-.
  destruct (List.length (openForStmtStates g)).
  - apply lift_ok in H as [H _]; discriminate H.
  - now apply createStmtSourceNode_state in H.
Qed.

(** FOR pushes one frame, goes one level in and takes one label. *)
Lemma visitForStmt_state (node : ForStmtNode) (g : Generator) (c : Chunk)
  (g' : Generator) :
  visitForStmt sourceFileName indentWidth GOTO acceptFnCall node g = Ok (c, g') ->
  exists frame,
    g' = mkGenerator (openForStmtStates g ++ [frame]) (openLoopStmtStates g)
           (indent g + 1) (S (nextGeneratedLabelIdx g)).
Proof.
  unfold visitForStmt; intros H.
  gen_run H.
  unfold ret in H; injection H as _ <-.
  cbn [openForStmtStates openLoopStmtStates indent nextGeneratedLabelIdx].
  eexists; reflexivity.
Qed.

Lemma length_removelast_some {A : Type} (l : list A) (x : A) :
  nth_error l (List.length l - 1) = Some x ->
  S (List.length (removelast l)) = List.length l.
Proof.
  intros H; destruct l as [|a l] using rev_ind; [discriminate|].
  rewrite removelast_last, length_app; cbn; lia.
Qed.

(** Closing a FOR pops one frame and goes one level out. *)
Lemma closeForStmt_state (loc : Loc) (g : Generator) (cs : list Chunk)
  (g' : Generator) :
  closeForStmt sourceFileName indentWidth GOTO acceptFnCall loc g = Ok (cs, g') ->
  balanced g g'
  /\ S (List.length (openForStmtStates g'))
     = List.length (openForStmtStates g).
Proof.
  unfold closeForStmt; intros H.
  gen_run H.
  match goal with
  | L : SemanticAnalyzer.nonNull (nth_error ?l ?i) = Ok ?st |- _ =>
      assert (N : nth_error l i = Some st)
        by (unfold SemanticAnalyzer.nonNull in L;
            destruct (nth_error l i); [now injection L as -> | discriminate L])
  end.
  apply length_removelast_some in N.
  gen_done H.
  repeat split; [lia | lia | exact N].
Qed.

Lemma closeForStmts_state (loc : Loc) (n : nat) :
  forall g cs g',
    closeForStmts sourceFileName indentWidth GOTO acceptFnCall loc n g = Ok (cs, g') ->
    balanced g g'
    /\ n + List.length (openForStmtStates g')
       = List.length (openForStmtStates g).
Proof.
  induction n as [|n IH]; intros g cs g' H; cbn [closeForStmts] in H.
  - injection H as _ <-; split; [apply balanced_refl | reflexivity].
  - apply bindG_ok in H as [a [g1 [E H]]].
    apply closeForStmt_state in E as [B1 L1].
    apply bindG_ok in H as [b [g2 [E H]]].
    apply IH in E as [B2 L2].
    injection H as _ <-.
    split; [exact (balanced_trans _ _ _ B1 B2) | lia].
Qed.

Lemma visitNextStmt_state (counterExprs : list Expr) (loc : Loc)
  (g : Generator) (c : Chunk) (g' : Generator) :
  visitNextStmt sourceFileName indentWidth GOTO acceptFnCall counterExprs loc g
  = Ok (c, g') ->
  balanced g g'
  /\ numForStmtStatesToClose counterExprs
     + List.length (openForStmtStates g')
     = List.length (openForStmtStates g).
Proof.
  unfold visitNextStmt; intros H.
  apply bindG_ok in H as [a [g1 [E H]]]; injection E as <- <-.
  destruct (_ <? _)%nat; [apply lift_ok in H as [H _]; discriminate H|].
  apply bindG_ok in H as [u [g1 [E H]]]; apply lift_ok in E as [_ ->].
  apply bindG_ok in H as [cs [g1 [E H]]].
  apply closeForStmts_state in E.
  injection H as _ <-; exact E.
Qed.

Section NestedInvariants.

Variable visitStmtsRec : list Stmt -> Gen (list Chunk).

Hypothesis visitStmtsRec_balanced :
  forall stmts g cs g', visitStmtsRec stmts g = Ok (cs, g') -> balanced g g'.

Lemma ifBranchesLoop_state (endIfLabel : string)
  (branchLabels : list (option Loc * string))
  (ifBranches : list (Expr * list Stmt)) :
  forall i g cs g',
    ifBranchesLoop sourceFileName indentWidth GOTO acceptFnCall
      visitStmtsRec endIfLabel
      branchLabels i ifBranches g = Ok (cs, g') ->
    balanced g g'.
Proof.
  induction ifBranches as [|[condExpr stmts] ifBranches IH];
    intros i g cs g' H; cbn [ifBranchesLoop] in H.
  - injection H as _ <-; apply balanced_refl.
  - apply bindG_ok in H as [next [g1 [E H]]]; apply lift_ok in E as [_ ->].
    apply bindG_ok in H as [test [g1 [E H]]].
    apply createStmtSourceNode_state in E; subst g1.
    apply bindG_ok in H as [u [g1 [E H]]]; injection E as _ <-.
    apply bindG_ok in H as [body [g2 [E H]]].
    apply visitStmtsRec_balanced in E; destruct E as [L [I N]].
    cbn [openForStmtStates openLoopStmtStates indent nextGeneratedLabelIdx]
      in L, I, N.
    apply bindG_ok in H as [skip [g3 [E H]]].
    assert (g3 = g2) as ->.
    { destruct (_ <? _)%nat.
      - apply bindG_ok in E as [s [g4 [E R]]].
        apply createStmtSourceNode_state in E; subst g4.
        now injection R as _ <-.
      - now injection E as _ <-. }
    apply bindG_ok in H as [u' [g3 [E' H]]]; injection E' as _ <-.
    apply bindG_ok in H as [label [g3 [E' H]]].
    apply generateLabelStmt_state in E'; subst g3.
    apply bindG_ok in H as [rest [g3 [E' H]]].
    apply IH in E'; injection H as _ <-.
    refine (balanced_trans _ _ _ _ E').
    unfold balanced;
      cbn [openForStmtStates openLoopStmtStates indent nextGeneratedLabelIdx].
    repeat split; [exact L | lia | exact N].
Qed.

Lemma visitIfStmt_state (ifBranches : list (Expr * list Stmt))
  (elseBranch : list Stmt) (loc : Loc) (g : Generator) (c : Chunk)
  (g' : Generator) :
  visitIfStmt sourceFileName indentWidth GOTO acceptFnCall
      visitStmtsRec ifBranches
    elseBranch loc g = Ok (c, g') ->
  balanced g g'.
Proof.
  unfold visitIfStmt; intros H.
  apply bindG_ok in H as [prefix [g1 [E H]]]; injection E as _ <-.
  apply bindG_ok in H as [chunks [g1 [E H]]].
  apply ifBranchesLoop_state in E.
  apply bindG_ok in H as [elseChunks [g2 [E' H]]].
  injection H as _ <-.
  assert (B : balanced g1 g2).
  { destruct elseBranch as [|s elseBranch].
    - injection E' as _ <-; apply balanced_refl.
    - apply bindG_ok in E' as [u [g3 [E1 H]]]; injection E1 as _ <-.
      apply bindG_ok in H as [body [g3 [E1 H]]].
      apply visitStmtsRec_balanced in E1; destruct E1 as [L [I N]].
      cbn [openForStmtStates openLoopStmtStates indent nextGeneratedLabelIdx]
        in L, I, N.
      apply bindG_ok in H as [u' [g4 [E1 H]]]; injection E1 as _ <-.
      apply bindG_ok in H as [label [g4 [E1 H]]].
      apply generateLabelStmt_state in E1; subst g4.
      injection H as _ <-.
      unfold balanced;
        cbn [openForStmtStates openLoopStmtStates indent
             nextGeneratedLabelIdx].
      repeat split; [exact L | lia | exact N]. }
  refine (balanced_trans _ _ _ _ (balanced_trans _ _ _ E B)).
  unfold balanced;
    cbn [openForStmtStates openLoopStmtStates indent nextGeneratedLabelIdx].
  repeat split; lia.
Qed.

Lemma visitCondLoopStmt_state (node : Stmt) (structure : CondLoopStructure)
  (isCondNegated : bool) (condExpr : Expr) (stmts : list Stmt) (loc : Loc)
  (g : Generator) (c : Chunk) (g' : Generator) :
  visitCondLoopStmt sourceFileName indentWidth GOTO acceptFnCall
      visitStmtsRec node
    structure isCondNegated condExpr stmts loc g = Ok (c, g') ->
  balanced g g'.
Proof.
  unfold visitCondLoopStmt; intros H.
  apply bindG_ok in H as [prefix [g1 [E H]]]; injection E as _ <-.
  apply bindG_ok in H as [ce [g1 [E H]]]; apply lift_ok in E as [_ ->].
  apply bindG_ok in H as [condStmt [g1 [E H]]].
  apply createStmtSourceNode_state in E; subst g1.
  apply bindG_ok in H as [u [g1 [E H]]]; injection E as _ <-.
  apply bindG_ok in H as [g0 [g1 [E H]]]; injection E as <- <-.
  apply bindG_ok in H as [u1 [g1 [E H]]]; injection E as _ <-.
  apply bindG_ok in H as [body [g2 [E H]]].
  apply visitStmtsRec_balanced in E; destruct E as [L [I N]].
  cbn [openForStmtStates openLoopStmtStates indent nextGeneratedLabelIdx]
    in L, I, N.
  apply bindG_ok in H as [g0 [g1 [E H]]]; injection E as <- <-.
  apply bindG_ok in H as [u2 [g1 [E H]]]; injection E as _ <-.
  apply bindG_ok in H as [u3 [g1 [E H]]]; injection E as _ <-.
  apply bindG_ok in H as [l1 [g1 [E H]]].
  apply generateLabelStmt_state in E; subst g1.
  apply bindG_ok in H as [again [g1 [E H]]].
  apply createStmtSourceNode_state in E; subst g1.
  apply bindG_ok in H as [l2 [g1 [E H]]].
  apply generateLabelStmt_state in E; subst g1.
  gen_done H.
  rewrite L, removelast_last.
  repeat split; lia.
Qed.

Lemma visitUncondLoopStmt_state (node : Stmt) (stmts : list Stmt) (loc : Loc)
  (g : Generator) (c : Chunk) (g' : Generator) :
  visitUncondLoopStmt sourceFileName indentWidth GOTO visitStmtsRec node
    stmts loc g = Ok (c, g') ->
  balanced g g'.
Proof.
  unfold visitUncondLoopStmt; intros H.
  apply bindG_ok in H as [prefix [g1 [E H]]]; injection E as _ <-.
  apply bindG_ok in H as [l1 [g1 [E H]]].
  apply generateLabelStmt_state in E; subst g1.
  apply bindG_ok in H as [u [g1 [E H]]]; injection E as _ <-.
  apply bindG_ok in H as [g0 [g1 [E H]]]; injection E as <- <-.
  apply bindG_ok in H as [u1 [g1 [E H]]]; injection E as _ <-.
  apply bindG_ok in H as [body [g2 [E H]]].
  apply visitStmtsRec_balanced in E; destruct E as [L [I N]].
  cbn [openForStmtStates openLoopStmtStates indent nextGeneratedLabelIdx]
    in L, I, N.
  apply bindG_ok in H as [g0 [g1 [E H]]]; injection E as <- <-.
  apply bindG_ok in H as [u2 [g1 [E H]]]; injection E as _ <-.
  apply bindG_ok in H as [u3 [g1 [E H]]]; injection E as _ <-.
  apply bindG_ok in H as [again [g1 [E H]]].
  apply createStmtSourceNode_state in E; subst g1.
  apply bindG_ok in H as [l2 [g1 [E H]]].
  apply generateLabelStmt_state in E; subst g1.
  gen_done H.
  rewrite L, removelast_last.
  repeat split; lia.
Qed.

Lemma acceptStmt_state (node : Stmt) (g : Generator) (c : Chunk)
  (g' : Generator) :
  acceptStmt sourceFileName indentWidth GOTO GOSUB RETURN END VALUE
    jsonOfString jsonOfTypeSpec acceptFnCall visitStmtsRec node g = Ok (c, g') ->
  balanced g g'.
Proof.
  destruct node; cbn [acceptStmt]; intros H;
    try (apply createStmtSourceNode_state in H; subst g';
         apply balanced_refl).
  - unfold visitLabelStmt in H.
    apply bindG_ok in H as [s [g1 [E H]]].
    apply generateLabelStmt_state in E; subst g1.
    injection H as _ <-; apply balanced_refl.
  - exact (visitIfStmt_state _ _ _ _ _ _ H).
  - exact (visitCondLoopStmt_state _ _ _ _ _ _ _ _ _ H).
  - exact (visitUncondLoopStmt_state _ _ _ _ _ _ H).
  - apply visitExitLoopStmt_state in H; subst g'; apply balanced_refl.
  - apply visitForStmt_state in H as [frame ->].
    unfold balanced;
      cbn [openForStmtStates openLoopStmtStates indent nextGeneratedLabelIdx].
    rewrite length_app; cbn [List.length]; repeat split; lia.
  - exact (proj1 (visitNextStmt_state _ _ _ _ _ H)).
  - apply visitExitForStmt_state in H; subst g'; apply balanced_refl.
Qed.

Lemma acceptAll_state (stmts : list Stmt) :
  forall g cs g',
    acceptAll sourceFileName indentWidth GOTO GOSUB RETURN END VALUE
      jsonOfString jsonOfTypeSpec acceptFnCall visitStmtsRec stmts g = Ok (cs, g') ->
    balanced g g'.
Proof.
  unfold acceptAll; induction stmts as [|s stmts IH]; intros g cs g' H;
    cbn [mapG] in H.
  - injection H as _ <-; apply balanced_refl.
  - apply bindG_ok in H as [y [g1 [E H]]]; apply acceptStmt_state in E.
    apply bindG_ok in H as [ys [g2 [E' H]]]; apply IH in E'.
    injection H as _ <-; exact (balanced_trans _ _ _ E E').
Qed.

Lemma visitStmtsBody_state (stmts : list Stmt) (g : Generator)
  (cs : list Chunk) (g' : Generator) :
  visitStmtsBody sourceFileName indentWidth GOTO GOSUB RETURN END VALUE
    jsonOfString jsonOfTypeSpec acceptFnCall visitStmtsRec stmts g = Ok (cs, g') ->
  balanced g g'
  /\ List.length (openForStmtStates g') <= List.length (openForStmtStates g).
Proof.
  unfold visitStmtsBody; intros H.
  apply bindG_ok in H as [g0 [g1 [E H]]]; injection E as <- <-.
  apply bindG_ok in H as [nodes [g1 [E H]]]; apply acceptAll_state in E.
  apply bindG_ok in H as [g0 [g2 [E' H]]]; injection E' as <- <-.
  destruct (_ <? _)%nat eqn:L.
  - apply bindG_ok in H as [st [g2 [E' H]]].
    apply lift_ok in H as [H _]; discriminate H.
  - injection H as _ <-; apply Nat.ltb_ge in L; auto.
Qed.

End NestedInvariants.

(** X21: a visit of a list of statements that succeeds leaves the stack of
    open DO loops as it found it, leaves no more FOR loops open than were
    open before (not always the same ones: a NEXT in the list may close a
    loop that was open and a later FOR open another), has moved the
    indentation by exactly the change in the number of open FOR loops, and
    has not taken back a label index. So statements compiled with no FOR
    loop open leave none open and end at the indentation they started
    at. *)
Theorem visitStmts_balanced (fuel : nat) (stmts : list Stmt) (g : Generator)
  (cs : list Chunk) (g' : Generator) :
  visitStmts' fuel stmts g = Ok (cs, g') ->
  balanced g g'
  /\ List.length (openForStmtStates g') <= List.length (openForStmtStates g)
  /\ (openForStmtStates g = [] ->
      openForStmtStates g' = [] /\ indent g' = indent g).
Proof.
  assert (B : forall fuel stmts g cs g',
             visitStmts' fuel stmts g = Ok (cs, g') ->
             balanced g g'
             /\ List.length (openForStmtStates g')
                <= List.length (openForStmtStates g)).
  { clear; intros fuel; induction fuel as [|fuel IH]; intros stmts g cs g' H;
      cbn [visitStmts] in H.
    - apply lift_ok in H as [H _]; discriminate H.
    - apply visitStmtsBody_state in H; [exact H|].
      intros stmts0 g0 cs0 g0' H0; exact (proj1 (IH _ _ _ _ H0)). }
  intros H; destruct (B _ _ _ _ _ H) as [[L [I N]] F].
  split; [repeat split; assumption|]; split; [exact F|].
  intros O; rewrite O in F, I; cbn [List.length] in F, I.
  destruct (openForStmtStates g'); [|cbn in F; lia].
  cbn [List.length] in I; split; [reflexivity | lia].
Qed.

End CodegenInvariants.

Lemma visitStmts_balanced_witness :
  exists cs,
    Sample.visitStmts 3 Sample.forIfNext Sample.atStart
    = Ok (cs, CodeGenerator.mkGenerator [] [] 2 4)
    /\ CodeGenerator.balanced Sample.atStart
         (CodeGenerator.mkGenerator [] [] 2 4).
Proof.
  eexists; split; [vm_compute; reflexivity|].
  eapply (fun cs H =>
            proj1 (visitStmts_balanced "test.bas" 4 "goto" "gosub" "return"
                     "end" "value" (fun s => s) (fun _ => "null")
                     Sample.acceptFnCall 3
                     Sample.forIfNext Sample.atStart cs
                     (CodeGenerator.mkGenerator [] [] 2 4) H)).
  vm_compute; reflexivity.
Defined.

(** ** The code generator: the code of an expression *)

Section ExpressionCode.

Import Ast CodeGenerator.

Variable sourceFileName : string.
Variable acceptFnCall : Expr -> Result Chunk.

(** X22: which expressions the generator compiles, and to what. Of the
    expressions this class visits (literals, variables, binary operations,
    NEG and NOT), one whose literals are all strings or numbers compiles, to
    the text [jsText] gives: a string between single quotes, a variable as
    an entry of [ctx.localVars], every operation in parentheses of its own,
    the power as [Math.pow] and the integer division as [Math.floor] of a
    quotient. One that holds another literal makes the generator throw the
    error for an unrecognized literal, with the JSON text and at the
    location of the first such literal in the order of the visit. *)
Theorem acceptExpr_compiles (e : Expr) :
  visited e = true ->
  match firstUnrecognized e with
  | None =>
      exists c,
        acceptExpr sourceFileName acceptFnCall e = Ok c
        /\ toString c = jsText e
  | Some (json, loc) =>
      acceptExpr sourceFileName acceptFnCall e
      = Throw (CodegenError ("Unrecognized literal value: " +++ json) loc)
  end.
Proof.
  induction e as [value t loc|name t vt vs loc|name args t loc
                 |op l IHl r IHr t loc|op r IHr t loc];
    cbn [visited firstUnrecognized acceptExpr].
  - intros _; destruct value as [s|rendered|ty json].
    + eexists; split; [reflexivity|].
      rewrite toString_createSourceNode; cbn [concatText fold_right toString].
      now rewrite append_nil_r.
    + eexists; split; [reflexivity|].
      rewrite toString_createSourceNode; cbn [concatText fold_right toString].
      now rewrite append_nil_r.
    + reflexivity.
  - intros _; eexists; split; [reflexivity|].
    rewrite toString_createSourceNode; cbn [concatText fold_right toString].
    now rewrite append_nil_r.
  - discriminate.
  - intros V; apply andb_prop in V as [Vl Vr].
    specialize (IHl Vl); specialize (IHr Vr).
    destruct (firstUnrecognized l) as [[json loc']|].
    + rewrite IHl; reflexivity.
    + destruct IHl as [cl [El Tl]]; rewrite El; cbn [bind].
      destruct (firstUnrecognized r) as [[json loc']|].
      * rewrite IHr; reflexivity.
      * destruct IHr as [cr [Er Tr]]; rewrite Er; cbn [bind].
        destruct op; eexists; (split; [reflexivity|]);
          rewrite toString_createSourceNode;
          cbn [concatText fold_right toString jsText binaryOpMap];
          rewrite Tl, Tr, append_nil_r, ?append_assoc; reflexivity.
  - destruct op; try discriminate; intros V; specialize (IHr V);
      cbn [unaryOpMap];
      (destruct (firstUnrecognized r) as [[json loc']|];
       [rewrite IHr; reflexivity|]);
      destruct IHr as [cr [Er Tr]]; rewrite Er; cbn [bind];
      (eexists; split; [reflexivity|]);
      rewrite toString_createSourceNode;
      cbn [concatText fold_right toString jsText];
      now rewrite Tr, append_nil_r.
Qed.

End ExpressionCode.

Lemma acceptExpr_compiles_witness :
  exists c,
    CodeGenerator.acceptExpr "test.bas" Sample.acceptFnCall
      (Ast.BinaryOpExpr Ast.EXP (Sample.varRef "x" 1)
         (Ast.UnaryOpExpr Ast.NEG
            (Ast.LiteralExpr (Ast.LitNumber "2") None (mkLoc 1 6)) None
            (mkLoc 1 5))
         None (mkLoc 1 3))
    = Ok c
    /\ CodeGenerator.toString c = "Math.pow(ctx.localVars['x'], (-2))".
Proof.
  exact (acceptExpr_compiles "test.bas" Sample.acceptFnCall
           (Ast.BinaryOpExpr Ast.EXP (Sample.varRef "x" 1)
              (Ast.UnaryOpExpr Ast.NEG
                 (Ast.LiteralExpr (Ast.LitNumber "2") None (mkLoc 1 6)) None
                 (mkLoc 1 5))
              None (mkLoc 1 3))
           eq_refl).
Defined.

(** ** The code generator: the counter a NEXT names *)

Section NextCounterNames.

Import Ast CodeGenerator.

Variable sourceFileName : string.
Variable indentWidth : nat.
Variable GOTO : string.
Variable acceptFnCall : Expr -> Result Chunk.

Lemma append_cancel_r (t a b : string) : a +++ t = b +++ t -> a = b.
Proof.
  revert b; induction a as [|c a IH]; intros [|d b] H.
  - reflexivity.
  - apply (f_equal String.length) in H; cbn in H.
    rewrite length_append in H; lia.
  - apply (f_equal String.length) in H; cbn in H.
    rewrite length_append in H; lia.
  - cbn in H; injection H as -> H; f_equal; now apply IH.
Qed.

Lemma varRef_text (name : string) (t : option DataTypeSpec)
  (vt : option SymbolTable.VarType) (vs : option SymbolTable.VarScope)
  (loc : Loc) :
  exists c,
    acceptExpr sourceFileName acceptFnCall (VarRefExpr name t vt vs loc) = Ok c
    /\ toString c = "ctx.localVars['" +++ name +++ "']".
Proof.
  eexists; split; [reflexivity|].
  rewrite toString_createSourceNode; cbn [concatText fold_right toString].
  now rewrite append_nil_r.
Qed.

Lemma varRef_text_inj (name1 name2 : string) :
  "ctx.localVars['" +++ name1 +++ "']" = "ctx.localVars['" +++ name2 +++ "']"
  -> name1 = name2.
Proof.
  intros H; cbn [String.append] in H.
  repeat (injection H as H).
  exact (append_cancel_r _ _ _ H).
Qed.

(** X23: a NEXT names its counter as the FOR did, letter for letter. When
    the counter of the innermost open FOR is a variable, a variable named
    by NEXT matches it exactly when the two names are the same string,
    whatever the types and locations of the two references; with any other
    name, also one that differs in letter case only, the NEXT is refused
    with the error for counter 1. *)
Theorem visitNextStmt_counter_names (name1 name2 : string)
  (t1 t2 : option DataTypeSpec) (vt1 vt2 : option SymbolTable.VarType)
  (vs1 vs2 : option SymbolTable.VarScope) (loc1 loc2 loc : Loc)
  (g : Generator) (kept : list ForStmtState) (st : ForStmtState) :
  openForStmtStates g = kept ++ [st] ->
  counterExpr (forStmt st) = VarRefExpr name2 t2 vt2 vs2 loc2 ->
  (counterMatches sourceFileName acceptFnCall
     (VarRefExpr name1 t1 vt1 vs1 loc1) st
   <-> name1 = name2)
  /\ (name1 <> name2 ->
      visitNextStmt sourceFileName indentWidth GOTO acceptFnCall
        [VarRefExpr name1 t1 vt1 vs1 loc1] loc g
      = Throw (CodegenError
                 "Counter #1 does not match corresponding FOR statement"
                 loc)).
Proof.
  intros O C.
  destruct (varRef_text name1 t1 vt1 vs1 loc1) as [c1 [E1 T1]].
  destruct (varRef_text name2 t2 vt2 vs2 loc2) as [c2 [E2 T2]].
  split; [split|].
  - intros [c [f [Ec [Ef T]]]]; rewrite C in Ef.
    rewrite E1 in Ec; rewrite E2 in Ef.
    injection Ec as <-; injection Ef as <-.
    rewrite T1, T2 in T; exact (varRef_text_inj _ _ T).
  - intros <-; exists c1, c2; rewrite C.
    split; [exact E1|]; split; [exact E2|]; now rewrite T1, T2.
  - intros N.
    rewrite visitNextStmt_unfold, O, length_app.
    cbn [List.length numForStmtStatesToClose].
    replace (List.length kept + 1 <? 1)%nat with false
      by (symmetry; apply Nat.ltb_ge; lia).
    rewrite (verifyCounters_differs sourceFileName acceptFnCall loc (kept ++ [st]) [] []
               (VarRefExpr name1 t1 vt1 vs1 loc1) [] st);
      [reflexivity | constructor | intros [|j] st' Hj; discriminate Hj | |].
    + now rewrite rev_app_distr.
    + exists c1, c2; rewrite C.
      split; [exact E1|]; split; [exact E2|].
      rewrite T1, T2; intros T; exact (N (varRef_text_inj _ _ T)).
Qed.

End NextCounterNames.

Lemma visitNextStmt_counter_names_witness :
  CodeGenerator.visitNextStmt "test.bas" 4 "goto" Sample.acceptFnCall
    [Sample.varRef "I" 33] (mkLoc 1 28) Sample.insideForI
  = Throw (CodegenError
             "Counter #1 does not match corresponding FOR statement"
             (mkLoc 1 28)).
Proof.
  apply (proj2 (visitNextStmt_counter_names "test.bas" 4 "goto"
                  Sample.acceptFnCall "I" "i"
                  None None None None None None (mkLoc 1 33) (mkLoc 1 5)
                  (mkLoc 1 28) Sample.insideForI [] Sample.frameI
                  eq_refl eq_refl)).
  discriminate.
Defined.

(** ** The code generator: leaving a loop *)

Section ExitStatements.

Import Ast CodeGenerator.

Variable sourceFileName : string.
Variable indentWidth : nat.
Variable GOTO : string.

Lemma length_snoc {A : Type} (l : list A) (x : A) :
  List.length (l ++ [x]) = S (List.length l).
Proof. rewrite length_app; cbn; lia. Qed.

Lemma nth_error_snoc {A : Type} (l : list A) (x : A) :
  nth_error (l ++ [x]) (List.length l) = Some x.
Proof. rewrite nth_error_app2 by lia; now rewrite Nat.sub_diag. Qed.

(** X24: EXIT FOR and EXIT DO. Outside any loop of its kind the statement
    is refused, whatever loops of the other kind are open. Inside, it
    compiles to one statement object whose code is the goto to the end
    label of the innermost open loop of its kind, and the generator is left
    as it was: no loop is closed by it. *)
Theorem visitExit_targets_innermost (loc : Loc) (g : Generator) :
  (0 <= indent g)%Z ->
  (openForStmtStates g = [] ->
   visitExitForStmt sourceFileName indentWidth GOTO loc g
   = Throw (CodegenError "EXIT FOR statement outside FOR loop" loc))
  /\ (forall kept st,
        openForStmtStates g = kept ++ [st] ->
        exists node,
          visitExitForStmt sourceFileName indentWidth GOTO loc g
          = Ok (node, g)
          /\ toString node
             = stmtObjectText indentWidth (indent g) loc
                 (generateGotoCode GOTO (endLabel st)))
  /\ (openLoopStmtStates g = [] ->
      visitExitLoopStmt sourceFileName indentWidth GOTO loc g
      = Throw (CodegenError "EXIT DO statement outside DO loop" loc))
  /\ (forall kept st,
        openLoopStmtStates g = kept ++ [st] ->
        exists node,
          visitExitLoopStmt sourceFileName indentWidth GOTO loc g
          = Ok (node, g)
          /\ toString node
             = stmtObjectText indentWidth (indent g) loc
                 (generateGotoCode GOTO (loopEndLabel st))).
Proof.
  intros I; split; [|split; [|split]].
  - intros O; unfold visitExitForStmt, bindG, getG; now rewrite O.
  - intros kept st O; unfold visitExitForStmt, bindG, getG.
    rewrite O, length_snoc, nth_error_snoc.
    cbn [SemanticAnalyzer.nonNull bind].
    destruct (createStmtSourceNode_runs sourceFileName indentWidth loc
                [Text (generateGotoCode GOTO (endLabel st))] g I)
      as [node [E T]].
    exists node; split; [exact E|].
    rewrite T; cbn [concatText fold_right toString].
    now rewrite append_nil_r.
  - intros O; unfold visitExitLoopStmt, bindG, getG; now rewrite O.
  - intros kept st O; unfold visitExitLoopStmt, bindG, getG.
    rewrite O, length_snoc, nth_error_snoc.
    cbn [SemanticAnalyzer.nonNull bind].
    destruct (createStmtSourceNode_runs sourceFileName indentWidth loc
                [Text (generateGotoCode GOTO (loopEndLabel st))] g I)
      as [node [E T]].
    exists node; split; [exact E|].
    rewrite T; cbn [concatText fold_right toString].
    now rewrite append_nil_r.
Qed.

End ExitStatements.

Lemma visitExit_targets_innermost_witness :
  (exists node,
      CodeGenerator.visitExitForStmt "test.bas" 4 "goto" (mkLoc 2 1)
        Sample.insideForI
      = Ok (node, Sample.insideForI)
      /\ CodeGenerator.toString node
         = CodeGenerator.stmtObjectText 4 3 (mkLoc 2 1)
             (CodeGenerator.generateGotoCode "goto" "$1_loopEnd"))
  /\ CodeGenerator.visitExitLoopStmt "test.bas" 4 "goto" (mkLoc 2 1)
       Sample.insideForI
     = Throw (CodegenError "EXIT DO statement outside DO loop" (mkLoc 2 1)).
Proof.
  assert (I : (0 <= CodeGenerator.indent Sample.insideForI)%Z)
    by (cbn; lia).
  destruct (visitExit_targets_innermost "test.bas" 4 "goto" (mkLoc 2 1)
              Sample.insideForI I) as [_ [F [D _]]].
  split; [exact (F [] Sample.frameI eq_refl) | exact (D eq_refl)].
Defined.

(** ** The runtime: the string built-ins *)

Section StringBuiltins.

Import Runtime.

Lemma substring_empty (n m : nat) : String.substring n m "" = "".
Proof. destruct n, m; reflexivity. Qed.

(** A substring is a slice: what stands before it has the length of the
    start, clipped to the string, and its own length is clipped likewise. *)
Lemma substring_slices (s : string) :
  forall n m,
    exists a b,
      s = a +++ String.substring n m s +++ b
      /\ String.length a = Nat.min n (String.length s)
      /\ String.length (String.substring n m s)
         = Nat.min m (String.length s - n).
Proof.
  induction s as [|c s IH]; intros n m.
  - rewrite substring_empty; exists "", ""; repeat split.
    + now rewrite Nat.min_0_r.
    + now rewrite Nat.min_0_r.
  - destruct n as [|n].
    + destruct m as [|m].
      * exists "", (String c s); repeat split.
      * destruct (IH 0 m) as [a [b [E [La Ls]]]].
        destruct a; [|discriminate La].
        exists "", b; cbn [String.substring String.append String.length].
        cbn [String.append] in E; rewrite <- E.
        rewrite Nat.sub_0_r in Ls; rewrite Ls.
        repeat split; lia.
    + destruct (IH n m) as [a [b [E [La Ls]]]].
      exists (String c a), b;
        cbn [String.substring String.append String.length].
      rewrite <- E, La, Ls; repeat split; lia.
Qed.

Lemma substring_take_drop (s : string) :
  forall n,
    n <= String.length s ->
    String.substring 0 n s +++ String.substring n (String.length s - n) s = s.
Proof.
  induction s as [|c s IH]; intros n L.
  - now rewrite !substring_empty.
  - destruct n as [|n]; cbn [String.length] in *.
    + cbn [String.substring String.append Nat.sub]; f_equal.
      specialize (IH 0 (Nat.le_0_l _)).
      rewrite Nat.sub_0_r in IH.
      destruct (String.length s) eqn:E0.
      * destruct s; [reflexivity | discriminate E0].
      * destruct s as [|d s]; [discriminate E0|].
        cbn [String.substring String.append] in IH |- *; exact IH.
    + cbn [String.substring String.append Nat.sub]; f_equal.
      apply IH; lia.
Qed.

Lemma substring_middle (a m b : string) :
  String.substring (String.length a) (String.length m) (a +++ m +++ b) = m.
Proof.
  induction a as [|c a IH]; cbn [String.length String.append].
  - apply substring_prefix.
  - exact IH.
Qed.

Lemma prefix_append (s1 s2 : string) :
  String.prefix s1 s2 = true <-> exists b, s2 = s1 +++ b.
Proof.
  revert s2; induction s1 as [|c s1 IH]; intros s2.
  - split; [intros _; now exists s2 | now destruct s2].
  - destruct s2 as [|d s2]; cbn [String.prefix].
    + split; [discriminate | intros [b E]; discriminate E].
    + destruct (Ascii.ascii_dec c d) as [->|N].
      * rewrite IH; split; intros [b E]; exists b.
        -- now rewrite E.
        -- now injection E.
      * split; [discriminate|].
        intros [b E]; injection E as E _; now destruct N.
Qed.

(** What [index] finds is the first place at or after the start. *)
Lemma index_some (s1 s2 : string) :
  forall n m,
    String.index n s1 s2 = Some m ->
    n <= m
    /\ (exists a b, s2 = a +++ s1 +++ b /\ String.length a = m)
    /\ (forall a b, s2 = a +++ s1 +++ b -> n <= String.length a ->
                    m <= String.length a).
Proof.
  induction s2 as [|c s2 IH]; intros n m H.
  - destruct n; [|discriminate H].
    destruct s1; [|discriminate H].
    injection H as <-; split; [lia|]; split; [now exists "", ""|].
    intros; lia.
  - cbn [String.index] in H; destruct n as [|n].
    + destruct (String.prefix s1 (String c s2)) eqn:P.
      * injection H as <-; split; [lia|]; split; [|intros; lia].
        apply prefix_append in P as [b E]; now exists "", b.
      * destruct (String.index 0 s1 s2) as [k|] eqn:K; [|discriminate H].
        injection H as <-.
        destruct (IH _ _ K) as [_ [[a [b [E La]]] Min]].
        split; [lia|]; split.
        -- exists (String c a), b; cbn; now rewrite <- E, La.
        -- intros a' b' E' _; destruct a' as [|d a'].
           ++ assert (T : String.prefix s1 (String c s2) = true)
                by (apply prefix_append; now exists b').
              rewrite T in P; discriminate P.
           ++ injection E' as _ E'; cbn [String.length].
              apply le_n_S, (Min a' b' E'); lia.
    + destruct (String.index n s1 s2) as [k|] eqn:K; [|discriminate H].
      injection H as <-.
      destruct (IH _ _ K) as [L [[a [b [E La]]] Min]].
      split; [lia|]; split.
      * exists (String c a), b; cbn; now rewrite <- E, La.
      * intros a' b' E' L'; destruct a' as [|d a']; [cbn in L'; lia|].
        injection E' as _ E'; cbn [String.length] in *.
        apply le_n_S, (Min a' b' E'); lia.
Qed.

Lemma index_none (s1 s2 : string) :
  forall n,
    String.index n s1 s2 = None ->
    forall a b, s2 = a +++ s1 +++ b -> String.length a < n.
Proof.
  induction s2 as [|c s2 IH]; intros n H a b E.
  - destruct a; [|discriminate E]; destruct s1; [|discriminate E].
    destruct n; [discriminate H | cbn; lia].
  - cbn [String.index] in H; destruct n as [|n].
    + destruct (String.prefix s1 (String c s2)) eqn:P; [discriminate H|].
      destruct (String.index 0 s1 s2) as [k|] eqn:K; [discriminate H|].
      destruct a as [|d a].
      * assert (T : String.prefix s1 (String c s2) = true)
          by (apply prefix_append; now exists b).
        rewrite T in P; discriminate P.
      * injection E as _ E; pose proof (IH 0 K a b E); lia.
    + destruct (String.index n s1 s2) as [k|] eqn:K; [discriminate H|].
      destruct a as [|d a]; [cbn; lia|].
      injection E as _ E; pose proof (IH n K a b E); cbn; lia.
Qed.

Lemma substr_from (s : string) (start : Z) :
  (0 <= start)%Z ->
  substr s start None
  = String.substring (Nat.min (Z.to_nat start) (String.length s))
      (String.length s - Nat.min (Z.to_nat start) (String.length s)) s.
Proof.
  intros R; unfold substr.
  replace (start <? 0)%Z with false by (symmetry; apply Z.ltb_ge; lia).
  f_equal; lia.
Qed.

Lemma substr_take (s : string) (start length : Z) :
  (0 <= start <= Z.of_nat (String.length s))%Z ->
  substr s start (Some length)
  = String.substring (Z.to_nat start)
      (Nat.min (Z.to_nat length) (String.length s - Z.to_nat start)) s.
Proof.
  intros R; unfold substr.
  replace (start <? 0)%Z with false by (symmetry; apply Z.ltb_ge; lia).
  rewrite (Z.min_l start) by lia.
  f_equal; lia.
Qed.

(** X25: LEFT$ and RIGHT$ cut a string in two. For every string and every
    integer n, LEFT$(s, n) followed by RIGHT$(s, LEN(s) - n) is s; each of
    LEFT$(s, n) and RIGHT$(s, n) has n characters, or none when n is
    negative, or all of s when n exceeds its length; and MID$ from position
    1 is LEFT$. *)
Theorem left_right_split (s : string) (n : Z) :
  leftRun s n +++ rightRun s (lenRun s - n) = s
  /\ lenRun (leftRun s n) = Z.min (Z.max n 0) (lenRun s)
  /\ lenRun (rightRun s n) = Z.min (Z.max n 0) (lenRun s)
  /\ midRun s 1 n = leftRun s n.
Proof.
  unfold leftRun, rightRun, midRun, lenRun.
  split; [|split; [|split; [|reflexivity]]].
  - rewrite substr_take, substr_from by lia.
    change (Z.to_nat 0) with 0; rewrite Nat.sub_0_r.
    replace (Z.to_nat
               (Z.max 0
                  (Z.of_nat (String.length s)
                   - (Z.of_nat (String.length s) - n))))
      with (Z.to_nat n) by lia.
    apply substring_take_drop; lia.
  - rewrite substr_take by lia.
    destruct (substring_slices s (Z.to_nat 0)
                (Nat.min (Z.to_nat n) (String.length s - Z.to_nat 0)))
      as [a [b [_ [_ L]]]].
    rewrite L; lia.
  - rewrite substr_from by lia.
    match goal with
    | |- context [String.substring ?i ?m s] =>
        destruct (substring_slices s i m) as [a [b [_ [_ L]]]]
    end.
    rewrite L; lia.
Qed.

(** X26: MID$ takes a slice. From a start position of 1 or more, MID$(s,
    start, length) is the part of s that follows its first start - 1
    characters (all of them when s is shorter), length characters long, or
    as many as are left, or none for a negative length. A start position
    of 0 or less counts back from the end of s: 0 stands for the position
    of the last character, -1 for the one before it, and so on, but never
    for less than position 1. *)
Theorem mid_slices (s : string) (start length : Z) :
  (exists before after,
      s = before +++ midRun s (Z.max start 1) length +++ after
      /\ lenRun before = Z.min (Z.max start 1 - 1) (lenRun s)
      /\ lenRun (midRun s (Z.max start 1) length)
         = Z.min (Z.max length 0) (lenRun s - lenRun before))
  /\ ((start <= 0)%Z ->
      midRun s start length = midRun s (Z.max (lenRun s + start) 1) length).
Proof.
  unfold midRun, lenRun; split.
  - unfold substr.
    replace (Z.max start 1 - 1 <? 0)%Z with false
      by (symmetry; apply Z.ltb_ge; lia).
    match goal with
    | |- context [String.substring ?n ?m s] =>
        destruct (substring_slices s n m) as [a [b [E [La Ls]]]];
        exists a, b; split; [exact E|]; rewrite La, Ls
    end.
    split; lia.
  - intros N; unfold substr.
    replace (start - 1 <? 0)%Z with true by (symmetry; apply Z.ltb_lt; lia).
    replace (Z.max (Z.of_nat (String.length s) + start) 1 - 1 <? 0)%Z
      with false by (symmetry; apply Z.ltb_ge; lia).
    f_equal; lia.
Qed.

Lemma occursAt_length (needle haystack : string) (pos : Z) :
  occursAt needle haystack pos ->
  (1 <= pos /\ pos - 1 + lenRun needle <= lenRun haystack)%Z.
Proof.
  intros [a [b [E L]]]; unfold lenRun; subst haystack.
  rewrite !length_append; lia.
Qed.

(** X27: INSTR gives the first place of the needle. INSTR(start, haystack,
    needle) searches from the start position, taken as 1 when it is less
    and as one past the end of the haystack when it is more: the result is
    0 exactly when the needle stands at no position from there on, and
    otherwise it is the least such position, counted from 1, at which MID$
    of the needle's length gives back the needle. INSTR without a start
    position searches from position 1. *)
Theorem instr_first_occurrence (start : Z) (haystack needle : string) :
  (instrFromRun start haystack needle = 0%Z
   /\ (forall pos, occursAt needle haystack pos ->
                   (pos < Z.min (Z.max start 1) (lenRun haystack + 1))%Z)
   \/ (Z.min (Z.max start 1) (lenRun haystack + 1)
       <= instrFromRun start haystack needle)%Z
      /\ occursAt needle haystack (instrFromRun start haystack needle)
      /\ midRun haystack (instrFromRun start haystack needle)
           (lenRun needle) = needle
      /\ (forall pos,
             occursAt needle haystack pos ->
             (Z.min (Z.max start 1) (lenRun haystack + 1) <= pos)%Z ->
             (instrFromRun start haystack needle <= pos)%Z))
  /\ instrRun haystack needle = instrFromRun 1 haystack needle.
Proof.
  split; [|reflexivity].
  unfold instrFromRun, indexOf, lenRun.
  set (from := Z.to_nat
                 (Z.min (Z.max (start - 1) 0)
                    (Z.of_nat (String.length haystack)))).
  assert (F : (Z.min (Z.max start 1) (Z.of_nat (String.length haystack) + 1)
               = Z.of_nat from + 1)%Z) by (unfold from; lia).
  rewrite F.
  destruct (String.index from needle haystack) as [k|] eqn:K.
  - right; destruct (index_some _ _ _ _ K) as [L [[a [b [E La]]] Min]].
    split; [lia|]; split; [|split].
    + exists a, b; split; [exact E | lia].
    + unfold midRun.
      assert (R : String.length a + String.length needle
                  <= String.length haystack)
        by (rewrite E, !length_append; lia).
      rewrite substr_take by lia.
      replace (Z.to_nat (Z.of_nat k + 1 - 1)) with (String.length a) by lia.
      replace (Nat.min (Z.to_nat (Z.of_nat (String.length needle)))
                 (String.length haystack - String.length a))
        with (String.length needle) by lia.
      rewrite E; apply substring_middle.
    + intros pos [a' [b' [E' L']]] P.
      assert (k <= String.length a') by (apply (Min a' b' E'); lia).
      lia.
  - left; split; [reflexivity|].
    intros pos [a' [b' [E' L']]].
    pose proof (index_none _ _ _ K a' b' E'); lia.
Qed.

End StringBuiltins.
